(* ===== verification/_CoqProject ===== *)
-Q . S2P
Prelude.v
Strconv.v
Email.v
Database.v
Pool.v
Simulation.v
Money.v
Json.v
Sha256.v
Timestamp.v
Decode.v
Wire.v
JsonText.v
Web.v
Static.v
Health.v
Tracing.v
Metrics.v
Inventory.v
Locking.v
Isolation.v
InventoryHandler.v
Payment.v
PaymentDouble.v
PaymentHandler.v
Outbox.v
OutboxDouble.v
Worker.v
Kafka.v
KafkaDouble.v
Inbox.v
InboxDouble.v
Notification.v
Redis.v
RateLimit.v
ClientKey.v
Search.v
RemoteSearch.v
Catalog.v
CatalogStore.v
CatalogService.v
Seed.v
Storage.v
Configuration.v
CatalogHandler.v
Cache.v
Order.v
OrderHandler.v
OrderNotices.v
Cart.v
CartHandler.v
Pricing.v
Storefront.v
Saga.v
System.v
Routes.v
Server.v
