(* ===== verification/Prelude.v ===== *)
(** ShopFlow: a verification development of the whole shop.

    The program is a Go e-commerce backend: bounded contexts over one PostgreSQL
    database (catalogue, carts, inventory, orders, payments, the outbox and the inbox), a
    saga coordinator that drives an order through them, background workers (the outbox
    poller, the saga watchdog, the consumer of notifications), and the platform under
    them (Redis, Kafka, the search engine, blob storage, mail).  cmd/shopflow/main.go plugs
    the parts together.

    * Files

    Shared:
    - Prelude.v: machine integers, Go's string helpers, results, the effect monad
      [M], the rules that invert a run, and the three judgements used throughout
      ([triple], [preserves], [raises]) with the hint database [shopflow].
    - Strconv.v: numbers, booleans and separators in texts (strconv, strings).
    - Timestamp.v: RFC 3339 texts and base64, as a page cursor uses them.
    - Sha256.v: crypto/sha256 and encoding/hex, executable, for the request hash.
    - Json.v, Decode.v, JsonText.v, Wire.v: the JSON values the code stores, reading a text
      into a Go value, writing a value as a text (the two are inverse), and a stored payload
      as its consumer reads it.
    - Database.v: [ExecuteTx] of internal/platform/database/database.go.  Pool.v: the pool.

    The contexts of internal/domain, each with its tables as a [Record] under the
    constraints of the SQL migrations, one [Definition] per statement of repository.go and
    one per operation of service.go:
    - Money.v: monetary values.
    - Inventory.v: stock rows and reservations.  Locking.v: its transactions as trees of
      calls with their row locks.  Isolation.v: their statements interleaved.
    - Payment.v: captures, refunds, the saga adapter.
    - Outbox.v: recorder, leases, publishing, back-off, dead letters.
    - Inbox.v: idempotent consumption.
    - Catalog.v, CatalogStore.v, CatalogService.v: data, tables and pages, service.
    - Cart.v, Order.v: carts and orders under optimistic locks.
    - Saga.v: state machine, log, coordinator, watchdog.
    - Notification.v: the mails that follow the events of orders.

    The doubles that the tests put in the place of the outside (mock_repository.go,
    kafka/mock.go): Simulation.v (what it means to stand for a repository), OutboxDouble.v,
    PaymentDouble.v, InboxDouble.v, and KafkaDouble.v, a broker with its channels.

    The HTTP interface: Web.v (requests, responses, entity tags), Static.v (the files of the
    front end), CatalogHandler.v, CartHandler.v, InventoryHandler.v, OrderHandler.v and
    PaymentHandler.v, each a function from a request to a program that gives the response;
    Routes.v, the tables of routes and the tree of main.go.

    The platform: Kafka.v (messages, publisher and consuming loop), Worker.v (Start and Stop of the
    four goroutines), Redis.v, RateLimit.v, ClientKey.v (whose bucket a request is charged
    to), Cache.v, Search.v and RemoteSearch.v, Storage.v, Email.v, Configuration.v
    (the environment and the factories), Health.v, Tracing.v, Metrics.v.

    Compositions: Pricing.v (the three sums of money agree), Storefront.v (the catalogue as
    the carts and the orders read it), OrderNotices.v (from an order to a mail), Seed.v
    (cmd/shopflow/seed.go, over two contexts), System.v (the adapters of main.go and whole
    checkouts), Server.v (the start and the end of the process).

    A definition has the name of the source.  A name that clashes within a file carries a
    prefix ([repo_GetStock] and [GetStock]); the body of a function literal given to
    [ExecuteTx] carries the suffix [_tx].

    * How effects are modelled

    An operation is a program [M S E A]: it reads an [Env] and a tick, and gives the
    next tick, the next state, and a value or an error.  The [Env] answers
    [time.Now] and [NOW()], [uuid.New] and [gen_random_uuid], and says which calls
    to the driver fail; every use consumes a tick.  Nothing is assumed of the clock,
    of the identifiers or of the faults unless a theorem says so: most theorems hold
    for every environment, and those that need an absence of faults take [no_faults].
    A failed statement changes nothing, and a transaction whose body or commit fails
    leaves the tables as they were.  An operation is therefore a total function, and
    that it answers is part of its type.

    Fuel.  Loops are structural recursions over lists but for these.  Decode.v's parser has
    [parse_fuel], two for every character, and JsonText.v proves that it is enough for what
    the program writes.  [CatalogStore.follow] and [CatalogService.reindex_loop] have one
    round more than there are products, and ListProducts_complete and ReindexAll_complete
    prove that they end by then.  [ClientKey.groups] has the eight groups of an address.
    [Payment.advance_all] is given the three steps that finish a refund.

    Integers are [Z] with wrap-around written out ([add64], [mul64]) where the code
    has no check, and with the code's check where it has one; columns refuse a value
    outside their type.  Identifiers are numbers ([uuid]), the zero one being
    [uuid.Nil]; their text is a parameter ([UuidText]).

    Concurrency.  A transaction that takes its row locks, and a single statement,
    are one step; what happens between them may be interleaved.  Inventory's [step],
    Order's [order_tx], Saga's [saga_step], Cart's and the catalogue's histories, Payment's
    [refund_step] and the deliveries of Inbox.v are step relations, and the invariants hold of
    every sequence of steps, whoever takes them and whatever the environment of each.  For
    the inventory, whose transactions change many rows, taking them as one step is a theorem:
    Isolation.v interleaves their statements under row locks, with READ COMMITTED, and
    shows that what is committed is what serving the requests one at a time would have
    made; Locking.v shows that they never deadlock.  Worker.v interleaves the calls of
    Start and Stop with the goroutines they control.

    * Interfaces

    What one part promises another is a class, its laws another; clients are proved from the
    laws, implementations prove them.
    - [InventoryCommander], [OrderCommander], [PaymentCommander] with [SagaLaws]: the
      coordinator's collaborators.  Saga.v has an instance that records the commands;
      System.v has the real services.
    - [CatalogReader]: the catalogue as orders and carts read it; Storefront.v's
      [service_reader] is the service.
    - [Search.Client] with [ClientLaws]: in memory (Search.v), remote (RemoteSearch.v, over
      [HttpClient] with [ClusterLaws], [Selects], [UrlError]).
    - [BlobStorage] with [BlobLaws]: in memory and over [MinioClient] with [MinioLaws].
    - [Sender] with [SenderLaws]: in memory and over [SmtpClient].
    - [Router], [Pgxpool], [CounterVec] with [CounterLaws], [KgoClient] with [KgoLaws], and [Broker]: the metrics
      and Kafka clients.
    - Parameters of the outside world: [UuidText] and [UuidParse] with [UuidLaws],
      [Location], [TimeText], [JsonErrorText], [Jsonb], [RealIP], [FileSystem].

    * What the theorems show

    - Stock.  Reserving takes every line or none, and names every shortage; committing
      and releasing act exactly once, on a pending reservation, for exactly its lines.
      In every reachable state a SKU's reserved count is the sum of the pending
      reservations, and is between zero and the stock on hand; a burst of single-unit
      requests sells exactly what there is.  Concurrent transactions are serializable and
      free of deadlocks.
    - Payments.  A capture is recorded once per (user, key), and a retry replays it, over
      HTTP too; a payment has one refund at most, never of more than was captured, under any
      interleaving of refund requests.
    - Orders.  Placement either leaves no trace or leaves the order, its lines, its
      event and its completed key; a retry with the same key answers the same order
      and writes nothing.  Of two updates from one version one wins at most; a status
      only advances along the state machine.
    - Carts.  A change does exactly what it names, at the version it was given, or nothing;
      of two requests with one If-Match one wins at most; who sees one version twice sees one
      content.
    - Sagas.  Whatever is run, each saga's log is a path of the state machine from its
      creation to its state; a duplicated command loses the race.  Against any
      collaborators that honour [SagaLaws], an [ExecuteSaga] that reports success has
      settled the order: fulfilled, or with nothing reserved and nothing charged; one
      that reports an error leaves a record that agrees with the other contexts.  The
      watchdog leaves alone a saga whose time is not out.  For the real services the
      first case needs an order that something else moved on from PENDING, which
      nothing does ([System.checkout_never_confirms]).
    - Messages.  A poll loses no message: each is published, waits for a retry or is in
      the dead letters; a leased message is not handed to another poller; a message is
      handled successfully once per group at most; a confirmed or cancelled order mails its
      customer once that a delivery succeeds; a trace context goes through unbroken.
    - Catalogue.  Rows satisfy their constraints, versions stand for contents; following the
      cursors lists every product once and ends; an image has its blob; reindexing ends and
      is complete; a remote index is a map of documents; the cache answers only what was.
    - Edges.  The limiter admits no more than its bucket; the front-end handler serves
      nothing outside its directory; a mail's markup does not depend on what users wrote;
      workers run one loop at most, and a clean Stop leaves none; the server says that it is
      ready exactly when its dependencies answer.
    - Values.  Money and totals are exact or refused and agree with each other; JSON
      encodings, cursors and trace headers round-trip.
    - Doubles.  For requests that the tables take, with a clock that stands still, the three
      repositories in memory answer as those over PostgreSQL do ([sim_all] makes one request
      into any number); where they differ is stated too.  The broker in memory gives each
      channel at most what was published, whatever runs at once.
    - Defects.  Some theorems state what the code does where it does not do what it
      means to: [System.checkout_never_confirms], [System.committed_saga_stuck],
      [System.refunded_saga_stuck], [System.unrecorded_capture_kept],
      [Payment.refund_not_atomic], [Inventory.ReserveStock_quantity_wraps],
      [Order.expired_key_unusable], [Order.TransitionStatus_retry_duplicates],
      [RateLimit.poller_starves], [ClientKey.proxied_orders_share_limit],
      [Inbox.inflight_message_lost], [Inbox.malformed_not_recorded],
      [Worker.processor_stop], [CatalogStore.AddProductImage_not_atomic],
      [Search.Search_far_page_panics], [Cache.negative_hit_nil], [Cart.overflow_commits],
      [Storefront.untrimmed_sku_unsellable], [Configuration.media_address],
      [Seed.seed_never_resumed], [Tracing.stale_tracestate], [InboxDouble.keys_collide],
      [Server.listen_failure_succeeds].

    * Limits

    An ORDER BY over texts compares bytes, as the C collation does.  [http.DetectContentType],
    [strings.ToUpper] and [strings.EqualFold] are exact for ASCII.  A float out of range
    becomes an integer as on amd64.  [time.ParseDuration] is a parameter.  The order in
    which Go visits a map is a parameter where it can be seen.

    * What is not modelled

    The Kafka, Redis, S3, SMTP, OpenSearch and Prometheus clients themselves, the router, the
    connections of the pool, the logging, and the migration command (flags and one call of a
    library).  Branches of the services that exist for a mocked repository (no transaction
    starter, no pool) are not modelled, nor the cancellation of a context other than as a
    fault of the driver or where Worker.v, Outbox.v and KafkaDouble.v name it.

    * This file

    A run of a handler reads its outside world from an [Env]: the clock
    ([time.Now] and PostgreSQL's [NOW()]), the identifiers handed out by
    [uuid.New] and [gen_random_uuid], and the failures of the driver.  Each use
    of the outside world consumes one tick, so that nothing is assumed about how
    two readings relate. *)

From Stdlib Require Export ZArith String Ascii List Lia.
From stdpp Require Export base gmap strings list fin_maps sorting pretty.

#[global] Open Scope string_scope.
#[global] Open Scope list_scope.
#[global] Open Scope Z_scope.

Declare Scope go_scope.
Delimit Scope go_scope with go.

(** * Machine integers *)

(** [math.MaxInt64], [math.MinInt64] and PostgreSQL's INT range. *)
Definition MaxInt64 : Z := 9223372036854775807.
Definition MinInt64 : Z := -9223372036854775808.
Definition MaxInt32 : Z := 2147483647.
Definition MinInt32 : Z := -2147483648.

(** Two's complement wrap-around of a 64-bit signed integer (Go's [int64], and
    [int] on the 64-bit platforms the service is built for). *)
Definition wrap64 (z : Z) : Z := (z - MinInt64) mod (2 ^ 64) + MinInt64.

Definition add64 (a b : Z) : Z := wrap64 (a + b).
Definition sub64 (a b : Z) : Z := wrap64 (a - b).
Definition mul64 (a b : Z) : Z := wrap64 (a * b).

Definition in64 (z : Z) : Prop := MinInt64 <= z <= MaxInt64.

(** A value that fits a column of type INT. *)
Definition int4_ok (z : Z) : bool := (MinInt32 <=? z) && (z <=? MaxInt32).
(** A value that fits a column of type BIGINT. *)
Definition int8_ok (z : Z) : bool := (MinInt64 <=? z) && (z <=? MaxInt64).

Lemma wrap64_id z : in64 z → wrap64 z = z.
Proof.
  unfold in64, wrap64, MinInt64, MaxInt64. intros H.
  rewrite Z.mod_small; lia.
Qed.

Lemma wrap64_in64 z : in64 (wrap64 z).
Proof.
  unfold in64, wrap64, MinInt64, MaxInt64.
  pose proof (Z.mod_pos_bound (z - -9223372036854775808) (2 ^ 64)). lia.
Qed.

Lemma add64_id a b : in64 (a + b) → add64 a b = a + b.
Proof. apply wrap64_id. Qed.
Lemma sub64_id a b : in64 (a - b) → sub64 a b = a - b.
Proof. apply wrap64_id. Qed.
Lemma mul64_id a b : in64 (a * b) → mul64 a b = a * b.
Proof. apply wrap64_id. Qed.

(** Go's guard [a > math.MaxInt64 / q] is exact for a positive divisor. *)
Lemma mul_guard_exact a q :
  0 < q → a <= Z.quot MaxInt64 q ↔ a * q <= MaxInt64.
Proof.
  intros Hq. rewrite Z.quot_div_nonneg by (unfold MaxInt64; lia).
  split; intros H.
  - pose proof (Z.mul_div_le MaxInt64 q Hq). nia.
  - apply Z.div_le_lower_bound; lia.
Qed.

(** * Sums *)

Definition sumZ {A} (f : A → Z) (l : list A) : Z := foldr (λ x acc, f x + acc) 0 l.

Section sums.
Context {A : Type}.
Implicit Types (f g : A → Z) (l : list A).

Lemma sumZ_app f l1 l2 : sumZ f (l1 ++ l2) = sumZ f l1 + sumZ f l2.
Proof. induction l1 as [|x l1 IH]; simpl; [done | rewrite IH; lia]. Qed.

Lemma sumZ_ext_in f g l : (∀ x, x ∈ l → f x = g x) → sumZ f l = sumZ g l.
Proof.
  induction l as [|x l IH]; intros H; simpl; [done|].
  rewrite H by set_solver. rewrite IH; [done|]. intros y Hy. apply H. set_solver.
Qed.

Lemma sumZ_zero f l : (∀ x, x ∈ l → f x = 0) → sumZ f l = 0.
Proof.
  induction l as [|x l IH]; intros H; simpl; [done|].
  rewrite H by set_solver. rewrite IH; [done|]. intros y Hy. apply H. set_solver.
Qed.

Lemma sumZ_nonneg f l : (∀ x, x ∈ l → 0 <= f x) → 0 <= sumZ f l.
Proof.
  induction l as [|x l IH]; intros H; simpl; [done|].
  assert (0 <= f x) by (apply H; set_solver).
  assert (0 <= sumZ f l) by (apply IH; intros y Hy; apply H; set_solver). lia.
Qed.

Lemma sumZ_add f g l : sumZ (λ x, f x + g x) l = sumZ f l + sumZ g l.
Proof. induction l as [|x l IH]; simpl; [done | rewrite IH; lia]. Qed.

Lemma sumZ_opp f l : sumZ (λ x, - f x) l = - sumZ f l.
Proof. induction l as [|x l IH]; simpl; [done | rewrite IH; lia]. Qed.

Lemma sumZ_le f g l : (∀ x, x ∈ l → f x <= g x) → sumZ f l <= sumZ g l.
Proof.
  induction l as [|x l IH]; intros H; simpl; [done|].
  assert (f x <= g x) by (apply H; set_solver).
  assert (sumZ f l <= sumZ g l) by (apply IH; intros y Hy; apply H; set_solver). lia.
Qed.

Lemma sumZ_elem_le f l x : (∀ y, y ∈ l → 0 <= f y) → x ∈ l → f x <= sumZ f l.
Proof.
  intros Hnn Hx. induction Hx as [x l|x y l Hx IH]; simpl.
  - assert (0 <= sumZ f l); [|lia]. apply sumZ_nonneg. intros z Hz. apply Hnn. set_solver.
  - assert (0 <= f y) by (apply Hnn; set_solver).
    assert (f x <= sumZ f l) by (apply IH; intros z Hz; apply Hnn; set_solver). lia.
Qed.

#[export] Instance sumZ_Permutation f : Proper ((≡ₚ) ==> eq) (sumZ f).
Proof. intros l1 l2 H. induction H; simpl; lia. Qed.

Lemma sumZ_filter f (P : A → Prop) `{!∀ x, Decision (P x)} l :
  sumZ f (filter P l) = sumZ (λ x, if decide (P x) then f x else 0) l.
Proof.
  induction l as [|x l IH]; simpl; [done|].
  rewrite filter_cons. case_decide; simpl; lia.
Qed.

Lemma sumZ_map {B} (h : B → A) f (l : list B) : sumZ f (map h l) = sumZ (λ x, f (h x)) l.
Proof. induction l as [|x l IH]; simpl; [done | by rewrite IH]. Qed.
End sums.

Lemma sumZ_insert {A} (f : A → Z) (l : list A) i x y :
  l !! i = Some x → sumZ f (<[i := y]> l) = sumZ f l - f x + f y.
Proof.
  revert i. induction l as [|z l IH]; intros [|i] H; simpl in *; simplify_eq; [lia|].
  rewrite IH by done. lia.
Qed.

Lemma sumZ_single {A} `{EqDecision A} (f : A → Z) (l : list A) (y : A) :
  NoDup l → sumZ (λ x, if decide (x = y) then f x else 0) l = if decide (y ∈ l) then f y else 0.
Proof.
  induction 1 as [|x l Hx Hnd IH]; simpl; [done|]. rewrite IH. clear IH.
  destruct (decide (x = y)) as [->|Hne].
  - rewrite (decide_False (P := y ∈ l)), decide_True by set_solver. lia.
  - rewrite Z.add_0_l. apply decide_ext. set_solver.
Qed.

Lemma omap_pair_nodup {A B} (f : A → option B) (l : list A) :
  NoDup l → NoDup (omap (λ x, (x,.) <$> f x) l).*1.
Proof.
  intros Hl. eapply sublist_NoDup; [exact Hl|]. clear Hl.
  induction l as [|x l IH]; [apply sublist_nil|]. csimpl.
  destruct (f x); csimpl; [by apply sublist_skip|by apply sublist_cons].
Qed.

Lemma filter_none {A} (P : A → Prop) `{!∀ x, Decision (P x)} (l : list A) :
  (∀ x, x ∈ l → ¬ P x) → filter P l = [].
Proof.
  induction l as [|x l IH]; intros Hn; [done|].
  rewrite filter_cons, decide_False by (apply Hn; set_solver).
  apply IH. intros y Hy. apply Hn. set_solver.
Qed.

(** * Strings *)

(** White space of [unicode.IsSpace], by the bytes of its UTF-8 encoding: one
    byte for the ASCII ones, two for U+0085 and U+00A0, three for U+1680,
    U+2000 to U+200A, U+2028, U+2029, U+202F, U+205F and U+3000. *)
Definition space1 (a : ascii) : bool :=
  let n := nat_of_ascii a in ((9 <=? n) && (n <=? 13) || (n =? 32))%nat.

Definition space2 (a b : ascii) : bool :=
  let n := nat_of_ascii b in
  ((nat_of_ascii a =? 194) && ((n =? 133) || (n =? 160)))%nat.

Definition space3 (a b c : ascii) : bool :=
  let x := nat_of_ascii a in
  let y := nat_of_ascii b in
  let z := nat_of_ascii c in
  (((x =? 225) && (y =? 154) && (z =? 128))
   || ((x =? 226) && (y =? 128) &&
        (((128 <=? z) && (z <=? 138)) || (z =? 168) || (z =? 169) || (z =? 175)))
   || ((x =? 226) && (y =? 129) && (z =? 159))
   || ((x =? 227) && (y =? 128) && (z =? 128)))%nat.

(** Drop the leading runs of white space; [s2] and [s3] say which pairs and
    triples of bytes are one white space character. *)
Fixpoint trim_front (s2 : ascii → ascii → bool) (s3 : ascii → ascii → ascii → bool)
    (s : string) : string :=
  match s with
  | EmptyString => EmptyString
  | String a r1 =>
      if space1 a then trim_front s2 s3 r1 else
      match r1 with
      | EmptyString => s
      | String b r2 =>
          if s2 a b then trim_front s2 s3 r2 else
          match r2 with
          | EmptyString => s
          | String c r3 => if s3 a b c then trim_front s2 s3 r3 else s
          end
      end
  end.

(** [strings.TrimSpace] *)
Definition TrimSpace (s : string) : string :=
  let l := trim_front space2 space3 s in
  String.rev (trim_front (λ a b, space2 b a) (λ a b c, space3 c b a) (String.rev l)).

(** [strings.ToLower], exact for comparisons with ASCII strings: the ASCII capitals,
    and the two other characters whose lower case is an ASCII letter, U+212A
    (E2 84 AA, to k) and U+0130 (C4 B0, to i). *)
Definition lower (a : ascii) : ascii :=
  let n := nat_of_ascii a in
  if ((65 <=? n) && (n <=? 90))%nat then ascii_of_nat (n + 32) else a.

Fixpoint ToLower (s : string) : string :=
  match s with
  | String "226" (String "132" (String "170" r)) => String "k" (ToLower r)
  | String "196" (String "176" r) => String "i" (ToLower r)
  | String a r => String (lower a) (ToLower r)
  | EmptyString => EmptyString
  end.

(** [sort.Strings] and [sort.StringsAreSorted]: byte-wise lexicographic order. *)
Definition sort_strings (l : list string) : list string := merge_sort String.le l.

Fixpoint strings_sorted (l : list string) : bool :=
  match l with
  | x :: (y :: _) as r => String.leb x y && strings_sorted r
  | _ => true
  end.

Lemma sort_strings_perm l : sort_strings l ≡ₚ l.
Proof. apply merge_sort_Permutation. Qed.

Lemma sort_strings_sorted l : Sorted String.le (sort_strings l).
Proof. apply Sorted_merge_sort, _. Qed.

Lemma strings_sorted_spec l : strings_sorted l = true ↔ Sorted String.le l.
Proof.
  induction l as [|x l IH]; [split; [constructor | done] |].
  destruct l as [|y l].
  - split; [intros _; repeat constructor | done].
  - change (strings_sorted (x :: y :: l))
      with (String.leb x y && strings_sorted (y :: l)).
    rewrite andb_true_iff, IH. split.
    + intros [H1 H2]. constructor; [done|]. constructor. unfold String.le. by rewrite H1.
    + intros H. inversion_clear H as [|? ? Hs Hd]. inversion_clear Hd as [|? ? Hle].
      split; [|done]. unfold String.le in Hle. by destruct (String.leb x y).
Qed.

Lemma sort_strings_elem x l : x ∈ sort_strings l ↔ x ∈ l.
Proof. by rewrite (sort_strings_perm l). Qed.

Lemma sort_strings_nodup l : NoDup l → NoDup (sort_strings l).
Proof. by rewrite (sort_strings_perm l). Qed.

(** [fmt.Sprintf("%d", z)] and [fmt.Sprintf("%02d", z)]. *)
Definition fmt_d (z : Z) : string := pretty z.
Definition fmt_02d (z : Z) : string :=
  let s := pretty z in
  if (String.length s <? 2)%nat then ("0" ++ s)%string else s.

(** ** Concatenation *)

Lemma append_assoc (a b c : string) : ((a ++ b) ++ c = a ++ (b ++ c))%string.
Proof. induction a as [|x a IH]; [done|]. exact (f_equal (String x) IH). Qed.

Lemma length_append (s t : string) : String.length (s ++ t) = (String.length s + String.length t)%nat.
Proof. induction s as [|a s IH]; [done|]. change (String a s ++ t)%string with (String a (s ++ t)). cbn. by rewrite IH. Qed.

Lemma append_nil_r (a : string) : (a ++ "")%string = a.
Proof. induction a as [|c a IH]; [done|]. exact (f_equal (String c) IH). Qed.

(** A literal of several lines, where a backquote stands for a double quote. *)
Fixpoint ticks (s : string) : string :=
  match s with
  | String a r => String (if ascii_dec a "`" then "034"%char else a) (ticks r)
  | EmptyString => EmptyString
  end.

(** [strings.Join] *)
Fixpoint strings_join (l : list string) (sep : string) : string :=
  match l with
  | [] => ""
  | [x] => x
  | x :: r => (x ++ sep ++ strings_join r sep)%string
  end.

(** The number of characters of a UTF-8 string: its bytes other than the
    continuation bytes 10xxxxxx.  A column of type VARCHAR(n) holds at most [n]. *)
Fixpoint char_count (s : string) : nat :=
  match s with
  | EmptyString => O
  | String a r =>
      let n := nat_of_ascii a in
      if ((128 <=? n) && (n <? 192))%nat then char_count r else S (char_count r)
  end.

Lemma char_count_le s : (char_count s <= String.length s)%nat.
Proof. induction s as [|a s IH]; simpl; [lia|]. destruct (_ && _); lia. Qed.

Definition varchar_ok (n : nat) (s : string) : bool := (char_count s <=? n)%nat.

(** [a * time.Second] for a count of seconds. *)
Definition Second : Z := 1000000000.
Definition seconds (n : Z) : Z := mul64 n Second.

(** * Identifiers *)

(** A UUID is its 128 bits; [uuid.Nil] is zero. *)
Notation uuid := N (only parsing).
Definition uuid_Nil : uuid := 0%N.

(** [uuid.UUID.String], of the package google/uuid. *)
Class UuidText := uuid_String : uuid → string.

(** [uuid.Parse], and what the package says of it and of the text. *)
Class UuidParse := uuid_Parse : string → option uuid.

Fixpoint no_comma (s : string) : bool :=
  match s with
  | EmptyString => true
  | String a r => negb (bool_decide (a = ","%char)) && no_comma r
  end.

Class UuidLaws `{UuidText, UuidParse} := {
  uuid_Parse_String : ∀ u, uuid_Parse (uuid_String u) = Some u;
  uuid_no_comma : ∀ u, no_comma (uuid_String u) = true;
}.

(** A stand-in for the examples. *)
Definition ex_uuid_text : UuidText := λ u, ("uuid-" ++ pretty u)%string.

(** [time.Time.IsZero]: the zero time is the first instant of year 1. *)
Definition time_Zero : Z := -62135596800000000000.

(** * Results and effects *)

Inductive result (E A : Type) : Type :=
| Ok (a : A)
| Err (e : E).
Arguments Ok {E A} a.
Arguments Err {E A} e.

#[export] Instance result_eq_dec E A `{EqDecision E, EqDecision A} :
  EqDecision (result E A).
Proof. solve_decision. Defined.

(** What the error values of a package offer to the shared plumbing: the text of
    [Error()], and the error that carries a failure of the database driver. *)
Class GoError (E : Type) := {
  error_text : E → string;
  driver_error : string → E;
  driver_error_text : ∀ m, error_text (driver_error m) = m;
}.

Record Env := MkEnv {
  env_now : nat → Z;               (** the clock, in nanoseconds since the epoch *)
  env_uuid : nat → uuid;           (** the next identifier *)
  env_fault : nat → option string; (** the failure of this use of the driver *)
}.

Definition M (S E A : Type) : Type := Env → nat → S → nat * S * result E A.

Section monad.
Context {S E : Type}.

Definition ret {A} (a : A) : M S E A := λ _ n s, (n, s, Ok a).
Definition fail {A} (e : E) : M S E A := λ _ n s, (n, s, Err e).

Definition bind {A B} (m : M S E A) (k : A → M S E B) : M S E B := λ env n s,
  match m env n s with
  | (n1, s1, Ok a) => k a env n1 s1
  | (n1, s1, Err e) => (n1, s1, Err e)
  end.

(** The value of a call together with its error, for the callers that look at
    the error instead of returning it. *)
Definition try {A} (m : M S E A) : M S E (result E A) := λ env n s,
  match m env n s with (n1, s1, r) => (n1, s1, Ok r) end.

Definition lift_result {A} (r : result E A) : M S E A := λ _ n s, (n, s, r).

(** [time.Now()] *)
Definition time_now : M S E Z := λ env n s, (Datatypes.S n, s, Ok (env_now env n)).
(** [uuid.New()] *)
Definition uuid_New : M S E uuid := λ env n s, (Datatypes.S n, s, Ok (env_uuid env n)).

(** One statement sent to the database.  [f] receives the value of [NOW()] and
    the tables; a failure of the driver is wrapped with [what], the text the
    repository puts in front of it. *)
Definition sql {A} `{!GoError E} (what : string) (f : Z → S → result E (S * A)) :
    M S E A := λ env n s,
  match env_fault env n with
  | Some msg => (Datatypes.S n, s, Err (driver_error (what ++ msg)%string))
  | None =>
      match f (env_now env n) s with
      | Ok (s1, a) => (Datatypes.S n, s1, Ok a)
      | Err e => (Datatypes.S n, s, Err e)
      end
  end.

(** [for _, x := range l { if err := f(x); err != nil { return err } }] *)
Fixpoint for_each {X} (f : X → M S E unit) (l : list X) : M S E unit :=
  match l with
  | [] => ret tt
  | x :: r => bind (f x) (λ _, for_each f r)
  end.
End monad.

Notation "'let*' x ':=' m 'in' k" := (bind m (λ x, k))
  (at level 10, x pattern, m at level 100, k at level 200,
   format "'[v' 'let*'  x  ':='  m  'in' '//' k ']'") : go_scope.
Notation "m ;;; k" := (bind m (λ _, k))
  (at level 199, right associativity, format "'[v' m  ;;; '//' k ']'") : go_scope.

(** Run a handler of one component inside the state of a larger one. *)
Definition zoom {G S E A} (get : G → S) (set : S → G → G) (m : M S E A) : M G E A :=
  λ env n g,
    match m env n (get g) with (n1, s1, r) => (n1, set s1 g, r) end.

(** Change the error type, for the callers that wrap an error. *)
Definition map_err {S E F A} (h : E → F) (m : M S E A) : M S F A := λ env n s,
  match m env n s with
  | (n1, s1, Ok a) => (n1, s1, Ok a)
  | (n1, s1, Err e) => (n1, s1, Err (h e))
  end.

(** An environment whose driver never fails. *)
Definition no_faults (env : Env) : Prop := ∀ n, env_fault env n = None.

(** The environment of the examples: clock [t] throughout, fresh identifiers
    counted from [u], no failure. *)
Definition calm_env (t : Z) (u : uuid) : Env :=
  {| env_now := λ _, t; env_uuid := λ n, (u + N.of_nat n)%N; env_fault := λ _, None |}.

(** The same, with one failure of the driver at tick [k]. *)
Definition faulty_env (t : Z) (u : uuid) (k : nat) (msg : string) : Env :=
  {| env_now := λ _, t; env_uuid := λ n, (u + N.of_nat n)%N;
     env_fault := λ n, if (n =? k)%nat then Some msg else None |}.

(** Some use of the driver fails in this environment. *)
Definition faulted (env : Env) : Prop := ∃ n msg, env_fault env n = Some msg.

Lemma no_faults_faulted env : no_faults env → ¬ faulted env.
Proof. intros H (n & msg & Hn). by rewrite H in Hn. Qed.

Lemma calm_env_no_faults t u : no_faults (calm_env t u).
Proof. done. Qed.

(** The tables and the result of a run. *)
Definition final {S R} (x : nat * S * R) : S := x.1.2.
Definition outcome {S R} (x : nat * S * R) : R := x.2.

Lemma run_eta {S R} (x : nat * S * R) : x = (x.1.1, final x, outcome x).
Proof. by destruct x as [[n s] r]. Qed.

(** ** Inversion of a run *)

Section inversion.
Context {S E : Type}.

Lemma bind_ok_inv {A B} (m : M S E A) (k : A → M S E B) env n s n' s' b :
  bind m k env n s = (n', s', Ok b) →
  ∃ n1 s1 a, m env n s = (n1, s1, Ok a) ∧ k a env n1 s1 = (n', s', Ok b).
Proof. unfold bind. destruct (m env n s) as [[n1 s1] [a|e]]; [by eauto 6 | done]. Qed.

Lemma bind_err_inv {A B} (m : M S E A) (k : A → M S E B) env n s n' s' e :
  bind m k env n s = (n', s', Err e) →
  m env n s = (n', s', Err e) ∨
  ∃ n1 s1 a, m env n s = (n1, s1, Ok a) ∧ k a env n1 s1 = (n', s', Err e).
Proof.
  unfold bind. destruct (m env n s) as [[n1 s1] [a|e']]; [right; by eauto 6 |].
  intros H. left. by simplify_eq.
Qed.

Lemma bind_inv {A B} (m : M S E A) (k : A → M S E B) env n s n' s' r :
  bind m k env n s = (n', s', r) →
  (∃ e, m env n s = (n', s', Err e) ∧ r = Err e) ∨
  ∃ n1 s1 a, m env n s = (n1, s1, Ok a) ∧ k a env n1 s1 = (n', s', r).
Proof.
  unfold bind. destruct (m env n s) as [[n1 s1] [a|e']]; [right; by eauto 6 |].
  intros H. simplify_eq. by eauto.
Qed.

Lemma bind_ok {A B} (m : M S E A) (k : A → M S E B) env n s n1 s1 a :
  m env n s = (n1, s1, Ok a) → bind m k env n s = k a env n1 s1.
Proof. unfold bind. by intros ->. Qed.

Lemma bind_err {A B} (m : M S E A) (k : A → M S E B) env n s n1 s1 e :
  m env n s = (n1, s1, Err e) → bind m k env n s = (n1, s1, Err e).
Proof. unfold bind. by intros ->. Qed.

Lemma sql_ok_inv {A} `{!GoError E} what (f : Z → S → result E (S * A)) env n s n' s' a :
  sql what f env n s = (n', s', Ok a) →
  env_fault env n = None ∧ f (env_now env n) s = Ok (s', a) ∧ n' = Datatypes.S n.
Proof.
  unfold sql. destruct (env_fault env n); [done|].
  destruct (f (env_now env n) s) as [[s1 a1]|]; [|done]. by intros [= <- <- <-].
Qed.

Lemma sql_err_inv {A} `{!GoError E} what (f : Z → S → result E (S * A)) env n s n' s' e :
  sql what f env n s = (n', s', Err e) → s' = s.
Proof.
  unfold sql. destruct (env_fault env n); [by intros [= ]|].
  destruct (f (env_now env n) s) as [[s1 a1]|]; [done|]. by intros [= ].
Qed.

Lemma sql_run {A} `{!GoError E} what (f : Z → S → result E (S * A)) env n s :
  env_fault env n = None →
  sql what f env n s =
    match f (env_now env n) s with
    | Ok (s1, a) => (Datatypes.S n, s1, Ok a)
    | Err e => (Datatypes.S n, s, Err e)
    end.
Proof. unfold sql. by intros ->. Qed.

(** An invariant of the tables kept by every step of a loop. *)
Lemma for_each_inv {X} (f : X → M S E unit) (I : S → Prop) l env n s n' s' r :
  (∀ x env n s n' s' r, x ∈ l → f x env n s = (n', s', r) → I s → I s') →
  for_each f l env n s = (n', s', r) → I s → I s'.
Proof.
  intros Hf. revert n s. induction l as [|x l IH]; intros n s; simpl.
  - unfold ret. by intros [= <- <- <-].
  - intros [(e & H & ->)|(n1 & s1 & [] & H1 & H2)]%bind_inv Hs.
    + eapply Hf; [|done|done]. set_solver.
    + eapply IH; [|done|]. { intros; eapply Hf; [|done|done]. set_solver. }
      eapply Hf; [|done|done]. set_solver.
Qed.

Lemma for_each_app {X} (f : X → M S E unit) l1 l2 env n s :
  for_each f (l1 ++ l2) env n s = bind (for_each f l1) (λ _, for_each f l2) env n s.
Proof.
  revert n s. induction l1 as [|x l1 IH]; intros n s; [done|].
  cbn [app for_each]. unfold bind at 1 3.
  unfold bind in IH |- *. destruct (f x env n s) as [[n1 s1] [[]|e]]; [|done].
  apply IH.
Qed.
End inversion.

(** Decompose a successful run: every [bind] gives the run of its parts, [ret],
    [time_now], [uuid_New] and [lift_result] are evaluated. *)
Ltac run_step :=
  match goal with
  | H : bind _ _ _ _ _ = (_, _, Ok _) |- _ =>
      apply bind_ok_inv in H; destruct H as (? & ? & ? & ? & ?)
  | H : ret _ _ _ _ = (_, _, _) |- _ => unfold ret in H; simplify_eq
  | H : fail _ _ _ _ = (_, _, _) |- _ => unfold fail in H; simplify_eq
  | H : lift_result _ _ _ _ = (_, _, _) |- _ => unfold lift_result in H; simplify_eq
  | H : time_now _ _ _ = (_, _, _) |- _ => unfold time_now in H; simplify_eq
  | H : uuid_New _ _ _ = (_, _, _) |- _ => unfold uuid_New in H; simplify_eq
  | H : sql _ _ _ _ _ = (_, _, Ok _) |- _ =>
      apply sql_ok_inv in H; destruct H as (? & ? & ?)
  end.

Ltac run_inv := repeat (run_step; simpl in *; simplify_eq).

(** Split every [if] and [match] a hypothesis is stuck on. *)
Ltac split_match H :=
  repeat (match type of H with
          | context [match ?x with _ => _ end] => destruct x eqn:?; simpl in H; try discriminate H
          end).

(** ** Triples

    [triple env P m Q R]: from a state of [P], a run of [m] in [env] ends in [Q]
    when it returns a value and in [R] when it returns an error.  A run always
    ends, since [M] is a type of total functions. *)
Definition triple {S E A} (env : Env) (P : S → Prop) (m : M S E A)
    (Q : A → S → Prop) (R : E → S → Prop) : Prop :=
  ∀ n s n' s' r, P s → m env n s = (n', s', r) →
    match r with Ok a => Q a s' | Err e => R e s' end.

(** [m] keeps [I] whatever it returns. *)
Definition preserves {S E A} (I : S → Prop) (m : M S E A) : Prop :=
  ∀ env, triple env I m (λ _, I) (λ _, I).

Section triples.
Context {S E : Type} (env : Env).
Implicit Types (P I : S → Prop) (R : E → S → Prop).

Lemma triple_run {A} P (m : M S E A) Q R n s n' s' r :
  triple env P m Q R → P s → m env n s = (n', s', r) →
  match r with Ok a => Q a s' | Err e => R e s' end.
Proof. intros H. apply H. Qed.

Lemma triple_conseq {A} P P' (m : M S E A) Q Q' R R' :
  triple env P' m Q' R' → (∀ s, P s → P' s) →
  (∀ a s, Q' a s → Q a s) → (∀ e s, R' e s → R e s) → triple env P m Q R.
Proof.
  intros H HP HQ HR n s n' s' r Hs Hrun.
  specialize (H n s n' s' r (HP s Hs) Hrun). destruct r; auto.
Qed.

Lemma triple_pre {A} P P' (m : M S E A) Q R :
  triple env P' m Q R → (∀ s, P s → P' s) → triple env P m Q R.
Proof. intros H HP. eapply triple_conseq; eauto. Qed.

(** Name the state a run starts from. *)
Lemma triple_at {A} P (m : M S E A) Q R :
  (∀ s, P s → triple env (λ s', s' = s) m Q R) → triple env P m Q R.
Proof. intros H n s n' s' r Hs Hrun. by apply (H s Hs n s n' s' r). Qed.

Lemma triple_ret {A} (a : A) (Q : A → S → Prop) R : triple env (Q a) (ret a) Q R.
Proof. intros n s n' s' r Hs. unfold ret. by intros [= <- <- <-]. Qed.

Lemma triple_fail {A} (e : E) (Q : A → S → Prop) R : triple env (R e) (fail e) Q R.
Proof. intros n s n' s' r Hs. unfold fail. by intros [= <- <- <-]. Qed.

Lemma triple_bind {A B} P (m : M S E A) (k : A → M S E B) Q Q1 R :
  triple env P m Q1 R → (∀ a, triple env (Q1 a) (k a) Q R) →
  triple env P (bind m k) Q R.
Proof.
  intros Hm Hk n s n' s' r Hs [(e & H & ->)|(n1 & s1 & a & H1 & H2)]%bind_inv.
  - by apply (Hm _ _ _ _ _ Hs H).
  - apply (Hk a _ _ _ _ _ (Hm _ _ _ _ _ Hs H1) H2).
Qed.

Lemma triple_try {A} P (m : M S E A) Q Q1 R R1 :
  triple env P m Q1 R1 →
  (∀ a s, Q1 a s → Q (Ok a) s) → (∀ e s, R1 e s → Q (Err e) s) →
  triple env P (try m) Q R.
Proof.
  intros Hm HQ HR n s n' s' r Hs. unfold try.
  destruct (m env n s) as [[n1 s1] r1] eqn:H. intros [= <- <- <-].
  specialize (Hm _ _ _ _ _ Hs H). destruct r1; auto.
Qed.

Lemma triple_lift {A} P (r : result E A) Q R :
  (∀ s, P s → match r with Ok a => Q a s | Err e => R e s end) →
  triple env P (lift_result r) Q R.
Proof. intros H n s n' s' r' Hs. unfold lift_result. intros [= <- <- <-]. by apply H. Qed.

Lemma triple_time P (Q : Z → S → Prop) R :
  (∀ n s, P s → Q (env_now env n) s) → triple env P time_now Q R.
Proof. intros H n s n' s' r Hs. unfold time_now. intros [= <- <- <-]. by apply H. Qed.

Lemma triple_uuid P (Q : uuid → S → Prop) R :
  (∀ n s, P s → Q (env_uuid env n) s) → triple env P uuid_New Q R.
Proof. intros H n s n' s' r Hs. unfold uuid_New. intros [= <- <- <-]. by apply H. Qed.

Lemma triple_sql {A} `{!GoError E} P what (f : Z → S → result E (S * A)) Q R :
  (∀ n s, P s → env_fault env n = None →
     match f (env_now env n) s with Ok (s', a) => Q a s' | Err e => R e s end) →
  (∀ n msg s, P s → env_fault env n = Some msg → R (driver_error (what ++ msg)%string) s) →
  triple env P (sql what f) Q R.
Proof.
  intros Hf Hd n s n' s' r Hs. unfold sql. destruct (env_fault env n) eqn:Hn.
  - intros [= <- <- <-]. eauto.
  - specialize (Hf n s Hs Hn). destruct (f (env_now env n) s) as [[s1 a]|e];
      by intros [= <- <- <-].
Qed.

Lemma triple_for_each {X} (f : X → M S E unit) (I : list X → S → Prop) R l :
  (∀ l1 x l2, l = l1 ++ x :: l2 → triple env (I l1) (f x) (λ _, I (l1 ++ [x])) R) →
  triple env (I []) (for_each f l) (λ _, I l) R.
Proof.
  intros Hf. cut (∀ l2 l1, l = l1 ++ l2 → triple env (I l1) (for_each f l2) (λ _, I l) R).
  { intros H. by apply (H l []). }
  induction l2 as [|x l2 IH]; intros l1 Hl; simpl.
  - rewrite app_nil_r in Hl. subst l1. apply (triple_ret tt (λ _, I l)).
  - eapply triple_bind; [by apply (Hf l1 x l2)|]. intros []. apply IH.
    by rewrite <-app_assoc.
Qed.
End triples.

Lemma triple_map_err {S E F A} env (h : E → F) P (m : M S E A) Q (R : F → S → Prop) :
  triple env P m Q (λ e, R (h e)) → triple env P (map_err h m) Q R.
Proof.
  intros Hm n s n' s' r Hs. unfold map_err. destruct (m env n s) as [[n1 s1] r1] eqn:H.
  specialize (Hm _ _ _ _ _ Hs H). destruct r1; by intros [= <- <- <-].
Qed.

Lemma triple_zoom {G S E A} env (get : G → S) (set : S → G → G) (m : M S E A)
    (P : S → Prop) (Q : A → S → Prop) (R : E → S → Prop) g :
  (∀ s, get (set s g) = s) → P (get g) → triple env P m Q R →
  triple env (λ g', g' = g) (zoom get set m)
    (λ a g', ∃ s, g' = set s g ∧ Q a s) (λ e g', ∃ s, g' = set s g ∧ R e s).
Proof.
  intros Hgs Hp Hm n g0 n' g' r ->. unfold zoom.
  destruct (m env n (get g)) as [[n1 s1] r1] eqn:H. specialize (Hm _ _ _ _ _ Hp H).
  intros [= <- <- <-]. destruct r1; by eauto.
Qed.

Section preserving.
Context {S E : Type} (I : S → Prop).

Lemma preserves_run {A} (m : M S E A) env n s n' s' r :
  preserves I m → m env n s = (n', s', r) → I s → I s'.
Proof. intros H Hrun Hs. pose proof (H env n s n' s' r Hs Hrun). by destruct r. Qed.

Lemma preserves_ret {A} (a : A) : preserves (E:=E) I (ret a).
Proof. intros env. apply (triple_ret env a (λ _, I)). Qed.

Lemma preserves_fail {A} (e : E) : preserves I (fail (A:=A) e).
Proof. intros env. apply (triple_fail env e (λ _, I) (λ _, I)). Qed.

Lemma preserves_lift {A} (r : result E A) : preserves I (lift_result r).
Proof. intros env. apply triple_lift. by destruct r. Qed.

Lemma preserves_bind {A B} (m : M S E A) (k : A → M S E B) :
  preserves I m → (∀ a, preserves I (k a)) → preserves I (bind m k).
Proof. intros Hm Hk env. eapply triple_bind; [apply Hm|]. intros a. apply Hk. Qed.

Lemma preserves_try {A} (m : M S E A) : preserves I m → preserves I (try m).
Proof. intros Hm env. eapply triple_try; [apply Hm|done..]. Qed.

Lemma preserves_time : preserves (E:=E) I time_now.
Proof. intros env. by apply triple_time. Qed.

Lemma preserves_uuid : preserves (E:=E) I uuid_New.
Proof. intros env. by apply triple_uuid. Qed.

Lemma preserves_sql {A} `{!GoError E} what (f : Z → S → result E (S * A)) :
  (∀ now s s' a, I s → f now s = Ok (s', a) → I s') → preserves I (sql what f).
Proof.
  intros Hf env. apply triple_sql; [|done]. intros n s Hs _.
  destruct (f (env_now env n) s) as [[s' a]|e] eqn:H; [by eapply Hf|done].
Qed.

Lemma preserves_for_each {X} (f : X → M S E unit) l :
  (∀ x, x ∈ l → preserves I (f x)) → preserves I (for_each f l).
Proof.
  intros Hf env. apply (triple_for_each env f (λ _, I)).
  intros l1 x l2 ->. apply Hf. set_solver.
Qed.
End preserving.

Lemma preserves_map_err {S E F A} (I : S → Prop) (h : E → F) (m : M S E A) :
  preserves I m → preserves I (map_err h m).
Proof. intros Hm env. apply triple_map_err, Hm. Qed.

(** [raises R m]: every error of [m] satisfies [R]. *)
Definition raises {S E A} (R : E → Prop) (m : M S E A) : Prop :=
  ∀ env n s n' s' e, m env n s = (n', s', Err e) → R e.

Section raising.
Context {S E : Type} (R : E → Prop).

Lemma raises_ret {A} (a : A) : raises R (ret (S:=S) a).
Proof. by intros env n s n' s' e [= ]. Qed.

Lemma raises_fail {A} (e : E) : R e → raises R (fail (S:=S) (A:=A) e).
Proof. intros He env n s n' s' e' [= <- <- <-]. done. Qed.

Lemma raises_bind {A B} (m : M S E A) (k : A → M S E B) :
  raises R m → (∀ a, raises R (k a)) → raises R (bind m k).
Proof.
  intros Hm Hk env n s n' s' e [H|(n1 & s1 & a & _ & H)]%bind_err_inv; [by eapply Hm|by eapply Hk].
Qed.

Lemma raises_time : raises R (time_now (S:=S)).
Proof. by intros env n s n' s' e [= ]. Qed.

Lemma raises_uuid : raises R (uuid_New (S:=S)).
Proof. by intros env n s n' s' e [= ]. Qed.

Lemma raises_lift {A} (r : result E A) :
  (∀ e, r = Err e → R e) → raises R (lift_result (S:=S) r).
Proof. intros H env n s n' s' e. unfold lift_result. intros [= _ _ ->]. by apply H. Qed.

Lemma raises_sql {A} `{!GoError E} what (f : Z → S → result E (S * A)) :
  (∀ msg, R (driver_error msg)) → (∀ now s e, f now s = Err e → R e) → raises R (sql what f).
Proof.
  intros Hd Hf env n s n' s' e. unfold sql. destruct (env_fault env n); [by intros [= _ _ <-]|].
  destruct (f (env_now env n) s) as [[s1 a]|e1] eqn:H; [done|]. intros [= _ _ <-]. by eapply Hf.
Qed.

Lemma raises_for_each {X} (f : X → M S E unit) l :
  (∀ x, x ∈ l → raises R (f x)) → raises R (for_each f l).
Proof.
  induction l as [|x l IH]; intros Hf; simpl; [apply raises_ret|].
  apply raises_bind; [apply Hf; set_solver|]. intros _. apply IH. intros y Hy. apply Hf. set_solver.
Qed.
End raising.

Create HintDb shopflow.
#[export] Hint Resolve wrap64_in64 sort_strings_sorted calm_env_no_faults : shopflow.
#[export] Hint Resolve preserves_ret preserves_fail preserves_lift preserves_bind
  preserves_try preserves_time preserves_uuid preserves_for_each preserves_map_err : shopflow.
#[export] Hint Resolve raises_ret raises_fail raises_bind raises_time raises_uuid
  raises_for_each : shopflow.
