(* ===== verification/Strconv.v ===== *)
(** strconv, and the functions of strings that the handlers use: integers and booleans in
    the text of a header, of a query or of a JSON number. *)

From S2P Require Import Prelude.

Definition digit_of (a : ascii) : option Z :=
  let n := nat_of_ascii a in
  if ((48 <=? n) && (n <=? 57))%nat then Some (Z.of_nat n - 48) else None.

(** The value of a non-empty run of digits. *)
Fixpoint digits_from (acc : Z) (s : string) : option Z :=
  match s with
  | EmptyString => Some acc
  | String a r => d ← digit_of a; digits_from (10 * acc + d) r
  end.

Definition unsigned (s : string) : option Z :=
  match s with EmptyString => None | _ => digits_from 0 s end.

Definition within64 (z : Z) : option Z := if int8_ok z then Some z else None.

(** [strconv.ParseInt(s, 10, 64)], and [strconv.Atoi]. *)
Definition ParseInt (s : string) : option Z :=
  match s with
  | String "+" r => z ← unsigned r; within64 z
  | String "-" r => z ← unsigned r; within64 (- z)
  | _ => z ← unsigned s; within64 z
  end.

(** The integer that [strconv.Atoi] returns also with an error: 0 for a text that is no
    number, the nearest bound for one beyond the range. *)
Fixpoint digits_capped (acc : Z) (s : string) : option Z :=
  match s with
  | EmptyString => Some acc
  | String a r =>
      d ← digit_of a;
      if 2 ^ 64 <=? 10 * acc + d then Some (2 ^ 64 - 1) else digits_capped (10 * acc + d) r
  end.

Definition Atoi_value (s : string) : Z :=
  let number (r : string) := match r with EmptyString => 0 | _ => default 0 (digits_capped 0 r) end in
  match s with
  | String "+" r => Z.min (number r) MaxInt64
  | String "-" r => Z.max (- number r) MinInt64
  | _ => Z.min (number s) MaxInt64
  end.

(** [strconv.ParseBool] *)
Definition ParseBool (s : string) : option bool :=
  if bool_decide (s ∈ ["1"; "t"; "T"; "TRUE"; "true"; "True"]) then Some true
  else if bool_decide (s ∈ ["0"; "f"; "F"; "FALSE"; "false"; "False"]) then Some false
  else None.

(** [strings.Trim(s, c)] for one ASCII character, and [strings.TrimPrefix]. *)
Fixpoint trim_left (c : ascii) (s : string) : string :=
  match s with
  | String a r => if ascii_dec a c then trim_left c r else s
  | EmptyString => EmptyString
  end.

Definition Trim (s : string) (c : ascii) : string :=
  String.rev (trim_left c (String.rev (trim_left c s))).

Fixpoint drop_prefix (p s : string) : option string :=
  match p, s with
  | EmptyString, _ => Some s
  | String a p, String b s => if ascii_dec a b then drop_prefix p s else None
  | String _ _, EmptyString => None
  end.

Definition TrimPrefix (s p : string) : string := default s (drop_prefix p s).
Definition HasPrefix (s p : string) : bool := if drop_prefix p s then true else false.

Fixpoint has (c : ascii) (s : string) : bool :=
  match s with EmptyString => false | String a r => bool_decide (a = c) || has c r end.

(** [strings.Split(s, sep)] for one character. *)
Fixpoint Split (sep : ascii) (s : string) : list string :=
  match s with
  | EmptyString => [""]
  | String a r =>
      if ascii_dec a sep then "" :: Split sep r
      else match Split sep r with x :: l => String a x :: l | [] => [] end
  end.

(** * Lemmas *)

(** ** Separators *)

Lemma has_append c s t : has c (s ++ t)%string = has c s || has c t.
Proof.
  induction s as [|a s IH]; [done|]. change (String a s ++ t)%string with (String a (s ++ t)).
  cbn [has]. by rewrite IH, orb_assoc.
Qed.

Lemma Split_none c s : has c s = false → Split c s = [s].
Proof.
  induction s as [|a s IH]; [done|]. cbn [has Split]. intros [Ha Hs]%orb_false_iff.
  destruct (ascii_dec a c) as [->|]; [by rewrite bool_decide_true in Ha|]. by rewrite IH.
Qed.

Lemma Split_first c s t : has c s = false → Split c (s ++ String c t) = s :: Split c t.
Proof.
  induction s as [|a s IH].
  - intros _. change ("" ++ String c t)%string with (String c t). cbn [Split]. by destruct (ascii_dec c c).
  - cbn [has]. intros [Ha Hs]%orb_false_iff. change (String a s ++ String c t)%string with (String a (s ++ String c t)).
    cbn [Split]. destruct (ascii_dec a c) as [->|]; [by rewrite bool_decide_true in Ha|]. by rewrite IH.
Qed.

(** ** Numbers *)

Lemma pretty_N_char_value x :
  (x < 10)%N → digit_of (pretty_N_char x) = Some (Z.of_N x).
Proof. intros Hx. destruct x as [|p]; [done|]. do 4 (destruct p as [p|p|]; try done; try lia). Qed.

Lemma digits_from_pretty x s acc :
  ∃ k, 0 <= k ∧ digits_from acc (pretty_N_go x s) = digits_from (acc * 10 ^ k + Z.of_N x) s.
Proof.
  revert s acc. induction (N.lt_wf_0 x) as [x _ IH]. intros s acc.
  destruct (decide (x = 0%N)) as [->|Hx].
  - exists 0. rewrite pretty_N_go_0. split; [done|]. f_equal. lia.
  - rewrite pretty_N_go_step by lia.
    destruct (IH (x `div` 10)%N ltac:(apply N.div_lt; lia) (String (pretty_N_char (x `mod` 10)%N) s) acc)
      as (k & Hk & ->).
    exists (k + 1). split; [lia|]. cbn [digits_from].
    rewrite pretty_N_char_value by (apply N.mod_lt; lia). cbn [mbind option_bind]. f_equal.
    rewrite Z.pow_add_r by lia. pose proof (N.div_mod x 10 ltac:(lia)). nia.
Qed.

Lemma ParseInt_digits s z : s ≠ "" → digits_from 0 s = Some z → in64 z → ParseInt s = Some z.
Proof.
  intros Hne Hs Hz.
  assert ((z ← unsigned s; within64 z) = Some z) as Hu.
  { destruct s as [|a r]; [done|]. unfold unsigned. rewrite Hs. cbn [mbind option_bind].
    unfold within64, int8_ok. unfold in64 in Hz. by rewrite !(proj2 (Z.leb_le _ _)) by lia. }
  destruct s as [|a r]; [done|]. unfold ParseInt.
  destruct a as [[] [] [] [] [] [] [] []]; done.
Qed.

(** What [%d] prints of a positive integer is read back. *)
Lemma ParseInt_fmt_d z : 0 < z → in64 z → ParseInt (fmt_d z) = Some z.
Proof.
  intros Hz Hin. destruct z as [|p|]; [lia| |lia].
  change (fmt_d (Zpos p)) with (pretty_N_go (Npos p) "").
  destruct (digits_from_pretty (Npos p) "" 0) as (k & _ & Hd).
  apply ParseInt_digits; [|by rewrite Hd|done].
  intros He. rewrite He in Hd. rewrite Z.mul_0_l in Hd. simpl in Hd. injection Hd as Hd. lia.
Qed.

(** ** Reversing and trimming *)

Fixpoint avoids (c : ascii) (s : string) : bool :=
  match s with EmptyString => true | String a r => negb (bool_decide (a = c)) && avoids c r end.

Lemma rev_app_app s t : String.rev_app s t = (String.rev s ++ t)%string.
Proof.
  unfold String.rev. revert t. induction s as [|a s IH]; intros t; [done|]. simpl.
  rewrite IH, (IH (String a "")). by rewrite append_assoc.
Qed.

Lemma rev_cons a s : String.rev (String a s) = (String.rev s ++ String a "")%string.
Proof. unfold String.rev at 1. simpl. by rewrite rev_app_app. Qed.

Lemma rev_append s t : String.rev (s ++ t) = (String.rev t ++ String.rev s)%string.
Proof.
  induction s as [|a s IH].
  - change (String.rev "") with "". by rewrite append_nil_r.
  - change (String a s ++ t)%string with (String a (s ++ t)). by rewrite !rev_cons, IH, append_assoc.
Qed.

Lemma rev_involutive s : String.rev (String.rev s) = s.
Proof. induction s as [|a s IH]; [done|]. by rewrite rev_cons, rev_append, IH. Qed.

Lemma avoids_append c s t : avoids c (s ++ t) = avoids c s && avoids c t.
Proof. induction s as [|a s IH]; [done|]. simpl. by rewrite IH, andb_assoc. Qed.

Lemma avoids_rev c s : avoids c (String.rev s) = avoids c s.
Proof.
  induction s as [|a s IH]; [done|]. rewrite rev_cons, avoids_append, IH. simpl.
  by rewrite andb_true_r, andb_comm.
Qed.

Lemma trim_left_avoids c s : avoids c s = true → trim_left c s = s.
Proof. destruct s as [|a r]; [done|]. simpl. case_bool_decide; [done|]. by destruct (ascii_dec a c). Qed.

Lemma avoids_digits c acc s z : digit_of c = None → digits_from acc s = Some z → avoids c s = true.
Proof.
  intros Hc. revert acc. induction s as [|a s IH]; intros acc; [done|]. simpl.
  destruct (digit_of a) as [d|] eqn:Ha; [|done]. intros Hs. rewrite bool_decide_eq_false_2 by congruence.
  by eapply IH.
Qed.

(** [Trim] takes the marks off a text that has none inside. *)
Lemma Trim_marks c s : avoids c s = true → Trim (String c (s ++ String c "")) c = s.
Proof.
  intros Hs. unfold Trim. simpl. destruct (ascii_dec c c) as [_|]; [|done].
  assert (trim_left c (s ++ String c "") = s ∧ s = "" ∨ trim_left c (s ++ String c "") = (s ++ String c "")%string)
    as [ [-> ->] | -> ].
  { destruct s as [|a r]; simpl in *.
    - left. by destruct (ascii_dec c c).
    - right. case_bool_decide; [done|]. by destruct (ascii_dec a c). }
  - done.
  - rewrite rev_append. change (String.rev (String c "")) with (String c "").
    change (String c "" ++ String.rev s)%string with (String c (String.rev s)).
    cbn [trim_left]. destruct (ascii_dec c c) as [_|]; [|done].
    rewrite trim_left_avoids by (by rewrite avoids_rev). apply rev_involutive.
Qed.

Lemma fmt_d_digits_from z : 0 < z → digits_from 0 (fmt_d z) = Some z.
Proof.
  intros Hz. destruct z as [|p|]; [lia| |lia].
  change (fmt_d (Zpos p)) with (pretty_N_go (Npos p) "").
  destruct (digits_from_pretty (Npos p) "" 0) as (k & _ & ->). by rewrite Z.mul_0_l.
Qed.
