(* ===== verification/Email.v ===== *)
(** internal/platform/email: the sending of messages, its interface ([Sender]) and the two
    implementations: in memory, and over SMTP, whose client is the parameter
    [SmtpClient]. *)

From S2P Require Import Prelude.

(** * Data (sender.go) *)

Inductive error : Type :=
| ErrInvalidRecipient
| ErrEmptySubject
| ErrEmptyBody
| ErrDriver (msg : string).

Definition Error (e : error) : string :=
  match e with
  | ErrInvalidRecipient => "recipient address cannot be empty"
  | ErrEmptySubject => "subject cannot be empty"
  | ErrEmptyBody => "both html and text body cannot be empty"
  | ErrDriver msg => msg
  end%string.

#[export] Instance error_GoError : GoError error :=
  {| error_text := Error; driver_error := ErrDriver; driver_error_text := λ _, eq_refl |}.

Record EmailMessage := MkEmailMessage {
  From : string;
  To : list string;
  Subject : string;
  TextBody : string;
  HTMLBody : string;
}.

Class Sender (St : Type) := Send : EmailMessage → M St error unit.
#[global] Hint Mode Sender + : typeclass_instances.

(** What a sender promises: there is an outbox, a success has put the message into it, and
    a failure has left it alone or, for a failure after the transmission, put it there. *)
Class SenderLaws (St : Type) `{Sender St} := {
  sent : St → list EmailMessage;
  Send_law m env n x n' x' r : Send m env n x = (n', x', r) →
    match r with
    | Ok _ => sent x' = sent x ++ [m]
    | Err _ => sent x' = sent x ∨ sent x' = sent x ++ [m]
    end;
}.

(** [ctx.Err()] *)
Definition ctx_Err {St} : M St error (option string) := λ env n x, (S n, x, Ok (env_fault env n)).

(** * In memory (memory.go) *)

Record MemorySender := MkMemorySender { messages : list EmailMessage; failErr : option error }.

Definition NewMemorySender : MemorySender := MkMemorySender [] None.

Section memory.
Local Open Scope go_scope.

Definition memory_Send (msg : EmailMessage) : M MemorySender error unit :=
  let* c := ctx_Err in
  match c with
  | Some e => fail (ErrDriver e)
  | None => λ _ n m,
      match failErr m with
      | Some err => (n, MkMemorySender (messages m) None, Err err)
      | None =>
          match To msg with
          | [] => (n, m, Err ErrInvalidRecipient)
          | _ => (n, MkMemorySender (messages m ++ [msg]) None, Ok tt)
          end
      end
  end.

Definition GetMessages (m : MemorySender) : list EmailMessage := messages m.
Definition Count (m : MemorySender) : Z := Z.of_nat (length (messages m)).
Definition Reset (m : MemorySender) : MemorySender := MkMemorySender [] None.
Definition SetFailNext (err : option error) (m : MemorySender) : MemorySender :=
  MkMemorySender (messages m) err.
End memory.

#[export] Instance memory_sender : Sender MemorySender := memory_Send.

#[export] Program Instance memory_sender_laws : SenderLaws MemorySender := {| sent := messages |}.
Next Obligation.
  intros m env n [l f] n' x' r. unfold Send, memory_sender, memory_Send, bind, ctx_Err. cbn.
  destruct (env_fault env n); [intros [= <- <- <-]; by left|].
  destruct f; [intros [= <- <- <-]; by left|]. destruct (To m); intros [= <- <- <-]; [by left|done].
Qed.

(** * Over SMTP (smtp.go) *)

Record SMTPConfig := MkSMTPConfig {
  Host : string;
  Port : Z;
  Username : string;
  Password : string;
  Cfg_From : string;
}.

(** [NewSMTPSender]: the configuration it works with. *)
Definition NewSMTPSender_cfg (cfg : SMTPConfig) : SMTPConfig :=
  MkSMTPConfig (Host cfg) (if Port cfg <=? 0 then 1025 else Port cfg) (Username cfg) (Password cfg)
    (if String.eqb (Cfg_From cfg) "" then "no-reply@shopflow.io" else Cfg_From cfg).

(** The calls of net and net/smtp. *)
Inductive smtp_command :=
| Dial (addr : string)
| NewClient (host : string)
| Auth (username password host : string)
| Mail (from : string)
| Rcpt (to : string)
| DATA
| Write (bytes : string)
| CloseData
| Quit.

Class SmtpClient (St : Type) := smtp_call : smtp_command → M St error unit.
#[global] Hint Mode SmtpClient + : typeclass_instances.

Definition crlf : string := String "013" (String "010" "").
Definition dquote : string := String "034" "".

(** One part of a message; an empty body has none. *)
Definition body_part (boundary kind body : string) : string :=
  if String.eqb body "" then "" else
  ("--" ++ boundary ++ crlf ++
   "Content-Type: " ++ kind ++ "; charset=" ++ dquote ++ "UTF-8" ++ dquote ++ crlf ++
   "Content-Transfer-Encoding: 7bit" ++ crlf ++ crlf ++ body ++ crlf ++ crlf)%string.

Definition buildMultipartAlternative (now : Z) (from : string) (to : list string)
    (subject textBody htmlBody : string) : string :=
  let boundary := ("boundary-" ++ fmt_d now)%string in
  ("From: " ++ from ++ crlf ++ "To: " ++ strings_join to ", " ++ crlf ++
   "Subject: " ++ subject ++ crlf ++ "MIME-Version: 1.0" ++ crlf ++
   "Content-Type: multipart/alternative; boundary=" ++ dquote ++ boundary ++ dquote ++ crlf ++ crlf ++
   body_part boundary "text/plain" textBody ++ body_part boundary "text/html" htmlBody ++
   "--" ++ boundary ++ "--" ++ crlf)%string.

Definition blank (s : string) : bool := String.eqb (TrimSpace s) "".

(** The checks of [Send]. *)
Definition check_message (msg : EmailMessage) : option error :=
  match To msg with
  | [] => Some ErrInvalidRecipient
  | to =>
      if existsb blank to then Some ErrInvalidRecipient else
      if blank (Subject msg) then Some ErrEmptySubject else
      if blank (TextBody msg) && blank (HTMLBody msg) then Some ErrEmptyBody else None
  end.

Section smtp.
Context {St : Type} `{SC : !SmtpClient St} (cfg : SMTPConfig).
Local Open Scope go_scope.

Definition wrapped (what : string) (c : smtp_command) : M St error unit :=
  map_err (λ e, ErrDriver (what ++ Error e)%string) (smtp_call c).

(** The transmission, once connected.  The deferred [client.Close] is not shown. *)
Definition transmit (from : string) (msg : EmailMessage) : M St error unit :=
  (if negb (String.eqb (Username cfg) "") && negb (String.eqb (Password cfg) "")
   then wrapped "smtp auth failed: " (Auth (Username cfg) (Password cfg) (Host cfg)) else ret tt) ;;;
  wrapped "smtp MAIL FROM failed: " (Mail from) ;;;
  for_each (λ recipient,
    wrapped ("smtp RCPT TO failed for " ++ recipient ++ ": ")%string (Rcpt recipient)) (To msg) ;;;
  wrapped "smtp DATA failed: " DATA ;;;
  let* now := time_now in
  wrapped "smtp write message failed: "
    (Write (buildMultipartAlternative now from (To msg) (Subject msg) (TextBody msg) (HTMLBody msg))) ;;;
  wrapped "smtp close data writer failed: " CloseData ;;;
  smtp_call Quit.

Definition smtp_Send (msg : EmailMessage) : M St error unit :=
  let* c := ctx_Err in
  match c with
  | Some e => fail (ErrDriver e)
  | None =>
      match check_message msg with
      | Some e => fail e
      | None =>
          let from := if String.eqb (From msg) "" then Cfg_From cfg else From msg in
          let addr := (Host cfg ++ ":" ++ fmt_d (Port cfg))%string in
          wrapped ("smtp dial " ++ addr ++ " failed: ")%string (Dial addr) ;;;
          wrapped "smtp client creation failed: " (NewClient (Host cfg)) ;;;
          transmit from msg
      end
  end.
End smtp.

(** ** What travels over SMTP *)

(** A client that records its calls; the environment says which of them fail. *)
Definition recorder : SmtpClient (list smtp_command) := λ c env n t,
  (S n, t ++ [c], match env_fault env n with None => Ok tt | Some e => Err (ErrDriver e) end).

(** The calls of a transmission that was made at [now]. *)
Definition transcript (cfg : SMTPConfig) (msg : EmailMessage) (now : Z) : list smtp_command :=
  let from := if String.eqb (From msg) "" then Cfg_From cfg else From msg in
  [Dial (Host cfg ++ ":" ++ fmt_d (Port cfg))%string; NewClient (Host cfg)] ++
  (if negb (String.eqb (Username cfg) "") && negb (String.eqb (Password cfg) "")
   then [Auth (Username cfg) (Password cfg) (Host cfg)] else []) ++
  [Mail from] ++ (Rcpt <$> To msg) ++
  [DATA; Write (buildMultipartAlternative now from (To msg) (Subject msg) (TextBody msg) (HTMLBody msg));
   CloseData; Quit].

(** A program whose calls are those of [F now], for some time, up to the first that fails. *)
Definition issues {A} (p : M (list smtp_command) error A) (F : Z → list smtp_command) : Prop :=
  ∀ env n t n' t' r, p env n t = (n', t', r) →
  ∃ now l1 l2, F now = l1 ++ l2 ∧ t' = t ++ l1 ∧ (∀ a, r = Ok a → l2 = []).

Lemma issues_ret {A} (a : A) : issues (ret a) (λ _, []).
Proof. intros env n t n' t' r [= <- <- <-]. exists 0, [], []. rewrite !app_nil_r. by split_and!. Qed.

Lemma issues_recorded c : issues (@smtp_call _ recorder c) (λ _, [c]).
Proof.
  intros env n t n' t' r. unfold smtp_call, recorder.
  destruct (env_fault env n); intros [= <- <- <-]; by exists 0, [c], [].
Qed.

Lemma issues_call what c : issues (@wrapped _ recorder what c) (λ _, [c]).
Proof.
  intros env n t n' t' r. unfold wrapped, map_err, smtp_call, recorder.
  destruct (env_fault env n); intros [= <- <- <-]; by exists 0, [c], [].
Qed.

Lemma issues_bind {A B} (p : M _ error A) (k : A → M _ error B) l F :
  issues p (λ _, l) → (∀ a, issues (k a) F) → issues (bind p k) (λ now, l ++ F now).
Proof.
  intros Hp Hk env n t n' t' r Hrun.
  apply bind_inv in Hrun as [(e & H & ->)|(n1 & t1 & a & H & Hrun)].
  - destruct (Hp _ _ _ _ _ _ H) as (now & l1 & l2 & -> & -> & _).
    exists now, l1, (l2 ++ F now). by rewrite app_assoc.
  - destruct (Hp _ _ _ _ _ _ H) as (now & l1 & l2 & -> & -> & Hok). rewrite (Hok a eq_refl), app_nil_r.
    destruct (Hk a _ _ _ _ _ _ Hrun) as (now' & l3 & l4 & HF & -> & Hok').
    exists now', (l1 ++ l3), l4. by rewrite HF, !app_assoc.
Qed.

Lemma issues_for_each {X} (f : X → M _ error unit) (c : X → smtp_command) l :
  (∀ x, issues (f x) (λ _, [c x])) → issues (for_each f l) (λ _, c <$> l).
Proof.
  intros Hf. induction l as [|x l IH]; [apply issues_ret|]. cbn [for_each].
  exact (issues_bind _ _ [c x] (λ _, c <$> l) (Hf x) (λ _, IH)).
Qed.

Lemma issues_now {A} (p : Z → M _ error A) (F : Z → list smtp_command) :
  (∀ now, issues (p now) (λ _, F now)) → issues (bind time_now p) F.
Proof.
  intros Hp env n t n' t' r H. destruct (Hp _ _ _ _ _ _ _ H) as (_ & l1 & l2 & HF & Ht & Hok).
  by exists (env_now env n), l1, l2.
Qed.

Lemma transmit_issues cfg from msg :
  issues (@transmit _ recorder cfg from msg) (λ now,
    (if negb (String.eqb (Username cfg) "") && negb (String.eqb (Password cfg) "")
     then [Auth (Username cfg) (Password cfg) (Host cfg)] else []) ++
    [Mail from] ++ (Rcpt <$> To msg) ++ [DATA] ++
    [Write (buildMultipartAlternative now from (To msg) (Subject msg) (TextBody msg) (HTMLBody msg))] ++
    [CloseData] ++ [Quit]).
Proof.
  unfold transmit. apply issues_bind; [case_match; [apply issues_call|apply issues_ret]|intros _].
  apply issues_bind; [apply issues_call|intros _].
  apply issues_bind; [apply issues_for_each; intros x; apply issues_call|intros _].
  apply issues_bind; [apply issues_call|intros _]. apply issues_now. intros now.
  apply issues_bind; [apply issues_call|intros _].
  apply issues_bind; [apply issues_call|intros _]. apply issues_recorded.
Qed.

(** Sending over SMTP.  A message without recipients, subject or body is refused before
    the server is called, with the error that says so.  Any other is transmitted by the
    calls of [transcript] in that order, up to the first that fails; a success has made
    them all, with one RCPT for each recipient and the whole text written once. *)
Theorem smtp_transcript cfg msg env n t n' t' r :
  @smtp_Send _ recorder cfg msg env n t = (n', t', r) →
  match check_message msg with
  | Some e => t' = t ∧ (r = Err e ∨ ∃ m, env_fault env n = Some m ∧ r = Err (ErrDriver m))
  | None => ∃ now l1 l2, transcript cfg msg now = l1 ++ l2 ∧ t' = t ++ l1 ∧ (r = Ok tt → l2 = [])
  end.
Proof.
  unfold smtp_Send. rewrite (bind_ok ctx_Err _ _ _ _ _ _ _ eq_refl).
  destruct (env_fault env n) as [m|] eqn:Hc.
  { intros [= <- <- <-]. destruct (check_message msg); [split; [done|]; right; by exists m|].
    exists 0, [], (transcript cfg msg 0). rewrite !app_nil_r. by split_and!. }
  destruct (check_message msg) as [e|]; [intros [= <- <- <-]; split; [done|by left]|].
  cbv zeta. intros Hrun.
  assert (issues (bind (@wrapped _ recorder ("smtp dial " ++ (Host cfg ++ ":" ++ fmt_d (Port cfg)) ++ " failed: ")%string
              (Dial (Host cfg ++ ":" ++ fmt_d (Port cfg))))
            (λ _, bind (@wrapped _ recorder "smtp client creation failed: " (NewClient (Host cfg)))
              (λ _, @transmit _ recorder cfg (if String.eqb (From msg) "" then Cfg_From cfg else From msg) msg)))
          (transcript cfg msg)) as H.
  { apply (issues_bind _ _ [_]); [apply issues_call|intros _].
    apply (issues_bind _ _ [_]); [apply issues_call|intros _]. apply transmit_issues. }
  destruct (H _ _ _ _ _ _ Hrun) as (now & l1 & l2 & ? & ? & Hok). exists now, l1, l2. split_and!; [done..|]. intros ->. by eapply Hok.
Qed.

(** ** Examples *)

Definition ex_smtp : SMTPConfig := NewSMTPSender_cfg (MkSMTPConfig "mail" 0 "" "" "").
Definition ex_mail : EmailMessage := MkEmailMessage "" ["a@x.io"; "b@x.io"] "Hello" "text" "<p>html</p>".

(** The second RCPT fails: nothing is written. *)
Lemma smtp_transcript_witness :
  final (@smtp_Send _ recorder ex_smtp ex_mail (calm_env 5 0) 0%nat []) = transcript ex_smtp ex_mail 5 ∧
  ∃ now l1 l2, transcript ex_smtp ex_mail now = l1 ++ l2 ∧
    final (@smtp_Send _ recorder ex_smtp ex_mail (faulty_env 5 0 5 "no such user") 0%nat []) = [] ++ l1.
Proof.
  split; [vm_compute; reflexivity|].
  destruct (@smtp_Send _ recorder ex_smtp ex_mail (faulty_env 5 0 5 "no such user") 0%nat []) as [[n' t'] r] eqn:H.
  apply (smtp_transcript ex_smtp ex_mail) in H. change (check_message ex_mail) with (@None error) in H.
  destruct H as (now & l1 & l2 & H1 & H2 & _). by exists now, l1, l2.
Defined.
