(* ===== verification/Database.v ===== *)
(** The transaction wrapper of internal/platform/database/database.go, with a body that returns
    and with one that panics. *)

From S2P Require Import Prelude.

(** [pgx.ErrTxClosed], the one rollback error that is swallowed. *)
Definition ErrTxClosed_text : string := "tx is closed".

Section tx.
Context {S E : Type} `{!GoError E}.

(** [ExecuteTx]: [BeginTx], the body on the same connection, then [Commit], or
    [Rollback] when the body fails.  A rolled back transaction, or one whose
    commit is reported as failed, leaves the tables as they were. *)
Definition ExecuteTx {A} (fn : M S E A) : M S E A := λ env n s,
  match env_fault env n with
  | Some msg => (Datatypes.S n, s, Err (driver_error ("database: begin tx: " ++ msg)%string))
  | None =>
      match fn env (Datatypes.S n) s with
      | (n1, s1, Err e) =>
          match env_fault env n1 with
          | Some rb =>
              if String.eqb rb ErrTxClosed_text then (Datatypes.S n1, s, Err e)
              else (Datatypes.S n1, s, Err (driver_error
                     ("database: tx error (" ++ error_text e ++ "), rollback error: " ++ rb)%string))
          | None => (Datatypes.S n1, s, Err e)
          end
      | (n1, s1, Ok a) =>
          match env_fault env n1 with
          | Some msg =>
              (Datatypes.S n1, s, Err (driver_error ("database: commit tx: " ++ msg)%string))
          | None => (Datatypes.S n1, s1, Ok a)
          end
      end
  end.

(** A transaction that reports an error has changed nothing. *)
Lemma ExecuteTx_err {A} (fn : M S E A) env n s n' s' e :
  ExecuteTx fn env n s = (n', s', Err e) → s' = s.
Proof.
  unfold ExecuteTx. destruct (env_fault env n); [by intros [= ]|].
  destruct (fn env (Datatypes.S n) s) as [[n1 s1] [a|e1]]; destruct (env_fault env n1) as [m|];
    try by intros [= ].
  destruct (String.eqb m ErrTxClosed_text); by intros [= ].
Qed.

(** A transaction that reports success is its body's run. *)
Lemma ExecuteTx_ok {A} (fn : M S E A) env n s n' s' a :
  ExecuteTx fn env n s = (n', s', Ok a) →
  ∃ n1, fn env (Datatypes.S n) s = (n1, s', Ok a) ∧ n' = Datatypes.S n1.
Proof.
  unfold ExecuteTx. destruct (env_fault env n); [done|].
  destruct (fn env (Datatypes.S n) s) as [[n1 s1] [a1|e1]]; destruct (env_fault env n1) as [m|];
    try done.
  - intros [= <- <- <-]. by eauto.
  - by destruct (String.eqb m ErrTxClosed_text).
Qed.

(** Without driver failures the wrapper is transparent. *)
Lemma ExecuteTx_run {A} (fn : M S E A) env n s :
  no_faults env →
  ExecuteTx fn env n s =
    match fn env (Datatypes.S n) s with
    | (n1, s1, Ok a) => (Datatypes.S n1, s1, Ok a)
    | (n1, _, Err e) => (Datatypes.S n1, s, Err e)
    end.
Proof.
  intros Hf. unfold ExecuteTx. rewrite Hf.
  destruct (fn env (Datatypes.S n) s) as [[n1 s1] [a|e]]; by rewrite Hf.
Qed.

(** The rule for transactions: what the body establishes holds after a commit,
    and the precondition still holds after an error. *)
Lemma triple_ExecuteTx {A} env (P : S → Prop) (fn : M S E A) Q :
  triple env P fn Q (λ _ _, True) → triple env P (ExecuteTx fn) Q (λ _, P).
Proof.
  intros Hfn n s n' s' r Hs Hrun. destruct r as [a|e].
  - apply ExecuteTx_ok in Hrun as (n1 & Hrun & _). exact (Hfn _ _ _ _ _ Hs Hrun).
  - by apply ExecuteTx_err in Hrun as ->.
Qed.

Lemma preserves_ExecuteTx {A} (I : S → Prop) (fn : M S E A) :
  (∀ env, triple env I fn (λ _, I) (λ _ _, True)) → preserves I (ExecuteTx fn).
Proof. intros H env. by apply triple_ExecuteTx. Qed.

(** The same, keeping what is known of the error: it is the body's, or the
    driver's. *)
Lemma triple_ExecuteTx_err {A} env (P : S → Prop) (fn : M S E A) Q (R : E → Prop) :
  triple env P fn Q (λ e _, R e) →
  triple env P (ExecuteTx fn) Q (λ e s, P s ∧ ((faulted env ∧ ∃ m, e = driver_error m) ∨ R e)).
Proof.
  intros Hfn n s n' s' r Hs. unfold ExecuteTx, faulted.
  destruct (env_fault env n) eqn:Hn; [intros [= <- <- <-]; split; [done|]; left; by eauto|].
  destruct (fn env (Datatypes.S n) s) as [[n1 s1] [a|e1]] eqn:Hrun;
    specialize (Hfn _ _ _ _ _ Hs Hrun); simpl in Hfn;
    destruct (env_fault env n1) as [m|] eqn:Hn1; try (intros [= <- <- <-]; first [done|split; [done|by auto]|split; [done|left; by eauto]]).
  destruct (String.eqb m ErrTxClosed_text); intros [= <- <- <-];
    (split; [done|]); [by right|left; by eauto].
Qed.

(** The errors of a transaction are its body's or the driver's. *)
Lemma ExecuteTx_err_cases {A} (fn : M S E A) env n s n' s' e :
  ExecuteTx fn env n s = (n', s', Err e) →
  (∃ n1 s1, fn env (Datatypes.S n) s = (n1, s1, Err e)) ∨ ∃ m, e = driver_error m.
Proof.
  unfold ExecuteTx. destruct (env_fault env n); [intros [= <- <- <-]; by eauto|].
  destruct (fn env (Datatypes.S n) s) as [[n1 s1] [a|e1]]; destruct (env_fault env n1) as [m|];
    try (intros [= <- <- <-]; by eauto).
  destruct (String.eqb m ErrTxClosed_text); intros [= <- <- <-]; by eauto.
Qed.
Lemma raises_ExecuteTx {A} (R : E → Prop) (fn : M S E A) :
  (∀ msg, R (driver_error msg)) → raises R fn → raises R (ExecuteTx fn).
Proof.
  intros Hd Hfn env n s n' s' e [(n1 & s1 & H)|[m ->]]%ExecuteTx_err_cases; [by eapply Hfn|done].
Qed.
End tx.

(** * A body that panics *)

Section panics.
Context {S E : Type} `{!GoError E}.

(** How a body ends. *)
Inductive ending (A : Type) := Returned (r : result E A) | Panicked.
Arguments Returned {A} r.
Arguments Panicked {A}.

(** [ExecuteTx] for such a body: the deferred function rolls back, whatever that answers, and the
    panic goes on. *)
Definition ExecuteTx_panicking {A} (fn : Env → nat → S → nat * S * ending A) (env : Env) (n : nat) (s : S) :
    nat * S * ending A :=
  match env_fault env n with
  | Some msg => (Datatypes.S n, s, Returned (Err (driver_error ("database: begin tx: " ++ msg)%string)))
  | None =>
      match fn env (Datatypes.S n) s with
      | (n1, _, Panicked) => (Datatypes.S n1, s, Panicked)
      | (n1, s1, Returned (Err e)) =>
          match env_fault env n1 with
          | Some rb =>
              if String.eqb rb ErrTxClosed_text then (Datatypes.S n1, s, Returned (Err e))
              else (Datatypes.S n1, s, Returned (Err (driver_error
                     ("database: tx error (" ++ error_text e ++ "), rollback error: " ++ rb)%string)))
          | None => (Datatypes.S n1, s, Returned (Err e))
          end
      | (n1, s1, Returned (Ok a)) =>
          match env_fault env n1 with
          | Some msg => (Datatypes.S n1, s, Returned (Err (driver_error ("database: commit tx: " ++ msg)%string)))
          | None => (Datatypes.S n1, s1, Returned (Ok a))
          end
      end
  end.

(** A body that does not panic is the body of [ExecuteTx], as every other file has it. *)
Lemma ExecuteTx_panicking_returns {A} (fn : M S E A) env n s :
  ExecuteTx_panicking (λ env n s, let '(n, s, r) := fn env n s in (n, s, Returned r)) env n s =
  let '(n, s, r) := ExecuteTx fn env n s in (n, s, Returned r).
Proof.
  unfold ExecuteTx_panicking, ExecuteTx. destruct (env_fault env n); [done|].
  destruct (fn env (Datatypes.S n) s) as [[n1 s1] [a|e]]; destruct (env_fault env n1) as [rb|]; [done|done| |done].
  by destruct (String.eqb rb ErrTxClosed_text).
Qed.

(** A panic leaves the tables as they were, as an error does. *)
Lemma ExecuteTx_panicking_undone {A} (fn : Env → nat → S → nat * S * ending A) env n s n' s' x :
  ExecuteTx_panicking fn env n s = (n', s', x) → (∀ a, x ≠ Returned (Ok a)) → s' = s.
Proof.
  unfold ExecuteTx_panicking. intros Hrun Hx. destruct (env_fault env n); [by simplify_eq|].
  destruct (fn env (Datatypes.S n) s) as [[n1 s1] [[a|e]|]]; [..|by simplify_eq];
    destruct (env_fault env n1) as [rb|]; [by simplify_eq| |by destruct (String.eqb rb ErrTxClosed_text); simplify_eq|by simplify_eq].
  simplify_eq. by destruct (Hx a).
Qed.
End panics.
