(* ===== verification/Pool.v ===== *)
(** [NewPool] of internal/platform/database/database.go: the pool of connections and its limits. *)

From S2P Require Import Prelude.

Record Config := MkConfig {
  URL : string;
  MaxConns : Z;
  MinConns : Z;
  MaxConnLifetime : Z;
  MaxConnIdleTime : Z;
  HealthCheckTime : Z;
}.

Definition DefaultConfig (url : string) : Config :=
  MkConfig url 25 5 (3600 * Second) (900 * Second) (60 * Second).

(** The limits of [pgxpool.Config], and the rest of what an address says. *)
Record PoolConfig (X : Type) := MkPoolConfig {
  pgx_MaxConns : Z;
  pgx_MinConns : Z;
  pgx_MaxConnLifetime : Z;
  pgx_MaxConnIdleTime : Z;
  pgx_HealthCheckPeriod : Z;
  pgx_rest : X;
}.
Arguments MkPoolConfig {X}.
Arguments pgx_MaxConns {X}.
Arguments pgx_MinConns {X}.
Arguments pgx_MaxConnLifetime {X}.
Arguments pgx_MaxConnIdleTime {X}.
Arguments pgx_HealthCheckPeriod {X}.
Arguments pgx_rest {X}.

(** The library, over its pools. *)
Class Pgxpool (X P : Type) := {
  ParseConfig : string → result string (PoolConfig X);
  NewWithConfig : PoolConfig X → result string P;
  pool_Ping : P → option string;
}.

Section pool.
Context {X P : Type} `{PG : Pgxpool X P}.

Definition positive_or (z default : Z) : Z := if 0 <? z then z else default.

Definition limits (cfg : Config) (pc : PoolConfig X) : PoolConfig X :=
  MkPoolConfig (positive_or (MaxConns cfg) (pgx_MaxConns pc)) (positive_or (MinConns cfg) (pgx_MinConns pc))
    (positive_or (MaxConnLifetime cfg) (pgx_MaxConnLifetime pc))
    (positive_or (MaxConnIdleTime cfg) (pgx_MaxConnIdleTime pc))
    (positive_or (HealthCheckTime cfg) (pgx_HealthCheckPeriod pc)) (pgx_rest pc).

(** The pool or the error, and the pool that was closed on the way. *)
Definition NewPool (cfg : Config) : result string P * option P :=
  match ParseConfig (URL cfg) with
  | Err err => (Err ("database: parse config: " ++ err)%string, None)
  | Ok pc =>
      match NewWithConfig (limits cfg pc) with
      | Err err => (Err ("database: create pool: " ++ err)%string, None)
      | Ok pool =>
          match pool_Ping pool with
          | Some err => (Err ("database: ping on startup: " ++ err)%string, Some pool)
          | None => (Ok pool, None)
          end
      end
  end.

(** A pool that was made is returned, answering, or closed. *)
Lemma NewPool_no_leak cfg pc pool :
  ParseConfig (URL cfg) = Ok pc → NewWithConfig (limits cfg pc) = Ok pool →
  (NewPool cfg = (Ok pool, None) ∧ pool_Ping pool = None) ∨
  (∃ err, NewPool cfg = (Err err, Some pool) ∧ pool_Ping pool ≠ None).
Proof. intros H1 H2. unfold NewPool. rewrite H1, H2. destruct (pool_Ping pool); [right; by eexists|by left]. Qed.
End pool.
