(* ===== verification/Simulation.v ===== *)
(** The tests run the services on repositories kept in memory.  What it means that such a
    double stands for a repository over PostgreSQL: a caller of either gets the same answers.

    Used by OutboxDouble.v, PaymentDouble.v and InboxDouble.v. *)

From S2P Require Import Prelude.

(** Nothing fails, and the clock stands still: a double has one reading of the clock where
    the repository has two, its own and the server's. *)
Definition still (env : Env) : Prop := no_faults env ∧ ∀ n, env_now env n = env_now env 0%nat.

Lemma calm_env_still t u : still (calm_env t u).
Proof. by split. Qed.

(** The rows of a query and those of the double in the finer order of the double. *)
Lemma same_order {A} (R1 R2 : relation A) (l1 l2 : list A) :
  (∀ x y, R2 x y → R1 x y) → (∀ x y, x ∈ l1 → y ∈ l1 → R1 x y → R1 y x → x = y) →
  StronglySorted R1 l1 → StronglySorted R2 l2 → l1 ≡ₚ l2 → l1 = l2.
Proof.
  intros Himp Hanti H1 H2 Hp. apply (StronglySorted_unique_strong R1); [|done| |done].
  - intros x y Hx Hy. apply Hanti; [done|by rewrite Hp].
  - clear -H2 Himp. induction H2 as [|x l _ IH Hx]; constructor; [done|].
    eapply Forall_impl; [exact Hx|]. intros y. apply Himp.
Qed.

(** An UPDATE of a row that is there. *)
Lemma alter_at `{Countable K} {A} (f : A → A) (i : K) (m : gmap K A) x :
  m !! i = Some x → alter f i m = <[i := f x]> m.
Proof.
  intros Hx. apply map_eq. intros j. destruct (decide (i = j)) as [<-|Hne].
  - by rewrite lookup_alter_eq, Hx, lookup_insert_eq.
  - by rewrite lookup_alter_ne, lookup_insert_ne.
Qed.

(** What a caller gets, one request after the other. *)
Section serving.
Context {T E Rq An : Type} (srv : Rq → M T E An) (env : Env).

Fixpoint serve_all (rs : list Rq) (n : nat) (t : T) : T * list (result E An) :=
  match rs with
  | [] => (t, [])
  | r :: rs =>
      let '(n, t, a) := srv r env n t in
      let '(t, l) := serve_all rs n t in (t, a :: l)
  end.

(** Each request is one that the tables it finds take as it is. *)
Fixpoint all_fit (fits : T → Rq → Prop) (rs : list Rq) (n : nat) (t : T) : Prop :=
  match rs with
  | [] => True
  | r :: rs => fits t r ∧ let x := srv r env n t in all_fit fits rs x.1.1 (final x)
  end.

#[export] Instance all_fit_dec (fits : T → Rq → Prop) `{∀ t r, Decision (fits t r)} rs n t :
  Decision (all_fit fits rs n t).
Proof. revert n t. induction rs; intros; simpl; apply _. Defined.
End serving.

Section sim.
Context {S D E : Type} `{!GoError E} (R : S → D → Prop) (env : Env).

(** From related states both give the same answer and leave related states. *)
Definition sim {A} (m1 : M S E A) (m2 : M D E A) (s : S) (d : D) : Prop :=
  ∀ n1 n2, outcome (m1 env n1 s) = outcome (m2 env n2 d) ∧ R (final (m1 env n1 s)) (final (m2 env n2 d)).

Lemma sim_then {A B} (m1 : M S E A) (m2 : M D E A) (k : A → B) s d :
  sim m1 m2 s d → sim (bind m1 (λ a, ret (k a))) (bind m2 (λ a, ret (k a))) s d.
Proof.
  intros H n1 n2. destruct (H n1 n2) as [Ho HR]. unfold bind.
  destruct (m1 env n1 s) as [[k1 s1] [a|e]], (m2 env n2 d) as [[k2 d2] [b|e2]]; cbn in *; try done;
    by injection Ho as ->.
Qed.

Lemma still_sql {A} what (f : Z → S → result E (S * A)) n s :
  still env →
  sql what f env n s =
    match f (env_now env 0%nat) s with
    | Ok (s1, a) => (Datatypes.S n, s1, Ok a)
    | Err e => (Datatypes.S n, s, Err e)
    end.
Proof. intros [Hf Ht]. by rewrite sql_run, Ht by apply Hf. Qed.

Lemma sim_all {Rq An} (srv : Rq → M S E An) (mock : Rq → M D E An) (fits : S → Rq → Prop) :
  (∀ r s d, R s d → fits s r → sim (srv r) (mock r) s d) →
  ∀ rs n1 n2 s d, R s d → all_fit srv env fits rs n1 s →
  (serve_all srv env rs n1 s).2 = (serve_all mock env rs n2 d).2 ∧
  R (serve_all srv env rs n1 s).1 (serve_all mock env rs n2 d).1.
Proof.
  intros Hsim rs. induction rs as [|r rs IH]; intros n1 n2 s d HR Hfit; [done|].
  destruct Hfit as [Hr Hrs]. destruct (Hsim r s d HR Hr n1 n2) as [Ho HR']. cbn [serve_all].
  destruct (srv r env n1 s) as [[k1 s1] a1], (mock r env n2 d) as [[k2 d2] a2]. cbn in *. subst a2.
  destruct (IH k1 k2 s1 d2 HR' Hrs) as [Hl HR2].
  destruct (serve_all srv env rs k1 s1), (serve_all mock env rs k2 d2). cbn in *. by subst.
Qed.
End sim.

(** A double with a failure or a reading of its map: one step, under the mutex. *)
Definition locked {T E A} (f : T → result E (T * A)) : M T E A := λ _ n t,
  match f t with Ok (t', a) => (n, t', Ok a) | Err e => (n, t, Err e) end.
