(* ===== verification/Money.v ===== *)
(** internal/domain/money/money.go: monetary values in minor units, with
    overflow-checked arithmetic on [int64]. *)

From S2P Require Import Prelude.

(** The sentinel errors of the package. *)
Inductive error : Type :=
| ErrNegativeAmount
| ErrInvalidCurrency
| ErrCurrencyMismatch
| ErrArithmeticOverflow
| ErrNegativeMultiplier.

Record Money := MkMoney { Amount : Z; Currency : string }.

#[export] Instance error_eq_dec : EqDecision error.
Proof. solve_decision. Defined.
#[export] Instance Money_eq_dec : EqDecision Money.
Proof. solve_decision. Defined.

Definition is_upper (a : ascii) : bool :=
  let n := nat_of_ascii a in ((65 <=? n) && (n <=? 90))%nat.

(** [currencyRegex], the expression ^[A-Z]{3}$ *)
Definition currencyRegex_MatchString (s : string) : bool :=
  match s with
  | String a (String b (String c EmptyString)) => is_upper a && is_upper b && is_upper c
  | _ => false
  end.

Definition New (amount : Z) (currency : string) : result error Money :=
  if amount <? 0 then Err ErrNegativeAmount else
  if negb (currencyRegex_MatchString currency) then Err ErrInvalidCurrency else
  Ok (MkMoney amount currency).

Definition Add (m other : Money) : result error Money :=
  if negb (String.eqb (Currency m) (Currency other)) then Err ErrCurrencyMismatch else
  if (0 <? Amount other) && (sub64 MaxInt64 (Amount other) <? Amount m)
  then Err ErrArithmeticOverflow else
  Ok (MkMoney (add64 (Amount m) (Amount other)) (Currency m)).

Definition Sub (m other : Money) : result error Money :=
  if negb (String.eqb (Currency m) (Currency other)) then Err ErrCurrencyMismatch else
  if Amount m <? Amount other then Err ErrNegativeAmount else
  Ok (MkMoney (sub64 (Amount m) (Amount other)) (Currency m)).

Definition Multiply (m : Money) (quantity : Z) : result error Money :=
  if quantity <? 0 then Err ErrNegativeMultiplier else
  if (quantity =? 0) || (Amount m =? 0) then Ok (MkMoney 0 (Currency m)) else
  if Z.quot MaxInt64 quantity <? Amount m then Err ErrArithmeticOverflow else
  Ok (MkMoney (mul64 (Amount m) quantity) (Currency m)).

Definition Format (m : Money) : string :=
  let major := Z.quot (Amount m) 100 in
  let minor := Z.rem (Amount m) 100 in
  (Currency m ++ " " ++ fmt_d major ++ "." ++ fmt_02d minor)%string.

(** What [New] promises of a value. *)
Definition valid (m : Money) : Prop :=
  0 <= Amount m <= MaxInt64 ∧ currencyRegex_MatchString (Currency m) = true.

(** * Lemmas *)

Lemma New_ok amount currency m :
  amount <= MaxInt64 → New amount currency = Ok m →
  valid m ∧ Amount m = amount ∧ Currency m = currency.
Proof.
  unfold New, valid. intros Hmax.
  destruct (Z.ltb_spec amount 0); [done|].
  destruct (currencyRegex_MatchString currency) eqn:Hc; simpl; [|done].
  intros [= <-]. simpl. repeat split; [lia|lia|done].
Qed.

Lemma New_valid m : valid m → New (Amount m) (Currency m) = Ok m.
Proof.
  intros [Ha Hc]. unfold New. destruct (Z.ltb_spec (Amount m) 0); [lia|].
  rewrite Hc. by destruct m.
Qed.

(** A valid currency is three bytes long. *)
Lemma currency_shape s :
  currencyRegex_MatchString s = true →
  ∃ a b c, s = String a (String b (String c "")) ∧
           is_upper a = true ∧ is_upper b = true ∧ is_upper c = true.
Proof.
  destruct s as [|a [|b [|c [|d s]]]]; try done. simpl.
  rewrite !andb_true_iff. intros [[??]?]. by eauto 10.
Qed.

(** ** Decimal digits *)

Definition is_digit (a : ascii) : bool :=
  let n := nat_of_ascii a in ((48 <=? n) && (n <=? 57))%nat.

Fixpoint all_digits (s : string) : bool :=
  match s with "" => true | String a r => is_digit a && all_digits r end.

Lemma pretty_N_char_digit x : is_digit (pretty_N_char x) = true.
Proof. unfold pretty_N_char. repeat case_match; reflexivity. Qed.

Lemma pretty_N_go_digits x s : all_digits s = true → all_digits (pretty_N_go x s) = true.
Proof.
  revert s. induction (N.lt_wf_0 x) as [x _ IH]; intros s Hs.
  destruct (decide (x = 0)%N) as [->|Hx]; [done|].
  rewrite pretty_N_go_step by lia. apply IH; [apply N.div_lt; lia|].
  cbn [all_digits]. by rewrite pretty_N_char_digit.
Qed.

Lemma fmt_d_digits z : 0 <= z → all_digits (fmt_d z) = true.
Proof.
  intros Hz. unfold fmt_d. destruct z as [|p|p]; [done| |lia].
  change (pretty (Zpos p)) with (pretty_N_go (Npos p) ""). by apply pretty_N_go_digits.
Qed.

(** A dot ends a run of digits. *)
Lemma split_at_dot s1 s2 r1 r2 :
  all_digits s1 = true → all_digits s2 = true →
  (s1 ++ "." ++ r1 = s2 ++ "." ++ r2)%string → s1 = s2 ∧ r1 = r2.
Proof.
  revert s2. induction s1 as [|a s1 IH]; intros [|b s2]; simpl; intros H1 H2 H;
    try by simplify_eq.
  - apply andb_true_iff in H1 as [_ H1]. apply andb_true_iff in H2 as [_ H2].
    injection H as -> H. destruct (IH s2 H1 H2 H) as [-> ->]. done.
Qed.

(** Two-digit formatting separates the hundred possible minor parts. *)
Lemma fmt_02d_inj a b : 0 <= a < 100 → 0 <= b < 100 → fmt_02d a = fmt_02d b → a = b.
Proof.
  assert (Hall : forallb (λ x, forallb (λ y,
      if decide (fmt_02d (Z.of_nat x) = fmt_02d (Z.of_nat y)) then (x =? y)%nat else true)
      (seq 0 100)) (seq 0 100) = true) by (vm_compute; reflexivity).
  intros Ha Hb Hab. rewrite forallb_forall in Hall.
  specialize (Hall (Z.to_nat a)). rewrite in_seq, forallb_forall in Hall.
  specialize (Hall ltac:(lia) (Z.to_nat b)). rewrite in_seq in Hall.
  specialize (Hall ltac:(lia)). rewrite !Z2Nat.id in Hall by lia.
  rewrite decide_True in Hall by done. apply Nat.eqb_eq in Hall. lia.
Qed.

(** ** The guards *)

Lemma add_guard_exact a b :
  0 <= a <= MaxInt64 → 0 <= b <= MaxInt64 →
  (0 <? b) && (sub64 MaxInt64 b <? a) = (MaxInt64 <? a + b).
Proof.
  intros Ha Hb. rewrite sub64_id by (unfold in64, MaxInt64, MinInt64 in *; lia).
  destruct (Z.ltb_spec 0 b), (Z.ltb_spec (MaxInt64 - b) a), (Z.ltb_spec MaxInt64 (a + b));
    simpl; lia.
Qed.

(** * Properties *)

(** Addition, subtraction and multiplication of valid amounts agree with
    the arithmetic of the integers: the exact result when it is representable
    and not negative, and otherwise the error that says which bound failed; in
    particular no result wraps around. *)
Theorem money_arithmetic_exact m o q :
  valid m → valid o → in64 q →
  Add m o = (if decide (Currency m = Currency o) then
               if MaxInt64 <? Amount m + Amount o then Err ErrArithmeticOverflow
               else Ok (MkMoney (Amount m + Amount o) (Currency m))
             else Err ErrCurrencyMismatch) ∧
  Sub m o = (if decide (Currency m = Currency o) then
               if Amount m - Amount o <? 0 then Err ErrNegativeAmount
               else Ok (MkMoney (Amount m - Amount o) (Currency m))
             else Err ErrCurrencyMismatch) ∧
  Multiply m q = (if q <? 0 then Err ErrNegativeMultiplier
                  else if MaxInt64 <? Amount m * q then Err ErrArithmeticOverflow
                  else Ok (MkMoney (Amount m * q) (Currency m))).
Proof.
  intros [Hm _] [Ho _] Hq. split_and!.
  - unfold Add. rewrite add_guard_exact by done.
    destruct (String.eqb_spec (Currency m) (Currency o)); case_decide; try done; simpl.
    destruct (Z.ltb_spec MaxInt64 (Amount m + Amount o)); [done|].
    rewrite add64_id; [done|]. unfold in64, MinInt64. lia.
  - unfold Sub.
    destruct (String.eqb_spec (Currency m) (Currency o)); case_decide; try done; simpl.
    destruct (Z.ltb_spec (Amount m) (Amount o)), (Z.ltb_spec (Amount m - Amount o) 0); try lia; [done|].
    rewrite sub64_id; [done|]. unfold in64, MinInt64. lia.
  - unfold Multiply. destruct (Z.ltb_spec q 0); [done|].
    destruct (Z.eqb_spec q 0) as [->|]; simpl; [by rewrite Z.mul_0_r|].
    destruct (Z.eqb_spec (Amount m) 0) as [->|]; simpl; [done|].
    pose proof (mul_guard_exact (Amount m) q ltac:(lia)) as Hg.
    destruct (Z.ltb_spec (Z.quot MaxInt64 q) (Amount m)), (Z.ltb_spec MaxInt64 (Amount m * q));
      try lia; [done|].
    rewrite mul64_id; [done|]. unfold in64, MinInt64. nia.
Qed.

Lemma money_arithmetic_exact_witness :
  valid (MkMoney MaxInt64 "USD") ∧
  Add (MkMoney MaxInt64 "USD") (MkMoney 1 "USD") = Err ErrArithmeticOverflow.
Proof.
  assert (H1 : valid (MkMoney MaxInt64 "USD")) by (split; vm_compute; [split; discriminate | done]).
  assert (H2 : valid (MkMoney 1 "USD")) by (split; vm_compute; [split; discriminate | done]).
  split; [exact H1|].
  destruct (money_arithmetic_exact _ _ 2 H1 H2 ltac:(split; vm_compute; discriminate)) as [HA _].
  rewrite HA. vm_compute. reflexivity.
Defined.

(** The printed form of a valid amount determines it: two valid values that
    print alike are equal. *)
Theorem Format_inj m o : valid m → valid o → Format m = Format o → m = o.
Proof.
  destruct m as [a c], o as [b d]. intros [Ha Hc] [Hb Hd] H. simpl in *.
  destruct (currency_shape c Hc) as (c1 & c2 & c3 & -> & _).
  destruct (currency_shape d Hd) as (d1 & d2 & d3 & -> & _).
  unfold Format in H. cbn [Amount Currency String.append] in H.
  injection H as -> -> -> H.
  rewrite !Z.quot_div_nonneg in H by lia.
  destruct (split_at_dot _ _ _ _ (fmt_d_digits _ (Z.div_pos a 100 ltac:(lia) ltac:(lia)))
    (fmt_d_digits _ (Z.div_pos b 100 ltac:(lia) ltac:(lia))) H) as [Hq Hr].
  unfold fmt_d in Hq. apply (inj pretty) in Hq.
  rewrite !Z.rem_mod_nonneg in Hr by lia.
  apply fmt_02d_inj in Hr; [|apply Z.mod_pos_bound; lia..].
  f_equal. rewrite (Z.div_mod a 100), (Z.div_mod b 100) by lia. lia.
Qed.

Lemma Format_inj_witness :
  Format (MkMoney 1905 "USD") = "USD 19.05" ∧ MkMoney 1905 "USD" = MkMoney 1905 "USD".
Proof.
  split; [vm_compute; reflexivity|].
  apply Format_inj; [split; vm_compute; [split; discriminate | done]..|reflexivity].
Defined.
