(* ===== verification/Json.v ===== *)
(** JSON values as the code stores and exchanges them: the payloads of outbox
    messages, the cached responses of the idempotency table, and the text of a
    request when the handler has no raw body.

    A JSONB column holds the parsed value, so values are trees; a string that is
    the text of a UUID or of an instant is kept as that UUID or instant. *)

From S2P Require Import Prelude.

Inductive json :=
| JNull
| JBool (b : bool)
| JInt (z : Z)
| JString (s : string)
| JUUID (u : uuid)
| JTime (t : Z)
| JArray (l : list json)
| JObject (fields : list (string * json)).

(** ** Reading (encoding/json into a struct) *)

(** The value under a key; an absent key leaves the zero value of the field. *)
Fixpoint field (fields : list (string * json)) (k : string) : json :=
  match fields with
  | [] => JNull
  | (k', v) :: r => if String.eqb k k' then v else field r k
  end.

Definition as_int (j : json) : option Z :=
  match j with JInt z => Some z | JNull => Some 0 | _ => None end.
Definition as_string (j : json) : option string :=
  match j with JString s => Some s | JNull => Some "" | _ => None end.
Definition as_uuid (j : json) : option uuid :=
  match j with JUUID u => Some u | JNull => Some uuid_Nil | _ => None end.
Definition as_time (j : json) : option Z :=
  match j with JTime t => Some t | JNull => Some time_Zero | _ => None end.
Definition as_array (j : json) : option (list json) :=
  match j with JArray l => Some l | JNull => Some [] | _ => None end.
Definition as_object (j : json) : option (list (string * json)) :=
  match j with JObject l => Some l | JNull => Some [] | _ => None end.

(** ** Writing (json.Marshal) *)

Definition hex_digit (n : nat) : ascii :=
  if (n <? 10)%nat then ascii_of_nat (48 + n) else ascii_of_nat (87 + n).

(** The escape of a byte below 0x20 or one of the HTML characters. *)
Definition unicode_escape (a : ascii) : string :=
  let n := nat_of_ascii a in
  ("\u00" ++ String (hex_digit (n / 16)) (String (hex_digit (n mod 16)) ""))%string.

Definition backslash : ascii := "\".
Definition quote : ascii := "034".

(** Escaping with EscapeHTML, as [json.Marshal] does; the input is valid UTF-8.
    U+2028 and U+2029 (E2 80 A8 and E2 80 A9) are escaped too. *)
Fixpoint escape (s : string) : string :=
  match s with
  | EmptyString => EmptyString
  | String "226" (String "128" (String "168" r)) => "\u2028" ++ escape r
  | String "226" (String "128" (String "169" r)) => "\u2029" ++ escape r
  | String a r =>
      (if ascii_dec a quote then String backslash (String quote "")
       else if ascii_dec a backslash then String backslash (String backslash "")
       else if ascii_dec a "008" then "\b"
       else if ascii_dec a "012" then "\f"
       else if ascii_dec a "010" then "\n"
       else if ascii_dec a "013" then "\r"
       else if ascii_dec a "009" then "\t"
       else if (nat_of_ascii a <? 32)%nat || (if ascii_dec a "<" then true else false)
               || (if ascii_dec a ">" then true else false)
               || (if ascii_dec a "&" then true else false)
       then unicode_escape a
       else String a "") ++ escape r
  end%string.

Definition quoted (s : string) : string :=
  (String quote "" ++ escape s ++ String quote "")%string.

(** ** Checking a text (json.Valid)

    The scanner of encoding/json: a state, and the stack of the objects and arrays
    that are open, moved on by each byte. *)

Inductive parse_state := parseObjectKey | parseObjectValue | parseArrayValue.

Inductive scan_state :=
| stateBeginValue | stateBeginValueOrEmpty | stateBeginStringOrEmpty | stateBeginString
| stateEndValue | stateEndTop
| stateInString | stateInStringEsc | stateInStringEscU (more : nat)
| stateNeg | state1 | state0 | stateDot | stateDot0 | stateE | stateESign | stateE0
| stateLiteral (rest : string).

Definition maxNestingDepth : Z := 10000.

Definition json_space (c : ascii) : bool :=
  let n := nat_of_ascii c in ((n =? 32) || (n =? 9) || (n =? 13) || (n =? 10))%nat.
Definition json_digit (c : ascii) : bool :=
  let n := nat_of_ascii c in ((48 <=? n) && (n <=? 57))%nat.
Definition json_hex (c : ascii) : bool :=
  let n := nat_of_ascii c in
  json_digit c || ((97 <=? n) && (n <=? 102))%nat || ((65 <=? n) && (n <=? 70))%nat.

Definition scan := option (scan_state * list parse_state).

Definition pushParseState (ps : parse_state) (stack : list parse_state) (next : scan_state) : scan :=
  if maxNestingDepth <=? Z.of_nat (length stack) then None else Some (next, ps :: stack).

Definition popParseState (stack : list parse_state) : scan :=
  match stack with
  | [] => None
  | [_] => Some (stateEndTop, [])
  | _ :: rest => Some (stateEndValue, rest)
  end.

Definition step_EndValue (stack : list parse_state) (c : ascii) : scan :=
  match stack with
  | [] => if json_space c then Some (stateEndTop, []) else None
  | ps :: rest =>
      if json_space c then Some (stateEndValue, stack) else
      match ps, c with
      | parseObjectKey, ":" => Some (stateBeginValue, parseObjectValue :: rest)
      | parseObjectValue, "," => Some (stateBeginString, parseObjectKey :: rest)
      | parseObjectValue, "}" => popParseState stack
      | parseArrayValue, "," => Some (stateBeginValue, stack)
      | parseArrayValue, "]" => popParseState stack
      | _, _ => None
      end
  end%char.

Definition step_BeginValue (stack : list parse_state) (c : ascii) : scan :=
  if json_space c then Some (stateBeginValue, stack) else
  match c with
  | "{" => pushParseState parseObjectKey stack stateBeginStringOrEmpty
  | "[" => pushParseState parseArrayValue stack stateBeginValueOrEmpty
  | "034" => Some (stateInString, stack)
  | "-" => Some (stateNeg, stack)
  | "0" => Some (state0, stack)
  | "t" => Some (stateLiteral "rue", stack)
  | "f" => Some (stateLiteral "alse", stack)
  | "n" => Some (stateLiteral "ull", stack)
  | _ => if json_digit c then Some (state1, stack) else None
  end%char.

Definition step_BeginString (stack : list parse_state) (c : ascii) : scan :=
  if json_space c then Some (stateBeginString, stack)
  else if ascii_dec c quote then Some (stateInString, stack) else None.

(** After the digits before the point, and after those behind it. *)
Definition step_0 (stack : list parse_state) (c : ascii) : scan :=
  match c with
  | "." => Some (stateDot, stack)
  | "e" | "E" => Some (stateE, stack)
  | _ => step_EndValue stack c
  end%char.

Definition scan_step (st : scan_state) (stack : list parse_state) (c : ascii) : scan :=
  match st with
  | stateBeginValue => step_BeginValue stack c
  | stateBeginValueOrEmpty =>
      if json_space c then Some (stateBeginValueOrEmpty, stack)
      else if ascii_dec c "]" then step_EndValue stack c
      else step_BeginValue stack c
  | stateBeginStringOrEmpty =>
      if json_space c then Some (stateBeginStringOrEmpty, stack)
      else if ascii_dec c "}" then popParseState stack
      else step_BeginString stack c
  | stateBeginString => step_BeginString stack c
  | stateEndValue => step_EndValue stack c
  | stateEndTop => if json_space c then Some (stateEndTop, stack) else None
  | stateInString =>
      if ascii_dec c quote then Some (stateEndValue, stack)
      else if ascii_dec c backslash then Some (stateInStringEsc, stack)
      else if (nat_of_ascii c <? 32)%nat then None else Some (stateInString, stack)
  | stateInStringEsc =>
      match c with
      | "b" | "f" | "n" | "r" | "t" | "\" | "/" | "034" => Some (stateInString, stack)
      | "u" => Some (stateInStringEscU 3, stack)
      | _ => None
      end%char
  | stateInStringEscU more =>
      if json_hex c then
        Some (match more with O => stateInString | S more => stateInStringEscU more end, stack)
      else None
  | stateNeg => if ascii_dec c "0" then Some (state0, stack)
                else if json_digit c then Some (state1, stack) else None
  | state1 => if json_digit c then Some (state1, stack) else step_0 stack c
  | state0 => step_0 stack c
  | stateDot => if json_digit c then Some (stateDot0, stack) else None
  | stateDot0 => if json_digit c then Some (stateDot0, stack)
                 else match c with "e" | "E" => Some (stateE, stack) | _ => step_EndValue stack c end%char
  | stateE => match c with
              | "+" | "-" => Some (stateESign, stack)
              | _ => if json_digit c then Some (stateE0, stack) else None
              end%char
  | stateESign => if json_digit c then Some (stateE0, stack) else None
  | stateE0 => if json_digit c then Some (stateE0, stack) else step_EndValue stack c
  | stateLiteral rest =>
      match rest with
      | EmptyString => None
      | String r rest' =>
          if ascii_dec c r
          then Some (match rest' with EmptyString => stateEndValue | _ => stateLiteral rest' end, stack)
          else None
      end
  end.

Fixpoint scan_all (st : scan_state) (stack : list parse_state) (s : string) : scan :=
  match s with
  | EmptyString => Some (st, stack)
  | String c r =>
      match scan_step st stack c with
      | Some (st', stack') => scan_all st' stack' r
      | None => None
      end
  end.

(** [json.Valid]; at the end of the text the scanner is given one more space. *)
Definition Valid (s : string) : bool :=
  match scan_all stateBeginValue [] s with
  | Some (stateEndTop, _) => true
  | Some (st, stack) =>
      match scan_step st stack " " with Some (stateEndTop, _) => true | _ => false end
  | None => false
  end.

Example valid_texts :
  forallb Valid ["{}"; "[]"; " [1, -0.5e+3, true] "; "null"; "7"; "{" ++ quoted "a" ++ ":[{},[" ++ quoted "\u00e9" ++ "]]}"]%string
  && forallb (λ s, negb (Valid s)) [""; "{"; "[1,]"; "01"; "nul"; "{}x"; "{a:1}"; "1."; quoted "a" ++ ","]%string = true.
Proof. reflexivity. Qed.
