(* ===== verification/Sha256.v ===== *)
(** crypto/sha256 and encoding/hex, as order.ComputeRequestHash uses them: FIPS
    180-4 on 32-bit words kept as integers below 2^32. *)

From S2P Require Import Prelude.

Definition word (z : Z) : Z := z mod 2 ^ 32.
Definition rotr (n x : Z) : Z := Z.lor (Z.shiftr x n) (word (Z.shiftl x (32 - n))).
Definition shr (n x : Z) : Z := Z.shiftr x n.
Definition not32 (x : Z) : Z := Z.lxor x (2 ^ 32 - 1).

Definition Ch (x y z : Z) : Z := Z.lxor (Z.land x y) (Z.land (not32 x) z).
Definition Maj (x y z : Z) : Z := Z.lxor (Z.lxor (Z.land x y) (Z.land x z)) (Z.land y z).
Definition Sigma0 (x : Z) : Z := Z.lxor (Z.lxor (rotr 2 x) (rotr 13 x)) (rotr 22 x).
Definition Sigma1 (x : Z) : Z := Z.lxor (Z.lxor (rotr 6 x) (rotr 11 x)) (rotr 25 x).
Definition sigma0 (x : Z) : Z := Z.lxor (Z.lxor (rotr 7 x) (rotr 18 x)) (shr 3 x).
Definition sigma1 (x : Z) : Z := Z.lxor (Z.lxor (rotr 17 x) (rotr 19 x)) (shr 10 x).

(** The constants are the first 32 bits of the fractional parts of the cube roots of
    the first 64 primes, and of the square roots of the first eight. *)
Definition divides (d p : nat) : bool := (p mod d =? 0)%nat.
Definition prime (p : nat) : bool := negb (existsb (λ d, divides d p) (seq 2 (p - 2))).
Definition primes : list Z := Z.of_nat <$> List.filter prime (seq 2 310).

(** The integer cube root, by bisection of the [n] low bits. *)
Fixpoint cube_root (n : nat) (r z : Z) : Z :=
  match n with
  | O => r
  | S n => let r' := r + 2 ^ Z.of_nat n in cube_root n (if r' * r' * r' <=? z then r' else r) z
  end.

Definition K : list Z := Eval vm_compute in (λ p, word (cube_root 36 0 (p * 2 ^ 96))) <$> primes.
Definition H0 : list Z := Eval vm_compute in (λ p, word (Z.sqrt (p * 2 ^ 64))) <$> take 8 primes.

(** The message as bytes, padded to whole blocks of 64. *)
Fixpoint bytes (s : string) : list Z :=
  match s with
  | EmptyString => []
  | String a r => Z.of_nat (nat_of_ascii a) :: bytes r
  end.

Fixpoint big_endian (n : nat) (z : Z) : list Z :=
  match n with
  | O => []
  | S n => Z.shiftr z (8 * Z.of_nat n) mod 256 :: big_endian n z
  end.

Definition pad (m : list Z) : list Z :=
  let len := Z.of_nat (length m) in
  m ++ [128] ++ repeat 0 (Z.to_nat ((55 - len) mod 64)) ++ big_endian 8 (8 * len).

Definition word_of (b : list Z) : Z := foldl (λ acc x, acc * 256 + x) 0 b.

Fixpoint chunks {A} (fuel n : nat) (l : list A) : list (list A) :=
  match fuel, l with
  | O, _ | _, [] => []
  | S fuel, _ => take n l :: chunks fuel n (drop n l)
  end.

(** The 64 words of the schedule of a block; [w] holds the last 16, newest first. *)
Fixpoint schedule (n : nat) (w : list Z) : list Z :=
  match n with
  | O => []
  | S n =>
      let at_ i := nth i w 0 in
      let x := word (sigma1 (at_ 1%nat) + at_ 6%nat + sigma0 (at_ 14%nat) + at_ 15%nat) in
      x :: schedule n (x :: take 15 w)
  end.

Definition block_schedule (b : list Z) : list Z :=
  let w := word_of <$> chunks 16 4 b in w ++ schedule 48 (rev w).

Definition round (h : list Z) (kw : Z * Z) : list Z :=
  match h with
  | [a; b; c; d; e; f; g; hh] =>
      let t1 := hh + Sigma1 e + Ch e f g + kw.1 + kw.2 in
      let t2 := Sigma0 a + Maj a b c in
      [word (t1 + t2); a; b; c; word (d + t1); e; f; g]
  | _ => h
  end.

Definition compress (h : list Z) (b : list Z) : list Z :=
  zip_with (λ x y, word (x + y)) h (foldl round h (zip K (block_schedule b))).

Definition Sum256 (s : string) : list Z :=
  let p := pad (bytes s) in
  mjoin (big_endian 4 <$> foldl compress H0 (chunks (length p) 64 p)).

(** [hex.EncodeToString] *)
Definition hex_digit (z : Z) : ascii :=
  ascii_of_nat (Z.to_nat (if z <? 10 then 48 + z else 87 + z)).

Definition hex_EncodeToString (l : list Z) : string :=
  foldr (λ b s, String (hex_digit (b / 16)) (String (hex_digit (b mod 16)) s)) "" l.

(** The test vector of FIPS 180-4. *)
Example sha256_abc :
  hex_EncodeToString (Sum256 "abc") =
  "ba7816bf8f01cfea414140de5dae2223b00361a396177a9cb410ff61f20015ad".
Proof. vm_compute. reflexivity. Qed.

Example sha256_two_blocks :
  hex_EncodeToString (Sum256 "abcdbcdecdefdefgefghfghighijhijkijkljklmklmnlmnomnopnopq") =
  "248d6a61d20638b8e5c026930c3e6039a33ce45964ff2167f6ecedd419db06c1".
Proof. vm_compute. reflexivity. Qed.

Lemma hex_EncodeToString_length l :
  String.length (hex_EncodeToString l) = (2 * length l)%nat.
Proof. induction l as [|b l IH]; simpl; [done|]. rewrite IH. lia. Qed.

(** ** The digest has 32 bytes *)

Lemma foldl_round_length l h : length h = 8%nat → length (foldl round h l) = 8%nat.
Proof.
  revert h. induction l as [|kw l IH]; intros h Hh; simpl; [done|]. apply IH.
  by do 9 (destruct h as [|? h]; try discriminate Hh).
Qed.

Lemma foldl_compress_length l h : length h = 8%nat → length (foldl compress h l) = 8%nat.
Proof.
  revert h. induction l as [|b l IH]; intros h Hh; simpl; [done|]. apply IH.
  unfold compress. rewrite length_zip_with, foldl_round_length by done. lia.
Qed.

Lemma big_endian_length n z : length (big_endian n z) = n.
Proof. revert z. induction n as [|n IH]; intros z; simpl; [done|by rewrite IH]. Qed.

Lemma Sum256_length s : length (Sum256 s) = 32%nat.
Proof.
  unfold Sum256. set (h := foldl compress H0 _).
  assert (Hh : length h = 8%nat) by by apply foldl_compress_length. clearbody h.
  do 9 (destruct h as [|? h]; try discriminate Hh).
  rewrite !fmap_cons, fmap_nil. simpl mjoin. reflexivity.
Qed.
