(* ===== verification/Timestamp.v ===== *)
(** The texts of the standard library that a page cursor is made of: [time.Time.Format]
    and [time.Parse] with the layout [time.RFC3339Nano], and encoding/base64.

    An instant is a count of nanoseconds since the epoch.  A date is computed in the
    proleptic Gregorian calendar, by eras of 400 years. *)

From S2P Require Import Prelude.

(** * The calendar *)

Definition leap (y : Z) : bool :=
  (y mod 4 =? 0) && (negb (y mod 100 =? 0) || (y mod 400 =? 0)).

Definition daysIn (m y : Z) : Z :=
  if m =? 2 then (if leap y then 29 else 28)
  else if (m =? 4) || (m =? 6) || (m =? 9) || (m =? 11) then 30 else 31.

(** The month and day of a day of a year that begins in March, and back. *)
Definition month_day (doy : Z) : Z * Z :=
  let mp := (5 * doy + 2) / 153 in
  (if mp <? 10 then mp + 3 else mp - 9, doy - (153 * mp + 2) / 5 + 1).

Definition year_day (m d : Z) : Z := (153 * (if 2 <? m then m - 3 else m + 9) + 2) / 5 + d - 1.

(** The year, counted from March, month and day of a day of an era: centuries, groups of
    four years, years. *)
Definition era_date (doe : Z) : Z * Z * Z :=
  let c := Z.min (doe / 36524) 3 in
  let doc := doe - 36524 * c in
  let q := doc / 1461 in
  let doq := doc - 1461 * q in
  let r := Z.min (doq / 365) 3 in
  let '(m, d) := month_day (doq - 365 * r) in
  (100 * c + 4 * q + r, m, d).

Definition era_day (yoe m d : Z) : Z := yoe * 365 + yoe / 4 - yoe / 100 + year_day m d.

(** January and February belong to the March year before. *)
Definition late (m : Z) : Z := if m <=? 2 then 1 else 0.

(** The date of a day counted from 1970-01-01, and back. *)
Definition civil_from_days (z : Z) : Z * Z * Z :=
  let '(yoe, m, d) := era_date ((z + 719468) mod 146097) in
  (yoe + (z + 719468) / 146097 * 400 + late m, m, d).

Definition days_from_civil (y m d : Z) : Z :=
  let y' := y - late m in
  y' / 400 * 146097 + era_day (y' mod 400) m d - 719468.

Definition month_day_ok (doy : Z) : bool :=
  let '(m, d) := month_day doy in
  (1 <=? m) && (m <=? 12) && (1 <=? d) &&
  (d <=? (if m =? 2 then (if doy =? 365 then 29 else 28) else daysIn m 0)) && (year_day m d =? doy) &&
  (if doy =? 365 then (m =? 2) else true).

(** [f] holds of the [fuel] numbers from [z] on. *)
Fixpoint count (fuel : nat) (z : Z) (f : Z → bool) : bool :=
  match fuel with
  | O => true
  | S fuel => f z && count fuel (z + 1) f
  end.

Lemma count_spec fuel z f i : count fuel z f = true → z <= i < z + Z.of_nat fuel → f i = true.
Proof.
  revert z. induction fuel as [|fuel IH]; intros z; simpl; [lia|].
  intros [Hz Hr]%andb_prop Hi. destruct (decide (i = z)) as [->|]; [done|].
  apply (IH (z + 1)); [done|lia].
Qed.

Lemma months_checked : count (Z.to_nat 366) 0 month_day_ok = true.
Proof. vm_compute. reflexivity. Qed.

Lemma era_date_spec doe yoe m d :
  0 <= doe < 146097 → era_date doe = (yoe, m, d) →
  0 <= yoe < 400 ∧ 1 <= m <= 12 ∧ 1 <= d <= daysIn m (yoe + late m) ∧ era_day yoe m d = doe.
Proof.
  intros Hdoe. unfold era_date.
  set (c := Z.min (doe / 36524) 3). set (doc := doe - 36524 * c).
  assert (0 <= c <= 3 ∧ 0 <= doc <= 36524 ∧ (doc = 36524 → c = 3)) as (Hc & Hdoc & Hc3)
    by (subst doc c; pose proof (Z.div_mod doe 36524); pose proof (Z.mod_pos_bound doe 36524); lia).
  set (q := doc / 1461). set (doq := doc - 1461 * q).
  assert (0 <= q <= 24 ∧ 0 <= doq <= 1460 ∧ (q = 24 → doq = 1460 → doc = 36524)) as (Hq & Hdoq & Hq24)
    by (subst doq q; pose proof (Z.div_mod doc 1461); pose proof (Z.mod_pos_bound doc 1461); lia).
  set (r := Z.min (doq / 365) 3). set (doy := doq - 365 * r).
  assert (0 <= r <= 3 ∧ 0 <= doy <= 365 ∧ (doy = 365 → r = 3 ∧ doq = 1460)) as (Hr & Hdoy & Hr3)
    by (subst doy r; pose proof (Z.div_mod doq 365); pose proof (Z.mod_pos_bound doq 365); lia).
  assert (doe = 36524 * c + 1461 * q + 365 * r + doy) as Hsum by lia.
  clearbody doy r doq q doc c.
  assert (month_day_ok doy = true) as Hok.
  { eapply count_spec; [exact months_checked|]. rewrite Z2Nat.id; lia. }
  unfold month_day_ok in Hok. destruct (month_day doy) as [m' d']. intros [= <- <- <-].
  rewrite !andb_true_iff, !Z.leb_le, Z.eqb_eq in Hok.
  destruct Hok as (((((Hm1 & Hm2) & Hd1) & Hd2) & Hyd) & Hlast).
  assert ((100 * c + 4 * q + r) / 4 = 25 * c + q) as H4 by (symmetry; apply (Z.div_unique _ 4 _ r); lia).
  assert ((100 * c + 4 * q + r) / 100 = c) as H100 by (symmetry; apply (Z.div_unique _ 100 _ (4 * q + r)); lia).
  split; [lia|]. split; [lia|]. split.
  - split; [done|]. unfold daysIn in *. destruct (Z.eqb_spec m' 2) as [->|]; [|done].
    destruct (Z.eqb_spec doy 365) as [H365|].
    + destruct (Hr3 H365) as [-> H1460].
      assert (leap (100 * c + 4 * q + 3 + late 2) = true) as ->; [|done].
      change (late 2) with 1. unfold leap.
      assert ((100 * c + 4 * q + 3 + 1) mod 4 = 0) as ->
        by (symmetry; apply (Z.mod_unique_pos _ 4 (25 * c + q + 1)); lia).
      destruct (decide (q = 24)) as [->|Hq']; [by rewrite (Hc3 (Hq24 eq_refl H1460))|].
      assert ((100 * c + 4 * q + 3 + 1) mod 100 = 4 * (q + 1)) as ->
        by (symmetry; apply (Z.mod_unique_pos _ 100 c); lia).
      destruct (Z.eqb_spec (4 * (q + 1)) 0); [lia|done].
    + destruct (leap _); lia.
  - unfold era_day. rewrite H4, H100, Hyd. lia.
Qed.

Lemma leap_period y k : leap (y + k * 400) = leap y.
Proof.
  unfold leap. rewrite Z.mod_add by lia.
  replace (y + k * 400) with (y + (k * 100) * 4) by lia. rewrite Z.mod_add by lia.
  replace (y + k * 100 * 4) with (y + (k * 4) * 100) by lia. by rewrite Z.mod_add by lia.
Qed.

Lemma daysIn_period m y k : daysIn m (y + k * 400) = daysIn m y.
Proof. unfold daysIn. by rewrite leap_period. Qed.

(** Every day has a date that is a date of the calendar, and is the day of its date. *)
Lemma civil_from_days_spec z y m d :
  civil_from_days z = (y, m, d) →
  1 <= m <= 12 ∧ 1 <= d <= daysIn m y ∧ days_from_civil y m d = z.
Proof.
  unfold civil_from_days, days_from_civil. set (a := z + 719468).
  pose proof (Z.mod_pos_bound a 146097 ltac:(lia)) as Hb.
  destruct (era_date (a mod 146097)) as [[yoe m'] d'] eqn:Hdate.
  destruct (era_date_spec _ _ _ _ Hb Hdate) as (Hy & Hm & Hd & Hback).
  intros [= <- <- <-]. split; [done|]. split.
  - replace (yoe + a / 146097 * 400 + late m') with (yoe + late m' + a / 146097 * 400) by lia.
    by rewrite daysIn_period.
  - replace (yoe + a / 146097 * 400 + late m' - late m') with (yoe + a / 146097 * 400) by lia.
    rewrite Z.div_add, Z.mod_add by lia.
    rewrite (Z.div_small yoe 400), (Z.mod_small yoe 400) by lia. rewrite Hback.
    pose proof (Z.div_mod a 146097 ltac:(lia)). subst a. lia.
Qed.

(** * Digits *)

Definition digit (d : Z) : ascii := ascii_of_nat (48 + Z.to_nat d).
Definition digit_value (a : ascii) : option Z :=
  let n := nat_of_ascii a in
  if ((48 <=? n) && (n <=? 57))%nat then Some (Z.of_nat n - 48) else None.

Lemma digit_value_digit d : 0 <= d < 10 → digit_value (digit d) = Some d.
Proof.
  intros H.
  assert (d = 0 ∨ d = 1 ∨ d = 2 ∨ d = 3 ∨ d = 4 ∨ d = 5 ∨ d = 6 ∨ d = 7 ∨ d = 8 ∨ d = 9)
    as Hd by lia. by repeat destruct Hd as [->|Hd]; [..|subst d].
Qed.

#[global] Arguments digit : simpl never.
#[global] Arguments digit_value : simpl never.

(** Two digits, and four. *)
Definition two (n : Z) : string := String (digit (n / 10)) (String (digit (n mod 10)) "").
Definition year_text (y : Z) : string :=
  if y <? 0 then "-" ++ (if - y <? 10000 then two (- y / 100) ++ two (- y mod 100) else pretty (- y))
  else if y <? 10000 then two (y / 100) ++ two (y mod 100) else pretty y.

(** [getnum]: two digits, or one if [fixed] does not hold. *)
Definition getnum (fixed : bool) (s : string) : option (Z * string) :=
  match s with
  | String a r =>
      x ← digit_value a;
      match r with
      | String b r' =>
          match digit_value b with
          | Some y => Some (10 * x + y, r')
          | None => if fixed then None else Some (x, r)
          end
      | EmptyString => if fixed then None else Some (x, r)
      end
  | EmptyString => None
  end.

Lemma getnum_two fixed n r : 0 <= n < 100 → getnum fixed (two n ++ r) = Some (n, r).
Proof.
  intros Hn. unfold two. change (getnum fixed _) with (x ← digit_value (digit (n / 10)); match digit_value (digit (n mod 10)) with Some y => Some (10 * x + y, r) | None => if fixed then None else Some (x, String (digit (n mod 10)) r) end).
  rewrite (digit_value_digit (n / 10)) by (split; [apply Z.div_pos|apply Z.div_lt_upper_bound]; lia).
  rewrite (digit_value_digit (n mod 10)) by (apply Z.mod_pos_bound; lia).
  cbn [mbind option_bind]. rewrite <-(Z.div_mod n 10) by lia. done.
Qed.

(** ** A fraction of a second *)

(** The last [k] digits of [n], the least significant first. *)
Fixpoint lsd (k : nat) (n : Z) : list Z :=
  match k with O => [] | S k => n mod 10 :: lsd k (n / 10) end.

Fixpoint strip (l : list Z) : list Z :=
  match l with 0 :: r => strip r | _ => l end.

Fixpoint digits (l : list Z) : string :=
  match l with [] => "" | d :: r => String (digit d) (digits r) end.

(** The layout [.999999999]: nothing, or a point and the digits up to the last that is
    not zero. *)
Definition fraction (ns : Z) : string :=
  match strip (lsd 9 ns) with
  | [] => ""
  | l => String "." (digits (reverse l))
  end.

(** The leading digits of a string. *)
Fixpoint take_digits (s : string) : list Z * string :=
  match s with
  | String a r =>
      match digit_value a with
      | Some d => let '(l, r') := take_digits r in (d :: l, r')
      | None => ([], s)
      end
  | EmptyString => ([], s)
  end.

Definition value_of (l : list Z) : Z := foldl (λ acc d, 10 * acc + d) 0 l.

(** [parseNanoseconds]: at most nine digits count. *)
Definition nanoseconds (l : list Z) : Z :=
  let l := take 9 l in value_of l * 10 ^ Z.of_nat (9 - length l).

(** A point (a comma cannot occur, the cursor being split at commas) and a digit. *)
Definition get_fraction (s : string) : Z * string :=
  match s with
  | String "." r =>
      match take_digits r with
      | ([], _) => (0, s)
      | (l, r') => (nanoseconds l, r')
      end
  | _ => (0, s)
  end.

Definition is_digit (d : Z) : Prop := 0 <= d < 10.

Lemma lsd_digits k n : Forall is_digit (lsd k n).
Proof.
  revert n. induction k as [|k IH]; intros n; simpl; constructor; [|apply IH].
  apply Z.mod_pos_bound. lia.
Qed.

Lemma strip_digits l : Forall is_digit l → Forall is_digit (strip l).
Proof. induction 1 as [|d l Hd Hl IH]; simpl; [done|]. destruct d; auto. Qed.

Lemma strip_length l : (length (strip l) <= length l)%nat.
Proof. induction l as [|[] l IH]; simpl; lia. Qed.

Lemma lsd_length k n : length (lsd k n) = k.
Proof. revert n. induction k as [|k IH]; intros n; simpl; [done|]. by rewrite IH. Qed.

Lemma value_of_snoc l d : value_of (l ++ [d]) = 10 * value_of l + d.
Proof. unfold value_of. by rewrite foldl_app. Qed.

Lemma value_of_lsd k n : 0 <= n < 10 ^ Z.of_nat k → value_of (reverse (lsd k n)) = n.
Proof.
  revert n. induction k as [|k IH]; intros n Hn; [simpl in Hn; change (0 = n); lia|].
  simpl. rewrite reverse_cons, value_of_snoc. rewrite Nat2Z.inj_succ, Z.pow_succ_r in Hn by lia.
  rewrite IH; [pose proof (Z.div_mod n 10); lia|].
  split; [apply Z.div_pos; lia|]. apply Z.div_lt_upper_bound; lia.
Qed.

Lemma value_of_strip l :
  value_of (reverse (strip l)) * 10 ^ Z.of_nat (length l - length (strip l)) = value_of (reverse l).
Proof.
  induction l as [|d l IH]; [done|]. destruct d as [|p|p].
  - simpl. rewrite reverse_cons, value_of_snoc, <-IH.
    pose proof (strip_length l).
    replace (S (length l) - length (strip l))%nat with (S (length l - length (strip l))) by lia.
    rewrite Nat2Z.inj_succ, Z.pow_succ_r by lia. lia.
  - simpl. rewrite Nat.sub_diag. simpl. lia.
  - simpl. rewrite Nat.sub_diag. simpl. lia.
Qed.

Lemma take_digits_digits l r :
  Forall is_digit l → (∀ a r', r = String a r' → digit_value a = None) →
  take_digits (digits l ++ r) = (l, r).
Proof.
  intros Hl Hr. induction l as [|d l IH].
  - destruct r as [|a r]; [done|]. change (digits [] ++ String a r)%string with (String a r).
    cbn [take_digits]. by rewrite (Hr a r eq_refl).
  - apply Forall_cons in Hl as [Hd Hl]. change (digits (d :: l) ++ r)%string with (String (digit d) (digits l ++ r)).
    cbn [take_digits]. rewrite digit_value_digit by exact Hd. by rewrite (IH Hl).
Qed.

Lemma get_fraction_fraction ns r :
  0 <= ns < 10 ^ 9 → (∀ a r', r = String a r' → a ≠ "."%char ∧ digit_value a = None) →
  get_fraction (fraction ns ++ r) = (ns, r).
Proof.
  intros Hns Hr. unfold fraction.
  pose proof (value_of_strip (lsd 9 ns)) as Hv. rewrite value_of_lsd in Hv by done.
  pose proof (strip_digits _ (lsd_digits 9 ns)) as Hd.
  pose proof (strip_length (lsd 9 ns)) as Hlen. rewrite lsd_length in Hv, Hlen.
  destruct (strip (lsd 9 ns)) as [|d l] eqn:Hs.
  - change (value_of (reverse [])) with 0 in Hv. assert (ns = 0) as -> by lia.
    simpl. unfold get_fraction. destruct r as [|a r']; [done|].
    destruct (Hr a r' eq_refl) as [Ha _].
    destruct a as [[] [] [] [] [] [] [] []]; done.
  - change (String "." (digits (reverse (d :: l))) ++ r)%string
      with (String "." (digits (reverse (d :: l)) ++ r)).
    unfold get_fraction.
    rewrite take_digits_digits; [|by apply Forall_reverse|intros a r' ->; by apply (Hr a r')].
    rewrite <-(length_reverse (d :: l)) in Hlen, Hv. destruct (reverse (d :: l)) as [|x xs] eqn:Hx.
    { by apply (f_equal length) in Hx; rewrite length_reverse in Hx. }
    unfold nanoseconds. rewrite take_ge by exact Hlen. by rewrite Hv.
Qed.

(** * Times *)

(** The offset of the local zone at an instant, in seconds east of UTC. *)
Class Location := zone : Z → Z.
Definition UTC : Location := λ _, 0.

(** An offset that a text can carry: of whole minutes, within a day. *)
Definition zone_ok (off : Z) : Prop := off mod 60 = 0 ∧ -86400 <= off <= 86400.

Definition zone_text (off : Z) : string :=
  if off =? 0 then "Z" else
  let z := Z.quot off 60 in
  String (if z <? 0 then "-" else "+")
    (two (Z.abs z / 60) ++ String ":" (two (Z.abs z mod 60)))%string.

Definition clock_text (s : Z) : string :=
  (two (s / 3600) ++ String ":" (two (s / 60 mod 60) ++ String ":" (two (s mod 60))))%string.

(** [t.Format(time.RFC3339Nano)] *)
Definition Format `{Location} (t : Z) : string :=
  let sec := t / Second + zone t in
  let '(y, m, d) := civil_from_days (sec / 86400) in
  (year_text y ++ String "-" (two m ++ String "-" (two d ++ String "T"
    (clock_text (sec mod 86400) ++ fraction (t mod Second) ++ zone_text (zone t)))))%string.

(** ** Parsing *)

Definition lit (c : ascii) (s : string) : option string :=
  match s with
  | String a r => if decide (a = c) then Some r else None
  | EmptyString => None
  end.

Definition get_year (s : string) : option (Z * string) :=
  '(a, s) ← getnum true s; '(b, s) ← getnum true s; Some (100 * a + b, s).

Definition get_offset (sign : Z) (r : string) : option (Z * string) :=
  '(hh, r) ← getnum true r;
  r ← lit ":" r;
  '(mm, r) ← getnum true r;
  if (24 <? hh) || (60 <? mm) then None else Some (sign * (hh * 60 + mm) * 60, r).

Definition get_zone (s : string) : option (Z * string) :=
  match s with
  | String "Z" r => Some (0, r)
  | String "+" r => get_offset 1 r
  | String "-" r => get_offset (-1) r
  | _ => None
  end.

Definition get_clock (s : string) : option (Z * string) :=
  '(h, s) ← getnum false s;
  s ← lit ":" s;
  '(mi, s) ← getnum true s;
  s ← lit ":" s;
  '(sec, s) ← getnum true s;
  if (h <? 24) && (mi <? 60) && (sec <? 60) then Some (h * 3600 + mi * 60 + sec, s) else None.

(** [time.Parse(time.RFC3339Nano, s)] *)
Definition Parse (s : string) : option Z :=
  '(y, s) ← get_year s;
  s ← lit "-" s;
  '(m, s) ← getnum true s;
  s ← lit "-" s;
  '(d, s) ← getnum true s;
  s ← lit "T" s;
  '(clock, s) ← get_clock s;
  let '(ns, s) := get_fraction s in
  '(off, s) ← get_zone s;
  if (1 <=? m) && (m <=? 12) && (1 <=? d) && (d <=? daysIn m y) && String.eqb s ""
  then Some ((days_from_civil y m d * 86400 + clock - off) * Second + ns) else None.

Lemma two_bounds a b : 0 <= a < b * 100 → 0 < b → 0 <= a / b < 100.
Proof. intros. split; [apply Z.div_pos; lia|apply Z.div_lt_upper_bound; lia]. Qed.

Lemma lit_cons c r : lit c (String c r) = Some r.
Proof. unfold lit. by rewrite decide_True. Qed.

Lemma get_year_text y r : 0 <= y < 10000 → get_year (year_text y ++ r) = Some (y, r).
Proof.
  intros Hy. unfold year_text. destruct (Z.ltb_spec y 0); [lia|]. destruct (Z.ltb_spec y 10000); [|lia].
  rewrite append_assoc. unfold get_year.
  rewrite getnum_two by (apply two_bounds; lia). cbn [mbind option_bind].
  rewrite getnum_two by (apply Z.mod_pos_bound; lia). cbn [mbind option_bind].
  by rewrite <-Z.div_mod by lia.
Qed.

Lemma get_clock_text s r : 0 <= s < 86400 → get_clock (clock_text s ++ r) = Some (s, r).
Proof.
  intros Hs. unfold clock_text, get_clock.
  assert (0 <= s / 3600 < 24) as Hh by (split; [apply Z.div_pos|apply Z.div_lt_upper_bound]; lia).
  pose proof (Z.mod_pos_bound (s / 60) 60 ltac:(lia)) as Hm.
  pose proof (Z.mod_pos_bound s 60 ltac:(lia)) as Hsec.
  rewrite append_assoc, getnum_two by lia. cbn [mbind option_bind].
  change (String ":" ?a ++ r)%string with (String ":" (a ++ r)). rewrite lit_cons. cbn [mbind option_bind].
  rewrite append_assoc, getnum_two by lia. cbn [mbind option_bind].
  change (String ":" ?a ++ r)%string with (String ":" (a ++ r)). rewrite lit_cons. cbn [mbind option_bind].
  rewrite getnum_two by lia. cbn [mbind option_bind].
  destruct (Z.ltb_spec (s / 3600) 24), (Z.ltb_spec (s / 60 mod 60) 60), (Z.ltb_spec (s mod 60) 60); try lia.
  cbn [andb]. do 2 f_equal. pose proof (Z.div_mod s 60 ltac:(lia)).
  pose proof (Z.div_mod (s / 60) 60 ltac:(lia)). rewrite Z.div_div in * by lia.
  change (60 * 60) with 3600 in *. lia.
Qed.

Lemma get_zone_text off : zone_ok off → get_zone (zone_text off) = Some (off, "").
Proof.
  intros [Hmod Hb]. unfold zone_text. destruct (Z.eqb_spec off 0) as [->|Hne]; [done|].
  apply Z.mod_divide in Hmod as [k ->]; [|lia]. rewrite Z.quot_mul by lia.
  assert (0 <= Z.abs k / 60 <= 24) as Hh by (split; [apply Z.div_pos|apply Z.div_le_upper_bound]; lia).
  pose proof (Z.mod_pos_bound (Z.abs k) 60 ltac:(lia)) as Hm.
  pose proof (Z.div_mod (Z.abs k) 60 ltac:(lia)) as Hk.
  assert (∀ sign, get_offset sign (two (Z.abs k / 60) ++ String ":" (two (Z.abs k mod 60)))
          = Some (sign * Z.abs k * 60, "")) as Hoff.
  { intros sign. unfold get_offset. rewrite getnum_two by lia. cbn [mbind option_bind].
    rewrite lit_cons. cbn [mbind option_bind].
    change (two (Z.abs k mod 60)) with (two (Z.abs k mod 60) ++ "")%string.
    rewrite getnum_two by lia. cbn [mbind option_bind].
    destruct (Z.ltb_spec 24 (Z.abs k / 60)), (Z.ltb_spec 60 (Z.abs k mod 60)); try lia.
    cbn [orb]. do 3 f_equal. lia. }
  destruct (Z.ltb_spec k 0).
  - etrans; [apply (Hoff (-1))|]. do 2 f_equal. lia.
  - etrans; [apply (Hoff 1)|]. do 2 f_equal. lia.
Qed.

(** The year of an instant on the local calendar. *)
Definition year_of `{Location} (t : Z) : Z :=
  (civil_from_days ((t / Second + zone t) / 86400)).1.1.

(** An instant whose text is read back. *)
Definition printable `{Location} (t : Z) : Prop := 0 <= year_of t < 10000 ∧ zone_ok (zone t).

Lemma clock_head s : ∃ c r, zone_text s = String c r ∧ c ≠ "."%char ∧ digit_value c = None.
Proof.
  unfold zone_text. destruct (s =? 0); [by do 2 eexists|].
  destruct (Z.quot s 60 <? 0); by do 2 eexists.
Qed.

Lemma Parse_Format `{Location} t : printable t → Parse (Format t) = Some t.
Proof.
  intros [Hy Hz]. unfold Format, year_of in *. set (sec := t / Second + zone t) in *.
  destruct (civil_from_days (sec / 86400)) as [[y m] d] eqn:Hdate. simpl in Hy.
  destruct (civil_from_days_spec _ _ _ _ Hdate) as (Hm & Hd & Hback).
  assert (daysIn m y <= 31) by (unfold daysIn; repeat case_match; lia).
  assert (0 <= t mod Second < 10 ^ 9) as Hns by (apply Z.mod_pos_bound; reflexivity).
  unfold Parse. rewrite get_year_text by done. cbn [mbind option_bind].
  rewrite lit_cons. cbn [mbind option_bind].
  rewrite getnum_two by lia. cbn [mbind option_bind].
  rewrite lit_cons. cbn [mbind option_bind].
  rewrite getnum_two by lia. cbn [mbind option_bind].
  rewrite lit_cons. cbn [mbind option_bind].
  rewrite get_clock_text by (apply Z.mod_pos_bound; lia). cbn [mbind option_bind].
  rewrite get_fraction_fraction; [|done|].
  2:{ intros a r'. destruct (clock_head (zone t)) as (c & r & -> & Hc). by intros [= <- _]. }
  rewrite get_zone_text by done. cbn [mbind option_bind].
  rewrite !(proj2 (Z.leb_le _ _)) by lia. simpl. f_equal. rewrite Hback.
  pose proof (Z.div_mod sec 86400 ltac:(lia)). pose proof (Z.div_mod t Second ltac:(done)). lia.
Qed.

Example format_ex : @Format UTC 1700000000123456000 = "2023-11-14T22:13:20.123456Z".
Proof. vm_compute. reflexivity. Qed.
Example parse_ex : Parse "2024-02-29T7:30:00+05:30" = Some 1709172000000000000.
Proof. vm_compute. reflexivity. Qed.
Example parse_bad : Parse "2023-02-29T07:30:00Z" = None.
Proof. vm_compute. reflexivity. Qed.

(** * Base64 (encoding/base64, [StdEncoding]) *)

(** Six bits, the most significant first. *)
Inductive sextet := Sextet (b5 b4 b3 b2 b1 b0 : bool).

Definition sextet_index (s : sextet) : nat :=
  let '(Sextet b5 b4 b3 b2 b1 b0) := s in
  (32 * Nat.b2n b5 + 16 * Nat.b2n b4 + 8 * Nat.b2n b3 + 4 * Nat.b2n b2 + 2 * Nat.b2n b1 + Nat.b2n b0)%nat.

Definition sextet_of (n : nat) : sextet :=
  let b := Nat.testbit n in Sextet (b 5%nat) (b 4%nat) (b 3%nat) (b 2%nat) (b 1%nat) (b 0%nat).

Definition alphabet : string := "ABCDEFGHIJKLMNOPQRSTUVWXYZabcdefghijklmnopqrstuvwxyz0123456789+/".

Definition encode_char (s : sextet) : ascii := default "="%char (String.get (sextet_index s) alphabet).

Definition decode_char (c : ascii) : option sextet :=
  let n := nat_of_ascii c in
  (if (65 <=? n) && (n <=? 90) then Some (sextet_of (n - 65))
   else if (97 <=? n) && (n <=? 122) then Some (sextet_of (n - 71))
   else if (48 <=? n) && (n <=? 57) then Some (sextet_of (n + 4))
   else if n =? 43 then Some (sextet_of 62)
   else if n =? 47 then Some (sextet_of 63) else None)%nat.

Lemma decode_encode_char s : decode_char (encode_char s) = Some s.
Proof. by destruct s as [[] [] [] [] [] []]. Qed.

(** The three bytes of four sextets: the first two sextets give one byte, and so on. *)
Definition byte1 (p q : sextet) : ascii :=
  let '(Sextet p5 p4 p3 p2 p1 p0) := p in let '(Sextet q5 q4 _ _ _ _) := q in
  Ascii q4 q5 p0 p1 p2 p3 p4 p5.
Definition byte2 (q t : sextet) : ascii :=
  let '(Sextet _ _ q3 q2 q1 q0) := q in let '(Sextet t5 t4 t3 t2 _ _) := t in
  Ascii t2 t3 t4 t5 q0 q1 q2 q3.
Definition byte3 (t u : sextet) : ascii :=
  let '(Sextet _ _ _ _ t1 t0) := t in let '(Sextet u5 u4 u3 u2 u1 u0) := u in
  Ascii u0 u1 u2 u3 u4 u5 t0 t1.

Definition sextet1 (a : ascii) : sextet :=
  let '(Ascii _ _ a2 a3 a4 a5 a6 a7) := a in Sextet a7 a6 a5 a4 a3 a2.
Definition sextet2 (a b : ascii) : sextet :=
  let '(Ascii a0 a1 _ _ _ _ _ _) := a in let '(Ascii _ _ _ _ b4 b5 b6 b7) := b in
  Sextet a1 a0 b7 b6 b5 b4.
Definition sextet3 (b c : ascii) : sextet :=
  let '(Ascii b0 b1 b2 b3 _ _ _ _) := b in let '(Ascii _ _ _ _ _ _ c6 c7) := c in
  Sextet b3 b2 b1 b0 c7 c6.
Definition sextet4 (c : ascii) : sextet :=
  let '(Ascii c0 c1 c2 c3 c4 c5 _ _) := c in Sextet c5 c4 c3 c2 c1 c0.

(** [EncodeToString] *)
Fixpoint EncodeToString (s : string) : string :=
  match s with
  | String a (String b (String c r)) =>
      String (encode_char (sextet1 a)) (String (encode_char (sextet2 a b))
        (String (encode_char (sextet3 b c)) (String (encode_char (sextet4 c)) (EncodeToString r))))
  | String a (String b EmptyString) =>
      String (encode_char (sextet1 a)) (String (encode_char (sextet2 a b))
        (String (encode_char (sextet3 b "000")) "="))
  | String a EmptyString =>
      String (encode_char (sextet1 a)) (String (encode_char (sextet2 a "000")) "==")
  | EmptyString => EmptyString
  end.

(** Line ends are skipped. *)
Fixpoint skip_newlines (s : string) : string :=
  match s with
  | String a r =>
      if (Nat.eqb (nat_of_ascii a) 10 || Nat.eqb (nat_of_ascii a) 13) then skip_newlines r
      else String a (skip_newlines r)
  | EmptyString => EmptyString
  end.

(** Four characters at a time; a padding ends the text. *)
Fixpoint decode_quads (s : string) : option string :=
  match s with
  | EmptyString => Some ""
  | String w (String x (String y (String z r))) =>
      p ← decode_char w; q ← decode_char x;
      if decide (z = "="%char) then
        if negb (String.eqb r "") then None else
        if decide (y = "="%char) then Some (String (byte1 p q) "") else
        t ← decode_char y; Some (String (byte1 p q) (String (byte2 q t) ""))
      else
        t ← decode_char y; u ← decode_char z; rest ← decode_quads r;
        Some (String (byte1 p q) (String (byte2 q t) (String (byte3 t u) rest)))
  | _ => None
  end.

(** [DecodeString] *)
Definition DecodeString (s : string) : option string := decode_quads (skip_newlines s).

Lemma encode_char_plain s :
  Nat.eqb (nat_of_ascii (encode_char s)) 10 || Nat.eqb (nat_of_ascii (encode_char s)) 13 = false.
Proof. by destruct s as [[] [] [] [] [] []]. Qed.

Lemma encode_char_pad s : encode_char s ≠ "="%char.
Proof. by destruct s as [[] [] [] [] [] []]. Qed.

(** A property of texts, three bytes at a time. *)
Lemma string_ind3 (P : string → Prop) :
  P "" → (∀ a, P (String a "")) → (∀ a b, P (String a (String b ""))) →
  (∀ a b c r, P r → P (String a (String b (String c r)))) → ∀ s, P s.
Proof.
  intros H0 H1 H2 H3 s.
  cut (P s ∧ (∀ a, P (String a s)) ∧ (∀ a b, P (String a (String b s)))); [tauto|].
  induction s as [|a s (IH1 & IH2 & IH3)]; [done|]. split_and!; auto.
Qed.

Lemma skip_newlines_encoded s : skip_newlines (EncodeToString s) = EncodeToString s.
Proof.
  induction s as [|a|a b|a b c r IH] using string_ind3; cbn [EncodeToString skip_newlines];
    rewrite ?encode_char_plain; [done..|]. by rewrite IH.
Qed.

Lemma DecodeString_EncodeToString s : DecodeString (EncodeToString s) = Some s.
Proof.
  unfold DecodeString. rewrite skip_newlines_encoded.
  induction s as [|a|a b|a b c r IH] using string_ind3; cbn [EncodeToString decode_quads]; [done|..];
    rewrite !decode_encode_char; cbn [mbind option_bind].
  - by destruct a.
  - rewrite decide_True by done. change (negb (String.eqb "" "")) with false. cbv iota.
    rewrite decide_False by apply encode_char_pad. cbn [mbind option_bind]. by destruct a, b.
  - rewrite decide_False by apply encode_char_pad. cbn [mbind option_bind]. rewrite IH. by destruct a, b, c.
Qed.

Example base64_ex : EncodeToString "shop!" = "c2hvcCE=".
Proof. reflexivity. Qed.
