(* ===== verification/Decode.v ===== *)
(** encoding/json, reading: a text is parsed into a tree, and the tree stored into a Go
    value.  The bodies of requests and the values of consumed messages are read with it.

    A Go value is filled in field by field ([setter]): an error of a field is kept while
    the others are read on, as [json.Decoder] does, so that a caller that drops the error
    sees what was stored.  Duplicate keys are stored one after the other.  The texts of
    the errors are not fixed by the package and are a parameter ([JsonErrorText]). *)

From S2P Require Import Prelude Json Strconv Timestamp.

(** * Trees *)

Inductive value :=
| VNull
| VBool (b : bool)
| VNumber (literal : string)
| VString (s : string)
| VArray (l : list value)
| VObject (members : list (string * value)).

(** ** Characters *)

Definition byte (n : nat) : string := String (ascii_of_nat n) "".

Definition between (lo hi : nat) (a : ascii) : bool :=
  let n := nat_of_ascii a in ((lo <=? n) && (n <=? hi))%nat.

(** The size of the well-formed UTF-8 character at the head of a text, 0 if there is none
    ([utf8.DecodeRune]). *)
Definition rune_len (s : string) : nat :=
  let cont := between 128 191 in
  match s with
  | String a r1 =>
      if between 0 127 a then 1 else
      match r1 with
      | String b r2 =>
          if between 194 223 a then (if cont b then 2 else 0) else
          match r2 with
          | String c r3 =>
              let low := if between 224 224 a then 160%nat else 128%nat in
              let high := if between 237 237 a then 159%nat else 191%nat in
              if between 224 239 a then (if between low high b && cont c then 3 else 0) else
              match r3 with
              | String d _ =>
                  let low := if between 240 240 a then 144%nat else 128%nat in
                  let high := if between 244 244 a then 143%nat else 191%nat in
                  if between 240 244 a && between low high b && cont c && cont d then 4 else 0
              | EmptyString => 0
              end
          | EmptyString => 0
          end
      | EmptyString => 0
      end
  | EmptyString => 0
  end%nat.

(** [utf8.AppendRune] *)
Definition encode_rune (n : N) : string :=
  (let tail k := byte (N.to_nat (128 + n / 2 ^ k mod 64)) in
   if n <? 128 then byte (N.to_nat n)
   else if n <? 2048 then byte (N.to_nat (192 + n / 2 ^ 6)) ++ tail 0
   else if n <? 65536 then byte (N.to_nat (224 + n / 2 ^ 12)) ++ tail 6 ++ tail 0
   else byte (N.to_nat (240 + n / 2 ^ 18)) ++ tail 12 ++ tail 6 ++ tail 0)%N%string.

(** U+FFFD *)
Definition replacement : string := encode_rune 65533.

Definition hex_value (a : ascii) : option N :=
  let n := N_of_ascii a in
  (if between 48 57 a then Some (n - 48)
   else if between 97 102 a then Some (n - 87)
   else if between 65 70 a then Some (n - 55)
   else None)%N.

(** [getu4], after the backslash and the u. *)
Definition hex4 (a b c d : ascii) : option N :=
  w ← hex_value a; x ← hex_value b; y ← hex_value c; z ← hex_value d;
  Some (((w * 16 + x) * 16 + y) * 16 + z)%N.

Definition high_surrogate (n : N) : bool := ((55296 <=? n) && (n <=? 56319))%N.
Definition low_surrogate (n : N) : bool := ((56320 <=? n) && (n <=? 57343))%N.

Definition simple_escape (c : ascii) : option ascii :=
  match c with
  | "034" | "\" | "/" => Some c
  | "b" => Some "008"
  | "f" => Some "012"
  | "n" => Some "010"
  | "r" => Some "013"
  | "t" => Some "009"
  | _ => None
  end%char.

Definition prepend (x : string) (r : option (string * string)) : option (string * string) :=
  '(y, rest) ← r; Some ((x ++ y)%string, rest).

(** The text of a string literal after its opening quote, and what follows the closing
    one.  [copy] bytes of a character are still to be copied. *)
Fixpoint unquote (copy : nat) (s : string) : option (string * string) :=
  match copy, s with
  | S copy, String a r => prepend (String a "") (unquote copy r)
  | S _, EmptyString => None
  | O, EmptyString => None
  | O, String "034" r => Some ("", r)
  | O, String "\" (String "u" (String a (String b (String c (String d r))))) =>
      n ← hex4 a b c d;
      if high_surrogate n then
        match r with
        | String "\" (String "u" (String e (String f (String g (String h r'))))) =>
            m ← hex4 e f g h;
            if low_surrogate m
            then prepend (encode_rune (65536 + (n - 55296) * 1024 + (m - 56320))%N) (unquote 0 r')
            else prepend replacement (unquote 0 r)
        | _ => prepend replacement (unquote 0 r)
        end
      else if low_surrogate n then prepend replacement (unquote 0 r)
      else prepend (encode_rune n) (unquote 0 r)
  | O, String "\" (String c r) =>
      x ← simple_escape c;
      prepend (String x "") (unquote 0 r)
  | O, String "\" EmptyString => None
  | O, String a r =>
      if between 0 31 a then None else
      match rune_len s with
      | O => prepend replacement (unquote 0 r)
      | S more => prepend (String a "") (unquote more r)
      end
  end.

(** ** Numbers *)

Fixpoint digit_run (s : string) : string * string :=
  match s with
  | String a r => if json_digit a then let '(x, rest) := digit_run r in (String a x, rest) else ("", s)
  | EmptyString => ("", "")
  end.

Definition digits1 (s : string) : option (string * string) :=
  match digit_run s with (EmptyString, _) => None | p => Some p end.

Definition integer_part (s : string) : option (string * string) :=
  match s with String "0" r => Some ("0", r) | _ => digits1 s end.

Definition fraction_part (s : string) : option (string * string) :=
  match s with
  | String "." r => prepend "." (digits1 r)
  | _ => Some ("", s)
  end.

Definition exponent_part (s : string) : option (string * string) :=
  match s with
  | String a r =>
      if between 69 69 a || between 101 101 a then
        prepend (String a "")
          (match r with
           | String b r' =>
               if between 43 43 b || between 45 45 b then prepend (String b "") (digits1 r') else digits1 r
           | EmptyString => None
           end)
      else Some ("", s)
  | EmptyString => Some ("", s)
  end.

(** The longest literal at the head of a text. *)
Definition number (s : string) : option (string * string) :=
  let '(sign, r) := match s with String "-" r => ("-", r) | _ => ("", s) end in
  '(whole, r1) ← integer_part r;
  '(part, r2) ← fraction_part r1;
  '(power, r3) ← exponent_part r2;
  Some ((sign ++ whole ++ part ++ power)%string, r3).

(** ** Values *)

Fixpoint skip_spaces (s : string) : string :=
  match s with
  | String a r => if json_space a then skip_spaces r else s
  | EmptyString => EmptyString
  end.

(** The first value of a text and what follows it, [fuel] calls deep; [depth] objects and
    arrays are open around it. *)
Fixpoint parse_value (fuel : nat) (depth : Z) (s : string) : option (value * string) :=
  match fuel with
  | O => None
  | S fuel =>
      match skip_spaces s with
      | String "{" r =>
          if maxNestingDepth <=? depth then None else
          match skip_spaces r with
          | String "}" r => Some (VObject [], r)
          | _ => '(ms, r) ← parse_members fuel (depth + 1) r; Some (VObject ms, r)
          end
      | String "[" r =>
          if maxNestingDepth <=? depth then None else
          match skip_spaces r with
          | String "]" r => Some (VArray [], r)
          | _ => '(l, r) ← parse_elements fuel (depth + 1) r; Some (VArray l, r)
          end
      | String "034" r => '(x, r) ← unquote 0 r; Some (VString x, r)
      | String "t" r => r ← drop_prefix "rue" r; Some (VBool true, r)
      | String "f" r => r ← drop_prefix "alse" r; Some (VBool false, r)
      | String "n" r => r ← drop_prefix "ull" r; Some (VNull, r)
      | r => '(x, r) ← number r; Some (VNumber x, r)
      end
  end
with parse_members (fuel : nat) (depth : Z) (s : string) : option (list (string * value) * string) :=
  match fuel with
  | O => None
  | S fuel =>
      match skip_spaces s with
      | String "034" r =>
          '(k, r) ← unquote 0 r;
          match skip_spaces r with
          | String ":" r =>
              '(v, r) ← parse_value fuel depth r;
              match skip_spaces r with
              | String "," r => '(ms, r) ← parse_members fuel depth r; Some ((k, v) :: ms, r)
              | String "}" r => Some ([(k, v)], r)
              | _ => None
              end
          | _ => None
          end
      | _ => None
      end
  end
with parse_elements (fuel : nat) (depth : Z) (s : string) : option (list value * string) :=
  match fuel with
  | O => None
  | S fuel =>
      '(v, r) ← parse_value fuel depth s;
      match skip_spaces r with
      | String "," r => '(l, r) ← parse_elements fuel depth r; Some (v :: l, r)
      | String "]" r => Some ([v], r)
      | _ => None
      end
  end.

(** Every two calls use up a byte at least. *)
Definition parse_fuel (s : string) : nat := 2 + 2 * String.length s.

Definition parse (s : string) : option (value * string) := parse_value (parse_fuel s) 0 s.

(** * Storing *)

Inductive decode_error :=
| ErrEOF                                  (** the text ends too early *)
| ErrSyntax
| ErrRead (msg : string)                  (** the body cannot be read *)
| ErrUnmarshalType (v : value)
| ErrUnknownField (key : string)
| ErrUnmarshal (text : string).           (** of an [UnmarshalText] *)

Class JsonErrorText := json_error_text : decode_error → string.

(** A value after some of a text was stored in it: the first error that was kept, and
    whether it ended the reading. *)
Record decoded (A : Type) := MkDecoded {
  target : A;
  saved : option decode_error;
  halted : bool;
}.
Arguments MkDecoded {A} target saved halted.
Arguments target {A} d : rename.
Arguments saved {A} d : rename.
Arguments halted {A} d : rename.

(** How a value is stored in an [A]. *)
Definition setter (A : Type) := value → A → decoded A.

Section setters.
Context {A : Type}.

Definition stored (a : A) : decoded A := MkDecoded a None false.
Definition kept_error (e : decode_error) (a : A) : decoded A := MkDecoded a (Some e) false.
Definition hard_error (e : decode_error) (a : A) : decoded A := MkDecoded a (Some e) true.

Definition into_int (set : Z → A → A) : setter A := λ v a,
  match v with
  | VNull => stored a
  | VNumber x => match ParseInt x with Some z => stored (set z a) | None => kept_error (ErrUnmarshalType v) a end
  | _ => kept_error (ErrUnmarshalType v) a
  end.

Definition into_string (set : string → A → A) : setter A := λ v a,
  match v with
  | VNull => stored a
  | VString x => stored (set x a)
  | _ => kept_error (ErrUnmarshalType v) a
  end.

Definition into_bool (set : bool → A → A) : setter A := λ v a,
  match v with
  | VNull => stored a
  | VBool b => stored (set b a)
  | _ => kept_error (ErrUnmarshalType v) a
  end.

(** A [uuid.UUID], by its [UnmarshalText]. *)
Definition into_uuid `{UuidParse} (set : uuid → A → A) : setter A := λ v a,
  match v with
  | VNull => stored a
  | VString x => match uuid_Parse x with Some u => stored (set u a) | None => hard_error (ErrUnmarshal x) a end
  | _ => kept_error (ErrUnmarshalType v) a
  end.

(** A [time.Time], by its [UnmarshalJSON]. *)
Definition into_time (set : Z → A → A) : setter A := λ v a,
  match v with
  | VNull => stored a
  | VString x => match Parse x with Some t => stored (set t a) | None => hard_error (ErrUnmarshal x) a end
  | _ => hard_error (ErrUnmarshalType v) a
  end.
End setters.

(** A field that is a value of its own, and a pointer to one that is allocated when needed. *)
Definition in_field {A B} (get : A → B) (set : B → A → A) (f : setter B) : setter A := λ v a,
  let d := f v (get a) in MkDecoded (set (target d) a) (saved d) (halted d).

Definition pointer {B} (zero : B) (f : setter B) : setter (option B) := λ v p,
  match v with
  | VNull => stored None
  | _ => let d := f v (default zero p) in MkDecoded (Some (target d)) (saved d) (halted d)
  end.

(** [saveError], which keeps the first. *)
Definition keep (e1 e2 : option decode_error) : option decode_error :=
  match e1 with Some _ => e1 | None => e2 end.

(** The error of a part that was read, after [e1] was kept: one that ended the reading is
    the one that is returned. *)
Definition fold_error {A} (e1 : option decode_error) (d : decoded A) : decoded A :=
  MkDecoded (target d) (if halted d then saved d else keep e1 (saved d)) (halted d).

(** A slice: an element is stored over the one in its place, if there is one. *)
Fixpoint elements {B} (zero : B) (f : setter B) (vs : list value) (old : list B) : decoded (list B) :=
  match vs with
  | [] => stored []
  | v :: vs =>
      let d := f v (default zero (head old)) in
      if halted d then MkDecoded (target d :: tail old) (saved d) true else
      let r := elements zero f vs (tail old) in
      MkDecoded (target d :: target r) (saved (fold_error (saved d) r)) (halted r)
  end.

Definition slice {B} (zero : B) (f : setter B) : setter (list B) := λ v l,
  match v with
  | VNull => stored []
  | VArray vs => elements zero f vs l
  | _ => kept_error (ErrUnmarshalType v) l
  end.

(** The names of keys are compared exactly, or else up to case; two characters that are
    not ASCII have an ASCII letter for their folding, U+017F (C5 BF, s) and U+212A
    (E2 84 AA, k). *)
Fixpoint fold_name (s : string) : string :=
  match s with
  | String "197" (String "191" r) => String "s" (fold_name r)
  | String "226" (String "132" (String "170" r)) => String "k" (fold_name r)
  | String a r => String (lower a) (fold_name r)
  | EmptyString => EmptyString
  end.

Section objects.
Context {A : Type} (strict : bool) (fields : list (string * setter A)).

Definition field_named (k : string) : option (setter A) :=
  match list_find (λ p, String.eqb k p.1 = true) fields with
  | Some (_, (_, f)) => Some f
  | None => snd <$> (snd <$> list_find (λ p, String.eqb (fold_name k) (fold_name p.1) = true) fields)
  end.

Fixpoint members (ms : list (string * value)) (a : A) : decoded A :=
  match ms with
  | [] => stored a
  | (k, v) :: ms =>
      match field_named k with
      | None =>
          let r := members ms a in
          if strict then fold_error (Some (ErrUnknownField k)) r else r
      | Some f =>
          let d := f v a in
          if halted d then d else fold_error (saved d) (members ms (target d))
      end
  end.

(** A struct with these fields; [strict] for [DisallowUnknownFields]. *)
Definition object : setter A := λ v a,
  match v with
  | VNull => stored a
  | VObject ms => members ms a
  | _ => kept_error (ErrUnmarshalType v) a
  end.
End objects.

(** * Reading a text *)

(** [json.Unmarshal]: the whole text is one value. *)
Definition Unmarshal {A} (f : setter A) (text : string) (a : A) : decoded A :=
  match parse text with
  | Some (v, rest) => if String.eqb (skip_spaces rest) "" then f v a else hard_error ErrSyntax a
  | None => hard_error ErrSyntax a
  end.

(** [json.Decoder.Decode]: the first value of a stream. *)
Definition Decode {A} (f : setter A) (text : string) (a : A) : decoded A :=
  match parse text with
  | Some (v, _) => f v a
  | None => hard_error (if String.eqb (skip_spaces text) "" then ErrEOF else ErrSyntax) a
  end.

Example parse_json_ex :
  parse (" {" ++ quoted "a" ++ ": [1, -2.5e+3, null], " ++ String quote "b\u00e9\n" ++ String quote ":true} x")%string
  = Some (VObject [("a", VArray [VNumber "1"; VNumber "-2.5e+3"; VNull]);
                   ("b" ++ byte 195 ++ byte 169 ++ byte 10, VBool true)]%string, " x").
Proof. vm_compute. reflexivity. Qed.
