(* ===== verification/Wire.v ===== *)
(** A stored JSON value as a text: what a consumer reads of a payload that a producer kept
    in a JSONB column and sent as a message.

    PostgreSQL and the broker return some text of the value ([text_of]): the members of an
    object in any order, numbers and strings in any of their spellings.  A consumer that
    reads an object into the fields of a record gets the same record whatever the text. *)

From S2P Require Import Prelude Json Strconv Timestamp Decode.

Lemma Forall2_perm {A B} (R : A → B → Prop) l1 l2 l3 :
  Forall2 R l1 l2 → l2 ≡ₚ l3 → ∃ l1', l1 ≡ₚ l1' ∧ Forall2 R l1' l3.
Proof.
  intros H Hp. revert l1 H. induction Hp as [|y l2 l3 Hp IH|x y l|l2 l3 l4 Hp1 IH1 Hp2 IH2]; intros l1 H.
  - exists l1. split; [done|]. exact H.
  - apply Forall2_cons_inv_r in H as (x & k & Hxy & H & ->). destruct (IH k H) as (k' & Hk & H').
    exists (x :: k'). split; [by rewrite Hk|]. by constructor.
  - apply Forall2_cons_inv_r in H as (a & k & Ha & H & ->).
    apply Forall2_cons_inv_r in H as (b & k' & Hb & H & ->).
    exists (b :: a :: k'). split; [constructor|]. by repeat constructor.
  - destruct (IH1 l1 H) as (k & Hk & H1). destruct (IH2 k H1) as (k' & Hk' & H2).
    exists k'. split; [by etrans|done].
Qed.

Section wire.
Context `{UT : UuidText}.

(** A tree that is the value. *)
Inductive denotes : json → value → Prop :=
| den_null : denotes JNull VNull
| den_bool b : denotes (JBool b) (VBool b)
| den_int z x : ParseInt x = Some z → denotes (JInt z) (VNumber x)
| den_string s : denotes (JString s) (VString s)
| den_uuid u : denotes (JUUID u) (VString (uuid_String u))
| den_time t x : Parse x = Some t → denotes (JTime t) (VString x)
| den_array l vs : Forall2 denotes l vs → denotes (JArray l) (VArray vs)
| den_object fs ms ms' :
    Forall2 (λ f m, f.1 = m.1 ∧ denotes f.2 m.2) fs ms' → ms ≡ₚ ms' → denotes (JObject fs) (VObject ms).

(** A text of the value. *)
Definition text_of (text : string) (j : json) : Prop :=
  Valid text = true ∧ ∃ v rest, parse text = Some (v, rest) ∧ skip_spaces rest = "" ∧ denotes j v.

Lemma Unmarshal_text {A} (f : setter A) text j (a b : A) :
  text_of text j → (∀ v, denotes j v → f v a = stored b) → Unmarshal f text a = stored b.
Proof.
  intros (_ & v & rest & Hp & Hr & Hd) Hf. unfold Unmarshal. rewrite Hp, Hr. cbn. by apply Hf.
Qed.

(** A setter that stores the value [j], whatever tree it comes as. *)
Definition stores {A} (f : setter A) (j : json) (g : A → A) : Prop :=
  ∀ v a, denotes j v → f v a = stored (g a).

Lemma stores_int {A} (set : Z → A → A) z : stores (into_int set) (JInt z) (set z).
Proof. intros v a Hd. inversion Hd as [| |? x Hx| | | | |]; subst. cbn. by rewrite Hx. Qed.

Lemma stores_string {A} (set : string → A → A) s : stores (into_string set) (JString s) (set s).
Proof. intros v a Hd. by inversion Hd. Qed.

Lemma stores_uuid_text {A} (set : string → A → A) u : stores (into_string set) (JUUID u) (set (uuid_String u)).
Proof. intros v a Hd. by inversion Hd. Qed.

Lemma stores_uuid `{UP : UuidParse} `{!UuidLaws} {A} (set : uuid → A → A) u :
  stores (into_uuid set) (JUUID u) (set u).
Proof. intros v a Hd. inversion Hd. cbn. by rewrite uuid_Parse_String. Qed.

Lemma stores_time {A} (set : Z → A → A) t : stores (into_time set) (JTime t) (set t).
Proof. intros v a Hd. inversion Hd as [| | | | |? x Hx| |]; subst. cbn. by rewrite Hx. Qed.

(** An array of values, each stored as [h] of it whatever it is stored over. *)
Lemma stores_slice {A B X} (get : A → list B) (set : list B → A → A) (zero : B) (f : setter B)
    (to_json : X → json) (h : X → B) (l : list X) :
  (∀ x v b, denotes (to_json x) v → f v b = stored (h x)) →
  stores (in_field get set (slice zero f)) (JArray (to_json <$> l)) (set (h <$> l)).
Proof.
  intros Hf v a Hd. inversion Hd as [| | | | | |? vs Hl|]; subst. unfold in_field. cbn [slice].
  assert (∀ old, elements zero f vs old = stored (h <$> l)) as ->; [|done]. clear Hd.
  revert vs Hl. induction l as [|x k IH]; intros vs Hl old; [by inversion Hl|].
  inversion Hl as [|? w ? ws Hx Hws]; subst. cbn [elements]. rewrite (Hf x w _ Hx).
  cbn [halted target saved stored]. by rewrite (IH ws Hws).
Qed.

(** An object with a setter for each of its keys. *)
Section objects.
Context {A : Type} (strict : bool) (fields : list (string * setter A)).

(** A member of the value, with what it does to the record. *)
Definition entry := (string * json * (A → A))%type.
Definition known (e : entry) : Prop :=
  ∃ f, field_named fields e.1.1 = Some f ∧ stores f e.1.2 e.2.
Definition effect (es : list entry) (a : A) : A := foldl (λ a e, e.2 a) a es.
(** What the members do commutes. *)
Definition independent (es : list entry) : Prop :=
  Forall (λ e, Forall (λ e', ∀ a, e.2 (e'.2 a) = e'.2 (e.2 a)) es) es.

Lemma members_effect es ms a :
  Forall known es → Forall2 (λ e m, e.1.1 = m.1 ∧ denotes e.1.2 m.2) es ms →
  members strict fields ms a = stored (effect es a).
Proof.
  intros Hk H. revert a. induction H as [|e m es ms [Hn Hd] H IH]; intros a; [done|].
  apply Forall_cons in Hk as [(f & Hf & Hst) Hk]. destruct m as [k v]. cbn [members].
  cbn [fst snd] in *. subst k. rewrite Hf, (Hst v a Hd). cbn [halted saved target stored].
  rewrite IH by done. done.
Qed.

Lemma effect_perm es es' a :
  (∀ e e', e ∈ es → e' ∈ es → ∀ a, e.2 (e'.2 a) = e'.2 (e.2 a)) → es ≡ₚ es' → effect es a = effect es' a.
Proof.
  intros Hc Hp. revert a. unfold effect.
  induction Hp as [|e l l' Hp IH|e e' l|l l' l'' Hp1 IH1 Hp2 IH2]; intros a; [done| | |].
  - cbn. apply IH. intros; apply Hc; set_solver.
  - cbn. f_equal. apply Hc; set_solver.
  - rewrite IH1 by done. apply IH2. intros x y Hx Hy. apply Hc; by rewrite Hp1.
Qed.

(** The order of the members does not matter when what they do commutes. *)
Lemma object_stores es v a :
  Forall known es → independent es →
  denotes (JObject es.*1) v → object strict fields v a = stored (effect es a).
Proof.
  intros Hk Hc Hd. inversion Hd as [| | | | | | |? ms ms' Hf Hp]; subst. cbn [object].
  apply Forall2_fmap_l in Hf. symmetry in Hp.
  destruct (Forall2_perm _ _ _ _ Hf Hp) as (es' & Hes & Hf').
  unfold independent in Hc. rewrite Forall_forall in Hc. rewrite (effect_perm es es' a); [|intros e e' He He'|done].
  2:{ specialize (Hc e He). rewrite Forall_forall in Hc. by apply Hc. } apply members_effect; [by rewrite <- Hes|done].
Qed.
End objects.
End wire.

(** The side conditions of [object_stores] for a list of fields. *)
Ltac stores_field :=
  first [refine (stores_int _ _) | refine (stores_string _ _) | refine (stores_uuid_text _ _)
    | refine (stores_uuid _ _) | refine (stores_time _ _)].
Ltac fields_known :=
  repeat (apply List.Forall_cons; [eexists; split; [reflexivity|cbn [fst snd]; try stores_field]|]); try apply List.Forall_nil.
Ltac fields_independent :=
  repeat (apply List.Forall_cons; [repeat (apply List.Forall_cons; [reflexivity|]); apply List.Forall_nil|]);
  apply List.Forall_nil.
