(* ===== verification/JsonText.v ===== *)
(** encoding/json, writing: the text of a value, compact, and that reading it gives the
    value back (Decode.v). *)

From S2P Require Import Prelude Json Strconv Timestamp Decode Wire.

(** * Writing (json.Marshal) *)

Section marshal.
Context `{UT : UuidText} `{LC : Location}.

Fixpoint Marshal (j : json) : string :=
  match j with
  | JNull => "null"
  | JBool b => if b then "true" else "false"
  | JInt z => fmt_d z
  | JString s => quoted s
  | JUUID u => quoted (uuid_String u)
  | JTime t => quoted (Format t)
  | JArray l => "[" ++ strings_join (map Marshal l) "," ++ "]"
  | JObject fs => "{" ++ strings_join (map (λ p, quoted p.1 ++ ":" ++ Marshal p.2) fs) "," ++ "}"
  end%string.

(** The tree that is read. *)
Fixpoint tree (j : json) : value :=
  match j with
  | JNull => VNull
  | JBool b => VBool b
  | JInt z => VNumber (fmt_d z)
  | JString s => VString s
  | JUUID u => VString (uuid_String u)
  | JTime t => VString (Format t)
  | JArray l => VArray (map tree l)
  | JObject fs => VObject (map (λ p, (p.1, tree p.2)) fs)
  end.

(** A string of well-formed UTF-8; [more] bytes of a character are still to come. *)
Fixpoint utf8_from (more : nat) (s : string) : bool :=
  match s with
  | EmptyString => (more =? 0)%nat
  | String a r =>
      match more with
      | S more => between 128 191 a && utf8_from more r
      | O => match rune_len s with O => false | S more => utf8_from more r end
      end
  end.
Definition utf8 : string → bool := utf8_from 0.

(** The values whose text is read back: [depth] objects and arrays may be nested. *)
Fixpoint writable (depth : nat) (j : json) : Prop :=
  match j with
  | JNull | JBool _ => True
  | JInt z => in64 z
  | JString s => utf8 s = true
  | JUUID u => utf8 (uuid_String u) = true
  | JTime t => printable t ∧ utf8 (Format t) = true
  | JArray l =>
      match depth with
      | O => False
      | S depth => foldr (λ j P, writable depth j ∧ P) True l
      end
  | JObject fs =>
      match depth with
      | O => False
      | S depth => foldr (λ p P, (utf8 p.1 = true ∧ writable depth p.2) ∧ P) True fs
      end
  end.
End marshal.

(** * Strings *)

Lemma between_spec lo hi a : between lo hi a = true ↔ (lo <= nat_of_ascii a <= hi)%nat.
Proof. unfold between. by rewrite andb_true_iff, !Nat.leb_le. Qed.

Lemma byte_is n a : nat_of_ascii a = n → a = ascii_of_nat n.
Proof. intros <-. by rewrite ascii_nat_embedding. Qed.

Lemma between_one n a : between n n a = true → a = ascii_of_nat n.
Proof. rewrite between_spec. intros H. apply byte_is. lia. Qed.

Definition low (a : ascii) : bool := between 0 127 a.

(** What an ASCII character is written as. *)
Definition escape1 (a : ascii) : string := escape (String a "").

Lemma escape_low a s : low a = true → escape (String a s) = (escape1 a ++ escape s)%string.
Proof. destruct a as [[] [] [] [] [] [] [] []]; intros H; first [discriminate H|reflexivity]. Qed.

Lemma unquote_low a t : low a = true → unquote 0 (escape1 a ++ t) = prepend (String a "") (unquote 0 t).
Proof. destruct a as [[] [] [] [] [] [] [] []]; intros H; first [discriminate H|reflexivity]. Qed.

Definition not_226 (a : ascii) : bool := negb (between 226 226 a).

Lemma escape_high a s :
  low a = false → not_226 a = true → escape (String a s) = String a (escape s).
Proof. destruct a as [[] [] [] [] [] [] [] []]; intros H1 H2; first [discriminate H1|discriminate H2|reflexivity]. Qed.

(** The two characters beyond ASCII that are escaped. *)
Definition separator (s : string) : bool :=
  match s with
  | String a (String b (String c _)) => between 226 226 a && between 128 128 b && between 168 169 c
  | _ => false
  end.

Lemma escape_226 s :
  separator (String "226" s) = false → escape (String "226" s) = String "226" (escape s).
Proof.
  destruct s as [|b s]; [reflexivity|]. destruct (decide (b = "128"%char)) as [->|Hb].
  2:{ intros _. destruct b as [[] [] [] [] [] [] [] []]; first [reflexivity|by destruct Hb]. }
  destruct s as [|c s]; [reflexivity|].
  destruct c as [[] [] [] [] [] [] [] []]; intros H; first [reflexivity|discriminate H].
Qed.

Lemma escape_copies a s :
  low a = false → separator (String a s) = false → escape (String a s) = String a (escape s).
Proof.
  intros Ha Hs. destruct (not_226 a) eqn:H; [by apply escape_high|].
  apply negb_false_iff, between_one in H as ->. by apply escape_226.
Qed.

Lemma unquote_separator a b c s t :
  separator (String a (String b (String c s))) = true →
  unquote 0 (escape (String a (String b (String c s))) ++ t) =
  prepend (String a (String b (String c ""))) (unquote 0 (escape s ++ t)).
Proof.
  cbn [separator]. intros [[Ha Hb]%andb_true_iff Hc]%andb_true_iff.
  apply between_one in Ha as ->. apply between_one in Hb as ->. apply between_spec in Hc.
  assert (c = ascii_of_nat 168 ∨ c = ascii_of_nat 169) as [->| ->]; [|reflexivity..].
  destruct (decide (nat_of_ascii c = 168%nat)); [left|right]; apply byte_is; lia.
Qed.

Lemma unquote_high a s :
  low a = false →
  unquote 0 (String a s) =
    match rune_len (String a s) with
    | O => prepend replacement (unquote 0 s)
    | S more => prepend (String a "") (unquote more s)
    end.
Proof. destruct a as [[] [] [] [] [] [] [] []]; intros H; first [discriminate H|reflexivity]. Qed.

(** Two texts with the same [k] bytes at their head. *)
Fixpoint agree (k : nat) (x y : string) : Prop :=
  match k with
  | O => True
  | S k => match x, y with String a x, String b y => a = b ∧ agree k x y | _, _ => False end
  end.

Lemma rune_len_agree a x y more :
  rune_len (String a x) = S more → agree more x y → rune_len (String a y) = S more.
Proof.
  unfold rune_len. destruct (between 0 127 a); [by intros [= <-]|].
  destruct x as [|b x]; [done|]. destruct (between 194 223 a).
  { destruct (between 128 191 b) eqn:Hb; [|done]. intros [= <-]. destruct y as [|? y]; [done|].
    intros [<- _]. by rewrite Hb. }
  destruct x as [|c x]; [done|]. destruct (between 224 239 a).
  { destruct (_ && _) eqn:Hc; [|done]. intros [= <-]. destruct y as [|? [|? y]]; try done; [by intros [? ?]|].
    intros (<- & <- & _). by rewrite Hc. }
  destruct x as [|d x]; [done|]. destruct (_ && _ && _ && _) eqn:Hd; [|done]. intros [= <-].
  destruct y as [|? [|? [|? y]]]; try done; [by intros [? ?]|by intros (? & ? & ?)|].
  intros (<- & <- & <- & _). by rewrite Hd.
Qed.

Lemma cont_high a : between 128 191 a = true → low a = false ∧ not_226 a = true.
Proof.
  unfold low, not_226. intros H%between_spec. split.
  - apply not_true_iff_false. rewrite between_spec. lia.
  - apply negb_true_iff, not_true_iff_false. rewrite between_spec. lia.
Qed.

Lemma escape_agree more s t : utf8_from more s = true → agree more s (escape s ++ t).
Proof.
  revert s. induction more as [|more IH]; intros s; [done|]. destruct s as [|a s]; [done|].
  cbn [utf8_from]. intros [Ha Hs]%andb_true_iff. apply cont_high in Ha as [H1 H2].
  rewrite escape_high by done. change (String a (escape s) ++ t)%string with (String a (escape s ++ t)).
  cbn [agree]. split; [done|by apply IH].
Qed.

(** A string that was escaped is read back. *)
Lemma unquote_escape s more t :
  utf8_from more s = true → unquote more (escape s ++ String quote t) = Some (s, t).
Proof.
  remember (String.length s) as n eqn:Hn. revert s more Hn.
  induction n as [n IH] using lt_wf_ind. intros s more Hn Hs.
  destruct s as [|a s]; [by destruct more|]. cbn [String.length] in Hn.
  destruct more as [|more]; cbn [utf8_from] in Hs.
  - destruct (low a) eqn:Ha.
    + rewrite escape_low, append_assoc, unquote_low by done.
      assert (rune_len (String a s) = 1%nat) as Hr by (unfold rune_len; unfold low in Ha; by rewrite Ha).
      rewrite Hr in Hs. by rewrite (IH (String.length s)) by (lia || done).
    + destruct (separator (String a s)) eqn:Hsep.
      * destruct s as [|b [|c s]]; [done..|]. rewrite unquote_separator by done.
        assert (utf8_from 0 s = true) as Hs'.
        { cbn [separator] in Hsep. apply andb_true_iff in Hsep as [[Ha' Hb]%andb_true_iff Hc].
          apply between_one in Ha' as ->. apply between_one in Hb as ->.
          assert (between 128 191 c = true) as Hc' by (rewrite between_spec in Hc |- *; lia).
          assert (rune_len (String (ascii_of_nat 226) (String (ascii_of_nat 128) (String c s))) = 3%nat) as Hr
            by (unfold rune_len; cbn [ascii_of_nat]; rewrite Hc'; reflexivity).
          rewrite Hr in Hs. cbn [utf8_from] in Hs. by apply andb_true_iff in Hs as [_ [_ Hs]%andb_true_iff]. }
        cbn [String.length] in Hn. by rewrite (IH (String.length s)) by (lia || done).
      * rewrite escape_copies by done. change (String a (escape s) ++ ?x)%string with (String a (escape s ++ x)).
        rewrite unquote_high by done. destruct (rune_len (String a s)) as [|more] eqn:Hr; [done|].
        rewrite (rune_len_agree a s _ more Hr) by (by apply escape_agree).
        by rewrite (IH (String.length s)) by (lia || done).
  - apply andb_true_iff in Hs as [Ha Hs]. apply cont_high in Ha as [H1 H2]. rewrite escape_high by done.
    change (String a (escape s) ++ ?x)%string with (String a (escape s ++ x)). cbn [unquote].
    by rewrite (IH (String.length s)) by (lia || done).
Qed.

(** * Numbers *)

Definition nonzero_digit (a : ascii) : bool := between 49 57 a.

Lemma digit_of_lt_10 x : (x < 10)%N → between 48 57 (pretty_N_char x) = true.
Proof. intros Hx. destruct x as [|p]; [done|]. do 4 (destruct p as [p|p|]; try done; try lia). Qed.

Lemma pretty_N_char_nonzero x : (0 < x < 10)%N → nonzero_digit (pretty_N_char x) = true.
Proof. intros Hx. destruct x as [|p]; [lia|]. do 4 (destruct p as [p|p|]; try done; try lia). Qed.

Fixpoint digits (s : string) : bool :=
  match s with EmptyString => true | String a r => json_digit a && digits r end.

Lemma printed_digits x s : digits s = true → digits (pretty_N_go x s) = true.
Proof.
  revert s. induction (N.lt_wf_0 x) as [x _ IH]. intros s Hs.
  destruct (decide (x = 0%N)) as [->|Hx]; [by rewrite pretty_N_go_0|].
  rewrite pretty_N_go_step by lia. apply IH; [apply N.div_lt; lia|]. cbn [digits]. rewrite Hs, andb_true_r.
  apply digit_of_lt_10, N.mod_lt. lia.
Qed.

(** What is printed of a positive number starts with a digit other than 0. *)
Lemma pretty_N_go_head x s : (0 < x)%N → ∃ a r, pretty_N_go x s = String a r ∧ nonzero_digit a = true.
Proof.
  revert s. induction (N.lt_wf_0 x) as [x _ IH]. intros s Hx. rewrite pretty_N_go_step by lia.
  destruct (decide (x < 10)%N) as [Hs|Hs].
  - rewrite N.div_small, pretty_N_go_0 by lia. eexists _, _. split; [done|].
    rewrite N.mod_small by lia. by apply pretty_N_char_nonzero.
  - apply IH; [apply N.div_lt; lia|]. apply N.div_str_pos. lia.
Qed.

(** A text that does not go on a number. *)
Definition ends_number (s : string) : bool :=
  match s with
  | EmptyString => true
  | String a _ => negb (json_digit a || between 46 46 a || between 69 69 a || between 101 101 a)
  end.

Lemma digit_run_digits x t : digits x = true → ends_number t = true → digit_run (x ++ t) = (x, t).
Proof.
  intros Hx Ht. induction x as [|a x IH].
  - destruct t as [|a t]; [done|]. cbn [ends_number] in Ht. apply negb_true_iff in Ht.
    change ("" ++ String a t)%string with (String a t). cbn [digit_run]. by destruct (json_digit a).
  - cbn [digits] in Hx. apply andb_true_iff in Hx as [Ha Hx].
    change (String a x ++ t)%string with (String a (x ++ t)). cbn [digit_run]. by rewrite Ha, IH.
Qed.

Lemma number_rest x t :
  ends_number t = true →
  ('(part, r2) ← fraction_part t; '(power, r3) ← exponent_part r2; Some ((x ++ part ++ power)%string, r3)) = Some (x, t).
Proof.
  destruct t as [|a t]; [cbn; by rewrite append_nil_r|]. cbn [ends_number]. intros Ht%negb_true_iff.
  apply orb_false_iff in Ht as [[[_ Hdot]%orb_false_iff He]%orb_false_iff He'].
  assert (fraction_part (String a t) = Some ("", String a t)) as ->.
  { destruct a as [[] [] [] [] [] [] [] []]; first [discriminate Hdot|reflexivity]. }
  cbn [mbind option_bind exponent_part]. rewrite He, He'. cbn [orb mbind option_bind]. by rewrite !append_nil_r.
Qed.

Lemma number_head a r :
  a ≠ "-"%char →
  number (String a r) =
    ('(whole, r1) ← integer_part (String a r); '(part, r2) ← fraction_part r1; '(power, r3) ← exponent_part r2;
     Some ((whole ++ part ++ power)%string, r3)).
Proof. intros H. destruct a as [[] [] [] [] [] [] [] []]; first [reflexivity|by destruct H]. Qed.

Lemma number_minus r :
  number (String "-" r) =
    ('(whole, r1) ← integer_part r; '(part, r2) ← fraction_part r1; '(power, r3) ← exponent_part r2;
     Some (("-" ++ whole ++ part ++ power)%string, r3)).
Proof. reflexivity. Qed.

Lemma number_digits x t :
  x ≠ "" → digits x = true → (∀ r, x = String "0" r → r = "") → ends_number t = true →
  number (x ++ t) = Some (x, t) ∧ number (String "-" x ++ t) = Some (String "-" x, t).
Proof.
  intros Hne Hx H0 Ht.
  assert (integer_part (x ++ t) = Some (x, t)) as Hint.
  { destruct x as [|a x]; [done|]. destruct (decide (a = "0"%char)) as [->|Ha].
    - by rewrite (H0 x eq_refl).
    - transitivity (digits1 (String a x ++ t)).
      { change (String a x ++ t)%string with (String a (x ++ t)).
        destruct a as [[] [] [] [] [] [] [] []]; first [reflexivity|by destruct Ha]. }
      unfold digits1. by rewrite digit_run_digits. }
  split.
  - destruct x as [|a x]; [done|]. cbn [digits] in Hx. apply andb_true_iff in Hx as [Ha _].
    change (String a x ++ t)%string with (String a (x ++ t)) in *. rewrite number_head by by intros ->.
    rewrite Hint. cbn [mbind option_bind]. by apply number_rest.
  - change (String "-" x ++ t)%string with (String "-" (x ++ t)). rewrite number_minus, Hint. cbn [mbind option_bind].
    exact (number_rest (String "-" x) t Ht).
Qed.

(** [%d] of an integer: a literal without a leading zero. *)
Lemma fmt_d_shape z :
  ∃ x, x ≠ "" ∧ digits x = true ∧ (∀ r, x = String "0" r → r = "") ∧
    (fmt_d z = x ∨ fmt_d z = String "-" x).
Proof.
  assert (∀ p, let x := pretty_N_go (Npos p) "" in
    x ≠ "" ∧ digits x = true ∧ (∀ r, x = String "0" r → r = "")) as Hp.
  { intros p. cbv zeta. destruct (pretty_N_go_head (Npos p) "") as (a & r & Hx & Ha); [lia|].
    split; [by rewrite Hx|]. split; [by apply printed_digits|]. rewrite Hx. intros r' [= -> _]. discriminate Ha. }
  destruct z as [|p|p].
  - exists "0". split_and!; [done|done|by intros r [= <-]|by left].
  - exists (pretty_N_go (Npos p) ""). destruct (Hp p) as (? & ? & ?). split_and!; [done..|]. by left.
  - exists (pretty_N_go (Npos p) ""). destruct (Hp p) as (? & ? & ?). split_and!; [done..|]. by right.
Qed.

Lemma number_fmt_d z t : ends_number t = true → number (fmt_d z ++ t) = Some (fmt_d z, t).
Proof.
  intros Ht. destruct (fmt_d_shape z) as (x & H1 & H2 & H3 & [->| ->]);
    by destruct (number_digits x t H1 H2 H3 Ht).
Qed.

Lemma ParseInt_fmt z : in64 z → ParseInt (fmt_d z) = Some z.
Proof.
  intros Hz. destruct z as [|p|p]; [done|by apply ParseInt_fmt_d|].
  change (fmt_d (Zneg p)) with (String "-" (pretty_N_go (Npos p) "")). cbn [ParseInt].
  destruct (digits_from_pretty (Npos p) "" 0) as (k & _ & Hd). rewrite Z.mul_0_l in Hd. cbn [digits_from] in Hd.
  destruct (pretty_N_go_head (Npos p) "") as (a & r & Hx & _); [lia|]. rewrite Hx in Hd |- *.
  unfold unsigned. rewrite Hd. cbn. unfold within64, int8_ok. unfold in64 in Hz.
  change (- Z.pos p) with (Z.neg p). by rewrite !(proj2 (Z.leb_le _ _)) by lia.
Qed.

(** * Values *)

Lemma parse_value_number fuel depth a r :
  json_digit a = true ∨ a = "-"%char →
  parse_value (S fuel) depth (String a r) = ('(x, r) ← number (String a r); Some (VNumber x, r)).
Proof.
  intros [H| ->]; [|reflexivity].
  destruct a as [[] [] [] [] [] [] [] []]; first [discriminate H|reflexivity].
Qed.

Lemma parse_value_array fuel depth a r :
  json_space a = false → a ≠ "]"%char →
  parse_value (S fuel) depth (String "[" (String a r)) =
    if maxNestingDepth <=? depth then None
    else '(l, r) ← parse_elements fuel (depth + 1) (String a r); Some (VArray l, r).
Proof.
  intros H1 H2. assert (skip_spaces (String a r) = String a r) as Hs by (cbn [skip_spaces]; by rewrite H1).
  cbn [parse_value]. change (skip_spaces (String "[" ?x)) with (String "[" x). cbn iota. rewrite Hs.
  destruct a as [[] [] [] [] [] [] [] []]; first [reflexivity|by destruct H2].
Qed.

Lemma parse_value_object fuel depth r :
  parse_value (S fuel) depth (String "{" (String quote r)) =
    if maxNestingDepth <=? depth then None
    else '(ms, r) ← parse_members fuel (depth + 1) (String quote r); Some (VObject ms, r).
Proof. reflexivity. Qed.

Lemma parse_value_string fuel depth r :
  parse_value (S fuel) depth (String quote r) = ('(x, r) ← unquote 0 r; Some (VString x, r)).
Proof. reflexivity. Qed.

Lemma quoted_app s t : (quoted s ++ t)%string = String quote (escape s ++ String quote t).
Proof.
  unfold quoted. change (String quote "" ++ ?x)%string with (String quote x).
  change (String quote ?x ++ ?y)%string with (String quote (x ++ y)). by rewrite append_assoc.
Qed.

Section values.
Context `{UT : UuidText} `{LC : Location}.

(** The calls that reading a value takes, one in the other. *)
Fixpoint cost (j : json) : nat :=
  match j with
  | JArray l => S (foldr (λ j n, S (cost j + n)) 0 l)
  | JObject fs => S (foldr (λ p n, S (cost p.2 + n)) 0 fs)
  | _ => 1
  end%nat.

(** No value starts with white space or with a closing bracket. *)
Lemma Marshal_head j : ∃ a r, Marshal j = String a r ∧ json_space a = false ∧ a ≠ "]"%char.
Proof.
  destruct j as [|[]|z|s|u|t|l|fs]; cbn [Marshal]; try (by eexists _, _; split_and!; [reflexivity|..]).
  destruct (fmt_d_shape z) as (x & Hx & Hd & _ & [->| ->]); [|by eexists _, _].
  destruct x as [|a x]; [done|]. exists a, x. cbn [digits] in Hd. apply andb_true_iff in Hd as [Ha _].
  split; [done|]. by destruct a as [[] [] [] [] [] [] [] []]; first [discriminate Ha|split].
Qed.

Definition writable_list (d : nat) (l : list json) : Prop := foldr (λ j P, writable d j ∧ P) True l.
Definition writable_fields (d : nat) (fs : list (string * json)) : Prop :=
  foldr (λ p P, (utf8 p.1 = true ∧ writable d p.2) ∧ P) True fs.

Lemma writable_object d fs :
  Forall (λ p, utf8 p.1 = true ∧ writable d p.2) fs → writable (S d) (JObject fs).
Proof. by induction 1. Qed.

Lemma writable_array d l : Forall (writable d) l → writable (S d) (JArray l).
Proof. by induction 1. Qed.

(** Reading what was written, [d] levels deep. *)
Definition reads (d : nat) : Prop := ∀ j fuel depth t,
  writable d j → (cost j <= fuel)%nat → depth + Z.of_nat d <= maxNestingDepth → ends_number t = true →
  parse_value fuel depth (Marshal j ++ t) = Some (tree j, t).

Lemma reads_string s fuel depth t :
  utf8 s = true → (1 <= fuel)%nat → parse_value fuel depth (quoted s ++ t) = Some (VString s, t).
Proof.
  intros Hs Hf. destruct fuel as [|fuel]; [lia|]. rewrite quoted_app, parse_value_string.
  by rewrite (unquote_escape s 0 t Hs).
Qed.

Lemma reads_elements d j l fuel depth t :
  reads d → writable_list d (j :: l) → (foldr (λ j n, S (cost j + n)) 0 (j :: l) <= fuel)%nat →
  depth + Z.of_nat d <= maxNestingDepth →
  parse_elements fuel depth (strings_join (map Marshal (j :: l)) "," ++ String "]" t)
    = Some (map tree (j :: l), t).
Proof.
  intros Hr. revert j fuel. induction l as [|k l IH]; intros j fuel [Hj Hl] Hf Hd; cbn [foldr] in Hf;
    (destruct fuel as [|fuel]; [lia|]).
  - cbn [map strings_join parse_elements]. by rewrite (Hr j) by (done || lia).
  - change (strings_join (map Marshal (j :: k :: l)) ",")
      with (Marshal j ++ "," ++ strings_join (map Marshal (k :: l)) ",")%string.
    rewrite append_assoc. cbn [parse_elements].
    change (("," ++ ?x) ++ ?y)%string with (String "," (x ++ y)).
    rewrite (Hr j) by (done || lia). cbn [mbind option_bind skip_spaces].
    change (json_space ",") with false. cbn iota. by rewrite (IH k) by (cbn [foldr]; done || lia).
Qed.

Lemma reads_members d p fs fuel depth t :
  reads d → writable_fields d (p :: fs) → (foldr (λ p n, S (cost p.2 + n)) 0 (p :: fs) <= fuel)%nat →
  depth + Z.of_nat d <= maxNestingDepth →
  parse_members fuel depth
    (strings_join (map (λ p, quoted p.1 ++ ":" ++ Marshal p.2)%string (p :: fs)) "," ++ String "}" t)
    = Some (map (λ p, (p.1, tree p.2)) (p :: fs), t).
Proof.
  intros Hr. revert p fuel. induction fs as [|q fs IH]; intros p fuel [[Hk Hp] Hfs] Hf Hd; cbn [foldr] in Hf;
    (destruct fuel as [|fuel]; [lia|]).
  - cbn [map strings_join]. rewrite append_assoc, quoted_app. cbn [parse_members skip_spaces].
    change (json_space quote) with false. cbn iota.
    rewrite (unquote_escape p.1 0 _ Hk). cbn [mbind option_bind].
    change ((":" ++ ?x) ++ ?y)%string with (String ":" (x ++ y)). cbn [skip_spaces].
    change (json_space ":") with false. cbn iota. by rewrite (Hr p.2) by (done || lia).
  - change (strings_join (map ?f (p :: q :: fs)) ",") with (f p ++ "," ++ strings_join (map f (q :: fs)) ",")%string.
    rewrite append_assoc, append_assoc, quoted_app. cbn [parse_members skip_spaces].
    change (json_space quote) with false. cbn iota.
    rewrite (unquote_escape p.1 0 _ Hk). cbn [mbind option_bind].
    change ((":" ++ ?x) ++ ?y)%string with (String ":" (x ++ y)). cbn [skip_spaces].
    change (json_space ":") with false. cbn iota.
    change (("," ++ ?x) ++ ?y)%string with (String "," (x ++ y)).
    rewrite (Hr p.2) by (done || lia). cbn [mbind option_bind skip_spaces].
    change (json_space ",") with false. cbn iota. by rewrite (IH q) by (cbn [foldr]; done || lia).
Qed.

Lemma Marshal_reads d : reads d.
Proof.
  induction d as [|d IH]; intros j fuel depth t Hw Hc Hd Ht.
  all: destruct fuel as [|fuel]; [destruct j; cbn [cost] in Hc; lia|].
  all: destruct j as [|b|z|s|u|i|l|fs]; cbn [Marshal tree writable cost] in *; try done;
    try (destruct b; reflexivity); try (apply reads_string; [tauto|lia]).
  1,2: pose proof (number_fmt_d z t Ht) as Hn; destruct (fmt_d_shape z) as (x & Hx & Hdg & _ & Hz);
    assert (∃ a r, fmt_d z = String a r ∧ (json_digit a = true ∨ a = "-"%char)) as (a & r & Ha & Hda);
    [destruct Hz as [->| ->]; [|by eexists _, _; eauto]; destruct x as [|a x]; [done|];
       cbn [digits] in Hdg; apply andb_true_iff in Hdg as [? _]; by eexists _, _; eauto|];
    rewrite Ha in Hn |- *; change (String a r ++ t)%string with (String a (r ++ t)) in *;
    by rewrite parse_value_number, Hn.
  - change ("[" ++ ?x)%string with (String "[" x). change (String ?c ?x ++ ?y)%string with (String c (x ++ y)).
    rewrite append_assoc. change ("]" ++ t)%string with (String "]" t).
    assert (maxNestingDepth <=? depth = false) as Hmax by (apply Z.leb_gt; lia).
    destruct l as [|j l]; [cbn; by rewrite Hmax|].
    pose proof (reads_elements d j l fuel (depth + 1) t IH Hw ltac:(lia) ltac:(lia)) as He.
    destruct (Marshal_head j) as (a & r & Hj & Hsp & Hbr).
    assert (∃ r', (strings_join (map Marshal (j :: l)) "," ++ String "]" t)%string = String a r') as [r' Hr'].
    { destruct l; cbn [map strings_join]; rewrite Hj; by eexists. }
    rewrite Hr' in He |- *. by rewrite parse_value_array, Hmax, He.
  - change ("{" ++ ?x)%string with (String "{" x). change (String ?c ?x ++ ?y)%string with (String c (x ++ y)).
    rewrite append_assoc. change ("}" ++ t)%string with (String "}" t).
    assert (maxNestingDepth <=? depth = false) as Hmax by (apply Z.leb_gt; lia).
    destruct fs as [|p fs]; [cbn; by rewrite Hmax|].
    pose proof (reads_members d p fs fuel (depth + 1) t IH Hw ltac:(lia) ltac:(lia)) as He.
    assert (∃ r', (strings_join (map (λ p, quoted p.1 ++ ":" ++ Marshal p.2)%string (p :: fs)) "," ++ String "}" t)%string
                  = String quote r') as [r' Hr'].
    { destruct fs; cbn [map strings_join]; rewrite ?append_assoc, quoted_app; by eexists. }
    rewrite Hr' in He |- *. by rewrite parse_value_object, Hmax, He.
Qed.
End values.

Section roundtrip.
Context `{UT : UuidText} `{LC : Location}.

Lemma tree_denotes d j : writable d j → denotes j (tree j).
Proof.
  revert j. induction d as [|d IH]; intros j Hw.
  all: destruct j as [|b|z|s|u|i|l|fs]; cbn [tree writable] in *; try done; try by constructor.
  all: try (constructor; by apply ParseInt_fmt).
  all: try (constructor; apply Parse_Format; tauto).
  - constructor. induction l as [|j l IHl]; [constructor|]. destruct Hw as [Hj Hl].
    constructor; [by apply IH|by apply IHl].
  - eapply den_object; [|reflexivity]. induction fs as [|p fs IHfs]; [constructor|]. destruct Hw as [[_ Hp] Hfs].
    constructor; [split; [done|by apply IH]|by apply IHfs].
Qed.

Lemma length_strings_join l sep :
  (sum_list (String.length <$> l) + pred (length l) * String.length sep <= String.length (strings_join l sep))%nat.
Proof.
  induction l as [|x [|y l] IH]; [done|csimpl; lia|].
  change (strings_join (x :: y :: l) sep) with (x ++ sep ++ strings_join (y :: l) sep)%string.
  rewrite !length_append. csimpl in *. lia.
Qed.

(** [parse_fuel] is enough. *)
Lemma cost_length d j : writable d j → (cost j <= 2 * String.length (Marshal j))%nat.
Proof.
  revert j. induction d as [|d IH]; intros j Hw.
  all: destruct j as [|b|z|s|u|i|l|fs]; cbn [Marshal writable cost] in *; try done;
    try (cbn; lia); try (unfold quoted; rewrite !length_append; cbn; lia); try (destruct b; cbn; lia);
    try (destruct (fmt_d_shape z) as ([|a x] & ? & _ & _ & [->| ->]); [done|done|cbn; lia..]).
  - rewrite !length_append. pose proof (length_strings_join (map Marshal l) ",") as Hl.
    rewrite length_map in Hl. repeat change (String.length (String _ "")) with 1%nat in *.
    enough (foldr (λ j n, S (cost j + n)) 0 l <= length l + 2 * sum_list (String.length <$> map Marshal l))%nat by lia.
    clear Hl. induction l as [|j l IHl]; [done|]. destruct Hw as [Hj Hl]. cbn [foldr map length]. csimpl.
    specialize (IH j Hj). specialize (IHl Hl). lia.
  - rewrite !length_append.
    pose proof (length_strings_join (map (λ p, quoted p.1 ++ ":" ++ Marshal p.2)%string fs) ",") as Hl.
    rewrite length_map in Hl. repeat change (String.length (String _ "")) with 1%nat in *.
    enough (foldr (λ p n, S (cost p.2 + n)) 0 fs
            <= length fs + 2 * sum_list (String.length <$> map (λ p, quoted p.1 ++ ":" ++ Marshal p.2)%string fs))%nat by lia.
    clear Hl. induction fs as [|p fs IHl]; [done|]. destruct Hw as [[_ Hj] Hl]. cbn [foldr map length]. csimpl.
    specialize (IH p.2 Hj). specialize (IHl Hl). rewrite !length_append. lia.
Qed.

Lemma parse_Marshal d j t :
  writable d j → Z.of_nat d <= maxNestingDepth → ends_number t = true →
  parse (Marshal j ++ t) = Some (tree j, t).
Proof.
  intros Hw Hd Ht. apply (Marshal_reads d); [done| |lia|done]. unfold parse_fuel. rewrite length_append.
  pose proof (cost_length d j Hw). lia.
Qed.

(** What [json.Marshal] writes is read back, by [json.Unmarshal], into a record with a
    setter for each of its members. *)
Lemma Unmarshal_Marshal {A} (f : setter A) d j (a b : A) :
  writable d j → Z.of_nat d <= maxNestingDepth → (∀ v, denotes j v → f v a = stored b) →
  Unmarshal f (Marshal j) a = stored b.
Proof.
  intros Hw Hd Hf. unfold Unmarshal. rewrite <-(append_nil_r (Marshal j)), (parse_Marshal d) by done. cbn.
  by apply Hf, (tree_denotes d).
Qed.
End roundtrip.

(** ** Lines *)

Definition newline : ascii := "010".

Fixpoint one_line (s : string) : bool :=
  match s with EmptyString => true | String a r => (if ascii_dec a newline then false else true) && one_line r end.

Lemma one_line_app s t : one_line (s ++ t) = one_line s && one_line t.
Proof.
  induction s as [|a s IH]; [done|]. change (String a s ++ t)%string with (String a (s ++ t)).
  cbn [one_line]. by rewrite IH, andb_assoc.
Qed.

Lemma one_line_escape1 a : low a = true → one_line (escape1 a) = true.
Proof. destruct a as [[] [] [] [] [] [] [] []]; intros H; first [discriminate H|reflexivity]. Qed.

Lemma one_line_escape s : one_line (escape s) = true.
Proof.
  remember (String.length s) as n eqn:Hn. revert s Hn. induction n as [n IH] using lt_wf_ind. intros s Hn.
  destruct s as [|a s]; [done|]. cbn [String.length] in Hn. destruct (low a) eqn:Ha.
  { rewrite escape_low, one_line_app, one_line_escape1 by done. apply (IH (String.length s)); [lia|done]. }
  destruct (separator (String a s)) eqn:Hsep.
  - destruct s as [|b [|c s]]; [done..|]. cbn [String.length] in Hn.
    cbn [separator] in Hsep. apply andb_true_iff in Hsep as [[Ha' Hb]%andb_true_iff Hc].
    apply between_one in Ha' as ->. apply between_one in Hb as ->. apply between_spec in Hc.
    assert (c = ascii_of_nat 168 ∨ c = ascii_of_nat 169) as [->| ->].
    { destruct (decide (nat_of_ascii c = 168%nat)); [left|right]; apply byte_is; lia. }
    all: change (one_line (escape s) = true); apply (IH (String.length s)); [lia|done].
  - rewrite escape_copies by done. cbn [one_line].
    destruct (ascii_dec a newline) as [->|]; [done|]. apply (IH (String.length s)); [lia|done].
Qed.

Lemma one_line_quoted s : one_line (quoted s) = true.
Proof. unfold quoted. by rewrite !one_line_app, one_line_escape. Qed.

Lemma one_line_digits s : digits s = true → one_line s = true.
Proof.
  induction s as [|a s IH]; [done|]. cbn [digits one_line]. intros [Ha Hs]%andb_true_iff.
  destruct (ascii_dec a newline) as [->|]; [done|]. by apply IH.
Qed.

Lemma one_line_join l sep : one_line sep = true → Forall (λ s, one_line s = true) l → one_line (strings_join l sep) = true.
Proof.
  intros Hs. induction 1 as [|x l Hx H IH]; [done|]. destruct l; [done|].
  change (strings_join (x :: ?r) sep) with (x ++ sep ++ strings_join r sep)%string.
  by rewrite !one_line_app, Hx, Hs, IH.
Qed.

(** The text of a value is one line. *)
Lemma one_line_Marshal `{UT : UuidText} `{LC : Location} d j : writable d j → one_line (Marshal j) = true.
Proof.
  revert j. induction d as [|d IH]; intros j Hw.
  all: destruct j as [|b|z|s|u|i|l|fs]; cbn [Marshal writable] in *; try done; try apply one_line_quoted;
    try (destruct b; reflexivity);
    try (destruct (fmt_d_shape z) as (x & _ & Hx & _ & [->| ->]); by apply one_line_digits in Hx).
  - rewrite !one_line_app. cbn [one_line]. rewrite one_line_join; [done..|].
    induction l as [|j l IHl]; [constructor|]. destruct Hw as [Hj Hl]. constructor; [by apply IH|by apply IHl].
  - rewrite !one_line_app. cbn [one_line]. rewrite one_line_join; [done..|].
    induction fs as [|p fs IHl]; [constructor|]. destruct Hw as [[_ Hj] Hl]. constructor; [|by apply IHl].
    by rewrite !one_line_app, one_line_quoted, (IH p.2).
Qed.
