(* ===== verification/Web.v ===== *)
(** internal/platform/web/response.go, and what the handlers use of net/http and chi.

    A request is what a handler reads of it: its headers and query by their first values,
    the parameters of the route, which the router fills in, and its body.  A response is
    what a handler has written: the headers, the status, and the value or the problem that
    was given to the JSON encoder. *)

From S2P Require Import Prelude Strconv Json Decode.

(** * Requests *)

Inductive body_reader :=
| NilBody
| Bytes (text : string)
| Failing (text : string) (msg : string).   (** [text], and then an error *)

Record Request := MkRequest {
  Header : gmap string string;              (** by canonical key *)
  URLParams : gmap string string;
  Query : gmap string string;
  Path : string;
  Body : body_reader;
  ContentLength : Z;
}.

Definition upper (a : ascii) : ascii :=
  let n := nat_of_ascii a in
  if ((97 <=? n) && (n <=? 122))%nat then ascii_of_nat (n - 32) else a.

(** [textproto.CanonicalMIMEHeaderKey] of a valid key: a capital at the start and after a
    hyphen, small letters elsewhere. *)
Fixpoint canonical_key (start : bool) (k : string) : string :=
  match k with
  | EmptyString => EmptyString
  | String a r =>
      String (if start then upper a else lower a) (canonical_key (bool_decide (a = "-"%char)) r)
  end.

Definition CanonicalHeaderKey : string → string := canonical_key true.

Definition Header_Get (r : Request) (k : string) : string :=
  default "" (Header r !! CanonicalHeaderKey k).

(** [chi.URLParam] and [r.URL.Query().Get] *)
Definition URLParam (r : Request) (k : string) : string := default "" (URLParams r !! k).
Definition Query_Get (r : Request) (k : string) : string := default "" (Query r !! k).

(** * Responses *)

Record InvalidParam := MkInvalidParam { Param_Name : string; Param_Reason : string }.

Record ProblemDetails := MkProblemDetails {
  Problem_Type : string;
  Problem_Title : string;
  Problem_Status : Z;
  Problem_Detail : string;
  Problem_Instance : string;
  Problem_Code : string;
  Problem_InvalidParams : list InvalidParam;
}.

Inductive payload (A : Type) :=
| NoBody
| JSON (data : A)
| Problem (p : ProblemDetails).
Arguments NoBody {A}.
Arguments JSON {A} data.
Arguments Problem {A} p.

(** The headers a handler has set so far. *)
Notation headers := (gmap string string).

Record Response (A : Type) := MkResponse {
  ResHeader : headers;
  StatusCode : Z;
  ResBody : payload A;
}.
Arguments MkResponse {A} ResHeader StatusCode ResBody.
Arguments ResHeader {A} r : rename.
Arguments StatusCode {A} r : rename.
Arguments ResBody {A} r : rename.

Definition Header_Set (k v : string) (h : headers) : headers := <[CanonicalHeaderKey k := v]> h.

(** [w.WriteHeader] and nothing more. *)
Definition WriteHeader {A} (h : headers) (status : Z) : Response A := MkResponse h status NoBody.

Definition RespondJSON {A} (h : headers) (status : Z) (data : A) : Response A :=
  MkResponse (Header_Set "Content-Type" "application/json" h) status (JSON data).

Definition RespondProblem {A} (h : headers) (r : Request) (status : Z) (code title detail : string) :
    Response A :=
  MkResponse (Header_Set "Content-Type" "application/problem+json" h) status
    (Problem (MkProblemDetails ("https://shopflow.io/errors/" ++ code)%string title status detail
                (Path r) code [])).

(** The statuses the handlers answer. *)
Definition StatusOK : Z := 200.
Definition StatusCreated : Z := 201.
Definition StatusNoContent : Z := 204.
Definition StatusBadRequest : Z := 400.
Definition StatusUnauthorized : Z := 401.
Definition StatusForbidden : Z := 403.
Definition StatusNotFound : Z := 404.
Definition StatusConflict : Z := 409.
Definition StatusPreconditionFailed : Z := 412.
Definition StatusInternalServerError : Z := 500.
Definition StatusNotImplemented : Z := 501.

(** * Entity tags *)

Definition SetETag (version : Z) (h : headers) : headers :=
  Header_Set "ETag" (String quote (fmt_d version ++ String quote ""))%string h.

Inductive if_match_error :=
| MissingIfMatch
| InvalidIfMatch (raw : string).

Definition ExtractIfMatch (r : Request) : result if_match_error Z :=
  let raw := TrimSpace (Header_Get r "If-Match") in
  if String.eqb raw "" then Err MissingIfMatch else
  let trimmed := Trim raw quote in
  match ParseInt trimmed with
  | None => Err (InvalidIfMatch raw)
  | Some version => if version <=? 0 then Err (InvalidIfMatch raw) else Ok version
  end.

(** * Bodies *)

(** A stream that fails after a text: the first value is found if its end is. *)
Definition ends_itself (v : value) (rest : string) : bool :=
  match v with VObject _ | VArray _ => true | _ => negb (String.eqb rest "") end.

(** What is stored in the target, and the text of the error.  Fields that the target does
    not have are refused; what follows the first value is not read. *)
Definition DecodeJSON `{JT : JsonErrorText} {A} (f : setter A) (zero : A) (r : Request) : A * option string :=
  let answer (d : decoded A) :=
    (target d, (λ e, ("invalid request body: " ++ json_error_text e)%string) <$> saved d) in
  match Body r with
  | NilBody => (zero, Some "missing request body")
  | Bytes text => answer (Decode f text zero)
  | Failing text msg =>
      match parse text with
      | Some (v, rest) => if ends_itself v rest then answer (f v zero) else answer (hard_error (ErrRead msg) zero)
      | None => answer (hard_error (ErrRead msg) zero)
      end
  end.

(** [io.ReadAll(r.Body)] *)
Definition ReadAll (r : Request) : option string :=
  match Body r with NilBody => Some "" | Bytes text => Some text | Failing _ _ => None end.

Definition with_body (r : Request) (b : body_reader) : Request :=
  MkRequest (Header r) (URLParams r) (Query r) (Path r) b (ContentLength r).

(** * Calling a service *)

(** The error of a call is a value for the handler; [F] is what can escape it. *)
Definition call {S E F A} (m : M S E A) : M S F (result E A) := λ env n s,
  let '(n, s, r) := m env n s in (n, s, Ok r).

(** * Lemmas *)

Lemma Header_Get_Set_eq k v h : Header_Set k v h !! CanonicalHeaderKey k = Some v.
Proof. apply lookup_insert_eq. Qed.

Lemma TrimSpace_quoted s :
  TrimSpace (String quote (s ++ String quote "")) = String quote (s ++ String quote "").
Proof.
  unfold TrimSpace.
  assert (trim_front space2 space3 (String quote (s ++ String quote "")) = String quote (s ++ String quote ""))
    as -> by (destruct s as [|a [|b s]]; reflexivity).
  assert (String.rev (String quote (s ++ String quote "")) = String quote (String.rev s ++ String quote "")) as Hr.
  { by rewrite rev_cons, rev_append. }
  rewrite Hr.
  assert (∀ t, trim_front (λ a b, space2 b a) (λ a b c, space3 c b a) (String quote t) = String quote t) as ->.
  { intros t. destruct t as [|a [|b t]]; simpl; try done.
    - assert (space2 a quote = false) as -> by (unfold space2; by rewrite andb_false_r). done.
    - assert (space2 a quote = false) as -> by (unfold space2; by rewrite andb_false_r).
      assert (space3 b a quote = false) as ->; [|done].
      unfold space3. simpl. by rewrite !andb_false_r. }
  by rewrite <-Hr, rev_involutive.
Qed.

(** The tag of an answer is accepted as the condition of the next request: whoever sends
    back the ETag of a response names the version the response was made of. *)
Lemma ExtractIfMatch_ETag r v h :
  0 < v → in64 v → Header r !! CanonicalHeaderKey "If-Match" = SetETag v h !! CanonicalHeaderKey "ETag" →
  ExtractIfMatch r = Ok v.
Proof.
  intros Hv Hin Hh. unfold ExtractIfMatch, Header_Get. rewrite Hh. unfold SetETag.
  rewrite Header_Get_Set_eq. change (default ?d (Some ?x)) with x.
  change (String quote "" ++ ?t)%string with (String quote t). rewrite TrimSpace_quoted. cbv zeta.
  rewrite Trim_marks by (by apply (avoids_digits quote 0 _ v), fmt_d_digits_from).
  rewrite ParseInt_fmt_d by done. simpl. by rewrite (proj2 (Z.leb_gt v 0)) by lia.
Qed.
