(* ===== verification/Static.v ===== *)
(** internal/platform/web/static.go: the files of the web front end, and the functions of
    path/filepath on Unix that it relies on.

    The file system is a parameter, of which the program asks whether a path names a
    directory ([Stat]).  The answer of [http.ServeFile] is the path it is given. *)

From S2P Require Import Prelude Strconv Web.

(** * Package filepath *)

(** A lexical path: whether it starts at the root, and its elements. *)
Record path := MkPath { rooted : bool; elems : list string }.

Definition is_root (s : string) : bool := HasPrefix s "/".

(** One element more: an empty one and "." are nothing, and ".." takes one away, where there is
    one to take away. *)
Definition push (root : bool) (out : list string) (e : string) : list string :=
  if String.eqb e "" || String.eqb e "." then out else
  if String.eqb e ".." then
    match last out with
    | None => if root then [] else [".."]
    | Some x => if String.eqb x ".." then out ++ [".."] else removelast out
    end
  else out ++ [e].

Definition resolve (s : string) : path :=
  MkPath (is_root s) (foldl (push (is_root s)) [] (Split "/" s)).

Definition render (p : path) : string :=
  let body := strings_join (elems p) "/" in
  if rooted p then ("/" ++ body)%string else if String.eqb body "" then "." else body.

Definition Clean (s : string) : string := render (resolve s).

(** [filepath.Join] *)
Fixpoint Join (l : list string) : string :=
  match l with
  | [] => ""
  | e :: r => if String.eqb e "" then Join r else Clean (strings_join l "/")
  end.

(** What is left of two lists without their common front. *)
Fixpoint diverge (b t : list string) : list string * list string :=
  match b, t with
  | x :: b', y :: t' => if String.eqb x y then diverge b' t' else (b, t)
  | _, _ => (b, t)
  end.

(** [filepath.Rel]: how to get from one path to another; [None] for an error. *)
Definition Rel (basepath targpath : string) : option string :=
  let b := resolve basepath in
  let t := resolve targpath in
  if String.eqb (render t) (render b) then Some "." else
  if negb (Bool.eqb (rooted b) (rooted t)) then None else
  let te := if negb (rooted t) && bool_decide (elems t = []) then ["."] else elems t in
  match diverge (elems b) te with
  | ([], rest) => Some (strings_join rest "/")
  | (x :: up, rest) =>
      if String.eqb x ".." && negb (bool_decide (rest = [])) then None else
      Some (strings_join (((λ _, "..") <$> (x :: up)) ++ rest) "/")
  end.

(** * The handler *)

(** [os.Stat]: whether what a path names is a directory, if it names anything. *)
Class FileSystem := Stat : string → option bool.

Record SPAHandler := MkSPAHandler { distDir : string; indexFile : string }.

Definition NewSPAHandler (dist : string) : SPAHandler :=
  let cleanDist := Clean dist in MkSPAHandler cleanDist (Join [cleanDist; "index.html"]).

Definition isReservedPrefix (path : string) : bool :=
  if HasPrefix path "/api/" || String.eqb path "/api" then true else
  if HasPrefix path "/health/" || String.eqb path "/health" then true else
  if HasPrefix path "/metrics" || String.eqb path "/metrics" then true else
  false.

(** [http.Error], and [http.ServeFile] *)
Inductive served :=
| HTTPError (text : string) (code : Z)
| ServeFile (name : string).

Definition NotFound : served := HTTPError "404 page not found" StatusNotFound.
Definition StatusMethodNotAllowed : Z := 405.

Section handler.
Context `{FS : FileSystem}.

(** The path below the directory of the files. *)
Definition clean_path (path : string) : string :=
  TrimPrefix (TrimPrefix (TrimPrefix (Clean path) "/") "/") "\".

Definition ServeHTTP (h : SPAHandler) (method path : string) : served :=
  if negb (String.eqb method "GET") && negb (String.eqb method "HEAD")
  then HTTPError "Method Not Allowed" StatusMethodNotAllowed else
  if isReservedPrefix path then NotFound else
  let targetPath := Join [distDir h; clean_path path] in
  match Rel (distDir h) targetPath with
  | None => HTTPError "Forbidden" StatusForbidden
  | Some rel =>
      if HasPrefix rel ".." then HTTPError "Forbidden" StatusForbidden else
      match Stat targetPath with
      | Some false => ServeFile targetPath
      | _ => ServeFile (indexFile h)
      end
  end.

(** Whether the handler is attached to the router. *)
Definition AttachSPAFallback (dist : string) : option SPAHandler :=
  match Stat (Join [Clean dist; "index.html"]) with
  | Some false => Some (NewSPAHandler (Clean dist))
  | _ => None
  end.
End handler.

(** * Lexical paths *)

(** An element between two separators. *)
Definition plain (e : string) : Prop := e ≠ "" ∧ e ≠ "." ∧ has "/" e = false.

(** Elements ".." come first, and not after the root. *)
Definition dots_first (root : bool) (l : list string) : Prop :=
  ∀ l1 l2, l = l1 ++ ".." :: l2 → root = false ∧ Forall (λ e, e = "..") l1.

Definition normal (p : path) : Prop := Forall plain (elems p) ∧ dots_first (rooted p) (elems p).

Lemma Split_elements c s e : e ∈ Split c s → has c e = false.
Proof.
  revert e. induction s as [|a s IH]; intros e; cbn [Split].
  - by intros ->%list_elem_of_singleton.
  - destruct (ascii_dec a c) as [->|Hne].
    + intros [->|He]%elem_of_cons; [done|auto].
    + destruct (Split c s) as [|x l]; [by intros ?%not_elem_of_nil|].
      intros [->|He]%elem_of_cons; [|apply IH; by right]. cbn [has].
      rewrite bool_decide_false by done. apply IH. by left.
Qed.

Lemma Split_cons c s : ∃ x l, Split c s = x :: l.
Proof.
  induction s as [|a s (x & l & IH)]; cbn [Split]; [by eexists _, _|]. rewrite IH.
  destruct (ascii_dec a c); by eexists _, _.
Qed.

Lemma Split_append c s t : Split c (s ++ String c t) = Split c s ++ Split c t.
Proof.
  induction s as [|a s IH].
  - change ("" ++ String c t)%string with (String c t). cbn [Split]. by destruct (ascii_dec c c).
  - change (String a s ++ String c t)%string with (String a (s ++ String c t)). cbn [Split]. rewrite IH.
    destruct (ascii_dec a c); [done|]. by destruct (Split_cons c s) as (x & l & ->).
Qed.

Lemma Split_join l : l ≠ [] → Forall (λ e, has "/" e = false) l → Split "/" (strings_join l "/") = l.
Proof.
  induction l as [|x l IH]; [done|]. intros _ Hl. inversion_clear Hl as [|? ? Hx Hl'].
  destruct l as [|y l]; [by apply Split_none|]. change (strings_join (x :: y :: l) "/")
    with (x ++ String "/" (strings_join (y :: l) "/"))%string.
  rewrite Split_first by done. f_equal. by apply IH.
Qed.

Lemma dots_first_app root l1 l2 : dots_first root (l1 ++ l2) → dots_first root l1.
Proof. intros H k1 k2 ->. apply (H k1 (k2 ++ l2)). by rewrite <- app_assoc. Qed.

Lemma dots_first_snoc root l e : e ≠ ".." → dots_first root l → dots_first root (l ++ [e]).
Proof.
  intros He H l1 l2 Heq. destruct l2 as [|y l2 _] using rev_ind; [by apply app_inj_tail in Heq as [_ ->]|].
  rewrite app_comm_cons, app_assoc in Heq. apply app_inj_tail in Heq as [-> _]. by apply (H l1 l2).
Qed.

Lemma removelast_app_last (l : list string) x : last l = Some x → l = removelast l ++ [x].
Proof. intros (l' & ->)%last_Some. by rewrite removelast_last. Qed.

Lemma push_normal root out e :
  has "/" e = false → Forall plain out → dots_first root out →
  Forall plain (push root out e) ∧ dots_first root (push root out e).
Proof.
  intros He Ho Hd. unfold push.
  destruct (String.eqb_spec e "") as [|Hne]; cbn [orb]; [done|].
  destruct (String.eqb_spec e ".") as [|Hne1]; cbn [orb]; [done|].
  destruct (String.eqb_spec e "..") as [->|Hne2].
  - destruct (last out) as [x|] eqn:Hlast.
    + apply removelast_app_last in Hlast as Hout. destruct (String.eqb_spec x "..") as [->|Hx].
      * split; [by apply Forall_app_2; [|constructor]|]. destruct (Hd (removelast out) [] Hout) as [-> Hall].
        intros l1 l2 Heq. split; [done|]. assert (Hdots : Forall (λ e, e = "..") (out ++ [".."])).
        { rewrite Hout. by repeat (apply Forall_app; split); try constructor. }
        rewrite Heq in Hdots. by apply Forall_app in Hdots as [? _].
      * rewrite Hout in Ho, Hd. split; [by apply Forall_app in Ho as [? _]|by apply dots_first_app in Hd].
    + destruct root; [by apply last_None in Hlast as ->|]. split; [by constructor|].
      intros [|y l1] l2; [done|]. by intros [= _ []%app_cons_not_nil].
  - split; [apply Forall_app_2; [done|by constructor]|]. by apply dots_first_snoc.
Qed.

Lemma foldl_push_normal root l out :
  Forall (λ e, has "/" e = false) l → Forall plain out → dots_first root out →
  Forall plain (foldl (push root) out l) ∧ dots_first root (foldl (push root) out l).
Proof.
  revert out. induction l as [|e l IH]; intros out Hl Ho Hd; [done|]. inversion_clear Hl.
  cbn [foldl]. destruct (push_normal root out e) as [? ?]; [done..|]. by apply IH.
Qed.

Lemma resolve_normal s : normal (resolve s).
Proof.
  apply foldl_push_normal; [|done|by intros [] ?].
  apply Forall_forall. intros e. apply Split_elements.
Qed.

(** Elements in order are kept as they are. *)
Lemma foldl_push_keeps root l out :
  Forall plain l → dots_first root (out ++ l) → foldl (push root) out l = out ++ l.
Proof.
  revert out. induction l as [|e l IH]; intros out Hl Hd; [by rewrite app_nil_r|].
  inversion_clear Hl as [|? ? (He & He1 & _) Hl']. cbn [foldl].
  assert (push root out e = out ++ [e]) as ->.
  { unfold push. destruct (String.eqb_spec e ""); [done|]. destruct (String.eqb_spec e "."); [done|]. cbn [orb].
    destruct (String.eqb_spec e "..") as [->|]; [|done]. destruct (Hd out l eq_refl) as [-> Hall].
    destruct (last out) as [z|] eqn:Hlast; [|by apply last_None in Hlast as ->].
    apply removelast_app_last in Hlast. rewrite Hlast in Hall. apply Forall_app in Hall as [_ Hx].
    by inversion_clear Hx; subst. }
  rewrite IH, <- app_assoc; [done|done|]. by rewrite <- app_assoc.
Qed.

Lemma is_root_append a s : a ≠ "" → is_root (a ++ s) = is_root a.
Proof.
  destruct a as [|x a]; [done|]. intros _. change (String x a ++ s)%string with (String x (a ++ s)).
  unfold is_root, HasPrefix. cbn [drop_prefix]. by destruct (ascii_dec "/" x).
Qed.

Lemma is_root_plain e : plain e → is_root e = false.
Proof.
  intros (_ & _ & Hs). destruct e as [|x e]; [done|]. cbn [has] in Hs. apply orb_false_iff in Hs as [Hx _].
  unfold is_root, HasPrefix. cbn [drop_prefix]. destruct (ascii_dec "/" x) as [<-|]; [|done]. by rewrite bool_decide_true in Hx.
Qed.

Lemma join_first x l sep : strings_join (x :: l) sep = (x ++ match l with [] => "" | _ => sep ++ strings_join l sep end)%string.
Proof. destruct l; [by rewrite append_nil_r|done]. Qed.

Lemma resolve_render p : normal p → resolve (render p) = p.
Proof.
  destruct p as [root l]. intros [Hl Hd]. cbn [rooted elems] in *.
  assert (Hs : Forall (λ e, has "/" e = false) l) by (eapply Forall_impl; [done|by intros e (_ & _ & ?)]).
  unfold render. cbn [rooted elems]. destruct root.
  - unfold resolve. change (is_root ("/" ++ strings_join l "/")) with true. f_equal.
    change ("/" ++ strings_join l "/")%string with (String "/" (strings_join l "/")). cbn [Split ascii_dec].
    destruct (ascii_dec "/" "/"); [|done]. cbn [foldl]. change (push true [] "") with (@nil string).
    destruct l as [|x l]; [done|]. rewrite Split_join by done. by apply foldl_push_keeps.
  - destruct l as [|x l]; [done|]. inversion_clear Hl as [|? ? Hx Hl'].
    destruct (String.eqb_spec (strings_join (x :: l) "/") "") as [He|_].
    { rewrite join_first in He. destruct x; [by destruct Hx|done]. }
    unfold resolve. assert (is_root (strings_join (x :: l) "/") = false) as ->.
    { rewrite join_first, is_root_append by apply Hx. by apply is_root_plain. }
    f_equal. rewrite Split_join by done. apply foldl_push_keeps; [by constructor|done].
Qed.

Lemma resolve_Clean s : resolve (Clean s) = resolve s.
Proof. apply resolve_render, resolve_normal. Qed.

Lemma render_resolve_inj p1 p2 : normal p1 → normal p2 → render p1 = render p2 → p1 = p2.
Proof. intros H1 H2 H. rewrite <- (resolve_render p1), <- (resolve_render p2) by done. by rewrite H. Qed.

Lemma Clean_nonempty s : Clean s ≠ "".
Proof. unfold Clean, render. destruct (rooted _); [done|]. by destruct (String.eqb_spec (strings_join (elems (resolve s)) "/") ""). Qed.

(** Joining resolves the second path from where the first has led. *)
Lemma resolve_Join d c : d ≠ "" →
  resolve (Join [d; c]) = MkPath (is_root d) (foldl (push (is_root d)) (elems (resolve d)) (Split "/" c)).
Proof.
  intros Hd. cbn [Join]. destruct (String.eqb_spec d ""); [done|]. rewrite resolve_Clean.
  change (strings_join [d; c] "/") with (d ++ String "/" c)%string. unfold resolve.
  by rewrite is_root_append, Split_append, foldl_app.
Qed.

(** * What is served lies below the directory *)

(** A path leads to the directory or, without going up, to something below it. *)
Definition inside (dir f : string) : Prop :=
  ∃ below, resolve f = MkPath (rooted (resolve dir)) (elems (resolve dir) ++ below) ∧
    Forall (λ e, e ≠ "..") below.

Lemma diverge_below b t rest : diverge b t = ([], rest) → t = b ++ rest.
Proof.
  revert t. induction b as [|x b IH]; intros [|y t]; cbn [diverge]; try by intros [= <-].
  destruct (String.eqb_spec x y) as [->|]; [|done]. intros H. cbn. f_equal. by apply IH.
Qed.

Lemma up_prefix l : HasPrefix (strings_join (".." :: l) "/") ".." = true.
Proof. rewrite join_first. done. Qed.

(** A relative path that does not begin with two dots does not go up. *)
Lemma Rel_inside base targ rel :
  rooted (resolve targ) = rooted (resolve base) → Rel base targ = Some rel → HasPrefix rel ".." = false → inside base targ.
Proof.
  intros Hroot. unfold Rel. pose proof (resolve_normal base) as Hnb. pose proof (resolve_normal targ) as Hnt.
  destruct (String.eqb_spec (render (resolve targ)) (render (resolve base))) as [He|Hne].
  { intros _ _. exists []. split; [|done]. rewrite app_nil_r. apply render_resolve_inj in He as ->; [|done..].
    by destruct (resolve base). }
  rewrite Hroot. destruct (Bool.eqb _ _); [|done]. cbn [negb].
  destruct (diverge _ _) as [[|x up] rest] eqn:Hd; [|].
  - intros [= <-] Hup. apply diverge_below in Hd.
    assert (Ht : elems (resolve targ) = elems (resolve base) ++ rest).
    { destruct (negb _ && _) eqn:Hdot; [|done]. apply andb_prop in Hdot as [Hr Hnil].
      apply negb_true_iff in Hr. apply bool_decide_eq_true in Hnil. contradict Hne. destruct Hnb as [Hb _].
      destruct (elems (resolve base)) as [|e l] eqn:Hel.
      - f_equal. destruct (resolve targ), (resolve base). cbn in *. by subst.
      - inversion_clear Hb as [|? ? (_ & Hdot & _)]. by injection Hd as <-. }
    exists rest. split; [destruct (resolve targ); cbn in *; by subst|].
    apply Forall_forall. intros e He ->. apply list_elem_of_split in He as (l1 & l2 & ->).
    destruct Hnt as [_ Hdots]. rewrite Ht, app_assoc in Hdots. destruct (Hdots _ _ eq_refl) as [_ Hall].
    apply Forall_app in Hall as [_ Hall]. destruct l1 as [|y l1]; [cbn [app] in Hup; by rewrite up_prefix in Hup|].
    apply Forall_cons in Hall as [-> _]. cbn [app] in Hup. by rewrite up_prefix in Hup.
  - destruct (String.eqb x ".." && _); [done|]. intros Hrel%(inj Some) Hup. rewrite <- Hrel in Hup.
    pose proof (up_prefix (((λ _, "..") <$> up) ++ rest)) as Hp. cbn [fmap list_fmap app] in Hup, Hp. by rewrite Hp in Hup.
Qed.

Lemma inside_index dist : inside dist (indexFile (NewSPAHandler dist)).
Proof.
  exists ["index.html"]. split; [|by repeat constructor].
  unfold NewSPAHandler. cbn [indexFile]. rewrite resolve_Join by apply Clean_nonempty.
  rewrite resolve_Clean. cbn [Split foldl].
  f_equal. change (is_root (Clean dist)) with (rooted (resolve (Clean dist))). by rewrite resolve_Clean.
Qed.

Lemma has_prefix_join x l p : (String.length p <= String.length x)%nat →
  HasPrefix (strings_join (x :: l) "/") p = HasPrefix x p.
Proof.
  rewrite join_first. generalize (match l with [] => "" | _ => "/" ++ strings_join l "/" end)%string as t.
  revert x. induction p as [|a p IH]; intros x t Hp; [done|]. destruct x as [|b x]; [cbn in Hp; lia|].
  change (String b x ++ t)%string with (String b (x ++ t)). unfold HasPrefix in *. cbn [drop_prefix].
  destruct (ascii_dec a b); [|done]. apply IH. cbn in Hp. lia.
Qed.

(** The path of a file in a request: elements that do not begin with two dots or, the
    first of them, with a backslash. *)
Definition nameable (e : string) (l : list string) : Prop :=
  Forall plain (e :: l) ∧ Forall (λ x, x ≠ "..") l ∧ HasPrefix e ".." = false ∧ HasPrefix e "\" = false.

Lemma TrimPrefix_none s p : HasPrefix s p = false → TrimPrefix s p = s.
Proof. unfold HasPrefix, TrimPrefix. by destruct (drop_prefix p s). Qed.

Lemma dots_first_none root l : Forall (λ x, x ≠ "..") l → dots_first root l.
Proof. intros Hl l1 l2 ->. apply Forall_app in Hl as [_ Hl]. by apply Forall_cons in Hl as [? _]. Qed.

Lemma dots_first_below root l1 l2 : dots_first root l1 → Forall (λ x, x ≠ "..") l2 → dots_first root (l1 ++ l2).
Proof.
  intros H1. induction l2 as [|x l2 IH] using rev_ind; [by rewrite app_nil_r|].
  intros [? Hx]%Forall_app. rewrite app_assoc. apply dots_first_snoc; [|auto]. by apply Forall_cons in Hx as [? _].
Qed.

Lemma nameable_no_dots e l : nameable e l → HasPrefix (strings_join (e :: l) "/") ".." = false.
Proof.
  intros (Hl & _ & Hdd & _). apply Forall_cons in Hl as [(Hne & Hdot & _) _].
  destruct e as [|a [|b e]]; [done| |rewrite has_prefix_join; [done|cbn; lia]].
  rewrite join_first. change (String a "" ++ ?t)%string with (String a t). unfold HasPrefix. cbn [drop_prefix].
  destruct (ascii_dec "." a) as [<-|]; done.
Qed.

Section serving.
Context `{FS : FileSystem}.

Lemma nameable_clean e l : nameable e l → clean_path ("/" ++ strings_join (e :: l) "/") = strings_join (e :: l) "/".
Proof.
  intros (Hl & Hnd & Hdd & Hb). unfold clean_path.
  assert (He : e ≠ "..") by (by intros ->).
  assert (Hlen : (1 <= String.length e)%nat).
  { apply Forall_cons in Hl as [(Hne & _) _]. destruct e; [done|cbn; lia]. }
  assert (Clean ("/" ++ strings_join (e :: l) "/") = "/" ++ strings_join (e :: l) "/")%string as ->.
  { change ("/" ++ strings_join (e :: l) "/")%string with (render (MkPath true (e :: l))). unfold Clean.
    rewrite resolve_render; [done|]. split; [done|]. by apply dots_first_none; constructor. }
  change (TrimPrefix ("/" ++ strings_join (e :: l) "/") "/") with (strings_join (e :: l) "/").
  rewrite (TrimPrefix_none (strings_join (e :: l) "/") "/").
  - apply TrimPrefix_none. by rewrite has_prefix_join.
  - rewrite has_prefix_join by done. apply is_root_plain. by apply Forall_cons in Hl as [? _].
Qed.

Lemma resolve_below dist e l : nameable e l →
  resolve (Join [Clean dist; strings_join (e :: l) "/"]) =
  MkPath (rooted (resolve dist)) (elems (resolve dist) ++ e :: l).
Proof.
  intros (Hl & Hnd & Hdd & _). rewrite resolve_Join by apply Clean_nonempty.
  change (is_root (Clean dist)) with (rooted (resolve (Clean dist))). rewrite resolve_Clean. f_equal.
  rewrite Split_join; [|done|by eapply Forall_impl; [done|by intros ? (_ & _ & ?)]].
  apply foldl_push_keeps; [done|]. apply dots_first_below; [apply resolve_normal|].
  constructor; [by intros ->|done].
Qed.

Lemma diverge_app b l : diverge b (b ++ l) = ([], l).
Proof. induction b as [|x b IH]; [done|]. cbn. by rewrite String.eqb_refl. Qed.

Lemma Rel_below dist e l : nameable e l →
  Rel (Clean dist) (Join [Clean dist; strings_join (e :: l) "/"]) = Some (strings_join (e :: l) "/").
Proof.
  intros Hn. unfold Rel. rewrite (resolve_below dist e l Hn), resolve_Clean. cbn [rooted elems].
  destruct (String.eqb_spec (render (MkPath (rooted (resolve dist)) (elems (resolve dist) ++ e :: l)))
              (render (resolve dist))) as [He|_].
  { rewrite <- (resolve_below dist e l Hn) in He. apply render_resolve_inj in He; [|apply resolve_normal..].
    rewrite (resolve_below dist e l Hn) in He. apply (f_equal (length ∘ elems)) in He. cbn in He.
    rewrite length_app in He. cbn in He. lia. }
  destruct (Bool.eqb _ _) eqn:Hb; [|by destruct (rooted (resolve dist))]. cbn [negb].
  rewrite bool_decide_false by (intros ?%app_eq_nil; naive_solver). rewrite andb_false_r. by rewrite diverge_app.
Qed.

End serving.

(** A site with a script, and a secret next to its directory that a request with a
    backslash asks for. *)
Definition ex_files : FileSystem := λ f,
  if decide (f ∈ ["web/dist/index.html"; "web/dist/assets/app.js"; "web/secret"]) then Some false else None.

