(* ===== verification/Health.v ===== *)
(** internal/platform/telemetry/health.go: the probes of the server.

    A dependency answers a ping with nothing or with the text of an error; a nil one is not
    asked. *)

From S2P Require Import Prelude Web.

Record LivenessResponse := MkLivenessResponse { Live_Status : string; Uptime : string }.
Record ReadinessResponse := MkReadinessResponse { Ready_Status : string; Checks : gmap string string }.

Definition StatusServiceUnavailable : Z := 503.

(** [time.Duration.String] of a number of whole seconds. *)
Definition whole_seconds (s : Z) : string :=
  let u := Z.abs s in
  let text :=
    if u <? 60 then (fmt_d u ++ "s")%string else
    if u <? 3600 then (fmt_d (u / 60) ++ "m" ++ fmt_d (u mod 60) ++ "s")%string
    else (fmt_d (u / 3600) ++ "h" ++ fmt_d (u / 60 mod 60) ++ "m" ++ fmt_d (u mod 60) ++ "s")%string in
  if s <? 0 then ("-" ++ text)%string else text.

(** [now] is the reading of the clock in the handler; [Truncate] rounds toward zero. *)
Definition LivenessHandler (startTime now : Z) : Response LivenessResponse :=
  let uptime := whole_seconds (Z.quot (now - startTime) Second) in
  MkResponse (Header_Set "Content-Type" "application/json" ∅) StatusOK (JSON (MkLivenessResponse "UP" uptime)).

Section readiness.
Context (W : Type).

(** A dependency: how it answers in a world, [None] for a nil one. *)
Definition Pinger := option (W → option string).

Definition probe (p : Pinger) (w : W) : string * bool :=
  match p with
  | None => ("UP", true)
  | Some ping =>
      match ping w with
      | Some err => (("DOWN: " ++ err)%string, false)
      | None => ("UP", true)
      end
  end.

Definition ReadinessHandler (db redis kafka : Pinger) (w : W) : Response ReadinessResponse :=
  let '(d, okd) := probe db w in
  let '(r, okr) := probe redis w in
  let '(k, okk) := probe kafka w in
  let checks : gmap string string := <["kafka" := k]> (<["redis" := r]> {["database" := d]}) in
  let h := Header_Set "Content-Type" "application/json" ∅ in
  if okd && okr && okk then MkResponse h StatusOK (JSON (MkReadinessResponse "UP" checks))
  else MkResponse h StatusServiceUnavailable (JSON (MkReadinessResponse "DOWN" checks)).

(** A dependency that does not answer its ping. *)
Definition down (p : Pinger) (w : W) : Prop := ∃ ping err, p = Some ping ∧ ping w = Some err.

Lemma probe_down p w : ((probe p w).2 = false ↔ down p w) ∧ ((probe p w).2 = true ↔ (probe p w).1 = "UP").
Proof.
  unfold probe, down. destruct p as [ping|]; [destruct (ping w) as [err|] eqn:E|]; cbn; split; split; try done; naive_solver.
Qed.

(** The server says that it is ready exactly when every dependency answers, and names
    exactly those that do not. *)
Theorem readiness_truthful db redis kafka w :
  let resp := ReadinessHandler db redis kafka w in
  (StatusCode resp = StatusOK ↔ ¬ down db w ∧ ¬ down redis w ∧ ¬ down kafka w) ∧
  (StatusCode resp = StatusOK ∨ StatusCode resp = StatusServiceUnavailable) ∧
  ∃ checks status, ResBody resp = JSON (MkReadinessResponse status checks) ∧
    (status = "UP" ↔ StatusCode resp = StatusOK) ∧
    dom checks = {["database"; "redis"; "kafka"]} ∧
    (checks !! "database" = Some "UP" ↔ ¬ down db w) ∧
    (checks !! "redis" = Some "UP" ↔ ¬ down redis w) ∧
    (checks !! "kafka" = Some "UP" ↔ ¬ down kafka w).
Proof.
  cbv zeta. unfold ReadinessHandler.
  destruct (probe_down db w) as [D1 D2], (probe_down redis w) as [R1 R2], (probe_down kafka w) as [K1 K2].
  destruct (probe db w) as [d okd], (probe redis w) as [r okr], (probe kafka w) as [k okk]. cbn [fst snd] in *.
  rewrite <- D1, <- R1, <- K1, !not_false_iff_true.
  assert (Hl : (<["kafka":=k]> (<["redis":=r]> {["database":=d]}) : gmap string string) !! "database" = Some d ∧
    (<["kafka":=k]> (<["redis":=r]> {["database":=d]}) : gmap string string) !! "redis" = Some r ∧
    (<["kafka":=k]> (<["redis":=r]> {["database":=d]}) : gmap string string) !! "kafka" = Some k) by done.
  destruct Hl as (Ld & Lr & Lk).
  assert (Hd : dom (<["kafka":=k]> (<["redis":=r]> {["database":=d]}) : gmap string string) = {["database"; "redis"; "kafka"]})
    by (rewrite !dom_insert_L, dom_singleton_L; set_solver).
  split_and!; [destruct okd, okr, okk; naive_solver|destruct okd, okr, okk; auto|].
  destruct (okd && okr && okk) eqn:Hok; eexists _, _; (split; [done|]); cbn [StatusCode]; rewrite <- ?D1, <- ?R1, <- ?K1, ?not_false_iff_true, Ld, Lr, Lk, D2, R2, K2;
    (split_and!; [naive_solver|done|naive_solver..]).
Qed.
End readiness.
