(* ===== verification/Tracing.v ===== *)
(** internal/platform/telemetry/tracing.go: the W3C trace context of a request.

    A context.Context is what it carries for the key of the trace.  The bytes that
    crypto/rand yields are arguments; a failure of it leaves them zero. *)

From S2P Require Import Prelude Strconv Sha256 Web.

(** * Trace contexts *)

Definition HeaderTraceparent : string := "traceparent".
Definition HeaderTracestate : string := "tracestate".
Definition HeaderCorrelationTraceID : string := "X-Trace-ID".
Definition SupportedVersion : string := "00".

Inductive trace_error :=
| ErrInvalidTraceparentLength
| ErrUnsupportedVersion
| ErrInvalidTraceID
| ErrInvalidSpanID
| ErrInvalidTraceFlags.

#[export] Instance trace_error_eq_dec : EqDecision trace_error.
Proof. solve_decision. Defined.

Record TraceContext := MkTraceContext {
  TC_Version : string;
  TraceID : string;
  SpanID : string;
  TraceFlags : string;
  TraceState : string;
}.

#[export] Instance TraceContext_eq_dec : EqDecision TraceContext.
Proof. solve_decision. Defined.

(** [String] of a pointer, which may be nil. *)
Definition TraceContext_String (tc : option TraceContext) : string :=
  match tc with
  | None => ""
  | Some tc =>
      let ver := if String.eqb (TC_Version tc) "" then SupportedVersion else TC_Version tc in
      let flags := if String.eqb (TraceFlags tc) "" then "01" else TraceFlags tc in
      (ver ++ "-" ++ TraceID tc ++ "-" ++ SpanID tc ++ "-" ++ flags)%string
  end.

(** [hex.DecodeString], whose answer is used for its error only. *)
Definition hex_value (a : ascii) : option Z :=
  let n := Z.of_nat (nat_of_ascii a) in
  if (48 <=? n) && (n <=? 57) then Some (n - 48) else
  if (97 <=? n) && (n <=? 102) then Some (n - 87) else
  if (65 <=? n) && (n <=? 70) then Some (n - 55) else None.

Fixpoint hex_DecodeString (s : string) : option (list Z) :=
  match s with
  | EmptyString => Some []
  | String a (String b r) =>
      match hex_value a, hex_value b, hex_DecodeString r with
      | Some x, Some y, Some l => Some (x * 16 + y :: l)
      | _, _, _ => None
      end
  | _ => None
  end.

(** [strings.Repeat("0", n)] *)
Definition zeros (n : nat) : string := Nat.iter n (String "0") "".
Definition allZerosTraceID : string := zeros 32.
Definition allZerosSpanID : string := zeros 16.

(** A field of [n] hexadecimal digits. *)
Definition hex_field (n : nat) (s : string) : bool :=
  (String.length s =? n)%nat && if hex_DecodeString s then true else false.

Definition ParseTraceparent (raw : string) : result trace_error TraceContext :=
  let trimmed := TrimSpace raw in
  match Split "-" trimmed with
  | version :: traceID :: spanID :: flags :: more =>
      if negb (String.length version =? 2)%nat || String.eqb version "ff" then Err ErrUnsupportedVersion else
      if String.eqb version "00" && negb (length more =? 0)%nat then Err ErrInvalidTraceparentLength else
      if negb (String.length traceID =? 32)%nat || String.eqb traceID allZerosTraceID then Err ErrInvalidTraceID else
      if negb (if hex_DecodeString traceID then true else false) then Err ErrInvalidTraceID else
      if negb (String.length spanID =? 16)%nat || String.eqb spanID allZerosSpanID then Err ErrInvalidSpanID else
      if negb (if hex_DecodeString spanID then true else false) then Err ErrInvalidSpanID else
      if negb (String.length flags =? 2)%nat then Err ErrInvalidTraceFlags else
      if negb (if hex_DecodeString flags then true else false) then Err ErrInvalidTraceFlags else
      Ok (MkTraceContext version traceID spanID flags "")
  | _ => Err ErrInvalidTraceparentLength
  end.

(** What crypto/rand has put into the two arrays. *)
Record entropy := MkEntropy { trace_rand : list Z; span_rand : list Z }.

(** An array of zeros gets a one at its end. *)
Definition nonzero (l : list Z) : list Z :=
  if forallb (Z.eqb 0) l then removelast l ++ [1] else l.

Definition GenerateTraceContext (e : entropy) : TraceContext :=
  MkTraceContext SupportedVersion (hex_EncodeToString (nonzero (trace_rand e)))
    (hex_EncodeToString (nonzero (span_rand e))) "01" "".

(** * Contexts *)

(** What a context carries: nothing, or a pointer that may be nil. *)
Definition context := option (option TraceContext).

Definition WithTraceContext (ctx : context) (tc : option TraceContext) : context := Some tc.
Definition TraceContextFromContext (ctx : context) : option TraceContext :=
  match ctx with Some (Some tc) => Some tc | _ => None end.
Definition TraceIDFromContext (ctx : context) : string :=
  match TraceContextFromContext ctx with Some tc => TraceID tc | None => "" end.

(** * The middleware *)

Definition set_state (tc : TraceContext) (state : string) : TraceContext :=
  MkTraceContext (TC_Version tc) (TraceID tc) (SpanID tc) (TraceFlags tc) state.

(** [next] is given the headers of the response so far and the context of the request. *)
Definition TracingMiddleware {A} (e : entropy) (next : headers → context → A) (h : headers) (ctx : context)
    (r : Request) : A :=
  let tc := match ParseTraceparent (Header_Get r HeaderTraceparent) with
            | Ok tc => tc
            | Err _ => GenerateTraceContext e
            end in
  let state := Header_Get r HeaderTracestate in
  let tc := if negb (String.eqb state "") then set_state tc (TrimSpace state) else tc in
  let h := Header_Set HeaderTraceparent (TraceContext_String (Some tc)) h in
  let h := Header_Set HeaderCorrelationTraceID (TraceID tc) h in
  let h := if negb (String.eqb (TraceState tc) "") then Header_Set HeaderTracestate (TraceState tc) h else h in
  next h (WithTraceContext ctx (Some tc)).

(** * Messages *)

(** The map of headers of a message; [None] for a nil one. *)
Definition InjectKafkaTrace (e : entropy) (ctx : context) (hs : option (gmap string string)) :
    option (gmap string string) :=
  match hs with
  | None => None
  | Some hs =>
      let tc := match TraceContextFromContext ctx with Some tc => tc | None => GenerateTraceContext e end in
      let hs := <[HeaderTraceparent := TraceContext_String (Some tc)]> hs in
      Some (if negb (String.eqb (TraceState tc) "") then <[HeaderTracestate := TraceState tc]> hs else hs)
  end.

Definition ExtractKafkaTrace (hs : option (gmap string string)) : option TraceContext :=
  match hs with
  | None => None
  | Some hs =>
      match hs !! HeaderTraceparent with
      | None => None
      | Some raw =>
          if String.eqb raw "" then None else
          match ParseTraceparent raw with
          | Err _ => None
          | Ok tc => Some (match hs !! HeaderTracestate with Some state => set_state tc state | None => tc end)
          end
      end
  end.

Definition ContextWithKafkaTrace (e : entropy) (ctx : context) (hs : option (gmap string string)) : context :=
  let tc := match ExtractKafkaTrace hs with Some tc => tc | None => GenerateTraceContext e end in
  WithTraceContext ctx (Some tc).

(** * Lemmas *)

(** ** White space *)

Section trim.
Context (s2 : ascii → ascii → bool) (s3 : ascii → ascii → ascii → bool).

(** What is trimmed off is at the front. *)
Lemma trim_front_suffix s : ∃ p, s = (p ++ trim_front s2 s3 s)%string.
Proof.
  remember (String.length s) as n eqn:Hn. revert s Hn. induction (lt_wf n) as [n _ IH]. intros s ->.
  destruct s as [|a r1]; [by exists ""|]. cbn [trim_front].
  destruct (space1 a). { destruct (IH (String.length r1) ltac:(cbn; lia) r1 eq_refl) as [p Hp]. exists (String a p). exact (f_equal (String a) Hp). }
  destruct r1 as [|b r2]; [by exists ""|]. destruct (s2 a b).
  { destruct (IH (String.length r2) ltac:(cbn; lia) r2 eq_refl) as [p Hp]. exists (String a (String b p)).
    exact (f_equal (λ t, String a (String b t)) Hp). }
  destruct r2 as [|c r3]; [by exists ""|]. destruct (s3 a b c); [|by exists ""].
  destruct (IH (String.length r3) ltac:(cbn; lia) r3 eq_refl) as [p Hp]. exists (String a (String b (String c p))).
  exact (f_equal (λ t, String a (String b (String c t))) Hp).
Qed.

(** A string is kept as it is for its first three bytes. *)
Definition kept (s : string) : Prop :=
  match s with
  | String a (String b (String c _)) => space1 a = false ∧ s2 a b = false ∧ s3 a b c = false
  | _ => False
  end.

Lemma kept_trim s : kept s → trim_front s2 s3 s = s.
Proof. destruct s as [|a [|b [|c r]]]; try done. cbn. by intros (-> & -> & ->). Qed.

Lemma trim_kept s : (3 <= String.length (trim_front s2 s3 s))%nat → kept (trim_front s2 s3 s).
Proof.
  remember (String.length s) as n eqn:Hn. revert s Hn. induction (lt_wf n) as [n _ IH]. intros s ->.
  destruct s as [|a r1]; [cbn; lia|]. cbn [trim_front].
  destruct (space1 a) eqn:E1; [apply (IH (String.length r1)); [cbn; lia|done]|].
  destruct r1 as [|b r2]; [cbn; lia|]. destruct (s2 a b) eqn:E2; [apply (IH (String.length r2)); [cbn; lia|done]|].
  destruct r2 as [|c r3]; [cbn; lia|]. destruct (s3 a b c) eqn:E3; [apply (IH (String.length r3)); [cbn; lia|done]|].
  done.
Qed.

Lemma kept_prefix s t : (3 <= String.length s)%nat → kept (s ++ t) → kept s.
Proof. destruct s as [|a [|b [|c r]]]; cbn; lia || done. Qed.
End trim.

Lemma TrimSpace_kept s t raw :
  TrimSpace raw = (s ++ t)%string → (3 <= String.length s)%nat → kept space2 space3 s.
Proof.
  unfold TrimSpace. set (l := trim_front space2 space3 raw). intros H Hs.
  destruct (trim_front_suffix (λ a b, space2 b a) (λ a b c, space3 c b a) (String.rev l)) as [p Hp].
  apply (f_equal String.rev) in Hp. rewrite rev_involutive, rev_append, H, append_assoc in Hp.
  apply (kept_prefix _ _ s (t ++ String.rev p)); [done|]. rewrite <- Hp. apply trim_kept. unfold l in Hp. rewrite Hp.
  rewrite !length_append. lia.
Qed.

(** ** Hexadecimal digits *)

Definition hexadecimal (s : string) : Prop := ∀ a, a ∈ list_ascii_of_string s → is_Some (hex_value a).

Lemma hex_value_plain a : is_Some (hex_value a) →
  a ≠ "-"%char ∧ space1 a = false ∧ (∀ b, space2 b a = false) ∧ ∀ b c, space3 c b a = false.
Proof.
  unfold hex_value, space1, space2, space3. intros [x Hx].
  assert (Hn : (48 <= nat_of_ascii a <= 102)%nat).
  { repeat (destruct (_ && _) eqn:E in Hx; [apply andb_true_iff in E as [E1 E2]; apply Z.leb_le in E1, E2; lia|clear E]). done. }
  split; [intros ->; vm_compute in Hn; lia|].
  split_and!; [|intros b|intros b c]; apply not_true_iff_false;
    rewrite ?orb_true_iff, ?andb_true_iff, ?orb_true_iff, ?andb_true_iff, ?Nat.eqb_eq, ?Nat.leb_le; lia.
Qed.

Lemma hex_string n s : hex_field n s = true →
  String.length s = n ∧ has "-" s = false ∧ Forall (λ a, is_Some (hex_value a)) (list_ascii_of_string s).
Proof.
  unfold hex_field. intros [Hl Hd]%andb_true_iff. split; [by apply Nat.eqb_eq|]. clear Hl.
  remember (String.length s) as m eqn:Hm. revert s Hm Hd. induction (lt_wf m) as [m _ IH]. intros s ->.
  destruct s as [|a [|b r]]; [done|done|]. cbn [hex_DecodeString].
  destruct (hex_value a) as [x|] eqn:Ha; [|done]. destruct (hex_value b) as [y|] eqn:Hb; [|done].
  destruct (hex_DecodeString r) as [l|] eqn:Hr; [|done]. intros _.
  destruct (IH (String.length r) ltac:(cbn; lia) r eq_refl) as [H1 H2]; [by rewrite Hr|].
  assert (a ≠ "-"%char ∧ b ≠ "-"%char) as [Hna Hnb] by (split; apply hex_value_plain; eauto).
  split; [|cbn; repeat constructor; eauto]. cbn [has]. by rewrite !bool_decide_false.
Qed.

Lemma hex_value_digit z : 0 <= z < 16 → hex_value (hex_digit z) = Some z.
Proof.
  intros Hz. assert (z ∈ seqZ 0 16) as Hin by (apply elem_of_seqZ; lia).
  repeat (apply elem_of_cons in Hin as [->|Hin]; [reflexivity|]). by apply not_elem_of_nil in Hin.
Qed.

Definition byte (z : Z) : Prop := 0 <= z < 256.

Lemma hex_decode_encode l : Forall byte l → hex_DecodeString (hex_EncodeToString l) = Some l.
Proof.
  induction 1 as [|z l Hz _ IH]; [done|]. unfold byte in Hz.
  change (hex_EncodeToString (z :: l)) with
    (String (hex_digit (z / 16)) (String (hex_digit (z mod 16)) (hex_EncodeToString l))).
  cbn [hex_DecodeString]. rewrite IH, !hex_value_digit.
  - f_equal. f_equal. pose proof (Z.div_mod z 16). lia.
  - apply Z.mod_pos_bound. lia.
  - split; [apply Z.div_pos; lia|apply Z.div_lt_upper_bound; lia].
Qed.

(** ** Fields *)

Lemma Split_inv c s x l : Split c s = x :: l →
  has c x = false ∧ (l = [] ∧ s = x ∨ ∃ r, s = (x ++ String c r)%string ∧ Split c r = l).
Proof.
  revert x l. induction s as [|a s IH]; intros x l; cbn [Split].
  - intros [= <- <-]. split; [done|by left].
  - destruct (ascii_dec a c) as [->|Hne]; [intros [= <- <-]; split; [done|right; by exists s]|].
    destruct (Split c s) as [|y m] eqn:E; [done|]. intros [= <- <-].
    destruct (IH y m eq_refl) as [Hy Hr]. split; [cbn [has]; by rewrite bool_decide_false|].
    destruct Hr as [[-> ->]|(r & -> & Hr)]; [by left|right; by exists r].
Qed.

(** A trace context that can be written. *)
Record traceable (tc : TraceContext) : Prop := {
  tr_version : String.length (TC_Version tc) = 2%nat ∧ has "-" (TC_Version tc) = false ∧ TC_Version tc ≠ "ff";
  tr_trace : hex_field 32 (TraceID tc) = true ∧ TraceID tc ≠ allZerosTraceID;
  tr_span : hex_field 16 (SpanID tc) = true ∧ SpanID tc ≠ allZerosSpanID;
  tr_flags : hex_field 2 (TraceFlags tc) = true;
  tr_kept : kept space2 space3 (TraceContext_String (Some tc));
}.

Lemma hex_field_ok n s :
  hex_field n s = true → (String.length s =? n)%nat = true ∧ (if hex_DecodeString s then true else false) = true.
Proof. unfold hex_field. by intros [? ?]%andb_true_iff. Qed.

Lemma TraceContext_String_fields tc : traceable tc →
  TraceContext_String (Some tc) =
    (TC_Version tc ++ String "-" (TraceID tc ++ String "-" (SpanID tc ++ String "-" (TraceFlags tc))))%string.
Proof.
  intros [(Hv & _) _ _ Hf _]. apply hex_string in Hf as [Hf _]. unfold TraceContext_String.
  rewrite (proj2 (String.eqb_neq _ _)) by (intros He; rewrite He in Hv; done).
  by rewrite (proj2 (String.eqb_neq _ _)) by (intros He; rewrite He in Hf; done).
Qed.

(** Nothing after a hexadecimal digit is trimmed. *)
Lemma trim_back_hex a s : is_Some (hex_value a) →
  trim_front (λ a b, space2 b a) (λ a b c, space3 c b a) (String a s) = String a s.
Proof.
  intros (_ & H1 & H2 & H3)%hex_value_plain. cbn [trim_front]. rewrite H1.
  destruct s as [|b s]; [done|]. rewrite H2. destruct s as [|c s]; [done|]. by rewrite H3.
Qed.

(** Nothing of it is white space. *)
Lemma TraceContext_String_trim tc : traceable tc →
  TrimSpace (TraceContext_String (Some tc)) = TraceContext_String (Some tc).
Proof.
  intros Htc. unfold TrimSpace. rewrite (kept_trim space2 space3) by apply Htc.
  assert (∃ s a, String.rev (TraceContext_String (Some tc)) = String a s ∧ is_Some (hex_value a)) as (s & a & Hs & Ha).
  { rewrite TraceContext_String_fields by done. destruct Htc as [_ _ _ Hf _].
    apply hex_string in Hf as (Hl & _ & Hh). destruct (TraceFlags tc) as [|a [|b [|]]]; try done.
    cbn in Hh. apply Forall_cons in Hh as [_ [Hb _]%Forall_cons]. exists (String a (String.rev
      (TC_Version tc ++ String "-" (TraceID tc ++ String "-" (SpanID tc ++ String "-" ""))))), b. split; [|done].
    rewrite !rev_append, !rev_cons, !rev_append, !rev_cons, !rev_append, !rev_cons.
    rewrite !append_assoc. reflexivity. }
  rewrite Hs, trim_back_hex by done. rewrite <- Hs. apply rev_involutive.
Qed.

Lemma parse_print tc : traceable tc → ParseTraceparent (TraceContext_String (Some tc)) = Ok (set_state tc "").
Proof.
  intros Htc. unfold ParseTraceparent. rewrite TraceContext_String_trim by done.
  rewrite TraceContext_String_fields by done. destruct Htc as [(Hv & Hd & Hff) [Ht Ht0] [Hs Hs0] Hf _].
  pose proof (hex_string _ _ Ht) as (_ & Htd & _). pose proof (hex_string _ _ Hs) as (_ & Hsd & _).
  pose proof (hex_string _ _ Hf) as (_ & Hfd & _).
  rewrite !Split_first, Split_none by done.
  apply hex_field_ok in Ht as [Ht1 Ht2], Hs as [Hs1 Hs2], Hf as [Hf1 Hf2].
  rewrite Hv, Ht1, Hs1, Hf1, Ht2, Hs2, Hf2, (proj2 (String.eqb_neq _ _) Hff),
    (proj2 (String.eqb_neq _ _) Ht0), (proj2 (String.eqb_neq _ _) Hs0).
  by destruct (String.eqb (TC_Version tc) "00").
Qed.

Lemma parse_traceable raw tc : ParseTraceparent raw = Ok tc → traceable tc ∧ TraceState tc = "".
Proof.
  unfold ParseTraceparent. destruct (Split "-" (TrimSpace raw)) as [|version [|traceID [|spanID [|flags more]]]] eqn:Hsp; try done.
  destruct (negb (String.length version =? 2)%nat || String.eqb version "ff") eqn:E1; [done|].
  destruct (String.eqb version "00" && negb (length more =? 0)%nat) eqn:E2; [done|].
  destruct (negb (String.length traceID =? 32)%nat || String.eqb traceID allZerosTraceID) eqn:E3; [done|].
  destruct (negb (if hex_DecodeString traceID then true else false)) eqn:E4; [done|].
  destruct (negb (String.length spanID =? 16)%nat || String.eqb spanID allZerosSpanID) eqn:E5; [done|].
  destruct (negb (if hex_DecodeString spanID then true else false)) eqn:E6; [done|].
  destruct (negb (String.length flags =? 2)%nat) eqn:E7; [done|].
  destruct (negb (if hex_DecodeString flags then true else false)) eqn:E8; [done|].
  intros [= <-]. split; [|done].
  apply orb_false_iff in E1 as [Ev1 Ev2], E3 as [Et1 Et2], E5 as [Es1 Es2].
  apply negb_false_iff in Ev1, Et1, Es1, E4, E6, E7, E8. apply String.eqb_neq in Ev2, Et2, Es2.
  apply Split_inv in Hsp as [Hv [[? _]|(r & Hr & Hsp)]]; [done|].
  apply Split_inv in Hsp as [_ [[? _]|(r2 & -> & Hsp)]]; [done|].
  apply Split_inv in Hsp as [_ [[? _]|(r3 & -> & Hsp)]]; [done|].
  apply Split_inv in Hsp as [_ Hsp].
  assert (∃ w, r3 = (flags ++ w)%string) as [w ->].
  { destruct Hsp as [[_ ->]|(r4 & -> & _)]; [exists ""; symmetry; apply append_nil_r|by eexists]. }
  split; cbn; [by apply Nat.eqb_eq in Ev1|unfold hex_field; by rewrite Et1, E4|unfold hex_field; by rewrite Es1, E6|
    unfold hex_field; by rewrite E7, E8|].
  assert (version ≠ "") by (intros ->; done). assert (flags ≠ "") by (intros ->; done).
  rewrite !(proj2 (String.eqb_neq _ _)) by done. eapply (TrimSpace_kept _ w raw).
  - rewrite Hr, !append_assoc. reflexivity.
  - rewrite !length_append. apply Nat.eqb_eq in Ev1. rewrite Ev1. change (String.length "-") with 1%nat. lia.
Qed.

(** ** Fresh contexts *)

(** The bytes of the two arrays. *)
Definition entropy_ok (e : entropy) : Prop :=
  length (trace_rand e) = 16%nat ∧ length (span_rand e) = 8%nat ∧
  Forall byte (trace_rand e) ∧ Forall byte (span_rand e).

Lemma nonzero_length l : l ≠ [] → length (nonzero l) = length l.
Proof.
  intros Hl. unfold nonzero. destruct (forallb _ l); [|done]. rewrite length_app, removelast_firstn_len, length_take.
  destruct l as [|x l]; [done|]. change (length (x :: l)) with (S (length l)). change (length [1]) with 1%nat. lia.
Qed.

Lemma nonzero_bytes l : Forall byte l → Forall byte (nonzero l).
Proof.
  intros Hl. unfold nonzero. destruct (forallb _ l); [|done]. apply Forall_app. split; [|constructor; [unfold byte; lia|done]].
  rewrite removelast_firstn_len. by apply Forall_take.
Qed.

Lemma nonzero_spec l n : nonzero l ≠ replicate n 0.
Proof.
  intros H. assert (Hall : ∀ z, z ∈ nonzero l → z = 0) by (rewrite H; by intros z [? _]%elem_of_replicate).
  unfold nonzero in Hall. destruct (forallb (Z.eqb 0) l) eqn:Hz.
  - specialize (Hall 1). rewrite elem_of_app in Hall. discriminate Hall. right. by left.
  - assert (forallb (Z.eqb 0) l = true); [|congruence]. apply forallb_forall. intros z Hin%list_elem_of_In%Hall. by subst.
Qed.

(** An identifier made of random bytes. *)
Lemma fresh_id l n : Forall byte l → length l = n → (n ≠ 0)%nat →
  hex_field (2 * n) (hex_EncodeToString (nonzero l)) = true ∧
  hex_DecodeString (hex_EncodeToString (nonzero l)) ≠ Some (replicate n 0).
Proof.
  intros Hl Hn Hn0. assert (l ≠ []) by (intros ->; by rewrite <- Hn in Hn0).
  rewrite hex_decode_encode by by apply nonzero_bytes. split.
  - unfold hex_field. rewrite hex_EncodeToString_length, nonzero_length, Hn, Nat.eqb_refl by done.
    by rewrite hex_decode_encode by by apply nonzero_bytes.
  - intros [=]. by eapply nonzero_spec.
Qed.

Lemma generate_traceable e : entropy_ok e → traceable (GenerateTraceContext e).
Proof.
  intros (H1 & H2 & B1 & B2).
  destruct (fresh_id _ _ B1 H1) as [Ht Ht0]; [done|]. destruct (fresh_id _ _ B2 H2) as [Hs Hs0]; [done|].
  split; cbn [TC_Version TraceID SpanID TraceFlags GenerateTraceContext]; [done| | |done|done].
  - split; [done|]. intros He. apply Ht0. by rewrite He.
  - split; [done|]. intros He. apply Hs0. by rewrite He.
Qed.

(** * What a service sees of a trace *)

(** The context that reaches the handler of a request. *)
Definition seen (e : entropy) (r : Request) : headers * context :=
  TracingMiddleware e pair ∅ None r.

Lemma set_state_traceable tc state : traceable tc → traceable (set_state tc state).
Proof. intros []. by split. Qed.

Lemma set_state_String tc state : TraceContext_String (Some (set_state tc state)) = TraceContext_String (Some tc).
Proof. done. Qed.


(** A valid trace whose caller writes it in capitals, and the random bytes of a machine. *)
Definition ex_request : Request :=
  MkRequest {["Traceparent" := "00-0AF7651916CD43DD8448EB211C80319C-b7ad6b7169203331-01"; "Tracestate" := " rojo=00f067 "]}
    ∅ ∅ "/api/v1/orders" NilBody 0.
Definition ex_entropy : entropy := MkEntropy (replicate 16 0) (replicate 8 7).


(** The trace state of an earlier trace stays in the headers of a message whose context has
    none. *)
Example stale_tracestate :
  let tc := GenerateTraceContext ex_entropy in
  let hs : gmap string string := {[HeaderTracestate := "old=1"]} in
  ExtractKafkaTrace (InjectKafkaTrace ex_entropy (Some (Some tc)) (Some hs)) = Some (set_state tc "old=1").
Proof. vm_compute. reflexivity. Qed.
