(* ===== verification/Metrics.v ===== *)
(** internal/platform/telemetry/metrics.go: the counters of the server.

    A labelled counter of the Prometheus client is an interface: what a combination of
    label values has been counted up to.  A histogram is what it has observed, and a sum of
    floating-point numbers is a parameter. *)

From S2P Require Import Prelude Strconv Web.

(** * Counters *)

Class CounterVec (V : Type) := {
  Inc : list string → V → V;           (** [WithLabelValues(...).Inc()] *)
  counted : V → list string → Z;
}.

Class CounterLaws (V : Type) `{CounterVec V} :=
  counted_Inc (l l' : list string) (v : V) : counted (Inc l v) l' = counted v l' + (if decide (l = l') then 1 else 0).

(** The client keeps a number for each combination. *)
#[export] Instance map_counter : CounterVec (gmap (list string) Z) := {
  Inc l v := <[l := default 0 (v !! l) + 1]> v;
  counted v l := default 0 (v !! l);
}.

#[export] Instance map_counter_laws : CounterLaws (gmap (list string) Z).
Proof.
  intros l l' v. cbn. destruct (decide (l = l')) as [->|Hne]; [by rewrite lookup_insert_eq|].
  rewrite lookup_insert_ne by done. lia.
Qed.

Section metrics.
Context {V F : Type} `{CounterVec V} (Add : Z → F → F).

Record Metrics := MkMetrics {
  HTTPRequestsTotal : V;
  HTTPRequestDurationSeconds : list (list string * Z);   (** labels, and nanoseconds *)
  DBConnectionsActive : Z;
  KafkaMessagesPublishedTotal : V;
  KafkaMessagesConsumedTotal : V;
  OrdersCreatedTotal : Z;
  OrderAmountMinorTotal : F;
  InventoryReservationsTotal : V;
  SagaTransitionsTotal : V;
}.

Definition RecordHTTPRequest (method path : string) (status duration : Z) (m : Metrics) : Metrics :=
  let labels := [method; path; fmt_d status] in
  MkMetrics (Inc labels (HTTPRequestsTotal m)) (HTTPRequestDurationSeconds m ++ [(labels, duration)])
    (DBConnectionsActive m) (KafkaMessagesPublishedTotal m) (KafkaMessagesConsumedTotal m) (OrdersCreatedTotal m)
    (OrderAmountMinorTotal m) (InventoryReservationsTotal m) (SagaTransitionsTotal m).

Definition RecordKafkaPublished (topic : string) (m : Metrics) : Metrics :=
  MkMetrics (HTTPRequestsTotal m) (HTTPRequestDurationSeconds m) (DBConnectionsActive m) (Inc [topic] (KafkaMessagesPublishedTotal m))
    (KafkaMessagesConsumedTotal m) (OrdersCreatedTotal m) (OrderAmountMinorTotal m)
    (InventoryReservationsTotal m) (SagaTransitionsTotal m).

Definition RecordKafkaConsumed (topic consumerGroup : string) (m : Metrics) : Metrics :=
  MkMetrics (HTTPRequestsTotal m) (HTTPRequestDurationSeconds m) (DBConnectionsActive m) (KafkaMessagesPublishedTotal m)
    (Inc [topic; consumerGroup] (KafkaMessagesConsumedTotal m)) (OrdersCreatedTotal m) (OrderAmountMinorTotal m)
    (InventoryReservationsTotal m) (SagaTransitionsTotal m).

Definition RecordOrderCreated (amountMinor : Z) (m : Metrics) : Metrics :=
  MkMetrics (HTTPRequestsTotal m) (HTTPRequestDurationSeconds m) (DBConnectionsActive m) (KafkaMessagesPublishedTotal m)
    (KafkaMessagesConsumedTotal m) (OrdersCreatedTotal m + 1)
    (if 0 <? amountMinor then Add amountMinor (OrderAmountMinorTotal m) else OrderAmountMinorTotal m)
    (InventoryReservationsTotal m) (SagaTransitionsTotal m).

Definition RecordInventoryReservation (status : string) (m : Metrics) : Metrics :=
  MkMetrics (HTTPRequestsTotal m) (HTTPRequestDurationSeconds m) (DBConnectionsActive m) (KafkaMessagesPublishedTotal m)
    (KafkaMessagesConsumedTotal m) (OrdersCreatedTotal m) (OrderAmountMinorTotal m)
    (Inc [status] (InventoryReservationsTotal m)) (SagaTransitionsTotal m).

Definition RecordSagaTransition (fromState toState status : string) (m : Metrics) : Metrics :=
  MkMetrics (HTTPRequestsTotal m) (HTTPRequestDurationSeconds m) (DBConnectionsActive m) (KafkaMessagesPublishedTotal m)
    (KafkaMessagesConsumedTotal m) (OrdersCreatedTotal m) (OrderAmountMinorTotal m)
    (InventoryReservationsTotal m) (Inc [fromState; toState; status] (SagaTransitionsTotal m)).

(** * The middleware *)

(** A request that has been served: its method and path, the pattern of its route as the
    router gives it (none without a routing context), the status that was written, zero if
    none was, and the time it took. *)
Record Served := MkServed {
  Method : string;
  URLPath : string;
  RoutePattern : option string;
  Status : Z;
  Duration : Z;
}.

Definition route_label (s : Served) : string :=
  match RoutePattern s with
  | Some pattern => if negb (String.eqb pattern "") then pattern else URLPath s
  | None => URLPath s
  end.

Definition status_label (s : Served) : Z := if Status s =? 0 then StatusOK else Status s.

(** [m] may be nil. *)
Definition MetricsMiddleware (s : Served) (m : option Metrics) : option Metrics :=
  match m with
  | Some m => Some (RecordHTTPRequest (Method s) (route_label s) (status_label s) (Duration s) m)
  | None => None
  end.

(** * What the counters say *)

Context `{!CounterLaws V}.

Definition labels_of (s : Served) : list string := [Method s; route_label s; fmt_d (status_label s)].

(** Every request is counted once, under its labels; the histogram has one observation of
    each, and the business counters do not move. *)
Theorem requests_counted l m0 :
  ∃ m, foldl (λ m s, MetricsMiddleware s m) (Some m0) l = Some m ∧
    (∀ ls, counted (HTTPRequestsTotal m) ls =
      counted (HTTPRequestsTotal m0) ls + Z.of_nat (length (filter (λ s, labels_of s = ls) l))) ∧
    HTTPRequestDurationSeconds m = HTTPRequestDurationSeconds m0 ++ ((λ s, (labels_of s, Duration s)) <$> l) ∧
    OrdersCreatedTotal m = OrdersCreatedTotal m0.
Proof.
  revert m0. induction l as [|s l IH]; intros m0; cbn [foldl].
  - exists m0. split_and!; [done| |by rewrite app_nil_r|done]. intros ls. cbn. lia.
  - cbn [MetricsMiddleware].
    destruct (IH (RecordHTTPRequest (Method s) (route_label s) (status_label s) (Duration s) m0)) as (m & -> & H1 & H2 & H3).
    exists m. split; [done|]. split; [|by rewrite H2, H3; cbn; rewrite <- app_assoc].
    intros ls. rewrite H1. cbn [RecordHTTPRequest HTTPRequestsTotal]. rewrite counted_Inc.
    change [Method s; route_label s; fmt_d (status_label s)] with (labels_of s).
    rewrite filter_cons. destruct (decide (labels_of s = ls)); cbn [length]; lia.
Qed.
End metrics.
