(* ===== verification/Inventory.v ===== *)
(** internal/domain/inventory: stock levels, reservations and their lifecycle.

    The tables are those of migrations/00004_create_inventory_tables.sql, with
    their CHECK, UNIQUE and FOREIGN KEY constraints.  The repository operations
    of repository.go are single statements, the service operations of service.go
    are programs of the monad [M], run inside [ExecuteTx] where the code does. *)

From S2P Require Import Prelude Database.

(** * Data (errors.go, models.go) *)

Record StockShortage := MkStockShortage {
  Shortage_Requested : Z;
  Shortage_Available : Z;
  Shortage_OnHand : Z;
  Shortage_Reserved : Z;
}.

Inductive error : Type :=
| ErrSKUNotFound
| ErrInvalidQuantity
| ErrEmptySKU
| ErrEmptyItems
| ErrInvalidOrderID
| ErrReservationNotFound
| ErrReservationAlreadyCommitted
| ErrReservationAlreadyReleased
| ErrReservationAlreadyProcessed
| ErrReservationExpired
| ErrDuplicateReservationID
| ErrStockConservationViolation
| ErrDeadlockAvoidanceViolation
| ErrInsufficientStock (FailedSKUs : list string) (Details : gmap string StockShortage)
| ErrDriver (msg : string).

Definition Error (e : error) : string :=
  match e with
  | ErrSKUNotFound => "sku not found in inventory"
  | ErrInvalidQuantity => "quantity must be greater than zero"
  | ErrEmptySKU => "sku cannot be empty"
  | ErrEmptyItems => "reservation request must contain at least one item"
  | ErrInvalidOrderID => "order_id must be a valid non-empty UUID"
  | ErrReservationNotFound => "reservation not found"
  | ErrReservationAlreadyCommitted => "reservation has already been committed"
  | ErrReservationAlreadyReleased => "reservation has already been released"
  | ErrReservationAlreadyProcessed => "reservation has already been processed"
  | ErrReservationExpired => "reservation has expired"
  | ErrDuplicateReservationID => "reservation with this id or order_id already exists"
  | ErrStockConservationViolation => "stock conservation invariant violation"
  | ErrDeadlockAvoidanceViolation =>
      "deadlock avoidance violation: skus not sorted ascending"
  | ErrInsufficientStock failed _ =>
      "insufficient stock for skus: [" ++ strings_join failed ", " ++ "]"
  | ErrDriver msg => msg
  end%string.

#[export] Instance error_GoError : GoError error :=
  {| error_text := Error; driver_error := ErrDriver; driver_error_text := λ _, eq_refl |}.

#[export] Instance StockShortage_eq_dec : EqDecision StockShortage.
Proof. solve_decision. Defined.
#[export] Instance error_eq_dec : EqDecision error.
Proof. solve_decision. Defined.

Inductive ReservationStatus :=
| ReservationStatusPending
| ReservationStatusCommitted
| ReservationStatusReleased.

#[export] Instance ReservationStatus_eq_dec : EqDecision ReservationStatus.
Proof. solve_decision. Defined.

Record Item := MkItem {
  Item_SKU : string;
  Item_OnHand : Z;
  Item_Reserved : Z;
  Item_Available : Z;
  Item_Version : Z;
  Item_UpdatedAt : Z;
}.

Record StockItemRequest := MkStockItemRequest {
  Req_SKU : string;
  Req_Quantity : Z;
}.

Record ReserveStockRequest := MkReserveStockRequest {
  Reserve_ReservationID : uuid;
  Reserve_OrderID : uuid;
  Reserve_Items : list StockItemRequest;
  Reserve_TTLSeconds : Z;
}.

Record ReserveStockResult := MkReserveStockResult {
  Result_ReservationID : uuid;
  Result_OrderID : uuid;
  Result_Status : ReservationStatus;
  Result_ExpiresAt : Z;
  Result_Items : list StockItemRequest;
}.

Record ReservationItem := MkReservationItem {
  ResItem_ID : uuid;
  ResItem_ReservationID : uuid;
  ResItem_SKU : string;
  ResItem_Quantity : Z;
  ResItem_CreatedAt : Z;
}.

(** [Reservation]; its [Items] are never loaded by the repository. *)
Record Reservation := MkReservation {
  Res_ID : uuid;
  Res_OrderID : uuid;
  Res_Status : ReservationStatus;
  Res_ExpiresAt : Z;
  Res_CreatedAt : Z;
  Res_UpdatedAt : Z;
}.

#[export] Instance StockItemRequest_eq_dec : EqDecision StockItemRequest.
Proof. solve_decision. Defined.

(** * Tables (migrations/00004_create_inventory_tables.sql) *)

Record inventory_row := MkInventoryRow {
  on_hand : Z;
  reserved : Z;
  version : Z;
  updated_at : Z;
}.

Record State := MkState {
  inventory : gmap string inventory_row;
  stock_reservations : gmap uuid Reservation;
  stock_reservation_items : list ReservationItem;
}.

Definition empty_state : State := MkState ∅ ∅ [].

Definition set_inventory (s : State) (m : gmap string inventory_row) : State :=
  MkState m (stock_reservations s) (stock_reservation_items s).
Definition set_reservations (s : State) (m : gmap uuid Reservation) : State :=
  MkState (inventory s) m (stock_reservation_items s).
Definition set_items (s : State) (l : list ReservationItem) : State :=
  MkState (inventory s) (stock_reservations s) l.

(** The column types and the CHECK constraints of [inventory]. *)
Definition row_ok (r : inventory_row) : bool :=
  int4_ok (on_hand r) && int4_ok (reserved r) && int8_ok (version r)
  && (0 <=? on_hand r) && (0 <=? reserved r) && (reserved r <=? on_hand r).

Definition pg_check : string := "new row violates a constraint of its table".
Definition pg_range : string := "integer out of range".
Definition pg_unique : string := "duplicate key value violates unique constraint".
Definition pg_fk : string := "insert violates foreign key constraint".

Definition op := M State error.

(** * Repository (repository.go) *)

Definition to_item (sku : string) (r : inventory_row) : Item :=
  MkItem sku (on_hand r) (reserved r) (sub64 (on_hand r) (reserved r)) (version r) (updated_at r).

Definition repo_GetStock (sku : string) : op Item :=
  sql "inventory: get stock: " (λ _ s,
    match inventory s !! sku with
    | Some r => Ok (s, to_item sku r)
    | None => Err ErrSKUNotFound
    end).

(** [WHERE sku = ANY($1) ORDER BY sku ASC] *)
Definition select_any (skus : list string) (s : State) : list Item :=
  omap (λ sku, to_item sku <$> inventory s !! sku) (sort_strings (remove_dups skus)).

Definition GetStockForSKUs (skus : list string) : op (list Item) :=
  match skus with
  | [] => ret []
  | _ => sql "inventory: get stock for skus: " (λ _ s, Ok (s, select_any skus s))
  end.

(** [INSERT ... ON CONFLICT (sku) DO UPDATE ... RETURNING ...] *)
Definition UpsertStock (sku : string) (quantity : Z) : op Item :=
  let what := "inventory: upsert stock: " in
  sql what (λ now s,
    let excluded := MkInventoryRow quantity 0 1 now in
    if negb (varchar_ok 64 sku && row_ok excluded)
    then Err (ErrDriver (what ++ pg_check)%string) else
    let row := match inventory s !! sku with
               | None => excluded
               | Some r => MkInventoryRow (on_hand r + on_hand excluded) (reserved r) (version r + 1) now
               end in
    if negb (row_ok row) then Err (ErrDriver (what ++ pg_check)%string) else
    Ok (set_inventory s (<[sku := row]> (inventory s)), to_item sku row)).

(** [SELECT ... FOR UPDATE]; the locks themselves are in Locking.v. *)
Definition LockSKUsForUpdate (sortedSKUs : list string) : op (gmap string Item) :=
  match sortedSKUs with
  | [] => ret ∅
  | _ =>
      if negb (strings_sorted sortedSKUs) then fail ErrDeadlockAvoidanceViolation else
      sql "inventory: lock skus for update: " (λ _ s,
        Ok (s, list_to_map ((λ it, (Item_SKU it, it)) <$> select_any sortedSKUs s)))
  end.

(** [UPDATE inventory SET on_hand = ..., reserved = ..., version = version + 1,
    updated_at = NOW() WHERE sku = $1]: the new levels are [f] of the old ones. *)
Definition update_inventory (what sku : string) (qty : Z) (f : Z → Z → Z * Z) : op unit :=
  sql what (λ now s,
    if negb (int4_ok qty) then Err (ErrDriver (what ++ pg_range)%string) else
    match inventory s !! sku with
    | None => Err ErrSKUNotFound
    | Some r =>
        let '(oh, rs) := f (on_hand r) (reserved r) in
        let row := MkInventoryRow oh rs (version r + 1) now in
        if negb (row_ok row) then Err (ErrDriver (what ++ pg_check)%string) else
        Ok (set_inventory s (<[sku := row]> (inventory s)), tt)
    end).

Definition IncrementReserved (sku : string) (qty : Z) : op unit :=
  update_inventory "inventory: increment reserved: " sku qty (λ oh rs, (oh, rs + qty)).

Definition DecrementReserved (sku : string) (qty : Z) : op unit :=
  update_inventory "inventory: decrement reserved: " sku qty (λ oh rs, (oh, rs - qty)).

Definition CommitStockOnHand (sku : string) (qty : Z) : op unit :=
  update_inventory "inventory: commit stock on hand: " sku qty (λ oh rs, (oh - qty, rs - qty)).

(** A row of [stock_reservations] with this id or this order_id. *)
Definition reservation_of_order (s : State) (orderID : uuid) : option Reservation :=
  snd <$> list_find (λ r, Res_OrderID r = orderID) (map_to_list (stock_reservations s)).*2.

Definition CreateReservation (res : Reservation) : op unit :=
  sql "inventory: create reservation: " (λ now s,
    match stock_reservations s !! Res_ID res, reservation_of_order s (Res_OrderID res) with
    | None, None =>
        let row := MkReservation (Res_ID res) (Res_OrderID res) (Res_Status res)
                     (Res_ExpiresAt res) now now in
        Ok (set_reservations s (<[Res_ID res := row]> (stock_reservations s)), tt)
    | _, _ => Err ErrDuplicateReservationID
    end).

(** One [INSERT INTO stock_reservation_items]; [id] is [gen_random_uuid()]. *)
Definition insert_item (resID : uuid) (id : uuid) (item : StockItemRequest) : op unit :=
  let what := "inventory: create reservation item: " in
  sql what (λ now s,
    let q := Req_Quantity item in
    if negb (int4_ok q && varchar_ok 64 (Req_SKU item))
    then Err (ErrDriver (what ++ pg_range)%string) else
    if negb (0 <? q) then Err (ErrDriver (what ++ pg_check)%string) else
    if decide (Exists (λ it, ResItem_ID it = id ∨
                 (ResItem_ReservationID it = resID ∧ ResItem_SKU it = Req_SKU item))
               (stock_reservation_items s))
    then Err (ErrDriver (what ++ pg_unique)%string) else
    match stock_reservations s !! resID, inventory s !! Req_SKU item with
    | Some _, Some _ =>
        Ok (set_items s (stock_reservation_items s ++
              [MkReservationItem id resID (Req_SKU item) q now]), tt)
    | _, _ => Err (ErrDriver (what ++ pg_fk)%string)
    end).

Definition CreateReservationItems (resID : uuid) (items : list StockItemRequest) : op unit :=
  for_each (λ item, bind uuid_New (λ id, insert_item resID id item)) items.

(** The four lookups of a reservation differ in the text of their errors, in the
    column of the WHERE clause and in FOR UPDATE. *)
Definition select_reservation (what : string) (id : uuid) : op Reservation :=
  sql what (λ _ s,
    match stock_reservations s !! id with
    | Some r => Ok (s, r)
    | None => Err ErrReservationNotFound
    end).

Definition select_reservation_by_order (what : string) (orderID : uuid) : op Reservation :=
  sql what (λ _ s,
    match reservation_of_order s orderID with
    | Some r => Ok (s, r)
    | None => Err ErrReservationNotFound
    end).

Definition GetReservationByID : uuid → op Reservation :=
  select_reservation "inventory: get reservation by id: ".
Definition GetReservationByOrderID : uuid → op Reservation :=
  select_reservation_by_order "inventory: get reservation by order id: ".
Definition LockReservationForUpdate : uuid → op Reservation :=
  select_reservation "inventory: lock reservation for update: ".
Definition LockReservationByOrderForUpdate : uuid → op Reservation :=
  select_reservation_by_order "inventory: lock reservation by order for update: ".

Definition item_le (x y : ReservationItem) : Prop := String.le (ResItem_SKU x) (ResItem_SKU y).
#[export] Instance item_le_dec : RelDecision item_le.
Proof. intros x y. unfold item_le. apply _. Defined.

(** [SELECT ... WHERE reservation_id = $1 ORDER BY sku ASC] *)
Definition items_of (s : State) (resID : uuid) : list ReservationItem :=
  merge_sort item_le
    (filter (λ it, ResItem_ReservationID it = resID) (stock_reservation_items s)).

Definition GetReservationItemsTx (resID : uuid) : op (list ReservationItem) :=
  sql "inventory: get reservation items: " (λ _ s, Ok (s, items_of s resID)).

Definition UpdateReservationStatus (id : uuid) (status : ReservationStatus) : op unit :=
  sql "inventory: update reservation status: " (λ now s,
    match stock_reservations s !! id with
    | None => Err ErrReservationNotFound
    | Some r =>
        let row := MkReservation (Res_ID r) (Res_OrderID r) status
                     (Res_ExpiresAt r) (Res_CreatedAt r) now in
        Ok (set_reservations s (<[id := row]> (stock_reservations s)), tt)
    end).

(** * Service (service.go) *)

Section service.
Local Open Scope go_scope.

Definition GetStock (sku : string) : op Item :=
  let trimmed := TrimSpace sku in
  if String.eqb trimmed "" then fail ErrEmptySKU else repo_GetStock trimmed.

Definition ReplenishStock (sku : string) (quantity : Z) : op Item :=
  if quantity <=? 0 then fail ErrInvalidQuantity else
  let trimmed := TrimSpace sku in
  if String.eqb trimmed "" then fail ErrEmptySKU else
  UpsertStock trimmed quantity.

(** The normalisation loop: one quantity per trimmed SKU, in Go's [int]. *)
Fixpoint consolidate (items : list StockItemRequest) (consolidated : gmap string Z) :
    result error (gmap string Z) :=
  match items with
  | [] => Ok consolidated
  | item :: r =>
      let sku := TrimSpace (Req_SKU item) in
      if String.eqb sku "" then Err ErrEmptySKU else
      if Req_Quantity item <=? 0 then Err ErrInvalidQuantity else
      consolidate r
        (<[sku := add64 (default 0 (consolidated !! sku)) (Req_Quantity item)]> consolidated)
  end.

(** The unique SKUs, in ascending order. *)
Definition sorted_skus (consolidated : gmap string Z) : list string :=
  sort_strings (map_to_list consolidated).*1.

Definition qty_of (consolidated : gmap string Z) (sku : string) : Z :=
  default 0 (consolidated !! sku).

(** Step B: the shortage of one SKU, if the locked rows do not cover it. *)
Definition shortage_of (consolidated : gmap string Z) (lockedItems : gmap string Item)
    (sku : string) : option StockShortage :=
  let reqQty := qty_of consolidated sku in
  match lockedItems !! sku with
  | None => Some (MkStockShortage reqQty 0 0 0)
  | Some item =>
      let avail := sub64 (Item_OnHand item) (Item_Reserved item) in
      if avail <? reqQty
      then Some (MkStockShortage reqQty avail (Item_OnHand item) (Item_Reserved item))
      else None
  end.

(** Step B over the sorted SKUs: [failedSKUs] and [shortages]. *)
Definition shortages (consolidated : gmap string Z) (lockedItems : gmap string Item)
    (skus : list string) : list (string * StockShortage) :=
  omap (λ sku, (sku,.) <$> shortage_of consolidated lockedItems sku) skus.

(** The body of the transaction of [ReserveStock], steps A to F. *)
Definition ReserveStock_tx (req : ReserveStockRequest) (consolidated : gmap string Z) :
    op ReserveStockResult :=
  let sortedSKUs := sorted_skus consolidated in
  let* lockedItems := LockSKUsForUpdate sortedSKUs in
  let failed := shortages consolidated lockedItems sortedSKUs in
  if negb (length failed =? 0)%nat
  then fail (ErrInsufficientStock (sort_strings failed.*1) (list_to_map failed)) else
  for_each (λ sku, IncrementReserved sku (qty_of consolidated sku)) sortedSKUs ;;;
  let* now := time_now in
  let expiresAt := now + seconds (Reserve_TTLSeconds req) in
  CreateReservation (MkReservation (Reserve_ReservationID req) (Reserve_OrderID req)
                       ReservationStatusPending expiresAt 0 0) ;;;
  let itemsToCreate :=
    (λ sku, MkStockItemRequest sku (qty_of consolidated sku)) <$> sortedSKUs in
  CreateReservationItems (Reserve_ReservationID req) itemsToCreate ;;;
  ret (MkReserveStockResult (Reserve_ReservationID req) (Reserve_OrderID req)
         ReservationStatusPending expiresAt itemsToCreate).

Definition ReserveStock (req : ReserveStockRequest) : op ReserveStockResult :=
  if (Reserve_OrderID req =? uuid_Nil)%N then fail ErrInvalidOrderID else
  if (length (Reserve_Items req) =? 0)%nat then fail ErrEmptyItems else
  let* rid := if (Reserve_ReservationID req =? uuid_Nil)%N then uuid_New
              else ret (Reserve_ReservationID req) in
  let ttl := if Reserve_TTLSeconds req <=? 0 then 900 else Reserve_TTLSeconds req in
  let* consolidated := lift_result (consolidate (Reserve_Items req) ∅) in
  ExecuteTx (ReserveStock_tx
    (MkReserveStockRequest rid (Reserve_OrderID req) (Reserve_Items req) ttl) consolidated).

(** The common part of [CommitStock] and [CommitStockByOrderID], from the test of
    the status of the locked reservation on. *)
Definition commit_locked (res : Reservation) (id : uuid) : op unit :=
  match Res_Status res with
  | ReservationStatusCommitted => ret tt
  | ReservationStatusReleased => fail ErrReservationAlreadyReleased
  | ReservationStatusPending =>
      let* items := GetReservationItemsTx id in
      LockSKUsForUpdate (sort_strings (ResItem_SKU <$> items)) ;;;
      for_each (λ item, CommitStockOnHand (ResItem_SKU item) (ResItem_Quantity item)) items ;;;
      UpdateReservationStatus id ReservationStatusCommitted
  end.

Definition CommitStock (reservationID : uuid) : op unit :=
  ExecuteTx (let* res := LockReservationForUpdate reservationID in
             commit_locked res reservationID).

Definition CommitStockByOrderID (orderID : uuid) : op unit :=
  ExecuteTx (let* res := LockReservationByOrderForUpdate orderID in
             commit_locked res (Res_ID res)).

(** The common part of [ReleaseStock] and [ReleaseStockByOrderID]. *)
Definition release_locked (res : Reservation) (id : uuid) : op unit :=
  match Res_Status res with
  | ReservationStatusReleased => ret tt
  | ReservationStatusCommitted => fail ErrReservationAlreadyCommitted
  | ReservationStatusPending =>
      let* items := GetReservationItemsTx id in
      LockSKUsForUpdate (sort_strings (ResItem_SKU <$> items)) ;;;
      for_each (λ item, DecrementReserved (ResItem_SKU item) (ResItem_Quantity item)) items ;;;
      UpdateReservationStatus id ReservationStatusReleased
  end.

Definition ReleaseStock (reservationID : uuid) : op unit :=
  ExecuteTx (let* res := LockReservationForUpdate reservationID in
             release_locked res reservationID).

Definition ReleaseStockByOrderID (orderID : uuid) : op unit :=
  ExecuteTx (let* res := LockReservationByOrderForUpdate orderID in
             release_locked res (Res_ID res)).
End service.

(** Every operation of the service, as the callers see it. *)
Inductive request :=
| ReqReplenish (sku : string) (quantity : Z)
| ReqReserve (req : ReserveStockRequest)
| ReqCommit (reservationID : uuid)
| ReqCommitByOrder (orderID : uuid)
| ReqRelease (reservationID : uuid)
| ReqReleaseByOrder (orderID : uuid)
| ReqGet (sku : string).

Definition serve (r : request) : op unit :=
  match r with
  | ReqReplenish sku q => bind (ReplenishStock sku q) (λ _, ret tt)
  | ReqReserve req => bind (ReserveStock req) (λ _, ret tt)
  | ReqCommit id => CommitStock id
  | ReqCommitByOrder id => CommitStockByOrderID id
  | ReqRelease id => ReleaseStock id
  | ReqReleaseByOrder id => ReleaseStockByOrderID id
  | ReqGet sku => bind (GetStock sku) (λ _, ret tt)
  end.

(** A step of the service: one request, served in any environment. *)
Inductive step : State → State → Prop :=
| step_serve r env n s n' s' res :
    serve r env n s = (n', s', res) → step s s'.

(** * The invariant *)

(** The stock levels of a SKU, without the bookkeeping columns. *)
Definition stock (s : State) (sku : string) : option (Z * Z) :=
  (λ r, (on_hand r, reserved r)) <$> inventory s !! sku.

Definition is_pending (s : State) (rid : uuid) : Prop :=
  Res_Status <$> stock_reservations s !! rid = Some ReservationStatusPending.
#[export] Instance is_pending_dec s rid : Decision (is_pending s rid).
Proof. unfold is_pending. apply _. Defined.

(** The quantity of a SKU promised to reservations that are still pending. *)
Definition pending_qty (s : State) (sku : string) : Z :=
  sumZ (λ it, if decide (ResItem_SKU it = sku ∧ is_pending s (ResItem_ReservationID it))
              then ResItem_Quantity it else 0)
       (stock_reservation_items s).

Definition item_key (it : ReservationItem) : uuid * string :=
  (ResItem_ReservationID it, ResItem_SKU it).

(** What the constraints of the schema promise of the reservation lines. *)
Record items_wf (s : State) : Prop := {
  iw_item it : it ∈ stock_reservation_items s →
    0 < ResItem_Quantity it ∧ is_Some (stock_reservations s !! ResItem_ReservationID it) ∧
    is_Some (inventory s !! ResItem_SKU it);
  iw_unique : NoDup (item_key <$> stock_reservation_items s);
}.

Record reservations_wf (s : State) : Prop := {
  rw_id id r : stock_reservations s !! id = Some r → Res_ID r = id;
  rw_order id1 id2 r1 r2 :
    stock_reservations s !! id1 = Some r1 → stock_reservations s !! id2 = Some r2 →
    Res_OrderID r1 = Res_OrderID r2 → id1 = id2;
}.

Definition rows_ok (s : State) : Prop :=
  ∀ sku r, inventory s !! sku = Some r → row_ok r = true.

(** Conservation of stock: the reserved column of a SKU is exactly what the
    pending reservations hold, and never exceeds what is on hand. *)
Record inv (s : State) : Prop := {
  inv_rows : rows_ok s;
  inv_sku sku : is_Some (inventory s !! sku) → varchar_ok 64 sku = true;
  inv_items : items_wf s;
  inv_reservations : reservations_wf s;
  inv_conserved sku oh rs : stock s sku = Some (oh, rs) → rs = pending_qty s sku;
}.

(** * Lemmas *)

Lemma row_ok_spec r :
  row_ok r = true ↔
  0 <= reserved r <= on_hand r ∧ on_hand r <= MaxInt32 ∧ MinInt64 <= version r <= MaxInt64.
Proof.
  unfold row_ok, int4_ok, int8_ok, MinInt32, MaxInt32.
  rewrite !andb_true_iff, !Z.leb_le. lia.
Qed.

Lemma rows_ok_stock s sku oh rs :
  rows_ok s → stock s sku = Some (oh, rs) → 0 <= rs <= oh ∧ oh <= MaxInt32.
Proof.
  unfold stock. intros H. destruct (inventory s !! sku) as [r|] eqn:Hr; [|done].
  intros [= <- <-]. apply H, row_ok_spec in Hr. lia.
Qed.

Lemma stock_is_Some s sku : is_Some (stock s sku) ↔ is_Some (inventory s !! sku).
Proof. unfold stock. by rewrite fmap_is_Some. Qed.

Lemma reservation_of_order_Some s o r :
  reservation_of_order s o = Some r →
  Res_OrderID r = o ∧ ∃ id, stock_reservations s !! id = Some r.
Proof.
  unfold reservation_of_order. rewrite fmap_Some. intros ([i r'] & H & ->). simpl.
  apply list_find_Some in H as (Hi & Ho & _). split; [done|].
  apply list_elem_of_lookup_2, list_elem_of_fmap in Hi as ([id r] & -> & Hin).
  exists id. by apply elem_of_map_to_list.
Qed.

Lemma reservation_of_order_None s o id r :
  reservation_of_order s o = None → stock_reservations s !! id = Some r → Res_OrderID r ≠ o.
Proof.
  unfold reservation_of_order. rewrite fmap_None, list_find_None, Forall_forall.
  intros H Hr. apply (H r), list_elem_of_fmap. exists (id, r). split; [done|].
  by apply elem_of_map_to_list.
Qed.

Lemma reservation_of_order_is s o id r :
  reservations_wf s → stock_reservations s !! id = Some r → Res_OrderID r = o →
  reservation_of_order s o = Some r.
Proof.
  intros Hwf Hr Ho. destruct (reservation_of_order s o) as [r'|] eqn:H.
  - apply reservation_of_order_Some in H as (Ho' & id' & Hr').
    assert (id = id') as -> by (eapply rw_order; eauto; congruence). congruence.
  - by eapply reservation_of_order_None in H.
Qed.

Lemma items_of_perm s rid :
  items_of s rid ≡ₚ filter (λ it, ResItem_ReservationID it = rid) (stock_reservation_items s).
Proof. apply merge_sort_Permutation. Qed.

Lemma items_of_elem s rid it :
  it ∈ items_of s rid ↔ ResItem_ReservationID it = rid ∧ it ∈ stock_reservation_items s.
Proof. by rewrite items_of_perm, list_elem_of_filter. Qed.

(** The quantity of a SKU on the lines of one reservation. *)
Definition held_by (s : State) (rid : uuid) (sku : string) : Z :=
  sumZ (λ it, if decide (ResItem_SKU it = sku) then ResItem_Quantity it else 0) (items_of s rid).

Lemma held_by_all s rid sku :
  held_by s rid sku =
  sumZ (λ it, if decide (ResItem_SKU it = sku ∧ ResItem_ReservationID it = rid)
              then ResItem_Quantity it else 0) (stock_reservation_items s).
Proof.
  unfold held_by. rewrite items_of_perm, sumZ_filter. apply sumZ_ext_in.
  intros it _. repeat case_decide; naive_solver.
Qed.

Lemma held_by_le_pending s rid sku :
  items_wf s → is_pending s rid → 0 <= held_by s rid sku <= pending_qty s sku.
Proof.
  intros Hwf Hp. rewrite held_by_all. unfold pending_qty. split.
  - apply sumZ_nonneg. intros it Hit. apply (iw_item _ Hwf) in Hit. case_decide; lia.
  - apply sumZ_le. intros it Hit. apply (iw_item _ Hwf) in Hit.
    repeat case_decide; try lia. naive_solver.
Qed.

(** ** Statements *)

Section adjust.
Context {X : Type} (what : string) (sk : X → string) (q a b : X → Z) (f : X → Z → Z → Z * Z).
Hypothesis f_spec : ∀ x oh rs, f x oh rs = (oh + a x, rs + b x).

(** What the lines of [l] add to the column of a SKU. *)
Definition delta (d : X → Z) (l : list X) (sku : string) : Z :=
  sumZ (λ x, if decide (sk x = sku) then d x else 0) l.

(** [s] is [s0] after the updates of [l]. *)
Record adjusted (s0 : State) (l : list X) (s : State) : Prop := {
  adj_reservations : stock_reservations s = stock_reservations s0;
  adj_items : stock_reservation_items s = stock_reservation_items s0;
  adj_stock sku :
    stock s sku = (λ p, (p.1 + delta a l sku, p.2 + delta b l sku)) <$> stock s0 sku;
  adj_rows : rows_ok s;
  adj_untouched sku : sku ∉ sk <$> l → inventory s !! sku = inventory s0 !! sku;
}.

Lemma delta_snoc d l x sku :
  delta d (l ++ [x]) sku = delta d l sku + if decide (sk x = sku) then d x else 0.
Proof. unfold delta. rewrite sumZ_app. simpl. lia. Qed.

Lemma adjusted_nil s0 : rows_ok s0 → adjusted s0 [] s0.
Proof.
  intros Hr. split; [done..| |done|done]. intros sku. unfold delta. simpl.
  destruct (stock s0 sku) as [[oh rs]|]; simpl; [|done]. by rewrite !Z.add_0_r.
Qed.

Lemma adjusted_snoc s0 l s x r :
  adjusted s0 l s → inventory s !! sk x = Some r →
  let row now := MkInventoryRow (on_hand r + a x) (reserved r + b x) (version r + 1) now in
  ∀ now, row_ok (row now) = true →
  adjusted s0 (l ++ [x]) (set_inventory s (<[sk x := row now]> (inventory s))).
Proof.
  intros [H1 H2 H3 H4 H5] Hr row now Hok. split; [done..| | |].
  - intros sku. rewrite !delta_snoc. unfold stock at 1. simpl.
    destruct (decide (sk x = sku)) as [<-|Hne].
    + rewrite lookup_insert_eq. simpl. specialize (H3 (sk x)). unfold stock in H3 at 1.
      rewrite Hr in H3. destruct (stock s0 (sk x)) as [[oh rs]|]; [|done].
      simpl in *. injection H3 as -> ->. do 2 f_equal; lia.
    + rewrite lookup_insert_ne by done. specialize (H3 sku). unfold stock in H3 at 1.
      rewrite H3, !Z.add_0_r. done.
  - intros sku r'. simpl. rewrite lookup_insert_Some. intros [[_ <-]|[_ ?]]; [done|eauto].
  - intros sku Hsku. assert (sku ∉ sk <$> l ∧ sk x ≠ sku) as [Hl Hx] by set_solver.
    simpl. rewrite lookup_insert_ne by done. by apply H5.
Qed.

(** The errors of the loop: the driver's and the constraints', or a missing row. *)
Definition loop_error (s0 : State) (l : list X) (e : error) : Prop :=
  (∃ msg, e = ErrDriver msg) ∨ (e = ErrSKUNotFound ∧ ∃ x, x ∈ l ∧ inventory s0 !! sk x = None).

Lemma adjust_loop env s0 l :
  rows_ok s0 →
  triple env (λ s, s = s0) (for_each (λ x, update_inventory what (sk x) (q x) (f x)) l)
    (λ _ s, adjusted s0 l s) (λ e _, loop_error s0 l e).
Proof.
  intros Hr0. eapply triple_pre; [|intros s ->; by apply adjusted_nil].
  apply (triple_for_each env _ (adjusted s0)). intros l1 x l2 ->.
  apply triple_sql; [|intros; left; by eexists]. intros n s Hadj _.
  destruct (int4_ok (q x)); simpl; [|left; by eexists].
  destruct (inventory s !! sk x) as [r|] eqn:Hr.
  - rewrite f_spec. cbv beta iota zeta. destruct (negb _) eqn:Hok; [left; by eexists|].
    apply negb_false_iff in Hok. by apply adjusted_snoc.
  - right. split; [done|]. exists x. split; [set_solver|].
    apply eq_None_not_Some. rewrite <-stock_is_Some. intros [p Hp].
    assert (Hs : stock s (sk x) = None) by (unfold stock; by rewrite Hr).
    rewrite (adj_stock _ _ _ Hadj), Hp in Hs. done.
Qed.

(** The loop over distinct SKUs goes through, driver failures apart, when each
    row can take its own update. *)
Lemma adjust_loop_total env s0 l :
  rows_ok s0 → NoDup (sk <$> l) →
  (∀ x, x ∈ l → int4_ok (q x) = true ∧ ∃ r, inventory s0 !! sk x = Some r ∧
     ∀ now, row_ok (MkInventoryRow (on_hand r + a x) (reserved r + b x) (version r + 1) now) = true) →
  triple env (λ s, s = s0) (for_each (λ x, update_inventory what (sk x) (q x) (f x)) l)
    (λ _ s, adjusted s0 l s) (λ _ _, faulted env).
Proof.
  intros Hr0 Hnd Hok. eapply triple_pre; [|intros s ->; by apply adjusted_nil].
  apply (triple_for_each env _ (adjusted s0)). intros l1 x l2 ->.
  apply triple_sql; [|unfold faulted; by eauto]. intros n s Hadj _.
  destruct (Hok x) as (Hq & r & Hr & Hrow); [set_solver|].
  rewrite fmap_app, fmap_cons in Hnd.
  assert (Hs : inventory s !! sk x = Some r).
  { rewrite (adj_untouched _ _ _ Hadj); [done|]. apply NoDup_app in Hnd as (_ & Hnd & _).
    intros Hx. by apply (Hnd _ Hx), list_elem_of_here. }
  rewrite Hq, Hs, f_spec. cbv beta iota zeta. cbn [negb]. rewrite Hrow.
  by apply adjusted_snoc.
Qed.
End adjust.

(** A statement that reads. *)
Lemma triple_read {A} env what (g : State → result error A) s0 :
  triple env (λ s, s = s0) (sql what (λ _ s, match g s with Ok a => Ok (s, a) | Err e => Err e end))
    (λ a s, s = s0 ∧ g s0 = Ok a) (λ _ _, True).
Proof.
  apply triple_sql; [|done]. intros n s -> _. by destruct (g s0).
Qed.

Lemma items_wf_inventory s s' :
  items_wf s → stock_reservations s' = stock_reservations s →
  stock_reservation_items s' = stock_reservation_items s →
  (∀ sku, is_Some (inventory s !! sku) → is_Some (inventory s' !! sku)) → items_wf s'.
Proof.
  intros [H1 H2] Hr Hi Hs. split; rewrite Hi; [|done].
  intros it Hit. rewrite Hr. destruct (H1 it Hit) as (? & ? & ?). eauto.
Qed.

Lemma adjusted_is_Some {X} (sk : X → string) a b s0 l s sku :
  adjusted sk a b s0 l s → is_Some (inventory s !! sku) ↔ is_Some (inventory s0 !! sku).
Proof.
  intros H. by rewrite <-!stock_is_Some, (adj_stock _ _ _ _ _ _ H), fmap_is_Some.
Qed.

(** The invariant only reads the tables through these observations. *)
Lemma pending_qty_ext s s' sku :
  stock_reservations s' = stock_reservations s →
  stock_reservation_items s' = stock_reservation_items s → pending_qty s' sku = pending_qty s sku.
Proof.
  intros Hr Hi. unfold pending_qty. rewrite Hi. apply sumZ_ext_in. intros it _.
  apply decide_ext. unfold is_pending. by rewrite Hr.
Qed.

(** A reservation leaving the pending state gives up exactly its own lines. *)
Lemma pending_qty_settle s s' rid r st sku :
  is_pending s rid → st ≠ ReservationStatusPending → Res_Status r = st →
  stock_reservations s' = <[rid := r]> (stock_reservations s) →
  stock_reservation_items s' = stock_reservation_items s →
  pending_qty s' sku = pending_qty s sku - held_by s rid sku.
Proof.
  intros Hp Hst Hr Hres Hit. rewrite held_by_all. unfold pending_qty. rewrite Hit.
  unfold Z.sub. rewrite <-sumZ_opp, <-sumZ_add. apply sumZ_ext_in. intros it _.
  assert (Hp' : is_pending s' (ResItem_ReservationID it) ↔
    is_pending s (ResItem_ReservationID it) ∧ ResItem_ReservationID it ≠ rid).
  { unfold is_pending. rewrite Hres. destruct (decide (ResItem_ReservationID it = rid)) as [->|].
    - rewrite lookup_insert_eq. simpl. split; [congruence|tauto].
    - rewrite lookup_insert_ne by done. tauto. }
  repeat case_decide; try lia; naive_solver.
Qed.

(** A new pending reservation adds exactly its own lines. *)
Lemma pending_qty_new s s' rid r new sku :
  items_wf s → stock_reservations s !! rid = None → Res_Status r = ReservationStatusPending →
  stock_reservations s' = <[rid := r]> (stock_reservations s) →
  stock_reservation_items s' = stock_reservation_items s ++ new →
  (∀ it, it ∈ new → ResItem_ReservationID it = rid) →
  pending_qty s' sku =
    pending_qty s sku + sumZ (λ it, if decide (ResItem_SKU it = sku) then ResItem_Quantity it else 0) new.
Proof.
  intros Hwf Hrid Hst Hres Hit Hnew. unfold pending_qty. rewrite Hit, sumZ_app.
  f_equal; apply sumZ_ext_in; intros it Hin; apply decide_ext; unfold is_pending; rewrite Hres.
  - apply (iw_item _ Hwf) in Hin as (_ & [r' Hr'] & _).
    by rewrite lookup_insert_ne by congruence.
  - rewrite (Hnew it Hin), lookup_insert_eq. simpl. rewrite Hst. tauto.
Qed.

(** ** Settling a reservation *)

(** [s] is [s0] after the pending reservation [rid] went to [st], giving back its
    lines and taking the share [k] of them off the shelf. *)
Record settled (rid : uuid) (st : ReservationStatus) (k : Z) (s0 s : State) : Prop := {
  set_res : ∃ r0 r, stock_reservations s0 !! rid = Some r0 ∧
    stock_reservations s = <[rid := r]> (stock_reservations s0) ∧
    Res_ID r = Res_ID r0 ∧ Res_OrderID r = Res_OrderID r0 ∧ Res_Status r = st;
  set_lines : stock_reservation_items s = stock_reservation_items s0;
  set_stock sku :
    stock s sku = (λ p, (p.1 - k * held_by s0 rid sku, p.2 - held_by s0 rid sku)) <$> stock s0 sku;
  set_rows : rows_ok s;
}.

Lemma reservations_wf_update s s' rid r0 r :
  reservations_wf s → stock_reservations s !! rid = Some r0 →
  stock_reservations s' = <[rid := r]> (stock_reservations s) →
  Res_ID r = Res_ID r0 → Res_OrderID r = Res_OrderID r0 → reservations_wf s'.
Proof.
  intros [H1 H2] Hr0 Hs Hid Hord. split; rewrite Hs.
  - intros id r'. rewrite lookup_insert_Some. intros [[<- <-]|[_ H]]; [|eauto].
    rewrite Hid. eauto.
  - intros id1 id2 r1 r2. rewrite !lookup_insert_Some.
    intros [[<- <-]|[Hn1 Hl1]] [[<- <-]|[Hn2 Hl2]] Heq; [done| | |by eauto];
      rewrite Hord in Heq; eauto.
Qed.

Lemma settled_inv rid st k s0 s :
  inv s0 → is_pending s0 rid → st ≠ ReservationStatusPending → settled rid st k s0 s → inv s.
Proof.
  intros Hinv Hp Hst [(r0 & r & Hr0 & Hres & Hid & Hord & Hs) Hl Hstock Hrows].
  assert (Hsome : ∀ sku, is_Some (inventory s !! sku) ↔ is_Some (inventory s0 !! sku)).
  { intros sku. by rewrite <-!stock_is_Some, Hstock, fmap_is_Some. }
  split; [done| | | |].
  - intros sku H. apply (inv_sku _ Hinv). by apply Hsome.
  - destruct (inv_items _ Hinv) as [Hw1 Hw2]. split; rewrite Hl; [|done]. intros it Hit.
    destruct (Hw1 it Hit) as (? & ? & ?). rewrite Hsome, Hres. split_and!; [done| |done].
    rewrite lookup_insert_is_Some. destruct (decide (rid = ResItem_ReservationID it)); auto.
  - eapply reservations_wf_update; [apply (inv_reservations _ Hinv)|done..].
  - intros sku oh rs. rewrite Hstock. destruct (stock s0 sku) as [[oh0 rs0]|] eqn:H0; [|done].
    intros [= <- <-]. rewrite (pending_qty_settle s0 s rid r st sku) by done.
    by rewrite <-(inv_conserved _ Hinv sku oh0 rs0).
Qed.

Lemma items_of_nodup s rid : items_wf s → NoDup (ResItem_SKU <$> items_of s rid).
Proof.
  intros [_ Hu]. rewrite items_of_perm.
  set (l := stock_reservation_items s) in *.
  apply (NoDup_fmap_1 (rid,.)). rewrite <-list_fmap_compose.
  rewrite (list_fmap_ext _ item_key).
  - eapply sublist_NoDup; [exact Hu|]. apply fmap_sublist, sublist_filter.
  - intros i it H%list_elem_of_lookup_2%list_elem_of_filter.
    unfold item_key. simpl. by destruct H as [-> _].
Qed.

(** No row has exhausted its BIGINT version counter. *)
Definition version_room (s : State) : Prop :=
  map_Forall (λ _ r, version r < MaxInt64) (inventory s).
#[export] Instance version_room_dec s : Decision (version_room s).
Proof. unfold version_room. apply _. Defined.

Definition lock_settle (what : string) (f : Z → Z → Z → Z * Z) (id : uuid)
    (st : ReservationStatus) : op unit :=
  bind (GetReservationItemsTx id) (λ items,
  bind (LockSKUsForUpdate (sort_strings (ResItem_SKU <$> items))) (λ _,
  bind (for_each (λ item, update_inventory what (ResItem_SKU item) (ResItem_Quantity item)
                            (f (ResItem_Quantity item))) items) (λ _,
  UpdateReservationStatus id st))).

(** The rows a locking read returns. *)
Definition locked (s : State) (skus : list string) (m : gmap string Item) : Prop :=
  ∀ sku, sku ∈ skus → m !! sku = to_item sku <$> inventory s !! sku.

Lemma select_any_lookup skus s sku :
  sku ∈ skus →
  (list_to_map ((λ it, (Item_SKU it, it)) <$> select_any skus s) : gmap string Item) !! sku
  = to_item sku <$> inventory s !! sku.
Proof.
  intros Hin. unfold select_any.
  assert (Hin' : sku ∈ sort_strings (remove_dups skus)).
  { by rewrite sort_strings_elem, elem_of_remove_dups. }
  generalize dependent (sort_strings (remove_dups skus)). intros l Hl.
  induction l as [|x l IH]; [set_solver|]. simpl.
  destruct (decide (x = sku)) as [->|Hne].
  - destruct (inventory s !! sku) as [r|] eqn:Hr; simpl; [by rewrite lookup_insert_eq|].
    clear IH Hl. induction l as [|y l IH]; simpl; [done|].
    destruct (inventory s !! y) as [r|] eqn:Hy; simpl; [|done].
    rewrite lookup_insert_ne; [done|]. congruence.
  - destruct (inventory s !! x) as [r|] eqn:Hr; simpl; [rewrite lookup_insert_ne by done|];
      apply IH; set_solver.
Qed.

Lemma LockSKUs_triple env s0 skus :
  Sorted String.le skus →
  triple env (λ s, s = s0) (LockSKUsForUpdate skus)
    (λ m s, s = s0 ∧ locked s0 skus m) (λ _ s, s = s0 ∧ faulted env).
Proof.
  intros Hs. unfold LockSKUsForUpdate. destruct skus as [|x skus].
  { eapply triple_pre; [apply triple_ret|]. intros s ->. split; [done|]. intros ? []%not_elem_of_nil. }
  apply strings_sorted_spec in Hs. rewrite Hs. simpl.
  apply triple_sql.
  - intros n s -> _. split; [done|]. intros sku Hin. by apply select_any_lookup.
  - intros n msg s -> Hn. split; [done|]. by exists n, msg.
Qed.

(** The lines of a pending reservation can be settled: each fits its row. *)
Lemma settle_row s0 rid k it r now :
  inv s0 → version_room s0 → is_pending s0 rid → k = 0 ∨ k = 1 →
  it ∈ items_of s0 rid → inventory s0 !! ResItem_SKU it = Some r →
  int4_ok (ResItem_Quantity it) = true ∧
  row_ok (MkInventoryRow (on_hand r + - k * ResItem_Quantity it)
            (reserved r + - ResItem_Quantity it) (version r + 1) now) = true.
Proof.
  intros Hinv Hroom Hp Hk Hit Hr.
  pose proof (inv_rows _ Hinv _ _ Hr) as Hrow. apply row_ok_spec in Hrow.
  assert (Hc : reserved r = pending_qty s0 (ResItem_SKU it)).
  { eapply (inv_conserved _ Hinv _ (on_hand r)). unfold stock. by rewrite Hr. }
  pose proof (held_by_le_pending _ _ (ResItem_SKU it) (inv_items _ Hinv) Hp) as Hh.
  assert (Hle : 0 < ResItem_Quantity it <= held_by s0 rid (ResItem_SKU it)).
  { assert (Hpos : ∀ y, y ∈ items_of s0 rid → 0 < ResItem_Quantity y).
    { intros y [_ Hy]%items_of_elem. by apply (iw_item _ (inv_items _ Hinv)). }
    split; [by apply Hpos|].
    pose proof (sumZ_elem_le (λ y, if decide (ResItem_SKU y = ResItem_SKU it)
      then ResItem_Quantity y else 0) (items_of s0 rid) it) as Hs.
    simpl in Hs. rewrite decide_True in Hs by done. apply Hs; [|done].
    intros y Hy%Hpos. case_decide; lia. }
  specialize (Hroom _ _ Hr). rewrite row_ok_spec. simpl.
  unfold int4_ok, MinInt32, MinInt64 in *. rewrite andb_true_iff, !Z.leb_le.
  unfold MaxInt32 in *. destruct Hk as [-> | ->]; lia.
Qed.

Lemma delta_held k s rid sku :
  delta ResItem_SKU (λ it, - k * ResItem_Quantity it) (items_of s rid) sku = - (k * held_by s rid sku).
Proof.
  unfold delta, held_by. induction (items_of s rid) as [|it l IH]; simpl; [lia|].
  rewrite IH. case_decide; lia.
Qed.

Lemma delta_held_reserved s rid sku :
  delta ResItem_SKU (λ it, - ResItem_Quantity it) (items_of s rid) sku = - held_by s rid sku.
Proof.
  unfold delta, held_by. induction (items_of s rid) as [|it l IH]; simpl; [lia|].
  rewrite IH. case_decide; lia.
Qed.

Section settle.
Context (what : string) (f : Z → Z → Z → Z * Z) (k : Z).
Hypothesis f_spec : ∀ q oh rs, f q oh rs = (oh - k * q, rs - q).
Hypothesis k_spec : k = 0 ∨ k = 1.

(** The statements around the loop. *)
Lemma lock_settle_around env s0 id st (R : Prop) :
  is_pending s0 id → (faulted env → R) →
  triple env (λ s, s = s0)
    (for_each (λ item, update_inventory what (ResItem_SKU item) (ResItem_Quantity item)
                         (f (ResItem_Quantity item))) (items_of s0 id))
    (λ _ s, adjusted ResItem_SKU (λ it, - k * ResItem_Quantity it) (λ it, - ResItem_Quantity it)
              s0 (items_of s0 id) s) (λ _ _, R) →
  triple env (λ s, s = s0) (lock_settle what f id st) (λ _ s, settled id st k s0 s) (λ _ _, R).
Proof.
  intros Hp HR Hloop. unfold lock_settle.
  eapply (triple_bind env _ _ _ _ (λ items s, s = s0 ∧ items = items_of s0 id)).
  { apply triple_sql; [by intros n s -> _|]. intros n m s _ Hn. apply HR. by exists n, m. }
  intros items. apply triple_at. intros s [-> ->].
  eapply (triple_bind env _ _ _ _ (λ _ s, s = s0)).
  { eapply triple_conseq; [apply (LockSKUs_triple env s0), sort_strings_sorted|done|..].
    - by intros ? ? [? ?].
    - intros ? ? [_ ?]. by apply HR. }
  intros m. eapply triple_bind; [apply Hloop|]. intros [].
  apply triple_sql; [|intros n msg s _ Hn; apply HR; by exists n, msg].
  intros n s Hadj _. rewrite (adj_reservations _ _ _ _ _ _ Hadj).
  unfold is_pending in Hp. destruct (stock_reservations s0 !! id) as [r|] eqn:Hr; [|done].
  split; simpl.
  - exists r. eexists. split_and!; [done|reflexivity|done..].
  - apply (adj_items _ _ _ _ _ _ Hadj).
  - intros sku. change (stock (set_reservations s _) sku) with (stock s sku).
    rewrite (adj_stock _ _ _ _ _ _ Hadj), delta_held, delta_held_reserved.
    destruct (stock s0 sku) as [[oh rs]|]; simpl; [|done]. do 2 f_equal; lia.
  - apply (adj_rows _ _ _ _ _ _ Hadj).
Qed.

(** Settling a pending reservation succeeds, driver failures and exhausted
    version counters apart, and does exactly what [settled] says. *)
Lemma lock_settle_triple env s0 id st :
  inv s0 → is_pending s0 id →
  triple env (λ s, s = s0) (lock_settle what f id st)
    (λ _ s, settled id st k s0 s) (λ _ _, faulted env ∨ ¬ version_room s0).
Proof.
  intros Hinv Hp.
  assert (Hf : ∀ (x : ReservationItem) oh rs, f (ResItem_Quantity x) oh rs =
    (oh + - k * ResItem_Quantity x, rs + - ResItem_Quantity x)).
  { intros x oh rs. rewrite f_spec. f_equal; lia. }
  destruct (decide (version_room s0)) as [Hroom|Hroom].
  - apply lock_settle_around; [done|tauto|]. eapply triple_conseq;
      [eapply (adjust_loop_total what ResItem_SKU ResItem_Quantity _ _ _ Hf env s0)|done..|].
    + apply (inv_rows _ Hinv).
    + apply items_of_nodup, Hinv.
    + intros it Hit. pose proof Hit as [_ Hin]%items_of_elem.
      destruct (iw_item _ (inv_items _ Hinv) it Hin) as (_ & _ & r & Hr).
      split; [by eapply (settle_row _ _ _ _ _ 0)|]. exists r. split; [done|].
      intros now. by eapply settle_row.
    + by left.
  - apply lock_settle_around; [done|tauto|]. eapply triple_conseq;
      [by apply (adjust_loop what ResItem_SKU ResItem_Quantity _ _ _ Hf env s0), Hinv|done..|].
    intros e s _. by right.
Qed.
End settle.

(** What an attempt to bring reservation [id] to the state [st] does: [k] is the
    share taken off the shelf and [e] the error when it is already in the other
    final state. *)
Definition settle_spec (id : option uuid) (st : ReservationStatus) (k : Z) (e : error)
    (env : Env) (s s' : State) (r : result error unit) : Prop :=
  match id ≫= (λ id, (id,.) <$> stock_reservations s !! id) with
  | None => s' = s ∧ (faulted env ∨ r = Err ErrReservationNotFound)
  | Some (id, r0) =>
      if decide (Res_Status r0 = ReservationStatusPending) then
        (r = Ok tt ∧ settled id st k s s') ∨
        (s' = s ∧ r ≠ Ok tt ∧ (faulted env ∨ ¬ version_room s))
      else if decide (Res_Status r0 = st) then s' = s ∧ (faulted env ∨ r = Ok tt)
      else s' = s ∧ r ≠ Ok tt ∧ (faulted env ∨ r = Err e)
  end.

(** [commit_locked] and [release_locked] branch on the status alike. *)
Definition settle_locked (what : string) (f : Z → Z → Z → Z * Z) (st : ReservationStatus)
    (e : error) (res : Reservation) (id : uuid) : op unit :=
  if decide (Res_Status res = ReservationStatusPending) then lock_settle what f id st
  else if decide (Res_Status res = st) then ret tt else fail e.

Lemma commit_locked_eq res id :
  commit_locked res id =
  settle_locked "inventory: commit stock on hand: " (λ q oh rs, (oh - q, rs - q))
    ReservationStatusCommitted ErrReservationAlreadyReleased res id.
Proof. unfold commit_locked, settle_locked. by destruct (Res_Status res). Qed.

Lemma release_locked_eq res id :
  release_locked res id =
  settle_locked "inventory: decrement reserved: " (λ q oh rs, (oh, rs - q))
    ReservationStatusReleased ErrReservationAlreadyCommitted res id.
Proof. unfold release_locked, settle_locked. by destruct (Res_Status res). Qed.

(** What a lookup of the reservation [oid] returns. *)
Definition finds (oid : option uuid) (idf : Reservation → uuid) (lookup : op Reservation)
    (env : Env) (s : State) : Prop :=
  triple env (λ s', s' = s) lookup
    (λ res s', s' = s ∧ oid = Some (idf res) ∧ stock_reservations s !! idf res = Some res)
    (λ e s', s' = s ∧ (faulted env ∨
       (oid ≫= (λ id, (id,.) <$> stock_reservations s !! id) = None ∧ e = ErrReservationNotFound))).

Lemma finds_by_id what id env s :
  finds (Some id) (λ _, id) (select_reservation what id) env s.
Proof.
  unfold finds. apply triple_sql; [|unfold faulted; by eauto 6].
  intros n s' -> _. destruct (stock_reservations s !! id) eqn:H; [done|].
  split; [done|]. right. simpl. by rewrite H.
Qed.

Lemma finds_by_order what o env s :
  inv s → finds (Res_ID <$> reservation_of_order s o) Res_ID (select_reservation_by_order what o) env s.
Proof.
  intros Hinv. unfold finds. apply triple_sql; [|unfold faulted; by eauto 6].
  intros n s' -> _. destruct (reservation_of_order s o) as [r|] eqn:H; simpl.
  - split_and!; [done..|]. apply reservation_of_order_Some in H as (_ & id & Hid).
    by rewrite (rw_id _ (inv_reservations _ Hinv) _ _ Hid).
  - by auto.
Qed.

Section settle_tx.
Context (what : string) (f : Z → Z → Z → Z * Z) (k : Z) (st : ReservationStatus) (e : error).
Hypothesis f_spec : ∀ q oh rs, f q oh rs = (oh - k * q, rs - q).
Hypothesis k_spec : k = 0 ∨ k = 1.
Context (body : Reservation → uuid → op unit).
Hypothesis body_spec : ∀ res id, body res id = settle_locked what f st e res id.

Lemma settle_tx_spec oid idf lookup env n s n' s' r :
  inv s → finds oid idf lookup env s →
  ExecuteTx (bind lookup (λ res, body res (idf res))) env n s = (n', s', r) →
  settle_spec oid st k e env s s' r.
Proof.
  intros Hinv Hfind Hrun.
  unfold settle_spec. unfold finds in Hfind.
  remember (oid ≫= (λ id, (id,.) <$> stock_reservations s !! id)) as x eqn:Hx0.
  pose (Q := λ s', match x with
    | None => False
    | Some (id, r0) =>
        if decide (Res_Status r0 = ReservationStatusPending) then settled id st k s s'
        else s' = s ∧ Res_Status r0 = st end).
  pose (R := λ er, match x with
    | None => faulted env ∨ er = ErrReservationNotFound
    | Some (id, r0) =>
        if decide (Res_Status r0 = ReservationStatusPending) then faulted env ∨ ¬ version_room s
        else faulted env ∨ (Res_Status r0 ≠ st ∧ er = e) end).
  assert (Ht : triple env (λ s', s' = s)
     (bind lookup (λ res, body res (idf res))) (λ _, Q) (λ er _, R er)).
  { eapply triple_bind.
    - eapply triple_conseq; [exact Hfind|done|intros a s1 H; exact H|].
      intros er s1 [-> [Hf|[Hn ->]]]; unfold R.
      + destruct x as [[id r0]|]; [case_decide|]; by left.
      + rewrite Hn. by right.
    - intros res. rewrite body_spec. apply triple_at. intros s1 (-> & Ho & Hres).
      assert (Hx : x = Some (idf res, res)) by (rewrite Hx0, Ho; simpl; by rewrite Hres).
      unfold Q, R, settle_locked. rewrite Hx. repeat case_decide.
      + apply (lock_settle_triple what f k f_spec k_spec); [done|].
        unfold is_pending. rewrite Hres. simpl. by f_equal.
      + eapply triple_pre; [apply triple_ret|]. by intros s1 ->.
      + eapply triple_pre; [apply triple_fail|]. intros s1 ->. by right. }
  pose proof (triple_ExecuteTx_err _ _ _ _ _ Ht n s n' s' r eq_refl Hrun) as H.
  unfold Q, R in H. destruct r as [[]|er].
  - destruct x as [[id r0]|]; [|done]. repeat case_decide; try tauto.
  - destruct H as [-> H]. destruct x as [[id r0]|].
    + repeat case_decide; naive_solver.
    + naive_solver.
Qed.
End settle_tx.

(** ** Reserving *)

Lemma sorted_skus_elem c sku : sku ∈ sorted_skus c ↔ is_Some (c !! sku).
Proof.
  unfold sorted_skus. rewrite sort_strings_elem, list_elem_of_fmap. split.
  - intros ([k q] & -> & H%elem_of_map_to_list). by exists q.
  - intros [q H]. exists (sku, q). split; [done|]. by apply elem_of_map_to_list.
Qed.

Lemma sorted_skus_nodup c : NoDup (sorted_skus c).
Proof. apply sort_strings_nodup, NoDup_fst_map_to_list. Qed.

Lemma delta_sorted_skus c sku : delta id (qty_of c) (sorted_skus c) sku = qty_of c sku.
Proof.
  unfold delta, id. rewrite sumZ_single by apply sorted_skus_nodup.
  case_decide as H; [done|]. unfold qty_of.
  destruct (c !! sku) eqn:Hc; [|done]. exfalso. apply H, sorted_skus_elem. by exists z.
Qed.

(** What a line of a reservation records of a request. *)
Definition line (it : ReservationItem) : uuid * string * Z :=
  (ResItem_ReservationID it, ResItem_SKU it, ResItem_Quantity it).

(** [s] is [s0] with the lines [reqs] added to reservation [rid]. *)
Record lines_added (rid : uuid) (s0 : State) (reqs : list StockItemRequest) (s : State) : Prop := {
  la_inventory : inventory s = inventory s0;
  la_reservations : stock_reservations s = stock_reservations s0;
  la_lines : ∃ new, stock_reservation_items s = stock_reservation_items s0 ++ new ∧
    line <$> new = (λ x, (rid, Req_SKU x, Req_Quantity x)) <$> reqs;
  la_wf : items_wf s;
  la_positive x : x ∈ reqs → 0 < Req_Quantity x;
}.

Lemma create_items_triple env rid s0 reqs :
  items_wf s0 →
  triple env (λ s, s = s0) (CreateReservationItems rid reqs)
    (λ _ s, lines_added rid s0 reqs s) (λ e _, ∃ msg, e = ErrDriver msg).
Proof.
  intros Hwf. eapply triple_pre.
  2:{ intros s ->. instantiate (1 := lines_added rid s0 []). split; try done.
      - exists []. by rewrite app_nil_r.
      - by intros x ?%not_elem_of_nil. }
  apply (triple_for_each env _ (lines_added rid s0)). intros l1 x l2 ->.
  eapply triple_bind; [by apply (triple_uuid _ _ (λ _, lines_added rid s0 l1))|]. intros id.
  apply triple_sql; [|by eauto]. intros n s [H1 H2 (new & H3 & H3') H4 H5] _.
  cbv zeta. destruct (int4_ok (Req_Quantity x) && varchar_ok 64 (Req_SKU x)); simpl; [|by eexists].
  destruct (Z.ltb_spec 0 (Req_Quantity x)); simpl; [|by eexists].
  case_decide as Hex; [by eexists|].
  destruct (stock_reservations s !! rid) eqn:Hr; [|by eexists].
  destruct (inventory s !! Req_SKU x) eqn:Hs; [|by eexists]. split; simpl; [done..| | |].
  - exists (new ++ [MkReservationItem id rid (Req_SKU x) (Req_Quantity x) (env_now env n)]).
    by rewrite H3, <-app_assoc, !fmap_app, H3'.
  - destruct H4 as [Hw1 Hw2]. split; simpl.
    + intros it [Hit|Hit]%elem_of_app; [by apply Hw1|].
      apply list_elem_of_singleton in Hit as ->. simpl. eauto.
    + rewrite fmap_app. apply NoDup_app. split_and!; [done| |apply NoDup_singleton].
      intros ky Hky Hin. apply list_elem_of_singleton in Hin. subst ky.
      apply Hex, Exists_exists. apply list_elem_of_fmap in Hky as (it & Hk & Hit).
      exists it. split; [done|]. right. unfold item_key in Hk. by simplify_eq/=.
  - intros y [Hy|Hy]%elem_of_app; [by apply H5|]. by apply list_elem_of_singleton in Hy as ->.
Qed.

(** The effect of a successful reservation. *)
Record reserve_effect (rid o : uuid) (expires : Z) (c : gmap string Z) (s0 s : State) : Prop := {
  re_fresh : stock_reservations s0 !! rid = None ∧ reservation_of_order s0 o = None;
  re_res : ∃ now, stock_reservations s =
    <[rid := MkReservation rid o ReservationStatusPending expires now now]> (stock_reservations s0);
  re_lines : ∃ new, stock_reservation_items s = stock_reservation_items s0 ++ new ∧
    line <$> new = (λ sku, (rid, sku, qty_of c sku)) <$> sorted_skus c;
  re_stock sku : stock s sku = (λ p, (p.1, p.2 + qty_of c sku)) <$> stock s0 sku;
  re_covered sku q : c !! sku = Some q →
    0 < q ∧ ∃ oh rs, stock s0 sku = Some (oh, rs) ∧ q <= oh - rs;
  re_rows : rows_ok s;
  re_wf : items_wf s;
}.

(** A SKU is short when its row is missing or has less available than asked. *)
Definition short (s : State) (c : gmap string Z) (sku : string) : option StockShortage :=
  match stock s sku with
  | None => Some (MkStockShortage (qty_of c sku) 0 0 0)
  | Some (oh, rs) =>
      if oh - rs <? qty_of c sku
      then Some (MkStockShortage (qty_of c sku) (oh - rs) oh rs) else None
  end.

(** All the shortages of a request, in ascending order of SKU. *)
Definition all_short (s : State) (c : gmap string Z) : list (string * StockShortage) :=
  omap (λ sku, (sku,.) <$> short s c sku) (sorted_skus c).

Lemma shortages_all_short s c m :
  rows_ok s → locked s (sorted_skus c) m → shortages c m (sorted_skus c) = all_short s c.
Proof.
  intros Hrows Hl. unfold shortages, all_short.
  apply list_omap_ext, Forall_Forall2_diag, Forall_forall. intros x Hx. f_equal.
  unfold short, shortage_of, stock. rewrite (Hl x Hx).
  destruct (inventory s !! x) as [r|] eqn:Hr; simpl; [|done].
  apply Hrows, row_ok_spec in Hr.
  by rewrite !sub64_id by (unfold in64, MinInt64, MaxInt64, MaxInt32 in *; lia).
Qed.

Lemma all_short_fst s c sku : sku ∈ (all_short s c).*1 ↔ sku ∈ sorted_skus c ∧ is_Some (short s c sku).
Proof.
  unfold all_short. rewrite list_elem_of_fmap. split.
  - intros ([x d] & -> & (y & Hy & Hd)%list_elem_of_omap). simpl.
    destruct (short s c y) eqn:H; [|done]. simplify_eq/=. rewrite H. by eauto.
  - intros [Hin [d Hd]]. exists (sku, d). split; [done|]. apply list_elem_of_omap.
    exists sku. by rewrite Hd.
Qed.

(** The errors of the transaction of a reservation. *)
Definition reserve_error (rid o : uuid) (c : gmap string Z) (env : Env) (s0 : State)
    (e : error) : Prop :=
  (e = ErrInsufficientStock (sort_strings (all_short s0 c).*1) (list_to_map (all_short s0 c)) ∧
     all_short s0 c ≠ []) ∨
  (e = ErrDuplicateReservationID ∧ all_short s0 c = [] ∧
     (is_Some (stock_reservations s0 !! rid) ∨ is_Some (reservation_of_order s0 o))) ∨
  ((∃ msg, e = ErrDriver msg) ∧ (faulted env ∨ all_short s0 c = [])).

Lemma all_short_nil s c sku oh rs :
  all_short s c = [] → is_Some (c !! sku) → stock s sku = Some (oh, rs) → qty_of c sku <= oh - rs.
Proof.
  intros Hn Hc Hs. destruct (Z.le_gt_cases (qty_of c sku) (oh - rs)) as [|Hlt]; [done|exfalso].
  assert (Hin : sku ∈ (all_short s c).*1).
  { apply all_short_fst. split; [by apply sorted_skus_elem|]. unfold short. rewrite Hs.
    destruct (Z.ltb_spec (oh - rs) (qty_of c sku)); [done|lia]. }
  rewrite Hn in Hin. by apply not_elem_of_nil in Hin.
Qed.

Lemma all_short_exists s c sku :
  all_short s c = [] → is_Some (c !! sku) → is_Some (stock s sku).
Proof.
  intros Hn Hc. destruct (stock s sku) eqn:Hs; [done|exfalso].
  assert (Hin : sku ∈ (all_short s c).*1).
  { apply all_short_fst. split; [by apply sorted_skus_elem|]. unfold short. by rewrite Hs. }
  rewrite Hn in Hin. by apply not_elem_of_nil in Hin.
Qed.

Lemma all_short_ne s c :
  all_short s c ≠ [] → ∃ sku, is_Some (c !! sku) ∧ is_Some (short s c sku).
Proof.
  destruct (all_short s c) as [|p l] eqn:Hs; [done|]. intros _. exists p.1.
  rewrite <-sorted_skus_elem. apply all_short_fst. rewrite Hs. apply list_elem_of_here.
Qed.

Lemma all_short_nil_iff s c :
  all_short s c = [] ↔ ¬ ∃ sku, is_Some (c !! sku) ∧ is_Some (short s c sku).
Proof.
  split.
  - intros Hn (sku & H1 & H2). assert (Hin : sku ∈ (all_short s c).*1)
      by (apply all_short_fst; by rewrite sorted_skus_elem).
    rewrite Hn in Hin. by apply not_elem_of_nil in Hin.
  - intros Hn. destruct (decide (all_short s c = [])) as [|H]; [done|].
    by apply all_short_ne in H.
Qed.

Lemma all_short_lookup s c sku :
  sku ∈ (all_short s c).*1 →
  (list_to_map (all_short s c) : gmap string StockShortage) !! sku = short s c sku.
Proof.
  intros Hin. apply list_elem_of_fmap in Hin as ([k d] & -> & Hin). simpl.
  rewrite (elem_of_list_to_map_1 _ k d); [|apply omap_pair_nodup, sorted_skus_nodup|done].
  unfold all_short in Hin. apply list_elem_of_omap in Hin as (y & _ & Hy).
  destruct (short s c y) eqn:H; [|done]. by simplify_eq/=.
Qed.

(** Steps E and F, once the rows are updated. *)
Lemma reserve_record_triple env rid o ttl c s0 s1 :
  inv s0 → all_short s0 c = [] →
  adjusted id (λ _, 0) (qty_of c) s0 (sorted_skus c) s1 →
  let items := (λ sku, MkStockItemRequest sku (qty_of c sku)) <$> sorted_skus c in
  triple env (λ s, s = s1)
    (bind time_now (λ now,
     bind (CreateReservation (MkReservation rid o ReservationStatusPending (now + ttl) 0 0)) (λ _,
     bind (CreateReservationItems rid items) (λ _,
     ret (MkReserveStockResult rid o ReservationStatusPending (now + ttl) items)))))
    (λ res s, reserve_effect rid o (Result_ExpiresAt res) c s0 s ∧
       res = MkReserveStockResult rid o ReservationStatusPending (Result_ExpiresAt res) items)
    (λ e _, reserve_error rid o c env s0 e).
Proof.
  intros Hinv Hnil Hadj items.
  assert (Hdrv : ∀ msg, reserve_error rid o c env s0 (ErrDriver msg)).
  { intros msg. right; right. split; [by eexists|by right]. }
  eapply triple_bind; [by apply (triple_time _ _ (λ _ s, s = s1))|]. intros now.
  eapply (triple_bind _ _ _ _ _ (λ _ s,
    stock_reservations s0 !! rid = None ∧ reservation_of_order s0 o = None ∧
    ∃ t, s = set_reservations s1 (<[rid := MkReservation rid o ReservationStatusPending
                                            (now + ttl) t t]> (stock_reservations s1)))).
  { apply triple_sql; [|by auto]. intros n s -> _. cbn [Res_ID Res_OrderID].
    rewrite (adj_reservations _ _ _ _ _ _ Hadj).
    replace (reservation_of_order s1 o) with (reservation_of_order s0 o)
      by (unfold reservation_of_order; by rewrite (adj_reservations _ _ _ _ _ _ Hadj)).
    destruct (stock_reservations s0 !! rid) eqn:H1; [by right; left; eauto|].
    destruct (reservation_of_order s0 o) eqn:H2; [by right; left; eauto|].
    split_and!; [done..|]. by eexists. }
  intros []. apply triple_at. intros s2 (Hr1 & Hr2 & t & Hs2).
  assert (Hwf2 : items_wf s2).
  { destruct (inv_items _ Hinv) as [Hw1 Hw2].
    subst s2. split; simpl; rewrite (adj_items _ _ _ _ _ _ Hadj); [|done].
    intros it Hit. destruct (Hw1 it Hit) as (? & ? & ?). split_and!; [done| |].
    - rewrite lookup_insert_is_Some, (adj_reservations _ _ _ _ _ _ Hadj).
      destruct (decide (rid = ResItem_ReservationID it)); auto.
    - by apply (adjusted_is_Some _ _ _ _ _ _ _ Hadj). }
  eapply (triple_bind _ _ _ _ _ (λ _, lines_added rid s2 items)).
  { eapply triple_conseq; [by apply (create_items_triple env rid s2 items)|done|done|].
    intros e s [msg ->]. apply Hdrv. }
  intros []. eapply triple_pre; [apply triple_ret|].
  intros s [L1 L2 (new & L3 & L3') L4 L5]. split; [|done]. subst s2. simpl in *.
  split; [done| | | | | |done].
  - exists t. by rewrite L2, (adj_reservations _ _ _ _ _ _ Hadj).
  - exists new. rewrite L3, (adj_items _ _ _ _ _ _ Hadj), L3'. split; [done|].
    unfold items. by rewrite <-list_fmap_compose.
  - intros sku. transitivity (stock s1 sku); [unfold stock; by rewrite L1|].
    rewrite (adj_stock _ _ _ _ _ _ Hadj), delta_sorted_skus.
    unfold delta. rewrite sumZ_zero by (intros; by case_decide).
    destruct (stock s0 sku) as [[oh rs]|]; simpl; [|done]. by rewrite Z.add_0_r.
  - intros sku q Hq. destruct (all_short_exists s0 c sku Hnil ltac:(by eexists)) as [[oh rs] Hs].
    split.
    + apply (L5 (MkStockItemRequest sku q)). unfold items. apply list_elem_of_fmap.
      exists sku. unfold qty_of. rewrite Hq. split; [done|]. apply sorted_skus_elem. by eexists.
    + exists oh, rs. split; [done|].
      pose proof (all_short_nil s0 c sku oh rs Hnil ltac:(by eexists) Hs) as Hle.
      unfold qty_of in Hle. by rewrite Hq in Hle.
  - intros sku r. rewrite L1. apply (adj_rows _ _ _ _ _ _ Hadj).
Qed.

(** The transaction of a reservation: all of it, or one of the errors of
    [reserve_error]. *)
Lemma ReserveStock_tx_triple env s0 req c :
  inv s0 →
  let rid := Reserve_ReservationID req in
  let o := Reserve_OrderID req in
  triple env (λ s, s = s0) (ReserveStock_tx req c)
    (λ res s, all_short s0 c = [] ∧ reserve_effect rid o (Result_ExpiresAt res) c s0 s ∧
       res = MkReserveStockResult rid o ReservationStatusPending (Result_ExpiresAt res)
               ((λ sku, MkStockItemRequest sku (qty_of c sku)) <$> sorted_skus c))
    (λ e _, reserve_error rid o c env s0 e).
Proof.
  intros Hinv rid o. unfold ReserveStock_tx.
  eapply (triple_bind _ _ _ _ _ (λ m s, s = s0 ∧ locked s0 (sorted_skus c) m)).
  { apply triple_at. intros s ->. unfold LockSKUsForUpdate.
    pose proof (sort_strings_sorted (map_to_list c).*1) as Hs%strings_sorted_spec.
    fold (sorted_skus c) in Hs.
    destruct (sorted_skus c) as [|x l]; [eapply triple_pre; [apply triple_ret|]|].
    { intros s ->. split; [done|]. intros ? []%not_elem_of_nil. }
    rewrite Hs. simpl. apply triple_sql.
    - intros n s -> _. split; [done|]. intros sku Hin. by apply select_any_lookup.
    - intros n msg s -> Hn. right; right. split; [by eexists|]. left. by exists n, msg. }
  intros m. apply triple_at. intros s [-> Hlocked].
  rewrite (shortages_all_short s0 c m (inv_rows _ Hinv) Hlocked).
  destruct (all_short s0 c) as [|p l] eqn:Hnil.
  2:{ eapply triple_pre; [apply triple_fail|]. intros ? ?. left. by rewrite Hnil. }
  simpl.
  eapply (triple_bind _ _ _ _ _ (λ _ s, adjusted id (λ _, 0) (qty_of c) s0 (sorted_skus c) s)).
  { eapply triple_conseq; [apply (adjust_loop _ id (qty_of c) (λ _, 0) (qty_of c)
      (λ sku oh rs, (oh, rs + qty_of c sku)) ltac:(intros; cbn; f_equal; lia) env s0)|done|done|].
    - apply (inv_rows _ Hinv).
    - intros e _ [[msg ->]|[-> (x & Hx & Hn)]].
      + right; right. split; [by eexists|by right].
      + exfalso. apply sorted_skus_elem in Hx.
        pose proof (all_short_exists _ _ _ Hnil Hx) as H%stock_is_Some.
        unfold id in Hn. rewrite Hn in H. by destruct H. }
  intros []. apply triple_at. intros s1 Hadj.
  eapply triple_conseq;
    [by apply (reserve_record_triple env rid o (seconds (Reserve_TTLSeconds req)) c s0 s1)
    |done|by intros res s1' [? ?]|done].
Qed.

(** ** Normalisation *)

(** The total quantity a request asks of a SKU. *)
Definition requested (items : list StockItemRequest) (sku : string) : Z :=
  sumZ (λ it, if decide (TrimSpace (Req_SKU it) = sku) then Req_Quantity it else 0) items.

Lemma consolidate_positive items c0 c : consolidate items c0 = Ok c → 0 <= sumZ Req_Quantity items.
Proof.
  revert c0. induction items as [|it items IH]; intros c0; simpl; [lia|].
  destruct (String.eqb (TrimSpace (Req_SKU it)) ""); [done|].
  destruct (Z.leb_spec (Req_Quantity it) 0); [done|]. intros Hc. apply IH in Hc. lia.
Qed.

Lemma consolidate_exact items c0 c :
  (∀ sku, 0 <= qty_of c0 sku) →
  (∀ sku, qty_of c0 sku + sumZ Req_Quantity items <= MaxInt64) →
  consolidate items c0 = Ok c → ∀ sku, qty_of c sku = qty_of c0 sku + requested items sku.
Proof.
  revert c0. induction items as [|it items IH]; intros c0 Hpos Hmax; simpl.
  { intros [= ->] sku. unfold requested. simpl. lia. }
  destruct (String.eqb (TrimSpace (Req_SKU it)) ""); [done|].
  destruct (Z.leb_spec (Req_Quantity it) 0) as [|Hq]; [done|]. intros Hc sku.
  pose proof (consolidate_positive _ _ _ Hc) as Hsum.
  set (k0 := TrimSpace (Req_SKU it)) in *.
  assert (Hins : ∀ k, qty_of (<[k0:=add64 (default 0 (c0 !! k0)) (Req_Quantity it)]> c0) k =
    qty_of c0 k + if decide (k0 = k) then Req_Quantity it else 0).
  { intros k. unfold qty_of. destruct (decide (k0 = k)) as [<-|].
    - rewrite lookup_insert_eq. simpl. apply add64_id.
      specialize (Hpos k0). specialize (Hmax k0).
      unfold qty_of in *. simpl in Hmax. unfold in64, MinInt64. lia.
    - rewrite lookup_insert_ne by done. lia. }
  rewrite (IH _ ) with (3 := Hc); [|intros k; rewrite Hins; specialize (Hpos k);
    specialize (Hmax k); simpl in Hmax; case_decide; lia..].
  rewrite Hins. unfold requested, k0. simpl. lia.
Qed.

Lemma reserve_effect_inv rid o ex c s0 s : inv s0 → reserve_effect rid o ex c s0 s → inv s.
Proof.
  intros Hinv [[Hf1 Hf2] [t Hres] (new & Hlines & Hnew) Hstock Hcov Hrows Hwf].
  split; [done| |done| |].
  - intros sku H. apply (inv_sku _ Hinv). revert H.
    by rewrite <-!stock_is_Some, Hstock, fmap_is_Some.
  - destruct (inv_reservations _ Hinv) as [Hw1 Hw2]. split; rewrite Hres.
    + intros id r. rewrite lookup_insert_Some. intros [[<- <-]|[_ H]]; [done|eauto].
    + intros id1 id2 r1 r2. rewrite !lookup_insert_Some.
      intros [[<- <-]|[_ H1]] [[<- <-]|[_ H2]] Heq; simpl in *; [done| | |by eauto];
        exfalso; by eapply reservation_of_order_None.
  - intros sku oh rs. rewrite Hstock. destruct (stock s0 sku) as [[oh0 rs0]|] eqn:H0; [|done].
    intros [= <- <-].
    rewrite (pending_qty_new s0 s rid (MkReservation rid o ReservationStatusPending ex t t)
      new sku (inv_items _ Hinv) Hf1 eq_refl Hres Hlines).
    + rewrite <-(inv_conserved _ Hinv sku oh0 rs0 H0). f_equal.
      assert (Hsum : sumZ (λ it, if decide (ResItem_SKU it = sku) then ResItem_Quantity it else 0) new =
        sumZ (λ x : uuid * string * Z, if decide (x.1.2 = sku) then x.2 else 0) (line <$> new))
        by (by rewrite sumZ_map).
      rewrite Hsum, Hnew, sumZ_map. symmetry. apply delta_sorted_skus.
    + intros it Hit. assert (Hl : line it ∈ line <$> new) by (by apply list_elem_of_fmap_2).
      rewrite Hnew in Hl. apply list_elem_of_fmap in Hl as (x & Hx & _). unfold line in Hx. congruence.
Qed.

Definition settle_commit :=
  settle_tx_spec _ (λ q oh rs, (oh - q, rs - q)) 1 _ _
    ltac:(intros; cbn; f_equal; lia) ltac:(by right) commit_locked commit_locked_eq.

Definition settle_release :=
  settle_tx_spec _ (λ q oh rs, (oh, rs - q)) 0 _ _
    ltac:(intros; cbn; f_equal; lia) ltac:(by left) release_locked release_locked_eq.

(** * Properties *)

(** C29: committing a reservation, by its id or by its order.  Without driver
    failures and while version counters last: a pending one is committed, its lines
    leave both the on-hand and the reserved column and nothing else changes; a
    committed one is left alone and reported as success (the call is idempotent);
    a released one is refused; an unknown one is reported.  In every environment an
    error changes nothing. *)
Theorem CommitStock_spec id o env n s n1 s1 r1 n2 s2 r2 :
  inv s →
  CommitStock id env n s = (n1, s1, r1) →
  CommitStockByOrderID o env n s = (n2, s2, r2) →
  settle_spec (Some id) ReservationStatusCommitted 1 ErrReservationAlreadyReleased env s s1 r1 ∧
  settle_spec (Res_ID <$> reservation_of_order s o) ReservationStatusCommitted 1
    ErrReservationAlreadyReleased env s s2 r2.
Proof.
  intros Hinv H1 H2. split.
  - by eapply (settle_commit (Some id) (λ _, id)); [|apply finds_by_id|].
  - by eapply (settle_commit _ Res_ID); [|apply finds_by_order|].
Qed.

(** Releasing a reservation, by its id or by its order: the same, but the
    lines leave only the reserved column, and it is the committed reservation that
    is refused. *)
Theorem ReleaseStock_spec id reason_order env n s n1 s1 r1 n2 s2 r2 :
  inv s →
  ReleaseStock id env n s = (n1, s1, r1) →
  ReleaseStockByOrderID reason_order env n s = (n2, s2, r2) →
  settle_spec (Some id) ReservationStatusReleased 0 ErrReservationAlreadyCommitted env s s1 r1 ∧
  settle_spec (Res_ID <$> reservation_of_order s reason_order) ReservationStatusReleased 0
    ErrReservationAlreadyCommitted env s s2 r2.
Proof.
  intros Hinv H1 H2. split.
  - by eapply (settle_release (Some id) (λ _, id)); [|apply finds_by_id|].
  - by eapply (settle_release _ Res_ID); [|apply finds_by_order|].
Qed.

(** [ReserveStock] after its guards. *)
Lemma ReserveStock_run req env n s n' s' r :
  inv s → ReserveStock req env n s = (n', s', r) →
  Reserve_OrderID req ≠ uuid_Nil → Reserve_Items req ≠ [] →
  match consolidate (Reserve_Items req) ∅ with
  | Err e => s' = s ∧ r = Err e
  | Ok c => ∃ rid, (Reserve_ReservationID req ≠ uuid_Nil → rid = Reserve_ReservationID req) ∧
      match r with
      | Ok res =>
          all_short s c = [] ∧
          reserve_effect rid (Reserve_OrderID req) (Result_ExpiresAt res) c s s' ∧
          res = MkReserveStockResult rid (Reserve_OrderID req) ReservationStatusPending
                  (Result_ExpiresAt res)
                  ((λ sku, MkStockItemRequest sku (qty_of c sku)) <$> sorted_skus c)
      | Err e => s' = s ∧ reserve_error rid (Reserve_OrderID req) c env s e
      end
  end.
Proof.
  intros Hinv Hrun Ho Hi. unfold ReserveStock in Hrun.
  destruct (N.eqb_spec (Reserve_OrderID req) uuid_Nil); [done|].
  destruct (Nat.eqb_spec (length (Reserve_Items req)) 0) as [H0|_];
    [by destruct (Reserve_Items req)|].
  apply bind_inv in Hrun as [(e & H & _)|(n1 & s1 & rid & H1 & Hrun)].
  { by destruct (Reserve_ReservationID req =? uuid_Nil)%N. }
  assert (s1 = s ∧ (Reserve_ReservationID req ≠ uuid_Nil → rid = Reserve_ReservationID req)) as [-> Hrid].
  { destruct (N.eqb_spec (Reserve_ReservationID req) uuid_Nil).
    - unfold uuid_New in H1. by simplify_eq.
    - unfold ret in H1. by simplify_eq. }
  destruct (consolidate (Reserve_Items req) ∅) as [c|e] eqn:Hc.
  2:{ unfold lift_result, bind in Hrun. by simplify_eq. }
  exists rid. split; [done|]. cbn [lift_result bind] in Hrun. unfold bind, lift_result in Hrun.
  set (req' := MkReserveStockRequest _ _ _ _) in Hrun.
  pose proof (triple_ExecuteTx_err env _ _ _ _ (ReserveStock_tx_triple env s req' c Hinv)
    n1 s n' s' r eq_refl Hrun) as H. destruct r as [res|e]; [done|].
  destruct H as [-> [[Hf [m ->]]|H]]; [|done]. split; [done|]. right; right. by eauto.
Qed.

(** The contract of [ReserveStock]. *)
Definition reserve_spec (req : ReserveStockRequest) (s s' : State)
    (r : result error ReserveStockResult) : Prop :=
  match r with
  | Err _ => s' = s
  | Ok res => ∃ c,
      consolidate (Reserve_Items req) ∅ = Ok c ∧
      reserve_effect (Result_ReservationID res) (Reserve_OrderID req) (Result_ExpiresAt res) c s s' ∧
      (Reserve_ReservationID req ≠ uuid_Nil → Result_ReservationID res = Reserve_ReservationID req) ∧
      Result_OrderID res = Reserve_OrderID req ∧
      Result_Status res = ReservationStatusPending ∧
      Result_Items res = (λ sku, MkStockItemRequest sku (qty_of c sku)) <$> sorted_skus c ∧
      (sumZ Req_Quantity (Reserve_Items req) <= MaxInt64 →
         ∀ sku, qty_of c sku = requested (Reserve_Items req) sku)
  end.

Lemma ReserveStock_meets_spec req env n s n' s' r :
  inv s → ReserveStock req env n s = (n', s', r) → reserve_spec req s s' r.
Proof.
  intros Hinv Hrun. unfold reserve_spec.
  destruct (decide (Reserve_OrderID req = uuid_Nil)) as [H0|Ho].
  { unfold ReserveStock in Hrun. rewrite H0 in Hrun. unfold fail in Hrun. simpl in Hrun. by simplify_eq. }
  destruct (decide (Reserve_Items req = [])) as [H0|Hi].
  { unfold ReserveStock in Hrun. rewrite H0 in Hrun. unfold fail in Hrun.
    destruct (_ =? uuid_Nil)%N in Hrun; simpl in Hrun; by simplify_eq. }
  pose proof (ReserveStock_run _ _ _ _ _ _ _ Hinv Hrun Ho Hi) as H.
  destruct (consolidate (Reserve_Items req) ∅) as [c|e] eqn:Hc; [|by destruct H as [-> ->]].
  destruct H as (rid & Hrid & H). destruct r as [res|e]; [|tauto].
  destruct H as (_ & He & ->). simpl in *. exists c. split_and!; try done.
  intros Hmax sku. rewrite (consolidate_exact (Reserve_Items req) ∅ c); [unfold qty_of; by rewrite lookup_empty| | |done];
    intros k; unfold qty_of; rewrite lookup_empty; simpl; lia.
Qed.

(** A reservation is all or nothing.  An error leaves every table as it was.
    A success means that every requested SKU had that much available, and then
    exactly: the reserved column of each SKU grows by the quantity consolidated
    from the lines of the request, a fresh PENDING reservation with one line per
    SKU is recorded, in ascending order of SKU, and nothing else changes; when the
    quantities of the request add up within [int64], the consolidated quantity is
    the sum of the lines of that SKU. *)
Theorem ReserveStock_all_or_nothing req env n s n' s' r :
  inv s → ReserveStock req env n s = (n', s', r) → reserve_spec req s s' r.
Proof. apply ReserveStock_meets_spec. Qed.

(** The insufficient-stock error is exact.  For a well-formed request served
    without driver failures, the error is returned if and only if some requested
    SKU is unknown or has less available than its consolidated quantity; then it
    lists exactly those SKUs, in ascending order, with their true levels. *)
Theorem ReserveStock_shortage req c env n s :
  inv s → no_faults env → Reserve_OrderID req ≠ uuid_Nil → Reserve_Items req ≠ [] →
  consolidate (Reserve_Items req) ∅ = Ok c →
  (∀ F D, outcome (ReserveStock req env n s) = Err (ErrInsufficientStock F D) →
     Sorted String.le F ∧
     (∀ sku, sku ∈ F ↔ is_Some (c !! sku) ∧ is_Some (short s c sku)) ∧
     (∀ sku, sku ∈ F → D !! sku = short s c sku)) ∧
  ((∃ sku, is_Some (c !! sku) ∧ is_Some (short s c sku)) ↔
   ∃ F D, outcome (ReserveStock req env n s) = Err (ErrInsufficientStock F D)).
Proof.
  intros Hinv Hnf Ho Hi Hc.
  destruct (ReserveStock req env n s) as [[n' s'] r] eqn:Hrun. unfold outcome. simpl.
  pose proof (ReserveStock_run _ _ _ _ _ _ _ Hinv Hrun Ho Hi) as H. rewrite Hc in H.
  destruct H as (rid & _ & H). apply no_faults_faulted in Hnf.
  pose proof (all_short_nil_iff s c) as Hnil.
  split.
  - intros F D ->. destruct H as [_ [[[= -> ->] _]|[[? _]|[[? ?] _]]]]; try done.
    split_and!.
    + apply sort_strings_sorted.
    + intros sku. by rewrite sort_strings_elem, all_short_fst, sorted_skus_elem.
    + intros sku. rewrite sort_strings_elem. apply all_short_lookup.
  - destruct r as [res|e].
    + destruct H as (Hn & _). split; [intros Hx; by apply Hnil in Hn|by intros (? & ? & ?)].
    + destruct H as [_ [[-> Hne]|[[-> [Hn _]]|[[msg ->] [H|Hn]]]]]; try done.
      2,3: split; [intros Hx; by apply Hnil in Hn|by intros (? & ? & ?)].
      split; [by eauto|]. intros _. by apply all_short_ne.
Qed.

(** ** The invariant is kept *)

Lemma settle_spec_inv oid st k e env s s' r :
  inv s → st ≠ ReservationStatusPending → settle_spec oid st k e env s s' r → inv s'.
Proof.
  intros Hinv Hst. unfold settle_spec.
  destruct (oid ≫= (λ id, (id,.) <$> stock_reservations s !! id)) as [[id r0]|] eqn:Ho;
    [|by intros [-> _]].
  destruct oid as [i|]; [|done]. simpl in Ho.
  destruct (stock_reservations s !! i) eqn:Hi; simplify_eq/=.
  repeat case_decide.
  - intros [[_ Hset]|[-> _]]; [|done]. eapply settled_inv; [done| |done..].
    unfold is_pending. rewrite Hi. simpl. by f_equal.
  - by intros [-> _].
  - by intros [-> _].
Qed.

Lemma pending_qty_absent s sku : items_wf s → inventory s !! sku = None → pending_qty s sku = 0.
Proof.
  intros Hwf Hn. apply sumZ_zero. intros it Hit.
  destruct (iw_item _ Hwf it Hit) as (_ & _ & [r Hr]). case_decide as Hc; [|done].
  destruct Hc as [<- _]. congruence.
Qed.

(** A row whose reserved column is what its reservations hold. *)
Lemma inv_insert_row s sku row :
  inv s → varchar_ok 64 sku = true → row_ok row = true → reserved row = pending_qty s sku →
  inv (set_inventory s (<[sku := row]> (inventory s))).
Proof.
  intros Hinv Hv Hrow Hres. split.
  - intros k r. simpl. rewrite lookup_insert_Some. intros [[_ <-]|[_ H]]; [done|].
    by apply (inv_rows _ Hinv k).
  - intros k. simpl. rewrite lookup_insert_is_Some.
    intros [<-|[_ H]]; [done|by apply (inv_sku _ Hinv)].
  - eapply items_wf_inventory; [apply (inv_items _ Hinv)|done|done|]. intros k H. simpl.
    rewrite lookup_insert_is_Some. destruct (decide (sku = k)); auto.
  - destruct (inv_reservations _ Hinv) as [H1 H2]. by split.
  - intros k oh rs Hk. rewrite (pending_qty_ext s) by done. unfold stock in Hk. simpl in Hk.
    destruct (decide (sku = k)) as [<-|Hne].
    + rewrite lookup_insert_eq in Hk. simpl in Hk. by simplify_eq.
    + rewrite lookup_insert_ne in Hk by done. by apply (inv_conserved _ Hinv k oh).
Qed.

Lemma UpsertStock_preserves sku q : preserves inv (UpsertStock sku q).
Proof.
  apply preserves_sql. intros now s s' a Hinv.
  destruct (varchar_ok 64 sku) eqn:Hv; simpl; [|done].
  destruct (row_ok (MkInventoryRow q 0 1 now)); simpl; [|done].
  set (row := match inventory s !! sku with None => _ | Some r => _ end).
  destruct (row_ok row) eqn:Hrow; simpl; [|done]. intros [= <- _].
  apply inv_insert_row; [done..|]. subst row. destruct (inventory s !! sku) as [r|] eqn:Hr; simpl.
  - apply (inv_conserved _ Hinv sku (on_hand r)). unfold stock. by rewrite Hr.
  - by rewrite pending_qty_absent by (done || apply Hinv).
Qed.

Lemma serve_preserves r : preserves inv (serve r).
Proof.
  intros env n s n' s' res Hinv Hrun. enough (inv s') by (by destruct res).
  destruct r as [sku q|req|id|o|id|o|sku]; cbn [serve] in Hrun.
  - eapply preserves_run; [|done..]. apply preserves_bind; [|intros; apply preserves_ret].
    unfold ReplenishStock. destruct (q <=? 0); [apply preserves_fail|].
    destruct (String.eqb (TrimSpace sku) ""); [apply preserves_fail|]. apply UpsertStock_preserves.
  - apply bind_inv in Hrun as [(e & Hrun & ->)|(n1 & s1 & a & Hrun & H)].
    + by pose proof (ReserveStock_meets_spec _ _ _ _ _ _ _ Hinv Hrun) as ->.
    + unfold ret in H. simplify_eq.
      destruct (ReserveStock_meets_spec _ _ _ _ _ _ _ Hinv Hrun) as (c & _ & He & _).
      by eapply reserve_effect_inv.
  - eapply (settle_spec_inv (Some id)); [done| |eapply (settle_commit (Some id) (λ _, id));
      [done|apply finds_by_id|done]]; done.
  - eapply settle_spec_inv; [done| |eapply (settle_commit _ Res_ID);
      [done|by apply finds_by_order|done]]; done.
  - eapply (settle_spec_inv (Some id)); [done| |eapply (settle_release (Some id) (λ _, id));
      [done|apply finds_by_id|done]]; done.
  - eapply settle_spec_inv; [done| |eapply (settle_release _ Res_ID);
      [done|by apply finds_by_order|done]]; done.
  - eapply preserves_run; [|done..]. apply preserves_bind; [|intros; apply preserves_ret].
    unfold GetStock. destruct (String.eqb (TrimSpace sku) ""); [apply preserves_fail|].
    apply preserves_sql. intros now s0 s0' a H0. destruct (inventory s0 !! TrimSpace sku); [|done].
    by intros [= <- _].
Qed.

Lemma empty_state_inv : inv empty_state.
Proof.
  split.
  - intros sku r. simpl. by rewrite lookup_empty.
  - intros sku [r H]. simpl in H. by rewrite lookup_empty in H.
  - split; simpl; [by intros it ?%not_elem_of_nil|constructor].
  - split; simpl; intros *; by rewrite lookup_empty.
  - intros sku oh rs. unfold stock. simpl. by rewrite lookup_empty.
Qed.

(** Every state the service can reach is well formed. *)
Lemma reached_inv s : rtc step empty_state s → inv s.
Proof.
  intros Hr. generalize empty_state_inv.
  induction Hr as [|s1 s2 s3 [req env n sa n' sb res Hrun] _ IH]; [done|].
  intros H. apply IH. eapply preserves_run; [apply serve_preserves|done..].
Qed.

(** C2: no overselling, in every state the service can reach from empty tables,
    by any sequence of requests, each in any environment of clock, identifiers and
    driver failures: the reserved column of every SKU is exactly the quantity held
    by its pending reservations, and lies between zero and the stock on hand. *)
Theorem stock_conserved s sku oh rs :
  rtc step empty_state s → stock s sku = Some (oh, rs) →
  rs = pending_qty s sku ∧ 0 <= rs <= oh ∧ oh <= MaxInt32.
Proof.
  intros Hr Hs.
  apply reached_inv in Hr as Hinv.
  split; [by eapply inv_conserved|]. eapply rows_ok_stock; [apply Hinv|done].
Qed.

(** ** Lifecycle of a reservation *)

(** What a request may do to the reservations already recorded. *)
Definition lifecycle (s s' : State) : Prop :=
  ∀ id r, stock_reservations s !! id = Some r →
    ∃ r', stock_reservations s' !! id = Some r' ∧ Res_OrderID r' = Res_OrderID r ∧
      (Res_Status r ≠ ReservationStatusPending → Res_Status r' = Res_Status r).

Lemma lifecycle_refl s : lifecycle s s.
Proof. intros id r H. by exists r. Qed.

Lemma lifecycle_same s s' : stock_reservations s' = stock_reservations s → lifecycle s s'.
Proof. intros Heq id r H. exists r. by rewrite Heq. Qed.

Lemma settle_spec_lifecycle oid st k e env s s' r :
  settle_spec oid st k e env s s' r → lifecycle s s'.
Proof.
  unfold settle_spec.
  destruct (oid ≫= (λ id, (id,.) <$> stock_reservations s !! id)) as [[id r0]|] eqn:Ho;
    [|intros [-> _]; apply lifecycle_refl].
  destruct oid as [i|]; [|done]. simpl in Ho.
  destruct (stock_reservations s !! i) eqn:Hi; simplify_eq/=.
  repeat case_decide; [|intros [-> _]; apply lifecycle_refl..].
  intros [[_ [(r1 & r2 & Hr1 & Hres & Hid & Hord & Hst) _ _ _]]|[-> _]]; [|apply lifecycle_refl].
  intros j rj Hj. rewrite Hres. destruct (decide (id = j)) as [<-|Hne].
  - exists r2. rewrite lookup_insert_eq. split; [done|]. simplify_eq. by split.
  - exists rj. by rewrite lookup_insert_ne.
Qed.

Lemma serve_lifecycle r env n s n' s' res :
  inv s → serve r env n s = (n', s', res) → lifecycle s s'.
Proof.
  intros Hinv Hrun. destruct r as [sku q|req|id|o|id|o|sku]; cbn [serve] in Hrun.
  - apply lifecycle_same. eapply (preserves_run (λ x, stock_reservations x = stock_reservations s)); [|done|done].
    apply preserves_bind; [|intros; apply preserves_ret].
    unfold ReplenishStock. destruct (q <=? 0); [apply preserves_fail|].
    destruct (String.eqb (TrimSpace sku) ""); [apply preserves_fail|].
    apply preserves_sql. intros now s0 s1 a H0.
    cbv zeta. repeat case_match; try done; intros; by simplify_eq.
  - apply bind_inv in Hrun as [(e & Hrun & ->)|(n1 & s1 & a & Hrun & H)].
    + apply ReserveStock_meets_spec in Hrun; [|done]. simpl in Hrun. subst s'. apply lifecycle_refl.
    + unfold ret in H. simplify_eq. apply ReserveStock_meets_spec in Hrun; [|done].
      destruct Hrun as (c & _ & [[Hf _] [t Hres] _ _ _ _ _] & _).
      intros id r Hr. exists r. rewrite Hres, lookup_insert_ne by congruence. done.
  - eapply settle_spec_lifecycle, (settle_commit (Some id) (λ _, id));
      [done|apply finds_by_id|done].
  - eapply settle_spec_lifecycle, (settle_commit _ Res_ID); [done|by apply finds_by_order|done].
  - eapply settle_spec_lifecycle, (settle_release (Some id) (λ _, id));
      [done|apply finds_by_id|done].
  - eapply settle_spec_lifecycle, (settle_release _ Res_ID); [done|by apply finds_by_order|done].
  - apply lifecycle_same. eapply (preserves_run (λ x, stock_reservations x = stock_reservations s)); [|done|done].
    unfold GetStock. apply preserves_bind; [|intros; apply preserves_ret].
    destruct (String.eqb (TrimSpace sku) ""); [apply preserves_fail|].
    apply preserves_sql. intros now s0 s1 a H0. destruct (inventory s0 !! TrimSpace sku); [|done].
    by intros [= <- _].
Qed.

(** The reservation state machine: whatever requests follow, a recorded
    reservation never disappears, keeps its order, and once COMMITTED or RELEASED
    it keeps that status for ever. *)
Theorem reservation_terminal s s' id r :
  inv s → rtc step s s' → stock_reservations s !! id = Some r →
  ∃ r', stock_reservations s' !! id = Some r' ∧ Res_OrderID r' = Res_OrderID r ∧
    (Res_Status r ≠ ReservationStatusPending → Res_Status r' = Res_Status r).
Proof.
  intros Hinv Hs. revert r. induction Hs as [s|s1 s2 s3 [req env n sa n' sb res Hrun] _ IH]; intros r Hr.
  { by exists r. }
  destruct (serve_lifecycle _ _ _ _ _ _ _ Hinv Hrun id r Hr) as (r2 & Hr2 & Ho2 & Hst2).
  destruct (IH (preserves_run _ _ _ _ _ _ _ _ (serve_preserves req) Hrun Hinv) r2 Hr2)
    as (r3 & Hr3 & Ho3 & Hst3).
  exists r3. split_and!; [done|congruence|]. intros Hne. specialize (Hst2 Hne).
  rewrite Hst3; [done|]. by rewrite Hst2.
Qed.

(** ** Contention for one SKU *)

(** Serve reservations one after the other; their results, in order. *)
Fixpoint reserve_all (reqs : list ReserveStockRequest) (env : Env) (n : nat) (s : State) :
    State * list (result error ReserveStockResult) :=
  match reqs with
  | [] => (s, [])
  | req :: rest =>
      match ReserveStock req env n s with
      | (n1, s1, r) => let (s2, l) := reserve_all rest env n1 s1 in (s2, r :: l)
      end
  end.

Definition accepted (l : list (result error ReserveStockResult)) : Z :=
  sumZ (λ r, match r with Ok _ => 1 | Err _ => 0 end) l.
Definition refused (l : list (result error ReserveStockResult)) : Z :=
  sumZ (λ r, match r with Err (ErrInsufficientStock _ _) => 1 | _ => 0 end) l.

Lemma accepted_nonneg l : 0 <= accepted l.
Proof. apply sumZ_nonneg. intros r _. by destruct r. Qed.
Lemma refused_nonneg l : 0 <= refused l.
Proof. apply sumZ_nonneg. intros r _. by destruct r as [|[]]. Qed.

(** A request for one unit of [sku]. *)
Definition unit_request (sku : string) (req : ReserveStockRequest) : Prop :=
  Reserve_Items req = [MkStockItemRequest sku 1] ∧ Reserve_OrderID req ≠ uuid_Nil.

Lemma unit_consolidate sku :
  TrimSpace sku = sku → sku ≠ "" →
  consolidate [MkStockItemRequest sku 1] ∅ = Ok {[ sku := 1 ]}.
Proof.
  intros Ht Hne. simpl. rewrite Ht. destruct (String.eqb_spec sku ""); [done|]. simpl.
  by rewrite lookup_empty.
Qed.

Lemma short_unit s sku oh rs :
  stock s sku = Some (oh, rs) →
  all_short s {[ sku := 1 ]} = [] ↔ 1 <= oh - rs.
Proof.
  intros Hs. rewrite all_short_nil_iff. unfold short. split.
  - intros Hn. destruct (Z.le_gt_cases 1 (oh - rs)) as [|Hlt]; [done|exfalso].
    apply Hn. exists sku. unfold qty_of. rewrite lookup_singleton_eq, Hs. simpl.
    destruct (Z.ltb_spec (oh - rs) 1); [by eauto|lia].
  - intros Hle (k & Hk & Hd). apply lookup_singleton_is_Some in Hk as <-.
    unfold qty_of in Hd. rewrite lookup_singleton_eq, Hs in Hd. simpl in Hd.
    destruct (Z.ltb_spec (oh - rs) 1); [lia|]. by destruct Hd.
Qed.

Lemma reserve_all_unit reqs sku env n s s' l oh rs :
  inv s → TrimSpace sku = sku → sku ≠ "" → stock s sku = Some (oh, rs) →
  Forall (unit_request sku) reqs → reserve_all reqs env n s = (s', l) →
  accepted l = Z.min (accepted l + refused l) (oh - rs) ∧
  stock s' sku = Some (oh, rs + accepted l).
Proof.
  intros Hinv Ht Hne Hs Hreqs. revert n s s' l rs Hinv Hs.
  induction Hreqs as [|req reqs [Hi Ho] _ IH]; intros n s s' l rs Hinv Hs; simpl.
  { intros [= <- <-]. pose proof (rows_ok_stock _ _ _ _ (inv_rows _ Hinv) Hs).
    unfold accepted, refused. simpl. split; [lia|]. rewrite Hs. do 2 f_equal; lia. }
  destruct (ReserveStock req env n s) as [[n1 s1] r] eqn:Hrun.
  destruct (reserve_all reqs env n1 s1) as [s2 l2] eqn:Hrest. intros [= <- <-].
  pose proof (ReserveStock_run _ _ _ _ _ _ _ Hinv Hrun Ho) as H.
  rewrite Hi, unit_consolidate in H by done. destruct H as (rid & _ & H); [done|].
  pose proof (accepted_nonneg l2). pose proof (refused_nonneg l2).
  destruct r as [res|e].
  - destruct H as (Hn & He & _).
    pose proof (reserve_effect_inv _ _ _ _ _ _ Hinv He) as Hinv1.
    assert (Hs1 : stock s1 sku = Some (oh, rs + 1)).
    { rewrite (re_stock _ _ _ _ _ _ He), Hs. simpl. unfold qty_of. by rewrite lookup_singleton_eq. }
    apply (short_unit _ _ _ _ Hs) in Hn.
    destruct (IH _ _ _ _ _ Hinv1 Hs1 Hrest) as [HA HB].
    unfold accepted, refused in *. simpl. rewrite HB. split; [lia|]. do 2 f_equal. lia.
  - destruct H as [-> H]. destruct (IH _ _ _ _ _ Hinv Hs Hrest) as [HA HB].
    destruct (decide (1 <= oh - rs)) as [Hav|Hav].
    + apply (short_unit _ _ _ _ Hs) in Hav.
      unfold accepted, refused in *. simpl. rewrite HB.
      destruct H as [[-> Hn]|[[-> _]|[[msg ->] _]]]; [done|split; [lia|do 2 f_equal; lia]..].
    + unfold accepted, refused in *. simpl. rewrite HB. split; [|do 2 f_equal; lia].
      pose proof (rows_ok_stock _ _ _ _ (inv_rows _ Hinv) Hs). destruct e; lia.
Qed.


(** ** Locks are always requested in order *)

Definition not_deadlock (e : error) : Prop := e ≠ ErrDeadlockAvoidanceViolation.

Lemma not_deadlock_driver msg : not_deadlock (driver_error msg).
Proof. done. Qed.

Lemma raises_lock skus :
  Sorted String.le skus → raises not_deadlock (LockSKUsForUpdate skus).
Proof.
  intros Hs%strings_sorted_spec. unfold LockSKUsForUpdate.
  destruct skus as [|x l]; [apply raises_ret|]. rewrite Hs. by apply raises_sql.
Qed.

Lemma raises_consolidate items c e : consolidate items c = Err e → not_deadlock e.
Proof.
  revert c. induction items as [|it items IH]; intros c; simpl; [done|].
  destruct (String.eqb (TrimSpace (Req_SKU it)) ""); [by intros [= <-]|].
  destruct (Req_Quantity it <=? 0); [by intros [= <-]|]. apply IH.
Qed.

(** Statements whose errors are evident. *)
Ltac raises_statement :=
  apply raises_sql; [done|intros ??? Heq; cbv zeta in Heq; repeat case_match; simplify_eq; done].

Lemma raises_update what sku q f : raises not_deadlock (update_inventory what sku q f).
Proof. raises_statement. Qed.

Lemma raises_select what id : raises not_deadlock (select_reservation what id).
Proof. raises_statement. Qed.

Lemma raises_select_by_order what o : raises not_deadlock (select_reservation_by_order what o).
Proof. raises_statement. Qed.

Lemma raises_lock_settle what f id st : raises not_deadlock (lock_settle what f id st).
Proof.
  apply raises_bind; [by apply raises_sql|]. intros items.
  apply raises_bind; [apply raises_lock, sort_strings_sorted|]. intros m.
  apply raises_bind; [apply raises_for_each; intros; apply raises_update|]. intros _.
  raises_statement.
Qed.

Lemma raises_settle what f st e res id :
  not_deadlock e → raises not_deadlock (settle_locked what f st e res id).
Proof.
  intros He. unfold settle_locked. repeat case_decide;
    [apply raises_lock_settle|apply raises_ret|by apply raises_fail].
Qed.

Lemma raises_insert_item rid id it : raises not_deadlock (insert_item rid id it).
Proof. raises_statement. Qed.

Lemma raises_reserve req : raises not_deadlock (ReserveStock req).
Proof.
  unfold ReserveStock.
  destruct (Reserve_OrderID req =? uuid_Nil)%N; [by apply raises_fail|].
  destruct (length (Reserve_Items req) =? 0)%nat; [by apply raises_fail|].
  apply raises_bind; [destruct (_ =? _)%N; [apply raises_uuid|apply raises_ret]|]. intros rid.
  apply raises_bind; [apply raises_lift; intros e; apply raises_consolidate|]. intros c.
  apply raises_ExecuteTx; [done|]. unfold ReserveStock_tx.
  apply raises_bind; [apply raises_lock, sort_strings_sorted|]. intros m.
  destruct (negb _); [by apply raises_fail|].
  apply raises_bind; [apply raises_for_each; intros; apply raises_update|]. intros _.
  apply raises_bind; [apply raises_time|]. intros now.
  apply raises_bind; [raises_statement|]. intros _.
  apply raises_bind; [|intros; apply raises_ret].
  apply raises_for_each. intros x _. apply raises_bind; [apply raises_uuid|].
  intros id. apply raises_insert_item.
Qed.

(** No request can run into the deadlock guard: every batch of row locks any
    operation asks for is in ascending order of SKU, whatever order the request
    listed them in and whatever the state of the tables. *)
Theorem locks_always_sorted r env n s n' s' :
  serve r env n s ≠ (n', s', Err ErrDeadlockAvoidanceViolation).
Proof.
  intros H. enough (raises not_deadlock (serve r)) as Hr by (by apply Hr in H).
  clear H. destruct r as [sku q|req|id|o|id|o|sku]; cbn [serve].
  - apply raises_bind; [|intros; apply raises_ret]. unfold ReplenishStock.
    repeat case_match; [by apply raises_fail..|]. raises_statement.
  - apply raises_bind; [apply raises_reserve|intros; apply raises_ret].
  - apply raises_ExecuteTx; [done|]. apply raises_bind; [apply raises_select|].
    intros res. rewrite commit_locked_eq. by apply raises_settle.
  - apply raises_ExecuteTx; [done|]. apply raises_bind; [apply raises_select_by_order|].
    intros res. rewrite commit_locked_eq. by apply raises_settle.
  - apply raises_ExecuteTx; [done|]. apply raises_bind; [apply raises_select|].
    intros res. rewrite release_locked_eq. by apply raises_settle.
  - apply raises_ExecuteTx; [done|]. apply raises_bind; [apply raises_select_by_order|].
    intros res. rewrite release_locked_eq. by apply raises_settle.
  - apply raises_bind; [|intros; apply raises_ret]. unfold GetStock.
    case_match; [by apply raises_fail|]. raises_statement.
Qed.

(** ** Witnesses *)

(** Serve requests from empty tables, each with its own range of identifiers. *)
Fixpoint ex_serve (k : nat) (rs : list request) (s : State) : State :=
  match rs with
  | [] => s
  | r :: rest =>
      ex_serve (S k) rest (final (serve r (calm_env 5 (1000 * N.of_nat (S k))) 0%nat s))
  end.

Lemma ex_serve_inv k rs s : inv s → inv (ex_serve k rs s).
Proof.
  revert k s. induction rs as [|r rs IH]; intros k s Hs; simpl; [done|]. apply IH.
  destruct (serve r (calm_env 5 (1000 * N.of_nat (S k))) 0%nat s) as [[n1 s1] res] eqn:H.
  by eapply preserves_run; [apply serve_preserves|exact H|].
Qed.

Lemma ex_serve_steps k rs s : rtc step s (ex_serve k rs s).
Proof.
  revert k s. induction rs as [|r rs IH]; intros k s; simpl; [done|].
  destruct (serve r (calm_env 5 (1000 * N.of_nat (S k))) 0%nat s) as [[n1 s1] res] eqn:H.
  eapply rtc_l; [by eapply step_serve|apply IH].
Qed.

Definition ex_reserve (rid o : uuid) (items : list (string * Z)) : ReserveStockRequest :=
  MkReserveStockRequest rid o ((λ p, MkStockItemRequest p.1 p.2) <$> items) 0.

(** Two SKUs on the shelf; reservation 7 of order 9 holds 4 A and 3 B. *)
Definition ex_state : State :=
  ex_serve 0 [ReqReplenish "A" 10; ReqReplenish " B " 3;
              ReqReserve (ex_reserve 7 9 [("B", 2); ("A", 4); ("B ", 1)])] empty_state.

Lemma ex_state_inv : inv ex_state.
Proof. apply ex_serve_inv, empty_state_inv. Qed.

Lemma stock_conserved_witness : stock ex_state "B" = Some (3, 3) ∧ 3 = pending_qty ex_state "B".
Proof.
  assert (H : stock ex_state "B" = Some (3, 3)) by (vm_compute; reflexivity).
  split; [exact H|].
  exact (proj1 (stock_conserved ex_state "B" 3 3 (ex_serve_steps _ _ _) H)).
Defined.

Lemma CommitStock_spec_witness :
  settle_spec (Some 7%N) ReservationStatusCommitted 1 ErrReservationAlreadyReleased
    (calm_env 9 50) ex_state (final (CommitStock 7 (calm_env 9 50) 0%nat ex_state)) (Ok tt) ∧
  stock (final (CommitStock 7 (calm_env 9 50) 0%nat ex_state)) "A" = Some (6, 0).
Proof.
  destruct (CommitStock 7 (calm_env 9 50) 0%nat ex_state) as [[n1 s1] r1] eqn:H1.
  destruct (CommitStockByOrderID 9 (calm_env 9 50) 0%nat ex_state) as [[n2 s2] r2] eqn:H2.
  assert (Hr : r1 = Ok tt ∧ stock s1 "A" = Some (6, 0))
    by (vm_compute in H1; injection H1 as <- <- <-; vm_compute; split; reflexivity).
  destruct Hr as [-> Hs]. split; [|exact Hs].
  exact (proj1 (CommitStock_spec 7 9 _ _ _ _ _ _ _ _ _ ex_state_inv H1 H2)).
Defined.

Lemma ReleaseStock_spec_witness :
  settle_spec (Some 7%N) ReservationStatusReleased 0 ErrReservationAlreadyCommitted
    (calm_env 9 50) ex_state (final (ReleaseStock 7 (calm_env 9 50) 0%nat ex_state)) (Ok tt) ∧
  stock (final (ReleaseStock 7 (calm_env 9 50) 0%nat ex_state)) "A" = Some (10, 0).
Proof.
  destruct (ReleaseStock 7 (calm_env 9 50) 0%nat ex_state) as [[n1 s1] r1] eqn:H1.
  destruct (ReleaseStockByOrderID 9 (calm_env 9 50) 0%nat ex_state) as [[n2 s2] r2] eqn:H2.
  assert (Hr : r1 = Ok tt ∧ stock s1 "A" = Some (10, 0))
    by (vm_compute in H1; injection H1 as <- <- <-; vm_compute; split; reflexivity).
  destruct Hr as [-> Hs]. split; [|exact Hs].
  exact (proj1 (ReleaseStock_spec 7 9 _ _ _ _ _ _ _ _ _ ex_state_inv H1 H2)).
Defined.

Definition ex_req : ReserveStockRequest := ex_reserve 8 10 [("A", 6); ("A", 0 + 1); ("C", 1)].

Lemma ReserveStock_all_or_nothing_witness :
  reserve_spec (ex_reserve 8 10 [("A", 6)]) ex_state
    (final (ReserveStock (ex_reserve 8 10 [("A", 6)]) (calm_env 9 50) 0%nat ex_state))
    (outcome (ReserveStock (ex_reserve 8 10 [("A", 6)]) (calm_env 9 50) 0%nat ex_state)) ∧
  stock (final (ReserveStock (ex_reserve 8 10 [("A", 6)]) (calm_env 9 50) 0%nat ex_state)) "A"
    = Some (10, 10).
Proof.
  split; [|vm_compute; reflexivity].
  destruct (ReserveStock (ex_reserve 8 10 [("A", 6)]) (calm_env 9 50) 0%nat ex_state)
    as [[n1 s1] r1] eqn:H1.
  exact (ReserveStock_all_or_nothing _ _ _ _ _ _ _ ex_state_inv H1).
Defined.

Lemma ReserveStock_shortage_witness :
  ∃ F D, outcome (ReserveStock ex_req (calm_env 9 50) 0%nat ex_state) = Err (ErrInsufficientStock F D).
Proof.
  apply (ReserveStock_shortage ex_req (<["C" := 1]> {["A" := 7]})).
  - exact ex_state_inv.
  - apply calm_env_no_faults.
  - discriminate.
  - discriminate.
  - vm_compute. reflexivity.
  - exists "C". split; vm_compute; eexists; reflexivity.
Defined.

Lemma reservation_terminal_witness :
  ∃ r, stock_reservations ex_state !! 7%N = Some r ∧
  ∃ r', stock_reservations (ex_serve 4 [ReqRelease 7; ReqCommit 7] ex_state) !! 7%N = Some r' ∧
    Res_OrderID r' = Res_OrderID r.
Proof.
  destruct (stock_reservations ex_state !! 7%N) as [r|] eqn:Hr; [|vm_compute in Hr; discriminate].
  exists r. split; [reflexivity|].
  destruct (reservation_terminal ex_state (ex_serve 4 [ReqRelease 7; ReqCommit 7] ex_state) 7 r
    ex_state_inv (ex_serve_steps _ _ _) Hr) as (r' & H1 & H2 & _).
  exists r'. split; [exact H1|exact H2].
Defined.

(** Three customers, two units. *)
Definition ex_rush : list ReserveStockRequest :=
  (λ i, ex_reserve (100 + i) (200 + i) [("A", 1)]) <$> [1%N; 2%N; 3%N].
Definition ex_two : State := ex_serve 0 [ReqReplenish "A" 2] empty_state.


(** The consolidation of the lines of a request is done in Go's wrapping [int]
    without an overflow check: a request whose lines ask for 2^64 + 1 units of a SKU
    is accepted and reserves a single unit. *)
Theorem ReserveStock_quantity_wraps :
  let items := [("A", MaxInt64); ("A", MaxInt64); ("A", 3)] in
  let req := ex_reserve 8 10 items in
  let run := ReserveStock req (calm_env 9 50) 0%nat ex_two in
  requested (Reserve_Items req) "A" = 2 ^ 64 + 1 ∧
  (∃ res, outcome run = Ok res ∧ Result_Items res = [MkStockItemRequest "A" 1]) ∧
  stock (final run) "A" = Some (2, 1).
Proof.
  vm_compute. split_and!; [reflexivity|eexists; split; reflexivity|reflexivity].
Qed.
