(* ===== verification/Locking.v ===== *)
(** The row locks of internal/domain/inventory: why its transactions do not deadlock.

    Inventory.v takes a transaction as one step.  Here a transaction is the tree of the
    calls it makes to the repository; each call takes the locks of its statement, one row
    after the other, and waits for a row that another transaction holds.  A lock is kept
    until the transaction ends.

    The locks are PostgreSQL's for READ COMMITTED: FOR UPDATE locks the rows in the order
    of the query, UPDATE locks its row, an INSERT waits for the transactions that have
    written its unique keys, and a foreign key locks the row it refers to.  All of them
    are taken as exclusive. *)

From S2P Require Import Prelude Database Inventory.

(** * Transactions as trees of calls *)

(** A call of the repository inside a transaction. *)
Inductive call : Type → Type :=
| LockSKUs (skus : list string) : call (gmap string Item)
| Increment (sku : string) (qty : Z) : call unit
| Decrement (sku : string) (qty : Z) : call unit
| CommitOnHand (sku : string) (qty : Z) : call unit
| Upsert (sku : string) (quantity : Z) : call Item
| LockReservation (id : uuid) : call Reservation
| LockReservationByOrder (orderID : uuid) : call Reservation
| GetItems (resID : uuid) : call (list ReservationItem)
| Create (res : Reservation) : call unit
| InsertItem (resID : uuid) (item : StockItemRequest) : call unit
| UpdateStatus (id : uuid) (status : ReservationStatus) : call unit
| Now : call Z.

(** What a call does to the tables. *)
Definition denote {B} (q : call B) : op B :=
  match q in call B return op B with
  | LockSKUs skus => LockSKUsForUpdate skus
  | Increment sku qty => IncrementReserved sku qty
  | Decrement sku qty => DecrementReserved sku qty
  | CommitOnHand sku qty => CommitStockOnHand sku qty
  | Upsert sku quantity => UpsertStock sku quantity
  | LockReservation id => LockReservationForUpdate id
  | LockReservationByOrder orderID => LockReservationByOrderForUpdate orderID
  | GetItems resID => GetReservationItemsTx resID
  | Create res => CreateReservation res
  | InsertItem resID item => bind uuid_New (λ id, insert_item resID id item)
  | UpdateStatus id status => UpdateReservationStatus id status
  | Now => time_now
  end.

Inductive tx (A : Type) : Type :=
| Ret (a : A)
| Fail (e : error)
| Call {B} (q : call B) (k : B → tx A).
Arguments Ret {A} a.
Arguments Fail {A} e.
Arguments Call {A B} q k.

Fixpoint tbind {A B} (t : tx A) (f : A → tx B) : tx B :=
  match t with
  | Ret a => f a
  | Fail e => Fail e
  | Call q k => Call q (λ b, tbind (k b) f)
  end.

Declare Scope tx_scope.
Notation "'let*' x ':=' m 'in' k" := (tbind m (λ x, k))
  (at level 10, x pattern, m at level 100, k at level 200) : tx_scope.
Notation "m ;;; k" := (tbind m (λ _, k)) (at level 199, right associativity) : tx_scope.

Definition invoke {B} (q : call B) : tx B := Call q Ret.

Fixpoint each {X} (f : X → tx unit) (l : list X) : tx unit :=
  match l with [] => Ret tt | x :: r => tbind (f x) (λ _, each f r) end.

Fixpoint run {A} (t : tx A) : op A :=
  match t with
  | Ret a => ret a
  | Fail e => fail e
  | Call q k => bind (denote q) (λ b, run (k b))
  end.

(** * The transactions of the service (service.go) *)

Section plans.
Local Open Scope tx_scope.

Definition reserve_plan (req : ReserveStockRequest) (consolidated : gmap string Z) :
    tx ReserveStockResult :=
  let sortedSKUs := sorted_skus consolidated in
  let* lockedItems := invoke (LockSKUs sortedSKUs) in
  let failed := shortages consolidated lockedItems sortedSKUs in
  if negb (length failed =? 0)%nat
  then Fail (ErrInsufficientStock (sort_strings failed.*1) (list_to_map failed)) else
  each (λ sku, invoke (Increment sku (qty_of consolidated sku))) sortedSKUs ;;;
  let* now := invoke Now in
  let expiresAt := now + seconds (Reserve_TTLSeconds req) in
  invoke (Create (MkReservation (Reserve_ReservationID req) (Reserve_OrderID req)
                    ReservationStatusPending expiresAt 0 0)) ;;;
  let itemsToCreate :=
    (λ sku, MkStockItemRequest sku (qty_of consolidated sku)) <$> sortedSKUs in
  each (λ item, invoke (InsertItem (Reserve_ReservationID req) item)) itemsToCreate ;;;
  Ret (MkReserveStockResult (Reserve_ReservationID req) (Reserve_OrderID req)
         ReservationStatusPending expiresAt itemsToCreate).

(** From the locked reservation on, committing and releasing differ in the answer to a
    settled reservation, the change of a stock row and the new status. *)
Definition settle_plan (change : string → Z → call unit) (status : ReservationStatus) (id : uuid) :
    tx unit :=
  let* items := invoke (GetItems id) in
  invoke (LockSKUs (sort_strings (ResItem_SKU <$> items))) ;;;
  each (λ item, invoke (change (ResItem_SKU item) (ResItem_Quantity item))) items ;;;
  invoke (UpdateStatus id status).

Definition commit_plan (res : Reservation) (id : uuid) : tx unit :=
  match Res_Status res with
  | ReservationStatusCommitted => Ret tt
  | ReservationStatusReleased => Fail ErrReservationAlreadyReleased
  | ReservationStatusPending => settle_plan CommitOnHand ReservationStatusCommitted id
  end.

Definition release_plan (res : Reservation) (id : uuid) : tx unit :=
  match Res_Status res with
  | ReservationStatusReleased => Ret tt
  | ReservationStatusCommitted => Fail ErrReservationAlreadyCommitted
  | ReservationStatusPending => settle_plan Decrement ReservationStatusReleased id
  end.

(** The transaction of a request, if its arguments pass the checks before it; [rid] is the
    identifier drawn for a reservation that names none.  A replenishment is one statement. *)
Definition plan (rid : uuid) (r : request) : option (tx unit) :=
  match r with
  | ReqGet _ => None
  | ReqReplenish sku quantity =>
      if quantity <=? 0 then None else
      if String.eqb (TrimSpace sku) "" then None else
      Some (invoke (Upsert (TrimSpace sku) quantity) ;;; Ret tt)
  | ReqReserve req =>
      if (Reserve_OrderID req =? uuid_Nil)%N then None else
      if (length (Reserve_Items req) =? 0)%nat then None else
      let rid := if (Reserve_ReservationID req =? uuid_Nil)%N then rid else Reserve_ReservationID req in
      let ttl := if Reserve_TTLSeconds req <=? 0 then 900 else Reserve_TTLSeconds req in
      match consolidate (Reserve_Items req) ∅ with
      | Err _ => None
      | Ok c => Some (reserve_plan (MkReserveStockRequest rid (Reserve_OrderID req)
                                     (Reserve_Items req) ttl) c ;;; Ret tt)
      end
  | ReqCommit id => Some (let* res := invoke (LockReservation id) in commit_plan res id)
  | ReqCommitByOrder orderID =>
      Some (let* res := invoke (LockReservationByOrder orderID) in commit_plan res (Res_ID res))
  | ReqRelease id => Some (let* res := invoke (LockReservation id) in release_plan res id)
  | ReqReleaseByOrder orderID =>
      Some (let* res := invoke (LockReservationByOrder orderID) in release_plan res (Res_ID res))
  end.
End plans.

(** ** They are the transactions of Inventory.v *)

(** Two programs with the same runs. *)
Definition same {A} (m1 m2 : op A) : Prop := ∀ env n s, m1 env n s = m2 env n s.

#[export] Instance same_equivalence A : Equivalence (@same A).
Proof.
  split; [by intros m env n s|by intros m1 m2 H env n s|].
  intros m1 m2 m3 H1 H2 env n s. by rewrite H1.
Qed.

Lemma same_bind {A B} (m1 m2 : op A) (k1 k2 : A → op B) :
  same m1 m2 → (∀ a, same (k1 a) (k2 a)) → same (bind m1 k1) (bind m2 k2).
Proof.
  intros Hm Hk env n s. unfold bind. rewrite Hm. destruct (m2 env n s) as [[n1 s1] [a|e]]; [apply Hk|done].
Qed.

Lemma same_bind_assoc {A B C} (m : op A) (f : A → op B) (g : B → op C) :
  same (bind (bind m f) g) (bind m (λ a, bind (f a) g)).
Proof. intros env n s. unfold bind. by destruct (m env n s) as [[n1 s1] [a|e]]. Qed.

Lemma same_bind_ret {A} (m : op A) : same (bind m ret) m.
Proof. intros env n s. unfold bind, ret. by destruct (m env n s) as [[n1 s1] [a|e]]. Qed.

Lemma run_tbind {A B} (t : tx A) (f : A → tx B) :
  same (run (tbind t f)) (bind (run t) (λ a, run (f a))).
Proof.
  induction t as [a|e|C q k IH]; [by intros env n s..|]. cbn [tbind run].
  etrans; [|symmetry; apply same_bind_assoc]. by apply same_bind.
Qed.

Lemma run_invoke {B} (q : call B) : same (run (invoke q)) (denote q).
Proof. apply same_bind_ret. Qed.

(** A call, and then the rest. *)
Lemma run_call {A B} (q : call B) (f : B → tx A) k :
  (∀ b, same (run (f b)) (k b)) → same (run (tbind (invoke q) f)) (bind (denote q) k).
Proof. intros Hf. etrans; [apply run_tbind|]. by apply same_bind; [apply run_invoke|]. Qed.

Lemma run_each {X A} (f : X → tx unit) (g : X → op unit) l (t : tx A) k :
  (∀ x, same (run (f x)) (g x)) → same (run t) k →
  same (run (tbind (each f l) (λ _, t))) (bind (for_each g l) (λ _, k)).
Proof.
  intros Hf Ht. etrans; [apply run_tbind|]. apply same_bind; [|done].
  induction l as [|x l IH]; [done|]. cbn [each for_each]. etrans; [apply run_tbind|]. by apply same_bind.
Qed.

Lemma ExecuteTx_same {A} (m1 m2 : op A) : same m1 m2 → same (ExecuteTx m1) (ExecuteTx m2).
Proof. intros Hm env n s. unfold ExecuteTx. destruct (env_fault env n); [done|]. by rewrite Hm. Qed.

Lemma ExecuteTx_forget {A} (m : op A) :
  same (ExecuteTx (bind m (λ _, ret tt))) (bind (ExecuteTx m) (λ _, ret tt)).
Proof.
  intros env n s. unfold ExecuteTx, bind, ret. destruct (env_fault env n); [done|].
  destruct (m env (S n) s) as [[n1 s1] [a|e]]; destruct (env_fault env n1); try done. by case_match.
Qed.

Lemma ExecuteTx_run_forget {A} (t : tx A) m :
  same (run t) m → same (ExecuteTx (run (tbind t (λ _, Ret tt)))) (bind (ExecuteTx m) (λ _, ret tt)).
Proof.
  intros Ht. etrans; [apply ExecuteTx_same, run_tbind|]. etrans; [apply ExecuteTx_forget|].
  by apply same_bind; [apply ExecuteTx_same|].
Qed.

Lemma reserve_plan_run req c : same (run (reserve_plan req c)) (ReserveStock_tx req c).
Proof.
  apply run_call. intros locked. cbv beta zeta. destruct (negb _); [done|].
  apply run_each; [intros; apply run_invoke|]. apply run_call. intros now.
  apply run_call. intros []. apply run_each; [intros; apply run_invoke|done].
Qed.

Lemma settle_plan_run change status id :
  same (run (settle_plan change status id))
    (bind (GetReservationItemsTx id) (λ items,
     bind (LockSKUsForUpdate (sort_strings (ResItem_SKU <$> items))) (λ _,
     bind (for_each (λ item, denote (change (ResItem_SKU item) (ResItem_Quantity item))) items) (λ _,
     UpdateReservationStatus id status)))).
Proof.
  apply run_call. intros items. apply run_call. intros m.
  apply run_each; [intros; apply run_invoke|]. apply run_invoke.
Qed.

Lemma commit_plan_run res id : same (run (commit_plan res id)) (commit_locked res id).
Proof. unfold commit_plan, commit_locked. case_match; [apply settle_plan_run|done..]. Qed.

Lemma release_plan_run res id : same (run (release_plan res id)) (release_locked res id).
Proof. unfold release_plan, release_locked. case_match; [apply settle_plan_run|done..]. Qed.

(** The tick at which a request begins its transaction: an identifier may have been drawn. *)
Definition begin_at (r : request) (n : nat) : nat :=
  match r with
  | ReqReserve req => if (Reserve_ReservationID req =? uuid_Nil)%N then Datatypes.S n else n
  | _ => n
  end.

(** A request is its transaction, or it changes nothing. *)
Lemma serve_plan r env n s :
  match plan (env_uuid env n) r with
  | None => ∃ n' res, serve r env n s = (n', s, res)
  | Some t => serve r env n s = match r with
                                | ReqReplenish _ _ => run t env n s
                                | _ => ExecuteTx (run t) env (begin_at r n) s
                                end
  end.
Proof.
  destruct r as [sku q|req|id|id|id|id|sku]; cbn [plan serve begin_at].
  - unfold ReplenishStock. destruct (q <=? 0); [by eexists _, _|].
    destruct (String.eqb (TrimSpace sku) ""); [by eexists _, _|]. symmetry.
    by apply (run_call (Upsert (TrimSpace sku) q) (λ _, Ret tt) (λ _, ret tt)).
  - unfold ReserveStock. destruct (Reserve_OrderID req =? uuid_Nil)%N; [by eexists _, _|].
    destruct (length (Reserve_Items req) =? 0)%nat; [by eexists _, _|].
    destruct (consolidate (Reserve_Items req) ∅) as [c|e];
      destruct (Reserve_ReservationID req =? uuid_Nil)%N; try by eexists _, _.
    + unfold bind at 1 2, uuid_New, lift_result. symmetry.
      apply (ExecuteTx_run_forget _ _ (reserve_plan_run _ c)).
    + symmetry. apply (ExecuteTx_run_forget _ _ (reserve_plan_run _ c)).
  - symmetry. apply ExecuteTx_same, run_call. intros. apply commit_plan_run.
  - symmetry. apply ExecuteTx_same, run_call. intros. apply commit_plan_run.
  - symmetry. apply ExecuteTx_same, run_call. intros. apply release_plan_run.
  - symmetry. apply ExecuteTx_same, run_call. intros. apply release_plan_run.
  - unfold GetStock. destruct (String.eqb (TrimSpace sku) ""); [by eexists _, _|].
    unfold bind, repo_GetStock, sql. destruct (env_fault env n); [by eexists _, _|].
    destruct (inventory s !! TrimSpace sku); by eexists _, _.
Qed.

(** * Locks *)

(** A row, or the entry of a unique key that an INSERT or an UPDATE writes. *)
Inductive resource :=
| ReservationRow (id : uuid)
| StockRow (sku : string)
| ReservationKey (id : uuid)
| OrderKey (orderID : uuid).

#[export] Instance resource_eq_dec : EqDecision resource.
Proof. solve_decision. Defined.

(** The order in which the service takes them: the reservation, the stock by SKU, and
    then the keys of a reservation that it writes. *)
Definition rank (r : resource) : nat :=
  match r with ReservationRow _ => 0 | StockRow _ => 1 | ReservationKey _ => 2 | OrderKey _ => 3 end.

Definition before (r1 r2 : resource) : bool :=
  (rank r1 <? rank r2)%nat ||
  match r1, r2 with
  | StockRow a, StockRow b => String.leb a b && negb (String.eqb a b)
  | _, _ => false
  end.

Section locks.
Context (known : gset string).

(** The row of a SKU, which is there once the SKU is known: none is ever deleted. *)
Definition stock_row (sku : string) : list resource := if decide (sku ∈ known) then [StockRow sku] else [].

(** The locks of a call, in the order in which they are taken. *)
Definition locks {B} (q : call B) (ls : list resource) : Prop :=
  match q with
  | LockSKUs skus =>
      ls = if strings_sorted skus then sort_strings (remove_dups skus) ≫= stock_row else []
  | Increment sku _ | Decrement sku _ | CommitOnHand sku _ => ls = stock_row sku
  | Upsert sku _ => ls = [StockRow sku]
  | LockReservation id => ls = [] ∨ ls = [ReservationRow id]
  | LockReservationByOrder _ => ls = [] ∨ ∃ id, ls = [ReservationRow id]
  | GetItems _ | Now => ls = []
  | Create res => ls = [ReservationKey (Res_ID res); OrderKey (Res_OrderID res)]
  | InsertItem _ item => ls = stock_row (Req_SKU item)
  | UpdateStatus id _ =>
      ls = [] ∨ ∃ orderID, ls = [ReservationRow id; ReservationKey id; OrderKey orderID]
  end.

(** What is known of the answer of a call that holds its locks: a row that was selected
    FOR UPDATE is locked, and a line of a reservation refers to a row of the stock. *)
Definition answers {B} (q : call B) (ls : list resource) : B → Prop :=
  match q in call B return B → Prop with
  | LockSKUs _ => λ m, ∀ sku, is_Some (m !! sku) → StockRow sku ∈ ls
  | LockReservation _ => λ res, ReservationRow (Res_ID res) ∈ ls
  | LockReservationByOrder _ => λ res, ReservationRow (Res_ID res) ∈ ls
  | GetItems _ => λ items, ∀ it, it ∈ items → ResItem_SKU it ∈ known
  | _ => λ _, True
  end.
End locks.

(** A running transaction, with the locks it holds: about to make a call, or taking the
    locks [todo] that are left of those, [ls], of a call. *)
Inductive txn :=
| Active (held : list resource) (t : tx unit)
| Waiting {B} (held : list resource) (q : call B) (todo ls : list resource) (k : B → tx unit)
| Finished.

Definition locked (x : txn) : list resource :=
  match x with Active held _ | Waiting held _ _ _ _ => held | Finished => [] end.

Record system := MkSystem { txns : list txn; known : gset string }.

(** The next state of a transaction that is not blocked. *)
Definition next (known : gset string) (x y : txn) : Prop :=
  match x with
  | Finished => False
  | Active held (Ret _) | Active held (Fail _) => y = Finished
  | Active held (Call q k) => ∃ ls, locks known q ls ∧ y = Waiting held q ls ls k
  | Waiting held q (r :: todo) ls k => y = Waiting (r :: held) q todo ls k
  | Waiting held q [] ls k => y = Finished ∨ ∃ b, answers known q ls b ∧ y = Active held (k b)
  end.

(** The lock a transaction asks for is held by another one. *)
Definition blocked (sys : system) (i : nat) (x : txn) : Prop :=
  match x with
  | Waiting held q (r :: todo) ls k =>
      r ∉ held ∧ ∃ j y, txns sys !! j = Some y ∧ j ≠ i ∧ r ∈ locked y
  | _ => False
  end.

(** A transaction takes a step of its own. *)
Inductive advance : system → system → Prop :=
| advance_txn sys i x y :
    txns sys !! i = Some x → ¬ blocked sys i x → next (known sys) x y →
    advance sys (MkSystem (<[i := y]> (txns sys)) (known sys)).

(** The system, with the requests that come, the transactions that are broken off, be it
    while they wait, and the SKUs that are added. *)
Inductive step : system → system → Prop :=
| step_advance sys sys' : advance sys sys' → step sys sys'
| step_begin sys rid r t : plan rid r = Some t →
    step sys (MkSystem (txns sys ++ [Active [] t]) (known sys))
| step_abort sys i : step sys (MkSystem (<[i := Finished]> (txns sys)) (known sys))
| step_known sys ks : known sys ⊆ ks → step sys (MkSystem (txns sys) ks).

Definition idle : system := MkSystem [] ∅.

(** * Every transaction takes its locks in order *)

(** The locks of [todo] are held already or come after those held before them. *)
Fixpoint above (held todo : list resource) : Prop :=
  match todo with
  | [] => True
  | r :: rest => (r ∈ held ∨ ∀ h, h ∈ held → before h r = true) ∧ above (r :: held) rest
  end.

(** Whatever the answers, the transaction takes its locks in order, and [Q] holds of the
    SKUs known, the locks held and the value at its end. *)
Fixpoint ordered {A} (ks : gset string) (held : list resource) (t : tx A)
    (Q : gset string → list resource → A → Prop) : Prop :=
  match t with
  | Ret a => Q ks held a
  | Fail _ => True
  | Call q k => ∀ ks1 ls, ks ⊆ ks1 → locks ks1 q ls →
      above held ls ∧
      ∀ ks2 b, ks1 ⊆ ks2 → answers ks2 q ls b → ordered ks2 (rev ls ++ held) (k b) Q
  end.

Lemma ordered_mono {A} ks held (t : tx A) (Q1 Q2 : gset string → list resource → A → Prop) :
  (∀ ks held a, Q1 ks held a → Q2 ks held a) → ordered ks held t Q1 → ordered ks held t Q2.
Proof.
  intros HQ. revert ks held. induction t as [a|e|B q k IH]; intros ks held; cbn [ordered]; [apply HQ|done|].
  intros H ks1 ls Hks Hls. destruct (H ks1 ls Hks Hls) as [Ha Hk]. eauto 10.
Qed.

Lemma ordered_bind {A B} ks held (t : tx A) (f : A → tx B) Q :
  ordered ks held t (λ ks' held' a, ordered ks' held' (f a) Q) → ordered ks held (tbind t f) Q.
Proof.
  revert ks held. induction t as [a|e|C q k IH]; intros ks held; cbn [ordered tbind]; [done..|].
  intros H ks1 ls Hks Hls. destruct (H ks1 ls Hks Hls) as [Ha Hk]. eauto 10.
Qed.

Lemma ordered_each {X} (f : X → tx unit) l (I : gset string → list resource → Prop) ks held Q :
  (∀ x ks held, x ∈ l → I ks held → ordered ks held (f x) (λ ks' held' _, I ks' held')) →
  (∀ ks held, I ks held → Q ks held tt) →
  I ks held → ordered ks held (each f l) Q.
Proof.
  intros Hf HQ. revert ks held. induction l as [|x l IH]; intros ks held HI; cbn [each ordered]; [by apply HQ|].
  apply ordered_bind. eapply ordered_mono; [|by apply Hf; [left|]]. intros ks1 held1 [] HI1.
  apply IH; [|done]. intros y ks2 held2 Hy. apply Hf. by right.
Qed.

(** More SKUs may be known. *)
Lemma ordered_known ks ks' held (t : tx unit) :
  ks ⊆ ks' → ordered ks held t (λ _ _ _, True) → ordered ks' held t (λ _ _ _, True).
Proof.
  intros Hks. destruct t as [a|e|B q k]; cbn [ordered]; [done..|]. intros H ks1 ls Hks1. apply H. set_solver.
Qed.

Lemma rev_elem {A} (x : A) l : x ∈ rev l → x ∈ l.
Proof. rewrite !list_elem_of_In. apply in_rev. Qed.

Lemma elem_rev {A} (x : A) l : x ∈ l → x ∈ rev l.
Proof. rewrite !list_elem_of_In. apply in_rev. Qed.

(** ** The calls, between the locks on the stock and the end *)

(** Adding locks that are held already. *)
Lemma above_held held ls : (∀ r, r ∈ ls → r ∈ held) → above held ls.
Proof.
  revert held. induction ls as [|r ls IH]; intros held H; [done|]. split; [left; apply H; by left|].
  apply IH. intros r' Hr'. right. apply H. by right.
Qed.

Lemma elem_of_stock_row ks sku r : r ∈ stock_row ks sku → r = StockRow sku.
Proof. unfold stock_row. case_decide; set_solver. Qed.

(** Changes of stock rows that are held, and references to them, take no new lock. *)
Lemma ordered_rows {X} (f : X → call unit) (sku_of : X → string) l ks held Q :
  (∀ x ks ls, locks ks (f x) ls → ls = stock_row ks (sku_of x)) →
  (∀ x, x ∈ l → StockRow (sku_of x) ∈ held) →
  (∀ ks' held', (∀ r, r ∈ held' ↔ r ∈ held) → Q ks' held' tt) →
  ordered ks held (each (λ x, invoke (f x)) l) Q.
Proof.
  intros Hf Hl HQ. apply ordered_each with (I := λ _ held', ∀ r, r ∈ held' ↔ r ∈ held); [|auto|done].
  intros x ks0 held0 Hx Hheld ks1 ls _ ->%Hf.
  assert (Hin : ∀ r, r ∈ stock_row ks1 (sku_of x) → r ∈ held0).
  { intros r ->%elem_of_stock_row. by apply Hheld, Hl. }
  split; [by apply above_held|]. intros ks2 [] _ _ r. rewrite elem_of_app, <- Hheld. split; [|auto].
  intros [Hr%rev_elem|Hr]; auto.
Qed.

(** The stock rows of distinct SKUs in ascending order, after those that come before. *)
Lemma above_stock_rows ks l held :
  StronglySorted String.le l → NoDup l →
  (∀ h sku, h ∈ held → sku ∈ l → before h (StockRow sku) = true) →
  above held (l ≫= stock_row ks).
Proof.
  revert held. induction l as [|a l IH]; intros held Hs Hnd Hh; [done|].
  apply StronglySorted_inv in Hs as [Hs Ha]. apply NoDup_cons in Hnd as [Hnin Hnd].
  rewrite Forall_forall in Ha. cbn [mbind list_bind]. change (list_bind _ _ ?x ?y) with (y ≫= x).
  unfold stock_row at 1. destruct (decide (a ∈ ks)) as [_|_]; cbn [app above].
  - split; [right; intros h Hin; apply Hh; [done|left]|]. apply IH; [done..|].
    intros h sku [->|Hin]%elem_of_cons Hsku; [|apply Hh; [done|by right]].
    unfold before. cbn. apply andb_true_intro.
    split; [specialize (Ha sku Hsku); unfold String.le in Ha; by destruct (String.leb a sku)|].
    apply negb_true_iff, String.eqb_neq. by intros ->.
  - apply IH; [done..|]. intros h sku Hin Hsku. apply Hh; [done|by right].
Qed.

Lemma ordered_lock_skus skus ks held :
  (∀ h, h ∈ held → rank h = 0%nat) →
  ordered ks held (invoke (LockSKUs skus)) (λ _ held' m,
    (∀ h, h ∈ held' → (rank h <= 1)%nat) ∧ held ⊆ held' ∧
    (∀ sku, is_Some (m !! sku) → StockRow sku ∈ held') ∧
    (strings_sorted skus = true → ∀ sku, sku ∈ skus → sku ∈ ks → StockRow sku ∈ held')).
Proof.
  intros Hrank ks1 ls Hks Hls. cbn [locks] in Hls.
  assert (Hls' : ∀ r, r ∈ ls → rank r = 1%nat).
  { intros r Hr. rewrite Hls in Hr. destruct (strings_sorted skus); [|by apply not_elem_of_nil in Hr].
    apply list_elem_of_bind in Hr as (sku & ->%elem_of_stock_row & _). done. }
  split.
  - rewrite Hls. destruct (strings_sorted skus); [|done]. apply above_stock_rows.
    + apply Sorted_StronglySorted; [apply _|apply sort_strings_sorted].
    + apply sort_strings_nodup, NoDup_remove_dups.
    + intros h sku Hh _. unfold before. by rewrite (Hrank h Hh).
  - intros ks2 m _ Hm. cbn [answers] in Hm. split_and!.
    + intros h [Hh%rev_elem%Hls'|Hh%Hrank]%elem_of_app; lia.
    + intros h Hh. apply elem_of_app. by right.
    + intros sku Hsku. apply elem_of_app. left. by apply elem_rev, Hm.
    + intros Hs sku Hsku Hk. apply elem_of_app. left. apply elem_rev. rewrite Hls, Hs.
      apply list_elem_of_bind. exists sku. split; [|by apply sort_strings_elem, elem_of_remove_dups].
      unfold stock_row. rewrite decide_True by set_solver. by apply list_elem_of_singleton.
Qed.

(** The keys come after everything else. *)
Lemma above_keys held id orderID :
  (∀ h, h ∈ held → (rank h <= 1)%nat) → above held [ReservationKey id; OrderKey orderID].
Proof.
  intros Hrank. split; [|split; [|done]]; right; intros h; [|intros [->|Hh]%elem_of_cons; [done|]];
    try intros Hh; apply Hrank in Hh; unfold before; destruct h; cbn in *; done || lia.
Qed.

(** ** The transactions *)

Lemma shortages_none c m skus :
  length (shortages c m skus) = 0%nat → ∀ sku, sku ∈ skus → is_Some (m !! sku).
Proof.
  intros H sku Hsku. apply nil_length_inv in H. destruct (m !! sku) as [it|] eqn:E; [by eauto|exfalso].
  assert (Hin : (sku, MkStockShortage (qty_of c sku) 0 0 0) ∈ shortages c m skus).
  { unfold shortages. apply list_elem_of_omap. exists sku. split; [done|]. unfold shortage_of. by rewrite E. }
  rewrite H in Hin. by apply not_elem_of_nil in Hin.
Qed.

Lemma reserve_ordered ks req c : ordered ks [] (reserve_plan req c) (λ _ _ _, True).
Proof.
  apply ordered_bind. eapply ordered_mono; [|apply ordered_lock_skus; by intros h ?%not_elem_of_nil].
  intros ks1 held1 m (Hrank & _ & Hrows & _). cbv beta zeta.
  destruct (negb _) eqn:Hf; [done|]. apply negb_false_iff, Nat.eqb_eq in Hf.
  assert (Hheld : ∀ sku, sku ∈ sorted_skus c → StockRow sku ∈ held1).
  { intros sku Hsku. apply Hrows. by apply (shortages_none c m (sorted_skus c)). }
  apply ordered_bind. apply (ordered_rows (λ sku, Increment sku (qty_of c sku)) id); [done|done|].
  intros ks2 held2 Heq. intros ks3 ls3 _ Hl3. cbn [locks] in Hl3. subst ls3. split; [done|]. intros ks4 now _ _.
  intros ks5 ls5 _ Hl5. cbn [locks] in Hl5. subst ls5. split; [apply above_keys; intros h Hh; apply Hrank, Heq, Hh|]. intros ks6 [] _ _.
  apply ordered_bind. cbn [ordered]. apply ordered_bind. eapply (ordered_rows (InsertItem (Reserve_ReservationID req)) Req_SKU); [done| |done].
  intros it (sku & -> & Hsku)%list_elem_of_fmap. cbn. right. right. by apply Heq, Hheld.
Qed.

Lemma settle_ordered ks change status id :
  (∀ sku q ks ls, locks ks (change sku q) ls → ls = stock_row ks sku) →
  ordered ks [ReservationRow id] (settle_plan change status id) (λ _ _ _, True).
Proof.
  intros Hc. intros ks1 ls Hks Hl. cbn [locks] in Hl. subst ls. split; [done|]. intros ks2 items _ Hitems. cbn [answers] in Hitems.
  apply ordered_bind. cbn [ordered]. apply ordered_bind. eapply ordered_mono;
    [|apply ordered_lock_skus; by intros h [->|?%not_elem_of_nil]%elem_of_cons].
  intros ks3 held3 m (Hrank & Hsub & _ & Hrows). apply ordered_bind.
  apply (ordered_rows (λ it, change (ResItem_SKU it) (ResItem_Quantity it)) ResItem_SKU); [intros it ks0 ls0; apply Hc| |].
  - intros it Hit. apply Hrows; [apply strings_sorted_spec, sort_strings_sorted| |by apply Hitems].
    apply sort_strings_elem, list_elem_of_fmap. by eauto.
  - intros ks4 held4 Heq ks5 ls _ Hls. split; [|done].
    destruct Hls as [->|[orderID ->]]; [done|]. split; [left; apply Heq, Hsub; by left|].
    apply above_keys. intros h [->|Hh]%elem_of_cons; [cbn; lia|]. by apply Hrank, Heq.
Qed.

(** A reservation is locked before its lines are settled. *)
Lemma locked_ordered ks (q : call Reservation) (f : Reservation → tx unit) :
  (∀ ks ls, locks ks q ls → ls = [] ∨ ∃ id, ls = [ReservationRow id]) →
  (∀ ks ls res, answers ks q ls res → ReservationRow (Res_ID res) ∈ ls) →
  (∀ ks0 ks res, locks ks0 q [ReservationRow (Res_ID res)] →
     ordered ks [ReservationRow (Res_ID res)] (f res) (λ _ _ _, True)) →
  ordered ks [] (tbind (invoke q) f) (λ _ _ _, True).
Proof.
  intros Hl Ha Hf ks1 ls Hks Hls. apply Hl in Hls as Hls'. split.
  - destruct Hls' as [->|[id ->]]; [done|]. split; [right; by intros h ?%not_elem_of_nil|done].
  - intros ks2 res _ Hres%Ha. destruct Hls' as [->|[id ->]]; [by apply not_elem_of_nil in Hres|].
    apply list_elem_of_singleton in Hres as [= <-]. cbn. by eapply Hf.
Qed.

Lemma commit_ordered ks res : ordered ks [ReservationRow (Res_ID res)] (commit_plan res (Res_ID res)) (λ _ _ _, True).
Proof. unfold commit_plan. destruct (Res_Status res); [by apply settle_ordered|done..]. Qed.

Lemma release_ordered ks res : ordered ks [ReservationRow (Res_ID res)] (release_plan res (Res_ID res)) (λ _ _ _, True).
Proof. unfold release_plan. destruct (Res_Status res); [by apply settle_ordered|done..]. Qed.

Lemma plan_ordered ks rid r t : plan rid r = Some t → ordered ks [] t (λ _ _ _, True).
Proof.
  assert (Hid : ∀ ks0 id res, locks ks0 (LockReservation id) [ReservationRow (Res_ID res)] → id = Res_ID res).
  { intros ks0 id res. cbn. by intros [[=]|[= ->]]. }
  destruct r as [sku q|req|id|id|id|id|sku]; cbn [plan]; [| | | | | |done].
  - destruct (q <=? 0); [done|]. destruct (String.eqb (TrimSpace sku) ""); [done|]. intros <-%(inj Some).
    intros ks1 ls _ Hl. cbn [locks] in Hl. subst ls. split; [|done]. split; [right; by intros h ?%not_elem_of_nil|done].
  - destruct (Reserve_OrderID req =? uuid_Nil)%N; [done|]. destruct (length (Reserve_Items req) =? 0)%nat; [done|].
    destruct (consolidate (Reserve_Items req) ∅) as [c|]; [|done]. intros <-%(inj Some).
    apply ordered_bind. eapply ordered_mono; [|apply reserve_ordered]. done.
  - intros <-%(inj Some). apply locked_ordered; [cbn; intros ??[]; eauto|done|].
    intros ks0 ks1 res ->%Hid. apply commit_ordered.
  - intros <-%(inj Some). apply locked_ordered; [done|done|]. intros. apply commit_ordered.
  - intros <-%(inj Some). apply locked_ordered; [cbn; intros ??[]; eauto|done|].
    intros ks0 ks1 res ->%Hid. apply release_ordered.
  - intros <-%(inj Some). apply locked_ordered; [done|done|]. intros. apply release_ordered.
Qed.

(** * The system *)

(** A running transaction takes the rest of its locks in order. *)
Definition txn_ok (ks : gset string) (x : txn) : Prop :=
  match x with
  | Active held t => ordered ks held t (λ _ _ _, True)
  | Waiting held q todo ls k =>
      above held todo ∧
      ∀ ks2 b, ks ⊆ ks2 → answers ks2 q ls b → ordered ks2 (rev todo ++ held) (k b) (λ _ _ _, True)
  | Finished => True
  end.

(** No two transactions hold a lock. *)
Definition exclusive (l : list txn) : Prop :=
  ∀ r i j x y, l !! i = Some x → l !! j = Some y → r ∈ locked x → r ∈ locked y → i = j.

Definition sound (sys : system) : Prop :=
  Forall (txn_ok (known sys)) (txns sys) ∧ exclusive (txns sys).

Lemma txn_ok_known ks ks' x : ks ⊆ ks' → txn_ok ks x → txn_ok ks' x.
Proof.
  intros Hks. destruct x as [held t|B held q todo ls k|]; cbn [txn_ok]; [by apply ordered_known| |done].
  intros [Ha Hk]. split; [done|]. intros ks2 b Hks2. apply Hk. set_solver.
Qed.

Lemma next_ok ks x y : next ks x y → txn_ok ks x → txn_ok ks y.
Proof.
  destruct x as [held [a|e|B q k]|B held q [|r todo] ls k|]; cbn [next txn_ok]; [by intros ->..| | | |done].
  - intros (ls & Hls & ->) H. destruct (H ks ls) as [Ha Hk]; [done..|]. done.
  - intros [->|(b & Hb & ->)] [_ Hk]; [done|]. by apply (Hk ks).
  - intros -> [[_ Ha] Hk]. split; [done|]. intros ks2 b Hks2 Hb. specialize (Hk ks2 b Hks2 Hb).
    cbn [rev] in Hk. by rewrite <- app_assoc in Hk.
Qed.

(** Only an unblocked request gives a lock. *)
Lemma next_locked sys i x y r :
  next (known sys) x y → ¬ blocked sys i x → r ∈ locked y →
  r ∈ locked x ∨ ∀ j z, txns sys !! j = Some z → r ∈ locked z → j = i.
Proof.
  destruct x as [held [a|e|B q k]|B held q [|r' todo] ls k|]; cbn [next locked blocked];
    [by intros -> ? ?%not_elem_of_nil..| | | |done].
  - intros (ls & _ & ->). auto.
  - intros [->|(b & _ & ->)] _; [by intros ?%not_elem_of_nil|auto].
  - intros -> Hb. cbn [locked]. intros [->|Hr]%elem_of_cons; [|auto].
    destruct (decide (r' ∈ held)) as [|Hh]; [by left|right]. intros j z Hz Hin.
    destruct (decide (j = i)) as [|Hne]; [done|]. contradict Hb. split; [done|]. by exists j, z.
Qed.

Lemma exclusive_insert l i x y :
  l !! i = Some x → exclusive l →
  (∀ r, r ∈ locked y → r ∈ locked x ∨ ∀ j z, l !! j = Some z → r ∈ locked z → j = i) →
  exclusive (<[i := y]> l).
Proof.
  intros Hx Hl Hy.
  assert (Hone : ∀ r j z, <[i := y]> l !! j = Some z → r ∈ locked y → r ∈ locked z → i = j).
  { intros r j z Hz Hr Hrz. destruct (decide (i = j)) as [|Hne]; [done|].
    rewrite list_lookup_insert_ne in Hz by done. destruct (Hy r Hr) as [Hrx|Hz']; [by eapply Hl|].
    symmetry. by eapply Hz'. }
  intros r j1 j2 z1 z2 H1 H2 Hr1 Hr2.
  destruct (decide (i = j1)) as [->|Hne1].
  { rewrite list_lookup_insert_eq in H1 by (by eapply lookup_lt_Some). injection H1 as ->. by eapply Hone. }
  destruct (decide (i = j2)) as [->|Hne2].
  { rewrite list_lookup_insert_eq in H2 by (by eapply lookup_lt_Some). injection H2 as ->. symmetry.
    by eapply Hone. }
  rewrite list_lookup_insert_ne in H1, H2 by done. by eapply Hl.
Qed.

Lemma advance_sound sys sys' : advance sys sys' → sound sys → sound sys'.
Proof.
  intros [? i x y Hx Hb Hn] [Hok Hex]. split; cbn [txns known].
  - apply Forall_insert; [done|]. eapply next_ok; [done|]. by eapply Forall_lookup_1.
  - eapply exclusive_insert; [done..|]. intros r. by apply next_locked.
Qed.

Lemma step_sound sys sys' : step sys sys' → sound sys → sound sys'.
Proof.
  intros [? ? Ha|sys0 rid r t Hp|sys0 i|sys0 ks Hks] Hs; [by eapply advance_sound|destruct Hs as [Hok Hex]; split; cbn [txns known]..].
  - apply Forall_app. split; [done|]. constructor; [|done]. by eapply plan_ordered.
  - assert (Hnew : ∀ j z r0, (txns sys0 ++ [Active [] t]) !! j = Some z → r0 ∈ locked z → txns sys0 !! j = Some z).
    { intros j z r0 [Hz|[_ [_ <-]%list_lookup_singleton_Some]]%lookup_app_Some; [done|by intros ?%not_elem_of_nil]. }
    intros r0 i j x y Hx Hy Hrx Hry. eapply Hex; eauto.
  - by apply Forall_insert.
  - destruct (txns sys0 !! i) as [x|] eqn:Hx; [|by rewrite list_insert_ge by (by apply lookup_ge_None)].
    eapply exclusive_insert; [done..|]. by intros r ?%not_elem_of_nil.
  - eapply Forall_impl; [done|]. intros x. by apply txn_ok_known.
  - done.
Qed.

(** ** Some transaction can always go on *)

Lemma before_irrefl r : before r r = false.
Proof. unfold before. rewrite Nat.ltb_irrefl. destruct r; try done. by rewrite String.eqb_refl, andb_false_r. Qed.

Lemma before_trans r1 r2 r3 : before r1 r2 = true → before r2 r3 = true → before r1 r3 = true.
Proof.
  unfold before. destruct r1 as [|a| |], r2 as [|b| |], r3 as [|c| |]; cbn; try done.
  rewrite !andb_true_iff, !negb_true_iff, !String.eqb_neq. intros [H1 H1'] [H2 H2'].
  assert (Hab : String.le a b) by (unfold String.le; by rewrite H1).
  assert (Hbc : String.le b c) by (unfold String.le; by rewrite H2).
  assert (Hac : String.le a c) by by etrans. split.
  - unfold String.le in Hac. by destruct (String.leb a c).
  - intros ->. apply H1'. by apply (anti_symm String.le).
Qed.

(** A finite set of locks has one that no other comes after. *)
Lemma last_exists (l : list resource) : l ≠ [] → ∃ r, r ∈ l ∧ ∀ r', r' ∈ l → before r r' = false.
Proof.
  induction l as [|r l IH]; [done|]. intros _. destruct l as [|r1 l1] eqn:El.
  - exists r. split; [by left|]. intros r' ->%list_elem_of_singleton. apply before_irrefl.
  - rewrite <- El in *. destruct IH as (m & Hm & Hmax); [by rewrite El|].
    destruct (before m r) eqn:Hmr.
    + exists r. split; [by left|]. intros r' [->|Hr']%elem_of_cons; [apply before_irrefl|].
      destruct (before r r') eqn:E; [|done]. specialize (Hmax r' Hr'). by rewrite (before_trans m r r') in Hmax.
    + exists m. split; [by right|]. intros r' [->|Hr']%elem_of_cons; [done|]. by apply Hmax.
Qed.

(** The lock a transaction asks for. *)
Definition wanted (x : txn) : option resource :=
  match x with Waiting _ _ (r :: _) _ _ => Some r | _ => None end.

Lemma locks_exist ks {B} (q : call B) : ∃ ls, locks ks q ls.
Proof. destruct q; cbn [locks]; first [by eexists|exists []; by left]. Qed.

(** Who does not ask for a lock goes on, and so does who asks for a free one. *)
Lemma next_exists ks x : x ≠ Finished → ∃ y, next ks x y.
Proof.
  destruct x as [held [a|e|B q k]|B held q [|r todo] ls k|]; cbn [next]; intros H; [eauto| | |eauto|eauto|done].
  - eauto.
  - destruct (locks_exist ks q) as [ls Hls]. eauto.
Qed.

Lemma wanted_blocked sys i x : blocked sys i x → ∃ r j y, wanted x = Some r ∧ r ∉ locked x ∧
  txns sys !! j = Some y ∧ j ≠ i ∧ r ∈ locked y.
Proof. destruct x as [|B held q [|r todo] ls k|]; try done. intros (Hr & j & y & ? & ? & ?). by exists r, j, y. Qed.

#[export] Instance finished_dec x : Decision (x = Finished).
Proof. destruct x; [right|right|left]; done. Defined.

#[export] Instance blocked_dec sys i x : Decision (blocked sys i x).
Proof.
  destruct x as [held t|B held q [|r todo] ls k|]; cbn [blocked]; [right; tauto..| |right; tauto].
  apply and_dec; [apply _|].
  destruct (decide (Exists (λ p, p.1 ≠ i ∧ r ∈ locked p.2) (imap pair (txns sys)))) as [He|He].
  - left. apply Exists_exists in He as ([j y] & (k' & y' & [= -> ->] & Hy)%elem_of_lookup_imap & Hj & Hr). eauto.
  - right. intros (j & y & Hy & Hj & Hr). apply He, Exists_exists. exists (j, y). split; [|done].
    apply elem_of_lookup_imap. by exists j, y.
Defined.

Lemma advance_exists sys :
  sound sys → Exists (λ x, x ≠ Finished) (txns sys) → ∃ sys', advance sys sys'.
Proof.
  intros [Hok _] Hex.
  assert (Hgo : ∀ i x, txns sys !! i = Some x → x ≠ Finished → ¬ blocked sys i x → ∃ sys', advance sys sys').
  { intros i x Hx Hne Hb. destruct (next_exists (known sys) x Hne) as [y Hy]. eexists. by econstructor. }
  apply Exists_exists in Hex as (x0 & Hx0 & Hne0). apply list_elem_of_lookup in Hx0 as [i0 Hx0].
  destruct (decide (blocked sys i0 x0)) as [Hb0|]; [|by eapply Hgo].
  apply wanted_blocked in Hb0 as (r0 & _ & _ & Hw0 & _).
  destruct (last_exists (omap wanted (txns sys))) as (r & Hr & Hlast).
  { intros Hnil. assert (r0 ∈ omap wanted (txns sys)) as Hin; [|rewrite Hnil in Hin; by apply not_elem_of_nil in Hin].
    apply list_elem_of_omap. exists x0. split; [by eapply list_elem_of_lookup_2|done]. }
  apply list_elem_of_omap in Hr as (x & Hx & Hw). apply list_elem_of_lookup in Hx as [i Hx].
  destruct (decide (blocked sys i x)) as [Hb|Hb]; [|eapply (Hgo i x); [done|by intros ->|done]].
  apply wanted_blocked in Hb as (r1 & j & y & Hw1 & _ & Hy & _ & Hry). assert (r1 = r) as -> by congruence.
  assert (Hny : y ≠ Finished) by (intros ->; by apply not_elem_of_nil in Hry).
  destruct (decide (blocked sys j y)) as [Hb|Hb]; [|by eapply Hgo].
  apply wanted_blocked in Hb as (r2 & _ & _ & Hw2 & Hnin & _).
  assert (before r r2 = false) as Hf by (apply Hlast, list_elem_of_omap; exists y; split; [by eapply list_elem_of_lookup_2|done]).
  pose proof (Forall_lookup_1 _ _ _ _ Hok Hy) as Hoky.
  destruct y as [|B held q [|r3 todo] ls k|]; try done. injection Hw2 as ->. destruct Hoky as [[[Hin|Hab] _] _]; [done|].
  rewrite (Hab r Hry) in Hf. done.
Qed.

(** ** They all come to an end *)

Section acc.
Context (ks : gset string).

Notation ends x := (Acc (λ after now, next ks now after) x).

Lemma ends_Finished : ends Finished.
Proof. constructor. intros y []. Qed.

Lemma ends_Active (t : tx unit) held : ends (Active held t).
Proof.
  revert held. induction t as [a|e|B q k IH]; intros held; [constructor; intros y ->; apply ends_Finished..|].
  constructor. intros y (ls & _ & ->). generalize ls at 1 as todo. intros todo. revert held.
  induction todo as [|r todo IHt]; intros held.
  - constructor. intros y [->|(b & _ & ->)]; [apply ends_Finished|apply IH].
  - constructor. intros y ->. apply IHt.
Qed.

Lemma ends_txn x : ends x.
Proof.
  destruct x as [held t|B held q todo ls k|]; [apply ends_Active| |apply ends_Finished].
  revert held. induction todo as [|r todo IHt]; intros held.
  - constructor. intros y [->|(b & _ & ->)]; [apply ends_Finished|apply ends_Active].
  - constructor. intros y ->. apply IHt.
Qed.

(** Of finitely many transactions, too. *)
Definition one (l' l : list txn) : Prop := ∃ i x y, l !! i = Some x ∧ next ks x y ∧ l' = <[i := y]> l.

Lemma ends_all l : Acc one l.
Proof.
  induction l as [|x l IHl]; [constructor; intros l' (i & x & y & Hx & _); by apply lookup_nil_None in Hx || done|].
  revert l IHl. induction (ends_txn x) as [x _ IHx]. intros l Hl. pose proof Hl as Hl'.
  induction Hl as [l Hacc IHl].
  constructor. intros l' (i & z & y & Hz & Hn & ->). destruct i as [|i]; cbn in Hz.
  - injection Hz as ->. by apply IHx.
  - apply IHl; [by exists i, z, y|]. apply Hacc. by exists i, z, y.
Qed.
End acc.

Lemma advance_ends sys : Acc (λ sys' sys, advance sys sys') sys.
Proof.
  destruct sys as [l ks]. induction (ends_all ks l) as [l _ IH]. constructor. intros sys' Ha.
  inversion Ha as [? i x y Hx _ Hn]; subst. cbn [txns known] in *. apply IH. by exists i, x, y.
Qed.

Lemma reachable_sound sys : rtc step idle sys → sound sys.
Proof.
  intros H. assert (Hi : sound idle) by (split; [done|by intros ????? []]).
  induction H as [|? ? ? Hstep _ IH]; [done|]. by eapply IH, step_sound.
Qed.

(** C3: inventory transactions never deadlock.  Every request is the run of its
    transaction, statement by statement, or changes nothing; and whatever transactions
    the service has begun, whatever locks they have taken and however their statements
    have been interleaved, answered or broken off: no two hold the same row, as long as
    one is unfinished one of them can take its next step without waiting, and if no more
    come they all come to an end and every lock is free. *)
Theorem transactions_never_deadlock :
  (∀ r env n s, match plan (env_uuid env n) r with
     | None => ∃ n' res, serve r env n s = (n', s, res)
     | Some t => serve r env n s = match r with
                                   | ReqReplenish _ _ => run t env n s
                                   | _ => ExecuteTx (run t) env (begin_at r n) s
                                   end
     end) ∧
  ∀ sys, rtc step idle sys →
    exclusive (txns sys) ∧
    Acc (λ sys2 sys1, advance sys1 sys2) sys ∧
    ∀ sys', rtc advance sys sys' →
      (∃ sys2, advance sys' sys2) ∨ Forall (λ x, x = Finished) (txns sys').
Proof.
  split; [apply serve_plan|]. intros sys Hs. pose proof (reachable_sound _ Hs) as Hsound.
  split; [apply Hsound|]. split; [apply advance_ends|]. intros sys' Hsys'.
  assert (sound sys') as Hs'.
  { clear Hs. induction Hsys' as [|? ? ? Ha _ IH]; [done|]. by eapply IH, advance_sound. }
  destruct (decide (Forall (λ x, x = Finished) (txns sys'))) as [|Hf]; [by right|left].
  apply advance_exists; [done|]. apply not_Forall_Exists; [apply _|done].
Qed.

(** Two orders for the same two products, named in opposite orders: the second waits for
    the first, which goes on. *)
Definition ex_reserve (orderID : uuid) (skus : list string) : request :=
  ReqReserve (MkReserveStockRequest orderID orderID ((λ sku, MkStockItemRequest sku 1) <$> skus) 900).

Definition ex_locks : list resource := [StockRow "A"; StockRow "B"].

Lemma transactions_never_deadlock_witness :
  ∃ sys x, rtc step idle sys ∧ txns sys !! 1%nat = Some x ∧ blocked sys 1 x ∧
    exclusive (txns sys) ∧ Acc (λ sys2 sys1, advance sys1 sys2) sys ∧
    ((∃ sys2, advance sys sys2) ∨ Forall (λ x, x = Finished) (txns sys)).
Proof.
  eassert (Hr : rtc step idle (MkSystem [Waiting [StockRow "A"] _ [StockRow "B"] ex_locks _;
                                         Waiting [] _ ex_locks ex_locks _] {["A"; "B"]})).
  { eapply rtc_l; [apply (step_known _ {["A"; "B"]}); set_solver|].
    eapply rtc_l; [by apply (step_begin _ 0%N (ex_reserve 1 ["B"; "A"]))|].
    eapply rtc_l; [by apply (step_begin _ 0%N (ex_reserve 2 ["A"; "B"]))|].
    eapply rtc_l; [apply step_advance; eapply (advance_txn _ 0); [done|by intros []|]; exists ex_locks; done|].
    eapply rtc_l; [apply step_advance; eapply (advance_txn _ 1); [done|by intros []|]; exists ex_locks; done|].
    eapply rtc_l; [apply step_advance; eapply (advance_txn _ 0); [done| |done]|apply rtc_refl].
    cbn. intros (_ & [|[|j]] & y & Hy & Hj & Hin); [done| |done]. injection Hy as <-. by apply not_elem_of_nil in Hin. }
  destruct transactions_never_deadlock as [_ H]. destruct (H _ Hr) as (Hex & Hacc & Hgo).
  eexists _, _. split_and!; [exact Hr|done| |done|done|by apply Hgo].
  split; [set_solver|]. exists 0%nat. eexists. split_and!; [done|done|by left].
Defined.
