(* ===== verification/Isolation.v ===== *)
(** The statements of concurrent inventory transactions, interleaved: why Inventory.v may
    take a transaction as one step.

    A transaction runs statement by statement, each on what is committed and what it has
    written itself (READ COMMITTED); a statement waits until no other transaction holds
    one of the locks it needs, and what was written is seen by others when the
    transaction commits.  A statement that has got its locks is one step. *)

From S2P Require Import Prelude Database Inventory Locking.

(** * What a transaction sees *)

(** The committed tables under those a transaction has written. *)
Definition overlay (c own : State) : State :=
  MkState (inventory own ∪ inventory c) (stock_reservations own ∪ stock_reservations c)
    (stock_reservation_items c ++ stock_reservation_items own).

Lemma overlay_empty c : overlay c empty_state = c.
Proof.
  destruct c as [i r l]. unfold overlay. cbn. by rewrite !(left_id_L ∅ (∪)), app_nil_r.
Qed.

Definition keep {K V} `{Countable K} (k : K) (v : option V) (m : gmap K V) : gmap K V :=
  match v with Some v => <[k := v]> m | None => m end.

(** What a call has written, when it has taken the view [v] to [v']. *)
Definition capture {B} (q : call B) (v v' own : State) : State :=
  match q with
  | Increment sku _ | Decrement sku _ | CommitOnHand sku _ | Upsert sku _ =>
      set_inventory own (keep sku (inventory v' !! sku) (inventory own))
  | Create res => set_reservations own (keep (Res_ID res) (stock_reservations v' !! Res_ID res) (stock_reservations own))
  | UpdateStatus id _ => set_reservations own (keep id (stock_reservations v' !! id) (stock_reservations own))
  | InsertItem _ _ =>
      set_items own (stock_reservation_items own ++
                     drop (length (stock_reservation_items v)) (stock_reservation_items v'))
  | _ => own
  end.

(** * Locks *)

(** A lock of Locking.v, or the key of a line of a reservation. *)
Inductive lock := Row (r : resource) | ItemKey (id : uuid).

#[export] Instance lock_eq_dec : EqDecision lock.
Proof. solve_decision. Defined.

(** The locks a call needs, on the view [v] of its transaction. *)
Definition footprint {B} (q : call B) (env : Env) (n : nat) (v : State) : list lock :=
  match q with
  | LockSKUs skus => (λ sku, Row (StockRow sku)) <$> filter (λ sku, is_Some (inventory v !! sku)) skus
  | Increment sku _ | Decrement sku _ | CommitOnHand sku _ | Upsert sku _ => [Row (StockRow sku)]
  | LockReservation id => [Row (ReservationRow id)]
  | LockReservationByOrder orderID =>
      match reservation_of_order v orderID with Some r => [Row (ReservationRow (Res_ID r))] | None => [] end
  | GetItems _ | Now => []
  | Create res => [Row (ReservationKey (Res_ID res)); Row (OrderKey (Res_OrderID res))]
  | InsertItem resID item =>
      [ItemKey (env_uuid env n); Row (StockRow (Req_SKU item)); Row (ReservationKey resID)]
  | UpdateStatus id _ =>
      Row (ReservationRow id) :: Row (ReservationKey id) ::
      match stock_reservations v !! id with Some r => [Row (OrderKey (Res_OrderID r))] | None => [] end
  end.

(** * The database *)

(** A transaction of a request: the first tick of its body and the tree it started with,
    what is left of it, the tick it has come to, what it has written, and its locks. *)
Record running := MkRunning {
  asked : request;
  world : Env;
  tick0 : nat;
  start : tx unit;
  rest : tx unit;
  tick : nat;
  own : State;
  held : list lock;
}.

(** The committed tables, and the sessions; [None] is one that is over. *)
Record database := MkDatabase { committed : State; sessions : list (option running) }.

Definition new_database : database := MkDatabase empty_state [].

(** A request opens its transaction: BEGIN goes through, and the body starts at the next
    tick.  A replenishment is a statement of its own. *)
Definition opens (r : request) (env : Env) (n : nat) : option nat :=
  match r with
  | ReqReplenish _ _ => Some n
  | _ => if env_fault env (begin_at r n) then None else Some (S (begin_at r n))
  end.

(** The COMMIT of a transaction goes through. *)
Definition commits (x : running) : bool :=
  match asked x with
  | ReqReplenish _ _ => true
  | _ => if env_fault (world x) (tick x) then false else true
  end.

(** No other transaction holds these locks. *)
Definition free (d : database) (i : nat) (ls : list lock) : Prop :=
  ∀ j x l, sessions d !! j = Some (Some x) → j ≠ i → l ∈ ls → l ∉ held x.

Definition see (d : database) (x : running) : State := overlay (committed d) (own x).

Inductive statement : database → database → Prop :=
| statement_begin d r env n m t :
    plan (env_uuid env n) r = Some t → opens r env n = Some m →
    statement d (MkDatabase (committed d) (sessions d ++ [Some (MkRunning r env m t t m empty_state [])]))
| statement_call d i x {B} (q : call B) k n' v' b :
    sessions d !! i = Some (Some x) → rest x = Call q k →
    free d i (footprint q (world x) (tick x) (see d x)) →
    denote q (world x) (tick x) (see d x) = (n', v', Ok b) →
    statement d (MkDatabase (committed d)
      (<[i := Some (MkRunning (asked x) (world x) (tick0 x) (start x) (k b) n'
                     (capture q (see d x) v' (own x))
                     (footprint q (world x) (tick x) (see d x) ++ held x))]> (sessions d)))
| statement_commit d i x a :
    sessions d !! i = Some (Some x) → rest x = Ret a → commits x = true →
    statement d (MkDatabase (see d x) (<[i := None]> (sessions d)))
| statement_abort d i : statement d (MkDatabase (committed d) (<[i := None]> (sessions d))).

(** * Calls depend on what they lock only *)

Section local.
Context (env : Env) (n : nat) (v : State).

(** An UPDATE of a stock row reads and writes that row. *)
Lemma update_local what sku qty f n' v' :
  update_inventory what sku qty f env n v = (n', v', Ok tt) →
  is_Some (inventory v !! sku) ∧ ∃ row, ∀ v2, inventory v2 !! sku = inventory v !! sku →
    update_inventory what sku qty f env n v2 = (n', set_inventory v2 (<[sku := row]> (inventory v2)), Ok tt).
Proof.
  unfold update_inventory. intros (Hf & H & ->)%sql_ok_inv.
  destruct (negb (int4_ok qty)) eqn:Hq; [done|]. destruct (inventory v !! sku) as [r|] eqn:Hr; [|done].
  destruct (f (on_hand r) (reserved r)) as [oh rs] eqn:Hfr.
  destruct (negb (row_ok (MkInventoryRow oh rs (version r + 1) (env_now env n)))) eqn:Hok; [done|].
  split; [done|]. exists (MkInventoryRow oh rs (version r + 1) (env_now env n)). intros v2 Hv2.
  rewrite sql_run by done. cbv beta. by rewrite ?Hq, Hv2, ?Hfr, ?Hok.
Qed.

Lemma upsert_local sku q n' v' it :
  UpsertStock sku q env n v = (n', v', Ok it) →
  ∃ row, ∀ v2, inventory v2 !! sku = inventory v !! sku →
    UpsertStock sku q env n v2 = (n', set_inventory v2 (<[sku := row]> (inventory v2)), Ok it).
Proof.
  unfold UpsertStock. intros (Hf & H & ->)%sql_ok_inv. cbv zeta in H.
  destruct (negb (varchar_ok 64 sku && row_ok (MkInventoryRow q 0 1 (env_now env n)))) eqn:H1; [done|].
  set (row := match inventory v !! sku with
              | None => MkInventoryRow q 0 1 (env_now env n)
              | Some r => MkInventoryRow (on_hand r + q) (reserved r) (version r + 1) (env_now env n) end).
  exists row. intros v2 Hv2. rewrite sql_run by done. cbv beta zeta. rewrite ?H1, Hv2. cbn [on_hand]. fold row. cbn [on_hand] in H. fold row in H.
  destruct (negb (row_ok row)); [done|]. by injection H as _ <-.
Qed.

(** An INSERT of a reservation looks for its two keys. *)
Lemma create_local res n' v' :
  CreateReservation res env n v = (n', v', Ok tt) →
  stock_reservations v !! Res_ID res = None ∧ reservation_of_order v (Res_OrderID res) = None ∧
  ∃ row, Res_OrderID row = Res_OrderID res ∧ ∀ v2,
    stock_reservations v2 !! Res_ID res = None → reservation_of_order v2 (Res_OrderID res) = None →
    CreateReservation res env n v2 = (n', set_reservations v2 (<[Res_ID res := row]> (stock_reservations v2)), Ok tt).
Proof.
  unfold CreateReservation. intros (Hf & H & ->)%sql_ok_inv.
  destruct (stock_reservations v !! Res_ID res) eqn:H1; [done|].
  destruct (reservation_of_order v (Res_OrderID res)) eqn:H2; [done|]. split_and!; [done..|].
  eexists. split; [|intros v2 E1 E2; rewrite sql_run by done; cbv beta; rewrite E1, E2; reflexivity]. done.
Qed.

(** The keys of a line clash with those of no other. *)
Definition line_free (id resID : uuid) (sku : string) (l : list ReservationItem) : Prop :=
  ∀ it, it ∈ l → ResItem_ID it ≠ id ∧ ¬ (ResItem_ReservationID it = resID ∧ ResItem_SKU it = sku).

Lemma insert_local resID item n' v' :
  denote (InsertItem resID item) env n v = (n', v', Ok tt) →
  is_Some (stock_reservations v !! resID) ∧ is_Some (inventory v !! Req_SKU item) ∧
  line_free (env_uuid env n) resID (Req_SKU item) (stock_reservation_items v) ∧
  ∃ it, ResItem_ID it = env_uuid env n ∧ ResItem_ReservationID it = resID ∧ ∀ v2,
    is_Some (stock_reservations v2 !! resID) → is_Some (inventory v2 !! Req_SKU item) →
    line_free (env_uuid env n) resID (Req_SKU item) (stock_reservation_items v2) →
    denote (InsertItem resID item) env n v2 = (n', set_items v2 (stock_reservation_items v2 ++ [it]), Ok tt).
Proof.
  cbn [denote]. unfold uuid_New, bind, insert_item. intros (Hf & H & ->)%sql_ok_inv. cbv zeta in H.
  destruct (negb (int4_ok (Req_Quantity item) && varchar_ok 64 (Req_SKU item))) eqn:H1; [done|].
  destruct (negb (0 <? Req_Quantity item)) eqn:H2; [done|].
  destruct (decide (Exists _ _)) as [|Hno]; [done|].
  destruct (stock_reservations v !! resID) eqn:H3; [|done]. destruct (inventory v !! Req_SKU item) eqn:H4; [|done].
  split_and!; [done..| |].
  - intros it Hit. split; [intros Hc|intros Hc]; apply Hno, Exists_exists; exists it; auto.
  - eexists. split; [|split; [|intros v2 [? E3] [? E4] Hfree; rewrite sql_run by done; cbv beta zeta; rewrite ?H1, ?H2;
      rewrite decide_False; [rewrite E3, E4; reflexivity|]]]; [done..|].
    intros (it & Hit & Hc)%Exists_exists. destruct (Hfree it Hit). naive_solver.
Qed.

Lemma status_local id st n' v' :
  UpdateReservationStatus id st env n v = (n', v', Ok tt) →
  ∃ r row, stock_reservations v !! id = Some r ∧ Res_ID row = Res_ID r ∧ Res_OrderID row = Res_OrderID r ∧
    ∀ v2, stock_reservations v2 !! id = Some r →
    UpdateReservationStatus id st env n v2 = (n', set_reservations v2 (<[id := row]> (stock_reservations v2)), Ok tt).
Proof.
  unfold UpdateReservationStatus. intros (Hf & H & ->)%sql_ok_inv.
  destruct (stock_reservations v !! id) as [r|] eqn:Hr; [|done].
  eexists r, _. split; [done|]. split; [|split; [|intros v2 E; rewrite sql_run by done; cbv beta; rewrite E; reflexivity]]; done.
Qed.

(** A reading of the tables. *)
Lemma reservation_local what id n' v' r :
  select_reservation what id env n v = (n', v', Ok r) →
  v' = v ∧ stock_reservations v !! id = Some r ∧ ∀ v2, stock_reservations v2 !! id = Some r →
    select_reservation what id env n v2 = (n', v2, Ok r).
Proof.
  unfold select_reservation. intros (Hf & H & ->)%sql_ok_inv. destruct (stock_reservations v !! id) eqn:Hr; [|done].
  injection H as <- <-. split_and!; [done..|]. intros v2 E. rewrite sql_run by done. cbv beta. by rewrite E.
Qed.

Lemma order_local what orderID n' v' r :
  select_reservation_by_order what orderID env n v = (n', v', Ok r) →
  v' = v ∧ reservation_of_order v orderID = Some r ∧ ∀ v2, reservation_of_order v2 orderID = Some r →
    select_reservation_by_order what orderID env n v2 = (n', v2, Ok r).
Proof.
  unfold select_reservation_by_order. intros (Hf & H & ->)%sql_ok_inv.
  destruct (reservation_of_order v orderID) eqn:Hr; [|done].
  injection H as <- <-. split_and!; [done..|]. intros v2 E. rewrite sql_run by done. cbv beta. by rewrite E.
Qed.

Lemma items_local id n' v' l :
  GetReservationItemsTx id env n v = (n', v', Ok l) →
  v' = v ∧ l = items_of v id ∧ ∀ v2, items_of v2 id = l → GetReservationItemsTx id env n v2 = (n', v2, Ok l).
Proof.
  unfold GetReservationItemsTx. intros (Hf & H & ->)%sql_ok_inv. injection H as <- <-. split_and!; [done..|].
  intros v2 E. rewrite sql_run by done. cbv beta. by rewrite E.
Qed.
End local.

(** The rows of SKUs FOR UPDATE. *)
Lemma lock_local env n v skus n' v' m :
  LockSKUsForUpdate skus env n v = (n', v', Ok m) →
  v' = v ∧ (∀ sku, sku ∈ skus → is_Some (m !! sku) → is_Some (inventory v !! sku)) ∧
  ∀ v2, ∃ m2, LockSKUsForUpdate skus env n v2 = (n', v2, Ok m2) ∧
    ((∀ sku, sku ∈ skus → inventory v2 !! sku = inventory v !! sku) → m2 = m).
Proof.
  unfold LockSKUsForUpdate. destruct skus as [|a l].
  { intros [= <- <- <-]. split; [done|]. split; [by intros ? ?%not_elem_of_nil|]. intros v2. by exists ∅. }
  set (skus := a :: l). destruct (negb (strings_sorted skus)); [done|].
  intros (Hf & H & ->)%sql_ok_inv. injection H as <- <-. split; [done|]. split.
  - intros sku _ [it Hit]. apply elem_of_list_to_map_2, list_elem_of_fmap in Hit as (it' & [= -> ->] & Hin).
    apply list_elem_of_omap in Hin as (sku & _ & Hin). destruct (inventory v !! sku) as [row|] eqn:Hrow; [|done]. injection Hin as <-. cbn. by rewrite Hrow.
  - intros v2. eexists. split; [by rewrite sql_run|]. intros Heq. f_equal. f_equal.
    assert (Hsel : ∀ l0, (∀ sku, sku ∈ l0 → inventory v2 !! sku = inventory v !! sku) →
      omap (λ sku, to_item sku <$> inventory v2 !! sku) l0 =@{list Item} omap (λ sku, to_item sku <$> inventory v !! sku) l0).
    { clear. induction l0 as [|x l0 IH]; intros H; [done|]. cbn. rewrite H by left. rewrite IH; [done|]. intros; apply H; by right. }
    apply Hsel. intros sku Hsku. apply Heq. apply elem_of_remove_dups. by apply sort_strings_elem.
Qed.

(** * What a transaction has written, over any committed tables *)

(** The writes of a call, added to those before it. *)
Definition wrote {B} (q : call B) (env : Env) (n : nat) (own own' : State) : Prop :=
  match q with
  | Increment sku _ | Decrement sku _ | CommitOnHand sku _ | Upsert sku _ =>
      ∃ row, own' = set_inventory own (<[sku := row]> (inventory own))
  | Create res => ∃ row, Res_OrderID row = Res_OrderID res ∧
      own' = set_reservations own (<[Res_ID res := row]> (stock_reservations own))
  | UpdateStatus id _ => ∃ row, own' = set_reservations own (<[id := row]> (stock_reservations own))
  | InsertItem resID _ => ∃ it, ResItem_ID it = env_uuid env n ∧ ResItem_ReservationID it = resID ∧
      own' = set_items own (stock_reservation_items own ++ [it])
  | _ => own' = own
  end.

Lemma lookup_over {K V} `{Countable K} (m1 m2 : gmap K V) k :
  (m1 ∪ m2) !! k = match m1 !! k with Some v => Some v | None => m2 !! k end.
Proof. rewrite lookup_union. by destruct (m1 !! k), (m2 !! k). Qed.

Lemma overlay_set_inventory c own sku row :
  overlay c (set_inventory own (<[sku := row]> (inventory own))) =
    set_inventory (overlay c own) (<[sku := row]> (inventory (overlay c own))).
Proof. unfold overlay, set_inventory. cbn. by rewrite insert_union_l. Qed.

Lemma overlay_set_reservations c own id row :
  overlay c (set_reservations own (<[id := row]> (stock_reservations own))) =
    set_reservations (overlay c own) (<[id := row]> (stock_reservations (overlay c own))).
Proof. unfold overlay, set_reservations. cbn. by rewrite insert_union_l. Qed.

Lemma overlay_set_items c own it :
  overlay c (set_items own (stock_reservation_items own ++ [it])) =
    set_items (overlay c own) (stock_reservation_items (overlay c own) ++ [it]).
Proof. unfold overlay, set_items. cbn. by rewrite app_assoc. Qed.

Lemma drop_app_new {A} (l : list A) x : drop (length l) (l ++ [x]) = [x].
Proof. by rewrite drop_app_length. Qed.

Lemma capture_stock own v' sku row m :
  inventory v' = <[sku := row]> m →
  set_inventory own (keep sku (inventory v' !! sku) (inventory own)) = set_inventory own (<[sku := row]> (inventory own)).
Proof. intros ->. by rewrite lookup_insert_eq. Qed.

Lemma capture_reservation own v' id row m :
  stock_reservations v' = <[id := row]> m →
  set_reservations own (keep id (stock_reservations v' !! id) (stock_reservations own)) =
    set_reservations own (<[id := row]> (stock_reservations own)).
Proof. intros ->. by rewrite lookup_insert_eq. Qed.

Lemma update_spec c own what sku qty f env n n' v' :
  update_inventory what sku qty f env n (overlay c own) = (n', v', Ok tt) →
  let own' := set_inventory own (keep sku (inventory v' !! sku) (inventory own)) in
  (∃ row, own' = set_inventory own (<[sku := row]> (inventory own))) ∧ overlay c own' = v'.
Proof.
  intros H. pose proof H as (_ & row & Hl)%update_local. rewrite Hl in H by done. injection H as <-. cbv zeta.
  erewrite capture_stock by reflexivity. by rewrite overlay_set_inventory; eauto.
Qed.

(** What a call has written is what [capture] keeps of it. *)
Lemma capture_spec {B} (q : call B) env n c own n' v' b :
  denote q env n (overlay c own) = (n', v', Ok b) →
  wrote q env n own (capture q (overlay c own) v' own) ∧ overlay c (capture q (overlay c own) v' own) = v'.
Proof.
  destruct q as [skus|sku qty|sku qty|sku qty|sku qty|id|o|id|res|resID item|id st|]; cbn [denote capture wrote]; intros H.
  - by apply lock_local in H as (-> & _).
  - destruct b. by apply update_spec in H.
  - destruct b. by apply update_spec in H.
  - destruct b. by apply update_spec in H.
  - pose proof H as (row & Hl)%upsert_local. rewrite Hl in H by done. injection H as <-.
    erewrite capture_stock by reflexivity. by rewrite overlay_set_inventory; eauto.
  - by apply reservation_local in H as (-> & _).
  - by apply order_local in H as (-> & _).
  - by apply items_local in H as (-> & _).
  - destruct b. pose proof H as (_ & _ & row & Ho & Hl)%create_local.
    pose proof H as (H1 & H2 & _)%create_local. rewrite Hl in H by done. injection H as <-.
    erewrite capture_reservation by reflexivity. by rewrite overlay_set_reservations; eauto.
  - destruct b. pose proof H as (H1 & H2 & H3 & it & Hi & Hr & Hl)%insert_local.
    cbn [denote] in Hl. rewrite Hl in H by done. injection H as <-. cbn [stock_reservation_items set_items].
    rewrite drop_app_new, overlay_set_items. eauto.
  - destruct b. pose proof H as (r & row & Hr & _ & _ & Hl)%status_local. rewrite Hl in H by done. injection H as <-.
    erewrite capture_reservation by reflexivity. by rewrite overlay_set_reservations; eauto.
  - by injection H as <- <-.
Qed.

(** The locks a transaction needs to keep for a call to come out the same to its end.  The
    rows of a SELECT ... FOR UPDATE are all there and locked, or nothing depends on them. *)
Definition relies {B} (ls : list lock) (c own : State) (q : call B) (env : Env) (n : nat) (k : B → tx unit) : Prop :=
  match q with
  | LockSKUs skus =>
      (∀ sku, sku ∈ skus → Row (StockRow sku) ∈ ls) ∨ ∀ b1 b2, k b1 = k b2
  | Increment sku _ | Decrement sku _ | CommitOnHand sku _ | Upsert sku _ => Row (StockRow sku) ∈ ls
  | LockReservation id => Row (ReservationRow id) ∈ ls
  | LockReservationByOrder orderID =>
      stock_reservations own = ∅ ∧
      ∀ r, reservation_of_order c orderID = Some r → Row (ReservationRow (Res_ID r)) ∈ ls
  | GetItems id => stock_reservation_items own = [] ∧ is_Some (stock_reservations c !! id)
  | Create res => stock_reservations own = ∅ ∧
      Row (ReservationKey (Res_ID res)) ∈ ls ∧ Row (OrderKey (Res_OrderID res)) ∈ ls
  | InsertItem resID _ => stock_reservations c !! resID = None ∧
      ItemKey (env_uuid env n) ∈ ls ∧ Row (ReservationKey resID) ∈ ls
  | UpdateStatus id _ => Row (ReservationRow id) ∈ ls
  | Now => True
  end.

(** The rows a transaction has written, it has locked. *)
Record writes_ok (ls : list lock) (c own : State) : Prop := {
  wo_stock sku : is_Some (inventory own !! sku) → Row (StockRow sku) ∈ ls;
  wo_reservation id r : stock_reservations own !! id = Some r →
    match stock_reservations c !! id with
    | Some r0 => Row (ReservationRow id) ∈ ls ∧ Res_OrderID r = Res_OrderID r0
    | None => Row (ReservationKey id) ∈ ls ∧ Row (OrderKey (Res_OrderID r)) ∈ ls
    end;
  wo_item it : it ∈ stock_reservation_items own →
    ItemKey (ResItem_ID it) ∈ ls ∧ Row (ReservationKey (ResItem_ReservationID it)) ∈ ls ∧
    stock_reservations c !! ResItem_ReservationID it = None;
}.

Lemma writes_ok_empty ls c : writes_ok ls c empty_state.
Proof. split; cbn; [by intros ? [? ?%lookup_empty_Some]|by intros ?? ?%lookup_empty_Some|by intros ? ?%not_elem_of_nil]. Qed.

Lemma writes_ok_held ls ls' c own : ls ⊆ ls' → writes_ok ls c own → writes_ok ls' c own.
Proof.
  intros Hls [H1 H2 H3]. split; [auto| |].
  - intros id r Hr%H2. destruct (stock_reservations c !! id); naive_solver.
  - intros it Hit%H3. naive_solver.
Qed.

Lemma relies_held {B} ls ls' c own (q : call B) env n k :
  ls ⊆ ls' → relies ls c own q env n k → relies ls' c own q env n k.
Proof. intros Hls. destruct q; cbn [relies]; naive_solver. Qed.

Lemma overlay_reservation c own id :
  stock_reservations (overlay c own) !! id =
    match stock_reservations own !! id with Some r => Some r | None => stock_reservations c !! id end.
Proof. apply lookup_over. Qed.

Lemma overlay_stock c own sku :
  inventory (overlay c own) !! sku =
    match inventory own !! sku with Some r => Some r | None => inventory c !! sku end.
Proof. apply lookup_over. Qed.

Lemma writes_ok_stock ls c own sku row :
  Row (StockRow sku) ∈ ls → writes_ok ls c own →
  writes_ok ls c (set_inventory own (<[sku := row]> (inventory own))).
Proof.
  intros Hl [H1 H2 H3]. split; [|done..]. intros sku'. cbn.
  destruct (decide (sku' = sku)) as [->|Hne]; [done|]. rewrite lookup_insert_ne by done. apply H1.
Qed.

(** The writes of a call are of what it relies on. *)
Lemma wrote_ok {B} (q : call B) env n ls c own own' n' b k :
  denote q env n (overlay c own) = (n', overlay c own', Ok b) → wrote q env n own own' →
  relies ls c own q env n k → writes_ok ls c own → writes_ok ls c own'.
Proof.
  destruct q as [skus|sku qty|sku qty|sku qty|sku qty|id|o|id|res|resID item|id st|]; cbn [wrote relies denote];
    intros H Hw Hr Hok; try (by subst own'); try (destruct Hw as [row ->]; by apply writes_ok_stock).
  - destruct Hw as (row & Ho & ->), Hr as (Hemp & Hk1 & Hk2), Hok as [H1 _ H3]. split; [done| |done].
    intros id r. cbn. rewrite Hemp, lookup_insert_Some. intros [[<- <-]|[_ ?%lookup_empty_Some]]; [|done].
    destruct b. apply create_local in H as (Hnone & _). rewrite overlay_reservation, Hemp, lookup_empty in Hnone.
    by rewrite Hnone, Ho.
  - destruct Hw as (it & Hid & Hres & ->), Hr as (Hnone & Hk1 & Hk2), Hok as [H1 H2 H3]. split; [done..|].
    intros it'. cbn. rewrite elem_of_app, list_elem_of_singleton. intros [Hit| ->]; [by apply H3|]. by rewrite Hid, Hres.
  - destruct Hw as [row ->], Hok as [H1 H2 H3].
    split; [done| |done]. intros id' r'. cbn.
    rewrite lookup_insert_Some. intros [[<- <-]|[_ Hr']]; [|by apply H2].
    destruct b. pose proof H as (r & row' & Hv & _ & Ho & Hl)%status_local. rewrite Hl in H by done.
    rewrite overlay_set_reservations in H. injection H as H.
    apply (f_equal (lookup id)) in H. cbn in H. rewrite !lookup_insert_eq in H. injection H as <-.
    rewrite overlay_reservation in Hv. rewrite Ho. destruct (stock_reservations own !! id) as [r1|] eqn:Hown.
    + injection Hv as ->. by apply H2.
    + by rewrite Hv.
Qed.

(** * Another transaction commits *)

Section stable.
Context (ls ls' : list lock) (c w : State).
Hypotheses (Hw : writes_ok ls' c w) (Hdis : ∀ l, l ∈ ls → l ∉ ls').
Hypotheses (Hwf : reservations_wf c) (Hwf' : reservations_wf (overlay c w)).
Notation c' := (overlay c w).

Lemma stable_row own sku :
  Row (StockRow sku) ∈ ls → inventory (overlay c' own) !! sku = inventory (overlay c own) !! sku.
Proof.
  intros Hl. rewrite !overlay_stock. destruct (inventory own !! sku); [done|].
  destruct (inventory w !! sku) eqn:E; [|done]. exfalso. eapply Hdis; [done|]. eapply wo_stock; [done|by eauto].
Qed.

Lemma stable_row_there own sku :
  is_Some (inventory (overlay c own) !! sku) → is_Some (inventory (overlay c' own) !! sku).
Proof. rewrite !overlay_stock. by destruct (inventory own !! sku), (inventory w !! sku). Qed.

Lemma stable_reservation_there own id :
  is_Some (stock_reservations (overlay c own) !! id) → is_Some (stock_reservations (overlay c' own) !! id).
Proof. rewrite !overlay_reservation. by destruct (stock_reservations own !! id), (stock_reservations w !! id). Qed.

Lemma stable_locked own id r : Row (ReservationRow id) ∈ ls →
  stock_reservations (overlay c own) !! id = Some r → stock_reservations (overlay c' own) !! id = Some r.
Proof.
  intros Hl. rewrite !overlay_reservation. destruct (stock_reservations own !! id); [done|]. intros Hr.
  destruct (stock_reservations w !! id) as [r'|] eqn:E; [exfalso|done].
  apply (wo_reservation _ _ _ Hw) in E. rewrite Hr in E. exact (Hdis _ Hl (proj1 E)).
Qed.

Lemma stable_absent id : Row (ReservationKey id) ∈ ls →
  stock_reservations c !! id = None → stock_reservations c' !! id = None.
Proof.
  intros Hl Hr. rewrite overlay_reservation. destruct (stock_reservations w !! id) as [r'|] eqn:E; [exfalso|done].
  apply (wo_reservation _ _ _ Hw) in E. rewrite Hr in E. exact (Hdis _ Hl (proj1 E)).
Qed.

Lemma order_overlay s own o :
  stock_reservations own = ∅ → reservation_of_order (overlay s own) o = reservation_of_order s o.
Proof. intros H. unfold reservation_of_order, overlay. cbn. by rewrite H, (left_id_L ∅ (∪)). Qed.

Lemma stable_order o : Row (OrderKey o) ∈ ls →
  reservation_of_order c o = None → reservation_of_order c' o = None.
Proof.
  intros Hl Hn. destruct (reservation_of_order c' o) as [r|] eqn:E; [exfalso|done].
  apply reservation_of_order_Some in E as (<- & id & Hr). rewrite overlay_reservation in Hr.
  destruct (stock_reservations w !! id) as [r'|] eqn:E; [|exact (reservation_of_order_None _ _ _ _ Hn Hr eq_refl)].
  injection Hr as ->. apply (wo_reservation _ _ _ Hw) in E. destruct (stock_reservations c !! id) as [r0|] eqn:Hr0.
  - destruct E as [_ E]. exact (reservation_of_order_None _ _ _ _ Hn Hr0 (eq_sym E)).
  - exact (Hdis _ Hl (proj2 E)).
Qed.

Lemma stable_items own id : stock_reservation_items own = [] → is_Some (stock_reservations c !! id) →
  items_of (overlay c' own) id = items_of (overlay c own) id.
Proof.
  intros Hown [r Hr]. unfold items_of. f_equal. unfold overlay. cbn. rewrite Hown, !app_nil_r, filter_app.
  rewrite (filter_none _ (stock_reservation_items w)), app_nil_r; [done|].
  intros it Hit <-. by apply (wo_item _ _ _ Hw) in Hit as (_ & _ & ?%(eq_trans (eq_sym Hr))).
Qed.

Lemma stable_line_free own id resID sku :
  ItemKey id ∈ ls → Row (ReservationKey resID) ∈ ls →
  line_free id resID sku (stock_reservation_items (overlay c own)) →
  line_free id resID sku (stock_reservation_items (overlay c' own)).
Proof.
  intros H1 H2 Hf it. unfold overlay in *. cbn in *. rewrite !elem_of_app.
  intros [[Hit|Hit]|Hit]; [apply Hf, elem_of_app; auto| |apply Hf, elem_of_app; auto].
  apply (wo_item _ _ _ Hw) in Hit as (Hi & Hk & _). split; [intros <-; exact (Hdis _ H1 Hi)|intros [<- _]; exact (Hdis _ H2 Hk)].
Qed.

(** The effect of an UPDATE of a stock row. *)
Lemma stable_update own own' what sku qty f env n n' :
  Row (StockRow sku) ∈ ls → (∃ row, own' = set_inventory own (<[sku := row]> (inventory own))) →
  update_inventory what sku qty f env n (overlay c own) = (n', overlay c own', Ok tt) →
  update_inventory what sku qty f env n (overlay c' own) = (n', overlay c' own', Ok tt).
Proof.
  intros Hl [row ->] H. pose proof H as (_ & row' & Hr)%update_local.
  rewrite Hr by by apply stable_row. rewrite Hr, overlay_set_inventory in H by done. injection H as H.
  apply (f_equal (lookup sku)) in H. cbn in H. rewrite !lookup_insert_eq in H. injection H as ->.
  by rewrite overlay_set_inventory.
Qed.

(** A call comes out the same after the other transaction. *)
Lemma call_stable {B} (q : call B) env n own own' n' b k :
  denote q env n (overlay c own) = (n', overlay c own', Ok b) → wrote q env n own own' →
  relies ls c own q env n k →
  ∃ b', k b' = k b ∧ denote q env n (overlay c' own) = (n', overlay c' own', Ok b') ∧
    relies ls c' own q env n k.
Proof.
  destruct q as [skus|sku qty|sku qty|sku qty|sku qty|id|o|id|res|resID item|id st|]; cbn [wrote relies denote];
    intros H Hwr Hr; try subst own'.
  - apply lock_local in H as (_ & _ & Hl). destruct (Hl (overlay c' own)) as (m2 & H2 & Heq).
    exists m2. split; [|done]. destruct Hr as [Hr|Hr]; [|by apply Hr]. rewrite Heq; [done|].
    intros sku Hsku. by apply stable_row, Hr.
  - exists b. split; [done|]. destruct b. split; [by eapply stable_update|done].
  - exists b. split; [done|]. destruct b. split; [by eapply stable_update|done].
  - exists b. split; [done|]. destruct b. split; [by eapply stable_update|done].
  - exists b. split; [done|]. split; [|done]. destruct Hwr as [row ->].
    pose proof H as (row' & Hl)%upsert_local. rewrite Hl by by apply stable_row.
    rewrite Hl, overlay_set_inventory in H by done. injection H as H.
    apply (f_equal (lookup sku)) in H. cbn in H. rewrite !lookup_insert_eq in H. injection H as ->.
    by rewrite overlay_set_inventory.
  - exists b. split; [done|]. split; [|done]. apply reservation_local in H as (_ & Hb & Hl).
    by apply Hl, stable_locked.
  - exists b. split; [done|]. destruct Hr as [Hemp Hr]. apply order_local in H as (_ & Hb & Hl).
    rewrite order_overlay in Hb by done. pose proof Hb as (Ho & id & Hid)%reservation_of_order_Some.
    assert (Hb' : reservation_of_order c' o = Some b).
    { eapply reservation_of_order_is; [done| |done]. rewrite <- (rw_id _ Hwf _ _ Hid) in Hid.
      pose proof (stable_locked empty_state (Res_ID b) b (Hr _ Hb)) as Hs. rewrite !overlay_empty in Hs. by apply Hs. }
    split; [apply Hl; by rewrite order_overlay|]. split; [done|]. intros r. rewrite Hb'. intros [= <-]. by apply Hr.
  - exists b. split; [done|]. destruct Hr as [Hemp Hr]. apply items_local in H as (_ & -> & Hl).
    split; [by apply Hl, stable_items|]. split; [done|].
    pose proof (stable_reservation_there empty_state id) as Hs. rewrite !overlay_empty in Hs. by apply Hs.
  - exists b. split; [done|]. destruct b, Hwr as (row & _ & ->), Hr as (Hemp & Hk1 & Hk2).
    pose proof H as (H1 & H2 & row' & _ & Hl)%create_local.
    rewrite overlay_reservation, Hemp, lookup_empty in H1. rewrite order_overlay in H2 by done.
    split; [|done]. rewrite Hl.
    + rewrite Hl, overlay_set_reservations in H; [|by rewrite overlay_reservation, Hemp, lookup_empty|by rewrite order_overlay].
      injection H as H. apply (f_equal (lookup (Res_ID res))) in H. cbn in H. rewrite !lookup_insert_eq in H.
      injection H as ->. by rewrite overlay_set_reservations.
    + rewrite overlay_reservation, Hemp, lookup_empty. by apply stable_absent.
    + rewrite order_overlay by done. by apply stable_order.
  - exists b. split; [done|]. destruct b, Hwr as (it & _ & _ & ->), Hr as (Hn & Hk1 & Hk2).
    pose proof H as (H1 & H2 & H3 & it' & _ & _ & Hl)%insert_local. cbn [denote] in Hl.
    split; [|split; [by apply stable_absent|done]]. rewrite Hl.
    + rewrite Hl, overlay_set_items in H by done. injection H as H. apply app_inj_tail in H as [_ ->].
      by rewrite overlay_set_items.
    + by apply stable_reservation_there.
    + by apply stable_row_there.
    + by apply stable_line_free.
  - exists b. split; [done|]. destruct b, Hwr as (row & ->).
    pose proof H as (r & row' & Hr' & _ & _ & Hl)%status_local. split; [|done]. rewrite Hl by by apply stable_locked.
    rewrite Hl, overlay_set_reservations in H by done. injection H as H.
    apply (f_equal (lookup id)) in H. cbn in H. rewrite !lookup_insert_eq in H. injection H as ->.
    by rewrite overlay_set_reservations.
  - exists b. split; [done|]. by injection H as <- <-.
Qed.

(** What has been written is still of what is locked. *)
Lemma writes_stable own : writes_ok ls c own → writes_ok ls c' own.
Proof.
  intros [H1 H2 H3]. split; [done| |].
  - intros id r Hr%H2. destruct (stock_reservations c !! id) as [r0|] eqn:Hr0.
    + pose proof (stable_locked empty_state id r0 (proj1 Hr)) as Hs. rewrite !overlay_empty in Hs. by rewrite Hs.
    + by rewrite (stable_absent id (proj1 Hr) Hr0).
  - intros it (Hi & Hk & Hn)%H3. split_and!; [done..|]. by apply stable_absent.
Qed.
End stable.

(** * The run of a transaction so far *)

(** Over the committed tables [c] the transaction comes from its start to what is left of
    it, and keeps the locks it relies on. *)
Inductive trace (env : Env) (c : State) (ls : list lock) (n0 : nat) (t0 : tx unit) : nat → tx unit → State → Prop :=
| trace_start : trace env c ls n0 t0 n0 t0 empty_state
| trace_call {B} n own (q : call B) k n' own' b :
    trace env c ls n0 t0 n (Call q k) own →
    denote q env n (overlay c own) = (n', overlay c own', Ok b) → wrote q env n own own' →
    relies ls c own q env n k → trace env c ls n0 t0 n' (k b) own'.

Lemma trace_held env c ls ls' n0 t0 n t own :
  ls ⊆ ls' → trace env c ls n0 t0 n t own → trace env c ls' n0 t0 n t own.
Proof.
  intros Hls. induction 1; [constructor|]. eapply trace_call; [done..|]. by eapply relies_held.
Qed.

(** What is left has the run of the transaction over these tables. *)
Lemma trace_run env c ls n0 t0 n t own :
  trace env c ls n0 t0 n t own → run t0 env n0 c = run t env n (overlay c own).
Proof.
  induction 1 as [|B n own q k n' own' b _ IH Hd _ _]; [by rewrite overlay_empty|].
  rewrite IH. cbn [run]. unfold bind. by rewrite Hd.
Qed.

Lemma trace_stable env c w ls ls' n0 t0 n t own :
  writes_ok ls' c w → (∀ l, l ∈ ls → l ∉ ls') → reservations_wf c → reservations_wf (overlay c w) →
  trace env c ls n0 t0 n t own → trace env (overlay c w) ls n0 t0 n t own.
Proof.
  intros Hw Hdis Hwf Hwf'. induction 1 as [|B n own q k n' own' b _ IH Hd Hwr Hr]; [constructor|].
  destruct (call_stable ls ls' c w Hw Hdis Hwf Hwf' q env n own own' n' b k Hd Hwr Hr) as (b' & <- & Hd' & Hr').
  by eapply trace_call.
Qed.

(** * The transactions keep what they rely on *)

(** A call after which the rest is safe: [clean] while no reservation has been written,
    [found] the reservations there and [made] those made. *)
Definition call_safe {A B} (clean : bool) (found made : list uuid) (q : call B) :
    (B → tx A) → (bool → list uuid → list uuid → B → Prop) → Prop :=
  match q in call B return (B → tx A) → (bool → list uuid → list uuid → B → Prop) → Prop with
  | LockSKUs skus => λ k rest,
      (∀ m, (∃ e, k m = Fail e) ∨ (∀ sku, sku ∈ skus → is_Some (m !! sku)) ∧ rest clean found made m) ∨
      (∀ m1 m2, k m1 = k m2) ∧ ∀ m, rest clean found made m
  | LockReservation id => λ _ rest, clean = true ∧ ∀ r, Res_ID r = id → rest clean (id :: found) made r
  | LockReservationByOrder _ => λ _ rest, clean = true ∧ ∀ r, rest clean (Res_ID r :: found) made r
  | GetItems id => λ _ rest, clean = true ∧ id ∈ found ∧ ∀ l, rest clean found made l
  | Create res => λ _ rest, clean = true ∧ rest false found (Res_ID res :: made) tt
  | InsertItem resID _ => λ _ rest, resID ∈ made ∧ rest false found made tt
  | UpdateStatus _ _ => λ _ rest, rest false found made tt
  | Increment _ _ | Decrement _ _ | CommitOnHand _ _ | Upsert _ _ | Now =>
      λ _ rest, ∀ b, rest clean found made b
  end.

Fixpoint safe {A} (clean : bool) (found made : list uuid) (t : tx A)
    (Q : bool → list uuid → list uuid → A → Prop) : Prop :=
  match t with
  | Ret a => Q clean found made a
  | Fail _ => True
  | Call q k => call_safe clean found made q k (λ clean found made b, safe clean found made (k b) Q)
  end.

Lemma call_safe_mono {A A' B} clean found made (q : call B) (k : B → tx A) (k' : B → tx A') (R R' : bool → list uuid → list uuid → B → Prop) :
  (∀ c f m b, R c f m b → R' c f m b) →
  (∀ b e, k b = Fail e → k' b = Fail e) → (∀ b1 b2, k b1 = k b2 → k' b1 = k' b2) →
  call_safe clean found made q k R → call_safe clean found made q k' R'.
Proof.
  intros HR Hf Hk. destruct q; cbn [call_safe]; naive_solver.
Qed.

Lemma safe_mono {A} clean found made (t : tx A) (Q1 Q2 : bool → list uuid → list uuid → A → Prop) :
  (∀ c f m a, Q1 c f m a → Q2 c f m a) → safe clean found made t Q1 → safe clean found made t Q2.
Proof.
  intros HQ. revert clean found made. induction t as [a|e|B q k IH]; intros clean found made; cbn [safe]; [apply HQ|done|].
  apply call_safe_mono; [|done|done]. intros c f m b. apply IH.
Qed.

Lemma safe_bind {A B} clean found made (t : tx A) (f : A → tx B) Q :
  safe clean found made t (λ c f' m a, safe c f' m (f a) Q) → safe clean found made (tbind t f) Q.
Proof.
  revert clean found made. induction t as [a|e|C q k IH]; intros clean found made; cbn [safe tbind]; [done..|].
  apply call_safe_mono.
  - intros c f' m b. apply IH.
  - by intros b e ->.
  - by intros b1 b2 ->.
Qed.

Lemma safe_each {X} (f : X → tx unit) l (I : bool → list uuid → list uuid → Prop) clean found made Q :
  (∀ x c f' m, I c f' m → safe c f' m (f x) (λ c f' m _, I c f' m)) →
  (∀ c f' m, I c f' m → Q c f' m tt) → I clean found made → safe clean found made (each f l) Q.
Proof.
  intros Hf HQ. revert clean found made. induction l as [|x l IH]; intros clean found made HI; cbn [each]; [by apply HQ|].
  apply safe_bind. eapply safe_mono; [|by apply Hf]. intros c f' m []. apply IH.
Qed.

Lemma reserve_safe req c : safe true [] [] (reserve_plan req c) (λ _ _ _ _, True).
Proof.
  cbn [reserve_plan invoke tbind safe call_safe]. left. intros m.
  destruct (negb _) eqn:Hf; [by left; eexists|right].
  apply negb_false_iff, Nat.eqb_eq in Hf. split; [by apply (shortages_none c m)|].
  apply safe_bind. apply safe_each with (I := λ c f m, c = true ∧ m = []); [cbn; auto| |done].
  intros c1 f1 m1 [-> ->]. cbn [tbind invoke safe call_safe]. intros now. split; [done|].
  apply safe_bind. apply safe_each with (I := λ c f m, Reserve_ReservationID req ∈ m); [|done|by left].
  intros it c2 f2 m2 Hin. cbn. auto.
Qed.

Lemma settle_safe change status id found made :
  id ∈ found → (∀ sku q c f m, safe c f m (invoke (change sku q)) (λ c' f' m' _, c' = c ∧ f' = f ∧ m' = m)) →
  safe true found made (settle_plan change status id) (λ _ _ _ _, True).
Proof.
  intros Hid Hc. cbn [settle_plan invoke tbind safe call_safe]. split_and!; [done..|]. intros l.
  right. split; [done|]. intros m. apply safe_bind.
  apply safe_each with (I := λ c f m, c = true); [|done|done].
  intros it c1 f1 m1 ->. eapply safe_mono; [|apply Hc]. naive_solver.
Qed.

Lemma commit_safe res id made : safe true [id] made (commit_plan res id) (λ _ _ _ _, True).
Proof. unfold commit_plan. destruct (Res_Status res); [apply settle_safe; [by left|cbn; auto]|done..]. Qed.

Lemma release_safe res id made : safe true [id] made (release_plan res id) (λ _ _ _ _, True).
Proof. unfold release_plan. destruct (Res_Status res); [apply settle_safe; [by left|cbn; auto]|done..]. Qed.

Lemma plan_safe rid r t : plan rid r = Some t → safe true [] [] t (λ _ _ _ _, True).
Proof.
  destruct r as [sku q|req|id|id|id|id|sku]; cbn [plan]; [| | | | | |done].
  - destruct (q <=? 0); [done|]. destruct (String.eqb (TrimSpace sku) ""); [done|]. by intros <-%(inj Some).
  - destruct (Reserve_OrderID req =? uuid_Nil)%N; [done|]. destruct (length (Reserve_Items req) =? 0)%nat; [done|].
    destruct (consolidate (Reserve_Items req) ∅) as [c|]; [|done]. intros <-%(inj Some).
    apply safe_bind. eapply safe_mono; [|apply reserve_safe]. done.
  - intros <-%(inj Some). cbn. split; [done|]. intros r _. apply commit_safe.
  - intros <-%(inj Some). cbn. split; [done|]. intros r. apply commit_safe.
  - intros <-%(inj Some). cbn. split; [done|]. intros r _. apply release_safe.
  - intros <-%(inj Some). cbn. split; [done|]. intros r. apply release_safe.
Qed.

(** * Every session *)

(** What the transaction knows. *)
Definition knows (c own : State) (ls : list lock) (clean : bool) (found made : list uuid) : Prop :=
  (clean = true → stock_reservations own = ∅ ∧ stock_reservation_items own = []) ∧
  (∀ id, id ∈ found → is_Some (stock_reservations c !! id)) ∧
  ∀ id, id ∈ made → stock_reservations c !! id = None ∧ Row (ReservationKey id) ∈ ls.

Lemma knows_held c own own' ls ls' (clean clean' : bool) found made :
  ls ⊆ ls' → (clean' = true → clean = true ∧ stock_reservations own' = stock_reservations own ∧
                stock_reservation_items own' = stock_reservation_items own) →
  knows c own ls clean found made → knows c own' ls' clean' found made.
Proof.
  intros Hls Hown (H1 & H2 & H3). split; [|split; [done|]].
  - intros (Hc & -> & ->)%Hown. auto.
  - intros id Hid. destruct (H3 id Hid). auto.
Qed.


(** A call of a safe transaction that has got its locks. *)
Lemma call_relies {B} (q : call B) (k : B → tx unit) (R : bool → list uuid → list uuid → B → Prop)
    clean found made c own own' ls env n n' b :
  reservations_wf c →
  let ls' := footprint q env n (overlay c own) ++ ls in
  call_safe clean found made q k R → knows c own ls clean found made →
  denote q env n (overlay c own) = (n', overlay c own', Ok b) → wrote q env n own own' →
  (∃ e, k b = Fail e) ∨
  relies ls' c own q env n k ∧ ∃ clean' found' made', R clean' found' made' b ∧ knows c own' ls' clean' found' made'.
Proof.
  intros Hwf ls' Hs Hk Hd Hw.
  assert (Hsub : ls ⊆ ls') by (intros l Hl; apply elem_of_app; by right).
  assert (Hkeep : ∀ own1, stock_reservations own1 = stock_reservations own →
    stock_reservation_items own1 = stock_reservation_items own → knows c own1 ls' clean found made)
    by (intros own1 ??; eapply knows_held; [done| |done]; done).
  destruct q as [skus|sku qty|sku qty|sku qty|sku qty|id|o|id|res|resID item|id st|]; cbn [wrote call_safe relies denote] in *.
  - subst own'. destruct Hs as [Hs|[Hc Hs]].
    + destruct (Hs b) as [Hf|[Hall Hb]]; [by left|right]. split; [|by eauto 10]. left. intros sku Hsku.
      apply elem_of_app. left. cbn [footprint]. apply list_elem_of_fmap. exists sku. split; [done|].
      apply list_elem_of_filter. split; [|done]. apply lock_local in Hd as (_ & Hin & _). by apply Hin, Hall.
    + right. split; [|by eauto 10]. by right.
  - right. destruct Hw as [row ->]. split; [by left|eauto 10].
  - right. destruct Hw as [row ->]. split; [by left|eauto 10].
  - right. destruct Hw as [row ->]. split; [by left|eauto 10].
  - right. destruct Hw as [row ->]. split; [by left|eauto 10].
  - right. subst own'. split; [by left|]. destruct Hs as [-> Hs]. apply reservation_local in Hd as (_ & Hr & _).
    rewrite overlay_reservation in Hr. rewrite (proj1 (proj1 Hk eq_refl)), lookup_empty in Hr.
    eexists _, _, _. split; [apply Hs; by eapply rw_id|]. destruct (Hkeep own) as (H1 & H2 & H3); [done..|].
    split; [done|]. split; [|done]. intros id' [->|Hid']%elem_of_cons; [by eauto|auto].
  - right. subst own'. destruct Hs as [-> Hs]. destruct (proj1 Hk eq_refl) as [He _].
    apply order_local in Hd as (_ & Hr & _). rewrite order_overlay in Hr by done. split.
    + split; [done|]. intros r Hr'. apply elem_of_app. left. cbn [footprint]. rewrite order_overlay, Hr' by done. by left.
    + eexists _, _, _. split; [apply Hs|]. destruct (Hkeep own) as (H1 & H2 & H3); [done..|].
      split; [done|]. split; [|done]. intros id' [->|Hid']%elem_of_cons; [|auto].
      apply reservation_of_order_Some in Hr as (_ & id & Hr). rewrite (rw_id _ Hwf _ _ Hr). by eauto.
  - right. subst own'. destruct Hs as (-> & Hid & Hs). destruct (proj1 Hk eq_refl) as [_ He].
    split; [split; [done|by apply Hk]|]. eauto 10.
  - right. destruct Hw as (row & Ho & ->), Hs as [-> Hs]. destruct (proj1 Hk eq_refl) as [He _].
    assert (Hkey : Row (ReservationKey (Res_ID res)) ∈ ls') by by left.
    split; [split_and!; [done|done|by right; left]|]. destruct b. eexists _, _, _. split; [done|].
    apply create_local in Hd as (Hn & _). rewrite overlay_reservation, He, lookup_empty in Hn.
    split; [done|]. destruct (Hkeep own) as (H1 & H2 & H3); [done..|]. split; [done|].
    intros id [->|Hid]%elem_of_cons; [done|auto].
  - right. destruct Hw as (it & _ & _ & ->), Hs as [Hm Hs], b.
    destruct (Hkeep own) as (H1 & H2 & H3); [done..|]. split.
    + split; [by apply H3|]. split; [by left|by right; right; left].
    + eexists _, _, _. split; [done|]. by split.
  - right. destruct Hw as [row ->], b. split; [by left|]. eexists _, _, _. split; [done|].
    destruct (Hkeep own) as (H1 & H2 & H3); [done..|]. by split.
  - right. subst own'. split; [done|]. eauto 10.
Qed.

(** A running transaction: broken off by the service itself, or come to where it is by a
    run that the present tables would repeat. *)
Definition running_ok (c : State) (x : running) : Prop :=
  (∃ n, plan (env_uuid (world x) n) (asked x) = Some (start x) ∧ opens (asked x) (world x) n = Some (tick0 x)) ∧
  ((∃ e, rest x = Fail e) ∨
   trace (world x) c (held x) (tick0 x) (start x) (tick x) (rest x) (own x) ∧
   writes_ok (held x) c (own x) ∧
   ∃ clean found made, safe clean found made (rest x) (λ _ _ _ _, True) ∧
     knows c (own x) (held x) clean found made).

Record database_ok (d : database) : Prop := {
  do_reached : rtc Inventory.step empty_state (committed d);
  do_running i x : sessions d !! i = Some (Some x) → running_ok (committed d) x;
  do_locks i j x y l : sessions d !! i = Some (Some x) → sessions d !! j = Some (Some y) → i ≠ j →
    l ∈ held x → l ∉ held y;
}.

Lemma opens_ok r env n m t c :
  plan (env_uuid env n) r = Some t → opens r env n = Some m →
  running_ok c (MkRunning r env m t t m empty_state []).
Proof.
  intros Hp Ho. split; [by exists n|]. right. cbn. split; [constructor|]. split; [apply writes_ok_empty|].
  exists true, [], []. split.
  - by eapply plan_safe.
  - split; [done|]. split; by intros ? ?%not_elem_of_nil.
Qed.

Lemma call_ok c x {B} (q : call B) k n' v' b :
  reservations_wf c → rest x = Call q k → running_ok c x →
  denote q (world x) (tick x) (overlay c (own x)) = (n', v', Ok b) →
  running_ok c (MkRunning (asked x) (world x) (tick0 x) (start x) (k b) n'
                  (capture q (overlay c (own x)) v' (own x))
                  (footprint q (world x) (tick x) (overlay c (own x)) ++ held x)).
Proof.
  intros Hwf Hrest [Ho [[e He]|(Htr & Hw & cl & f & m & Hs & Hk)]] Hd; [by rewrite Hrest in He|].
  rewrite Hrest in Htr, Hs. cbn [safe] in Hs. pose proof Hd as [Hwr Hv]%capture_spec. rewrite <- Hv in Hd.
  set (own' := capture _ _ _ _) in *. set (ls := footprint _ _ _ _ ++ _).
  assert (Hsub : held x ⊆ ls) by (intros l Hl; apply elem_of_app; by right). split; [done|]. cbn.
  destruct (call_relies q k _ cl f m c (own x) own' (held x) (world x) (tick x) n' b Hwf Hs Hk Hd Hwr)
    as [Hfail|[Hr (cl' & f' & m' & Hs' & Hk')]]; [by left|right].
  split; [|split; [|by exists cl', f', m']].
  - eapply trace_call; [|done..]. by eapply trace_held.
  - eapply wrote_ok; [done..|]. by eapply writes_ok_held.
Qed.

(** What remains of the others when one commits. *)
Lemma commit_others c w ls x :
  writes_ok ls c w → (∀ l, l ∈ held x → l ∉ ls) → reservations_wf c → reservations_wf (overlay c w) →
  running_ok c x → running_ok (overlay c w) x.
Proof.
  intros Hw Hdis Hwf Hwf' [Ho Hx]. split; [done|].
  destruct Hx as [Hx|(Htr & Hown & cl & f & m & Hs & H1 & H2 & H3)]; [by left|right].
  split; [by eapply trace_stable|]. split; [by eapply writes_stable|]. exists cl, f, m. split; [done|].
  split; [done|]. split.
  - intros id Hid%H2. pose proof (stable_reservation_there c w empty_state id) as Hs'. rewrite !overlay_empty in Hs'. auto.
  - intros id [Hn Hl]%H3. split; [|done]. by eapply stable_absent.
Qed.

(** A transaction that has come to its end is the serving of its request. *)
Lemma commit_serves c x a :
  running_ok c x → rest x = Ret a → commits x = true →
  ∃ n n', serve (asked x) (world x) n c = (n', overlay c (own x), Ok tt).
Proof.
  intros [(n & Hp & Ho) [[e He]|(Htr & _)]] Hrest Hc; [by rewrite Hrest in He|].
  pose proof (trace_run _ _ _ _ _ _ _ _ Htr) as Hrun. rewrite Hrest in Hrun. destruct a. cbn [run] in Hrun. unfold ret in Hrun.
  exists n. pose proof (serve_plan (asked x) (world x) n c) as Hs. rewrite Hp in Hs. rewrite Hs. clear Hs.
  unfold commits, opens, ExecuteTx in *.
  destruct (asked x) as [| | | | | |]; [by injection Ho as ->; eexists| | | | | |];
    (destruct (env_fault (world x) _); [done|]; apply (inj Some) in Ho; rewrite Ho, Hrun;
     destruct (env_fault (world x) (tick x)); [done|by eexists]).
Qed.

Lemma session_insert (l : list (option running)) i y j x :
  <[i := y]> l !! j = Some (Some x) → i = j ∧ y = Some x ∨ i ≠ j ∧ l !! j = Some (Some x).
Proof.
  destruct (decide (i = j)) as [->|Hne]; [|rewrite list_lookup_insert_ne by done; auto].
  intros [(_ & Hx & _)|[? _]]%list_lookup_insert_Some; [by left; split|done].
Qed.

Lemma statement_ok d d' : database_ok d → statement d d' →
  database_ok d' ∧
  (committed d' = committed d ∨
   ∃ i x n n', sessions d !! i = Some (Some x) ∧
     serve (asked x) (world x) n (committed d) = (n', committed d', Ok tt)).
Proof.
  intros [Hreach Hrun Hlocks] Hst. pose proof (inv_reservations _ (reached_inv _ Hreach)) as Hwf.
  destruct Hst as [d r env n m t Hp Ho|d i x B q k n' v' b Hx Hrest Hfree Hd|d i x a Hx Hrest Hc|d i]; cbn [committed sessions].
  - split; [|by left]. assert (Hlast : ∀ j x, (sessions d ++ [Some (MkRunning r env m t t m empty_state [])]) !! j = Some (Some x) →
      sessions d !! j = Some (Some x) ∨ x = MkRunning r env m t t m empty_state []).
    { intros j x [Hj|[_ [_ [= <-]]%list_lookup_singleton_Some]]%lookup_app_Some; auto. }
    split; cbn [committed sessions]; [done| |].
    + intros j x [Hj| ->]%Hlast; [by eapply Hrun|]. by eapply opens_ok.
    + intros j1 j2 x y l [H1| ->]%Hlast [H2| ->]%Hlast Hne; cbn [held]; [by eapply Hlocks|..];
        try (by intros ? ?%not_elem_of_nil); by intros ?%not_elem_of_nil.
  - split; [|by left]. split; cbn [committed sessions]; [done| |].
    + intros j y [[-> [= <-]]|[_ Hj]]%session_insert; [|by eapply Hrun]. apply call_ok; eauto.
    + intros j1 j2 y1 y2 l [[-> [= <-]]|[Hn1 H1]]%session_insert [[-> [= <-]]|[Hn2 H2]]%session_insert Hne;
        cbn [held]; [done| | |by eapply Hlocks].
      * intros [Hl|Hl]%elem_of_app; [by eapply Hfree|exact (Hlocks _ _ _ _ _ Hx H2 Hne Hl)].
      * intros Hl [Hl'|Hl']%elem_of_app; [by eapply Hfree|exact (Hlocks _ _ _ _ _ H1 Hx Hne Hl Hl')].
  - destruct (commit_serves _ _ _ (Hrun _ _ Hx) Hrest Hc) as (n & n' & Hserve).
    assert (Hreach' : rtc Inventory.step empty_state (see d x)).
    { eapply rtc_r; [done|]. by econstructor. }
    split; [|right; by exists i, x, n, n'].
    assert (Hw : writes_ok (held x) (committed d) (own x)).
    { destruct (Hrun _ _ Hx) as [_ [[e He]|(_ & Hw & _)]]; [by rewrite Hrest in He|done]. }
    split; cbn [committed sessions]; [done| |].
    + intros j y [[_ ?]|[Hne Hj]]%session_insert; [done|].
      eapply commit_others; [done| |done|by apply inv_reservations, reached_inv|by eapply Hrun].
      intros l Hl Hl'. exact (Hlocks _ _ _ _ _ Hx Hj Hne Hl' Hl).
    + intros j1 j2 y1 y2 l [[_ ?]|[_ H1]]%session_insert [[_ ?]|[_ H2]]%session_insert; [done..|]. by eapply Hlocks.
  - split; [|by left]. split; cbn [committed sessions]; [done| |].
    + intros j y [[_ ?]|[_ Hj]]%session_insert; [done|]. by eapply Hrun.
    + intros j1 j2 y1 y2 l [[_ ?]|[_ H1]]%session_insert [[_ ?]|[_ H2]]%session_insert; [done..|]. by eapply Hlocks.
Qed.

Lemma reached_ok d : rtc statement new_database d → database_ok d.
Proof.
  intros H. assert (Hn : database_ok new_database) by (split; cbn; [constructor|by intros ??; rewrite lookup_nil|by intros ?????; rewrite lookup_nil]).
  induction H as [|d1 d2 d3 Hst _ IH]; [done|]. apply IH. by eapply statement_ok.
Qed.

(** ** Every request can be served by its statements *)

Lemma run_statements (t : tx unit) l c i r env m t0 n own ls n' v' a :
  l !! i = Some (Some (MkRunning r env m t0 t n own ls)) →
  (∀ j x, l !! j = Some (Some x) → j = i) →
  run t env n (overlay c own) = (n', v', Ok a) →
  ∃ own' ls', overlay c own' = v' ∧
    rtc statement (MkDatabase c l) (MkDatabase c (<[i := Some (MkRunning r env m t0 (Ret a) n' own' ls')]> l)).
Proof.
  revert l n own ls. induction t as [a'|e|B q k IH]; intros l n own ls Hi Hone; cbn [run].
  - intros [= <- <- <-]. exists own, ls. split; [done|]. rewrite list_insert_id by done. constructor.
  - done.
  - unfold bind. destruct (denote q env n (overlay c own)) as [[n1 v1] [b|e]] eqn:Hd; [|done]. intros Hrun.
    pose proof Hd as [_ Hv]%capture_spec. rewrite <- Hv in Hrun.
    set (own1 := capture q (overlay c own) v1 own) in *.
    set (y := MkRunning r env m t0 (k b) n1 own1 (footprint q env n (overlay c own) ++ ls)).
    assert (Hlen : (i < length l)%nat) by (by eapply lookup_lt_Some).
    destruct (IH b (<[i := Some y]> l) n1 own1 (held y)) as (own' & ls' & Hov & Hst).
    + by apply list_lookup_insert_eq.
    + intros j x [[-> _]|[_ Hj]]%session_insert; [done|by eapply Hone].
    + done.
    + exists own', ls'. split; [done|]. rewrite list_insert_insert_eq in Hst. eapply rtc_l; [|exact Hst].
      eapply (statement_call (MkDatabase c l) i (MkRunning r env m t0 (Call q k) n own ls)); [done..| |exact Hd].
      intros j x l0 Hj Hne. by apply Hone in Hj.
Qed.

(** A transaction that succeeds has begun and committed without a failure. *)
Lemma ExecuteTx_faults {A} (fn : op A) env n s n' s' a :
  ExecuteTx fn env n s = (n', s', Ok a) →
  ∃ n1, env_fault env n = None ∧ fn env (S n) s = (n1, s', Ok a) ∧ env_fault env n1 = None.
Proof.
  unfold ExecuteTx. destruct (env_fault env n); [done|].
  destruct (fn env (S n) s) as [[n1 s1] [a1|e1]]; destruct (env_fault env n1) eqn:Hf; try done.
  - intros [= <- <- <-]. by exists n1.
  - by case_match.
Qed.

Lemma serve_statements d r env n n' s' :
  Forall (λ o, o = None) (sessions d) → serve r env n (committed d) = (n', s', Ok tt) →
  ∃ d', rtc statement d d' ∧ committed d' = s'.
Proof.
  intros Hnone Hs. pose proof (serve_plan r env n (committed d)) as Hp.
  destruct (plan (env_uuid env n) r) as [t|] eqn:Ht.
  2: { destruct Hp as (n1 & res & Hp). rewrite Hp in Hs. injection Hs as _ <- _. by exists d. }
  rewrite Hp in Hs. clear Hp.
  assert (∃ m n1, opens r env n = Some m ∧ run t env m (committed d) = (n1, s', Ok tt) ∧
    ∀ x, asked x = r → world x = env → tick x = n1 → commits x = true) as (m & n1 & Ho & Hrun & Hc).
  { destruct r; try (apply ExecuteTx_faults in Hs as (n1 & Hb & Hrun & Hf); eexists _, n1; unfold opens, commits;
      rewrite Hb; split; [done|]; split; [exact Hrun|]; by intros x -> -> ->; rewrite Hf).
    exists n, n'. split; [done|]. split; [done|]. unfold commits. by intros x ->. }
  assert (Hlast : (sessions d ++ [Some (MkRunning r env m t t m empty_state [])]) !! length (sessions d) =
    Some (Some (MkRunning r env m t t m empty_state []))) by by rewrite lookup_app_r, Nat.sub_diag.
  destruct (run_statements t _ (committed d) (length (sessions d)) r env m t m empty_state [] n1 s' tt Hlast)
    as (own' & ls' & Hov & Hst).
  - intros j x [Hj|[Hj Hx]]%lookup_app_Some; [by apply (Forall_lookup_1 _ _ _ _ Hnone) in Hj|].
    apply list_lookup_singleton_Some in Hx as [Hx _]. lia.
  - by rewrite overlay_empty.
  - eexists. split.
    + eapply rtc_l; [by eapply statement_begin|]. eapply rtc_r; [exact Hst|].
      eapply statement_commit; [by apply list_lookup_insert_eq; eapply lookup_lt_Some|done|by apply Hc].
    + done.
Qed.

(** C4: concurrent inventory transactions are serializable.  Their statements may be
    interleaved in any way the row locks allow, transactions may be broken off at any
    point, and each statement sees what is committed at that moment: the committed tables
    change only when a transaction commits, and then exactly as if its request had been
    served at once, at that moment; so they are always tables that Inventory.v reaches by
    serving one request after the other.  Conversely, what serving a request makes of the
    tables, its statements make of them when no other transaction is under way. *)
Theorem interleaving_serializes d :
  rtc statement new_database d →
  rtc Inventory.step empty_state (committed d) ∧
  (∀ d', statement d d' →
    committed d' = committed d ∨
    ∃ i x n n', sessions d !! i = Some (Some x) ∧
      serve (asked x) (world x) n (committed d) = (n', committed d', Ok tt)) ∧
  ∀ r env n n' s', Forall (λ o, o = None) (sessions d) →
    serve r env n (committed d) = (n', s', Ok tt) → ∃ d', rtc statement d d' ∧ committed d' = s'.
Proof.
  intros H%reached_ok. split; [apply H|]. split.
  - intros d' Hst. by apply statement_ok.
  - intros r env n n' s'. apply serve_statements.
Qed.

(** ** Two orders that are served at the same time *)

(** The next statement of a session. *)
Definition exec (i : nat) (d : database) : option database :=
  match sessions d !! i with
  | Some (Some x) =>
      match rest x with
      | Ret _ => if commits x then Some (MkDatabase (see d x) (<[i := None]> (sessions d))) else None
      | Fail _ => None
      | Call q k =>
          let ls := footprint q (world x) (tick x) (see d x) in
          if forallb (λ p, (p.1 =? i)%nat || match p.2 with
                                            | Some y => forallb (λ l, negb (bool_decide (l ∈ held y))) ls
                                            | None => true
                                            end) (imap pair (sessions d))
          then match denote q (world x) (tick x) (see d x) with
               | (n', v', Ok b) => Some (MkDatabase (committed d)
                   (<[i := Some (MkRunning (asked x) (world x) (tick0 x) (start x) (k b) n'
                                   (capture q (see d x) v' (own x)) (ls ++ held x))]> (sessions d)))
               | _ => None
               end
          else None
      end
  | _ => None
  end.

Lemma exec_statement i d d' : exec i d = Some d' → statement d d'.
Proof.
  unfold exec. destruct (sessions d !! i) as [[x|]|] eqn:Hx; [|done..].
  destruct (rest x) as [a|e|B q k] eqn:Hrest; [|done|].
  - destruct (commits x) eqn:Hc; [|done]. intros [= <-]. by eapply statement_commit.
  - cbv zeta. destruct (forallb _ _) eqn:Hf; [|done]. destruct (denote _ _ _ _) as [[n' v'] [b|e]] eqn:Hd; [|done].
    intros [= <-]. eapply statement_call; [done..| |done]. intros j y l Hy Hne Hl Hin.
    rewrite forallb_forall in Hf. assert (In (j, Some y) (imap pair (sessions d))) as H%Hf.
    { apply list_elem_of_In, elem_of_lookup_imap. by exists j, (Some y). }
    cbn in H. rewrite (proj2 (Nat.eqb_neq j i) Hne) in H. cbn in H. rewrite forallb_forall in H.
    apply list_elem_of_In, H, negb_true_iff, bool_decide_eq_false in Hl. done.
Qed.

Fixpoint execs (l : list nat) (d : database) : option database :=
  match l with [] => Some d | i :: l => match exec i d with Some d => execs l d | None => None end end.

Lemma execs_statements l d d' : execs l d = Some d' → rtc statement d d'.
Proof.
  revert d. induction l as [|i l IH]; intros d; cbn [execs]; [by intros [= ->]; constructor|].
  destruct (exec i d) as [d1|] eqn:H; [|done]. intros Hl. eapply rtc_l; [by eapply exec_statement|by apply IH].
Qed.

(** The sessions of some requests, begun. *)
Fixpoint begins (rs : list (request * N)) (d : database) : option database :=
  match rs with
  | [] => Some d
  | (r, ids) :: rs =>
      let env := calm_env 5 ids in
      match plan (env_uuid env 0) r, opens r env 0 with
      | Some t, Some m =>
          begins rs (MkDatabase (committed d) (sessions d ++ [Some (MkRunning r env m t t m empty_state [])]))
      | _, _ => None
      end
  end.

Lemma begins_statements rs d d' : begins rs d = Some d' → rtc statement d d'.
Proof.
  revert d. induction rs as [|[r ids] rs IH]; intros d; cbn [begins]; [by intros [= ->]; constructor|]. cbv zeta.
  destruct (plan _ r) as [t|] eqn:Hp; [|done]. destruct (opens r _ 0) as [m|] eqn:Ho; [|done].
  intros H. eapply rtc_l; [by eapply statement_begin|by apply IH].
Qed.

(** Order 7 wants A and B, order 8 wants C; they take turns. *)
Definition ex_requests : list (request * N) :=
  [(ReqReplenish "A" 5, 100%N); (ReqReplenish "B" 5, 200%N); (ReqReplenish "C" 5, 300%N);
   (ex_reserve 7 ["A"; "B"], 400%N); (ex_reserve 8 ["C"], 500%N)].
Definition ex_turns : list nat := [0; 0; 1; 1; 2; 2; 3; 4; 3; 4; 3; 4; 3; 4; 3; 4; 4; 3; 3; 3]%nat.
Definition ex_database : option database :=
  match begins ex_requests new_database with Some d => execs ex_turns d | None => None end.

Lemma interleaving_serializes_witness :
  ∃ d, ex_database = Some d ∧ rtc Inventory.step empty_state (committed d) ∧
    stock (committed d) "B" = Some (5, 1) ∧ stock (committed d) "C" = Some (5, 1).
Proof.
  assert (H : (λ d, (stock (committed d) "B", stock (committed d) "C")) <$> ex_database
              = Some (Some (5, 1), Some (5, 1))) by (vm_compute; reflexivity).
  destruct ex_database as [d|] eqn:Hd; [|discriminate]. injection H as H1 H2.
  exists d. split; [reflexivity|]. split; [|split; assumption].
  refine (proj1 (interleaving_serializes d _)).
  unfold ex_database in Hd. destruct (begins ex_requests new_database) as [d0|] eqn:H0; [|discriminate].
  etrans; [exact (begins_statements _ _ _ H0)|exact (execs_statements _ _ _ Hd)].
Defined.
