(* ===== verification/InventoryHandler.v ===== *)
(** internal/domain/inventory/handler.go: the requests of the HTTP interface of the
    inventory, over the service of Inventory.v.

    A handler is a program over the tables of the inventory that always answers: its error
    type is empty.  Logging is left out. *)

From S2P Require Import Prelude Database Strconv Json Decode Web Inventory.

(** * Requests *)

(** What the handlers write as JSON; [Status] for a [StatusResponse]. *)
Inductive answer :=
| Stock (it : Item)
| Reserved (res : ReserveStockResult)
| Status (st : ReservationStatus).

Record ReplenishStockRequest := MkReplenishStockRequest {
  Replenish_Quantity : Z;
  Replenish_ReferenceID : string;
}.

Section handler.
Context `{UP : UuidParse} `{JT : JsonErrorText}.
(** [fmt.Sprintf("%q", s)], of the package fmt. *)
Context (fmt_q : string → string).
Local Open Scope go_scope.

Definition hop := M State Empty_set (Response answer).

Definition StockItemRequest_fields : setter StockItemRequest :=
  object true [("sku", into_string (λ x q, MkStockItemRequest x (Req_Quantity q)));
               ("quantity", into_int (λ z q, MkStockItemRequest (Req_SKU q) z))].

Definition ReserveStockRequest_fields : setter ReserveStockRequest :=
  object true
    [("reservation_id", into_uuid (λ u q,
        MkReserveStockRequest u (Reserve_OrderID q) (Reserve_Items q) (Reserve_TTLSeconds q)));
     ("order_id", into_uuid (λ u q,
        MkReserveStockRequest (Reserve_ReservationID q) u (Reserve_Items q) (Reserve_TTLSeconds q)));
     ("items", in_field Reserve_Items (λ l q,
        MkReserveStockRequest (Reserve_ReservationID q) (Reserve_OrderID q) l (Reserve_TTLSeconds q))
        (slice (MkStockItemRequest "" 0) StockItemRequest_fields));
     ("ttl_seconds", into_int (λ z q,
        MkReserveStockRequest (Reserve_ReservationID q) (Reserve_OrderID q) (Reserve_Items q) z))].

Definition ReplenishStockRequest_fields : setter ReplenishStockRequest :=
  object true [("quantity", into_int (λ z q, MkReplenishStockRequest z (Replenish_ReferenceID q)));
               ("reference_id", into_string (λ x q, MkReplenishStockRequest (Replenish_Quantity q) x))].

(** ** The answers that several requests give *)

Definition bad_request (r : Request) (code title detail : string) : Response answer :=
  RespondProblem ∅ r StatusBadRequest code title detail.
Definition conflict (r : Request) (code title : string) (e : error) : Response answer :=
  RespondProblem ∅ r StatusConflict code title (Error e).
Definition internal_error (r : Request) (detail : string) : Response answer :=
  RespondProblem ∅ r StatusInternalServerError "INTERNAL_ERROR" "Internal Server Error" detail.
Definition reservation_not_found (r : Request) : Response answer :=
  RespondProblem ∅ r StatusNotFound "RESERVATION_NOT_FOUND" "Reservation Not Found" (Error ErrReservationNotFound).
Definition respond_item (it : Item) : Response answer :=
  RespondJSON (SetETag (Item_Version it) ∅) StatusOK (Stock it).

(** ** Stock *)

Definition getInventory (r : Request) : hop :=
  let sku := TrimSpace (URLParam r "sku") in
  if String.eqb sku "" then ret (bad_request r "EMPTY_SKU" "Empty SKU" "SKU cannot be empty") else
  let* item := call (GetStock sku) in
  ret match item with
      | Err ErrSKUNotFound =>
          RespondProblem ∅ r StatusNotFound "SKU_NOT_FOUND" "SKU Not Found" ("SKU " ++ fmt_q sku ++ " does not exist")
      | Err _ => internal_error r "Failed to retrieve stock"
      | Ok item => respond_item item
      end.

Definition replenishInventory (r : Request) : hop :=
  let sku := TrimSpace (URLParam r "sku") in
  if String.eqb sku "" then ret (bad_request r "EMPTY_SKU" "Empty SKU" "SKU cannot be empty") else
  match DecodeJSON ReplenishStockRequest_fields (MkReplenishStockRequest 0 "") r with
  | (_, Some err) => ret (bad_request r "INVALID_REQUEST" "Invalid Request" err)
  | (req, None) =>
      if Replenish_Quantity req <=? 0
      then ret (bad_request r "INVALID_QUANTITY" "Invalid Quantity" "Quantity must be greater than zero") else
      let* item := call (ReplenishStock sku (Replenish_Quantity req)) in
      ret match item with
          | Err ErrInvalidQuantity => bad_request r "INVALID_QUANTITY" "Invalid Quantity" (Error ErrInvalidQuantity)
          | Err ErrEmptySKU => bad_request r "EMPTY_SKU" "Empty SKU" (Error ErrEmptySKU)
          | Err _ => internal_error r "Failed to replenish stock"
          | Ok item => respond_item item
          end
  end.

(** ** Reservations *)

Definition reserveStock (r : Request) : hop :=
  match DecodeJSON ReserveStockRequest_fields (MkReserveStockRequest uuid_Nil uuid_Nil [] 0) r with
  | (_, Some err) => ret (bad_request r "INVALID_REQUEST" "Invalid Request" err)
  | (req, None) =>
      let* result := call (ReserveStock req) in
      ret match result with
          | Err (ErrInsufficientStock _ _ as e) => conflict r "INSUFFICIENT_STOCK" "Insufficient Stock" e
          | Err (ErrInvalidQuantity as e) => bad_request r "INVALID_QUANTITY" "Invalid Quantity" (Error e)
          | Err (ErrEmptySKU as e) => bad_request r "EMPTY_SKU" "Empty SKU" (Error e)
          | Err (ErrEmptyItems as e) => bad_request r "EMPTY_ITEMS" "Empty Items" (Error e)
          | Err (ErrInvalidOrderID as e) => bad_request r "INVALID_ORDER_ID" "Invalid Order ID" (Error e)
          | Err (ErrDuplicateReservationID as e) => conflict r "DUPLICATE_RESERVATION" "Duplicate Reservation" e
          | Err (ErrSKUNotFound as e) =>
              RespondProblem ∅ r StatusNotFound "SKU_NOT_FOUND" "SKU Not Found" (Error e)
          | Err _ => internal_error r "Failed to reserve stock"
          | Ok res => RespondJSON ∅ StatusOK (Reserved res)
          end
  end.

Definition commitStock (r : Request) : hop :=
  match uuid_Parse (URLParam r "id") with
  | None => ret (bad_request r "INVALID_UUID" "Invalid UUID" "Reservation ID must be a valid UUID")
  | Some resID =>
      let* res := call (CommitStock resID) in
      ret match res with
          | Err ErrReservationNotFound => reservation_not_found r
          | Err (ErrReservationAlreadyReleased as e) =>
              conflict r "RESERVATION_ALREADY_RELEASED" "Reservation Already Released" e
          | Err _ => internal_error r "Failed to commit stock"
          | Ok _ => RespondJSON ∅ StatusOK (Status ReservationStatusCommitted)
          end
  end.

(** The reason in the body goes to the log only, so that the body is not read here. *)
Definition releaseStock (r : Request) : hop :=
  match uuid_Parse (URLParam r "id") with
  | None => ret (bad_request r "INVALID_UUID" "Invalid UUID" "Reservation ID must be a valid UUID")
  | Some resID =>
      let* res := call (ReleaseStock resID) in
      ret match res with
          | Err ErrReservationNotFound => reservation_not_found r
          | Err (ErrReservationAlreadyCommitted as e) =>
              conflict r "RESERVATION_ALREADY_COMMITTED" "Reservation Already Committed" e
          | Err _ => internal_error r "Failed to release stock"
          | Ok _ => RespondJSON ∅ StatusOK (Status ReservationStatusReleased)
          end
  end.

(** * What a response says of the stock *)

Inductive endpoint := EPGet | EPReplenish | EPReserve | EPCommit | EPRelease.

Definition handle (ep : endpoint) : Request → hop :=
  match ep with
  | EPGet => getInventory
  | EPReplenish => replenishInventory
  | EPReserve => reserveStock
  | EPCommit => commitStock
  | EPRelease => releaseStock
  end.

(** What a handler may do to the tables. *)
Definition truthful (m : hop) : Prop := ∀ env n s n' s' x,
  inv s → m env n s = (n', s', x) → inv s' ∧ ∃ resp, x = Ok resp ∧ (400 <= StatusCode resp → s' = s).

Lemma truthful_ret resp : truthful (ret resp).
Proof. intros env n s n' s' x Hinv [= <- <- <-]. by eauto. Qed.

Lemma truthful_call {A} (m : op A) (k : result error A → Response answer) :
  preserves inv m → (∀ env n s n' s' e, inv s → m env n s = (n', s', Err e) → s' = s) →
  (∀ a, StatusCode (k (Ok a)) < 400) →
  truthful (bind (call m) (λ a, ret (k a))).
Proof.
  intros Hp Herr Hk env n s n' s' x Hinv. unfold bind, call, ret.
  destruct (m env n s) as [[n1 s1] [a|e]] eqn:Hm; intros [= <- <- <-].
  - split; [by eapply preserves_run|]. eexists. split; [done|]. pose proof (Hk a). lia.
  - pose proof (Herr _ _ _ _ _ _ Hinv Hm) as ->. by eauto.
Qed.

(** The HTTP interface keeps the stock sound: whatever is asked, an answer is given, the
    invariant of the tables is kept, and a response with an error status has changed
    nothing. *)
Theorem handle_truthful ep r : truthful (handle ep r).
Proof.
  destruct ep; cbn [handle];
    [unfold getInventory|unfold replenishInventory|unfold reserveStock|unfold commitStock|unfold releaseStock].
  - cbv zeta. destruct (String.eqb _ ""); [apply truthful_ret|]. apply truthful_call; [| |done].
    + unfold GetStock. destruct (String.eqb _ ""); [apply preserves_fail|]. apply preserves_sql.
      intros now s s' a Hinv. destruct (inventory s !! _); by intros [= <- _].
    + intros env n s n' s' e _. unfold GetStock. destruct (String.eqb _ ""); [by intros [= <- <- <-]|]. apply sql_err_inv.
  - cbv zeta. destruct (String.eqb _ ""); [apply truthful_ret|]. destruct (DecodeJSON _ _ r) as [q [err|]];
      [apply truthful_ret|]. destruct (Replenish_Quantity q <=? 0); [apply truthful_ret|].
    apply truthful_call; [| |done]; unfold ReplenishStock.
    + destruct (_ <=? 0); [apply preserves_fail|]. destruct (String.eqb _ ""); [apply preserves_fail|].
      apply UpsertStock_preserves.
    + intros env n s n' s' e _. destruct (_ <=? 0); [by intros [= <- <- <-]|].
      destruct (String.eqb _ ""); [by intros [= <- <- <-]|]. apply sql_err_inv.
  - destruct (DecodeJSON _ _ r) as [q [err|]]; [apply truthful_ret|]. apply truthful_call; [| |done].
    + intros env n s n' s' [res|e] Hinv Hrun;
        pose proof (ReserveStock_meets_spec _ _ _ _ _ _ _ Hinv Hrun) as H; unfold reserve_spec in H; [|by rewrite H].
      destruct H as (c & _ & He & _). by eapply reserve_effect_inv.
    + intros env n s n' s' e Hinv Hrun. exact (ReserveStock_meets_spec _ _ _ _ _ _ _ Hinv Hrun).
  - destruct (uuid_Parse _) as [id|]; [|apply truthful_ret]. apply truthful_call; [| |done].
    + exact (serve_preserves (ReqCommit id)).
    + intros env n s n' s' e _. apply ExecuteTx_err.
  - destruct (uuid_Parse _) as [id|]; [|apply truthful_ret]. apply truthful_call; [| |done].
    + exact (serve_preserves (ReqRelease id)).
    + intros env n s n' s' e _. apply ExecuteTx_err.
Qed.
End handler.
