(* ===== verification/Payment.v ===== *)
(** internal/domain/payment: captures keyed by (user, idempotency key), their
    simulated outcome, and refunds.

    The tables are those of migrations/00007_create_payment_tables.sql.  The service
    uses no transaction: each repository call is one statement, so the concurrent
    behaviour of refunds is the interleaving of their statements ([refund_step]). *)

From S2P Require Import Prelude Database.

(** * Data (errors.go, models.go) *)

Inductive error : Type :=
| ErrPaymentNotFound
| ErrPaymentDeclined
| ErrPaymentTimeout
| ErrInvalidPaymentAmount
| ErrInvalidRefundAmount (detail : option (Z * Z))
| ErrPaymentAlreadyRefunded
| ErrPaymentCannotBeRefunded
| ErrIdempotencyConflict
| ErrValidation (msg : string)
| ErrDriver (msg : string).

Definition Error (e : error) : string :=
  match e with
  | ErrPaymentNotFound => "payment not found"
  | ErrPaymentDeclined => "payment declined"
  | ErrPaymentTimeout => "payment gateway timeout"
  | ErrInvalidPaymentAmount => "invalid payment amount: must be strictly positive"
  | ErrInvalidRefundAmount d =>
      "invalid refund amount: must be positive and cannot exceed captured amount" ++
      match d with
      | None => ""
      | Some (a, c) =>
          ": refund amount " ++ fmt_d a ++ " exceeds captured amount " ++ fmt_d c
      end
  | ErrPaymentAlreadyRefunded => "payment has already been refunded"
  | ErrPaymentCannotBeRefunded => "only successfully captured payments can be refunded"
  | ErrIdempotencyConflict => "idempotency key reused with conflicting payload parameters"
  | ErrValidation msg => msg
  | ErrDriver msg => msg
  end%string.

#[export] Instance error_GoError : GoError error :=
  {| error_text := Error; driver_error := ErrDriver; driver_error_text := λ _, eq_refl |}.
#[export] Instance error_eq_dec : EqDecision error.
Proof. solve_decision. Defined.

(** [fmt.Errorf] with a prefix and the verb w: the text changes, not the identity. *)
Definition wrap (prefix : string) (e : error) : error :=
  match e with ErrDriver m => ErrDriver (prefix ++ m)%string | _ => e end.

Inductive PaymentStatus :=
| PaymentStatusInitiated
| PaymentStatusProcessing
| PaymentStatusSuccess
| PaymentStatusFailed
| PaymentStatusRefunded.

Inductive RefundStatus :=
| RefundStatusInitiated
| RefundStatusSuccess
| RefundStatusFailed.

#[export] Instance PaymentStatus_eq_dec : EqDecision PaymentStatus.
Proof. solve_decision. Defined.
#[export] Instance RefundStatus_eq_dec : EqDecision RefundStatus.
Proof. solve_decision. Defined.

Record Payment := MkPayment {
  ID : uuid;
  OrderID : uuid;
  UserID : uuid;
  IdempotencyKey : string;
  AmountMinor : Z;
  Currency : string;
  Provider : string;
  Status : PaymentStatus;
  ErrorCode : option string;
  FailureReason : option string;
  CreatedAt : Z;
  UpdatedAt : Z;
}.

Record Refund_row := MkRefund {
  Refund_ID : uuid;
  Refund_PaymentID : uuid;
  Refund_OrderID : uuid;
  Refund_AmountMinor : Z;
  Refund_Reason : string;
  Refund_Status : RefundStatus;
  Refund_ErrorCode : option string;
  Refund_CreatedAt : Z;
  Refund_UpdatedAt : Z;
}.

#[export] Instance Payment_eq_dec : EqDecision Payment.
Proof. solve_decision. Defined.
#[export] Instance Refund_row_eq_dec : EqDecision Refund_row.
Proof. solve_decision. Defined.

(** [Payment.Validate] *)
Definition Validate (p : Payment) : result error unit :=
  if (ID p =? uuid_Nil)%N then Err (ErrValidation "payment id cannot be nil") else
  if (OrderID p =? uuid_Nil)%N then Err (ErrValidation "order id cannot be nil") else
  if (UserID p =? uuid_Nil)%N then Err (ErrValidation "user id cannot be nil") else
  if AmountMinor p <=? 0
  then Err (ErrValidation ("amount minor must be strictly positive, got " ++ fmt_d (AmountMinor p))%string)
  else if String.eqb (Currency p) "" then Err (ErrValidation "currency cannot be empty")
  else Ok tt.

(** * Tables (migrations/00007_create_payment_tables.sql) *)

Record State := MkState {
  payments : gmap uuid Payment;
  payment_refunds : list Refund_row;
}.

Definition empty_state : State := MkState ∅ [].

Definition set_payments (s : State) (m : gmap uuid Payment) : State :=
  MkState m (payment_refunds s).
Definition set_refunds (s : State) (l : list Refund_row) : State :=
  MkState (payments s) l.

(** The column types and the CHECK constraint of [payments]. *)
Definition payment_ok (p : Payment) : bool :=
  int8_ok (AmountMinor p) && (0 <? AmountMinor p) && varchar_ok 128 (IdempotencyKey p)
  && varchar_ok 3 (Currency p) && varchar_ok 64 (Provider p)
  && varchar_ok 64 (default "" (ErrorCode p)).

(** The column types and the CHECK constraint of [payment_refunds]. *)
Definition refund_ok (r : Refund_row) : bool :=
  int8_ok (Refund_AmountMinor r) && (0 <? Refund_AmountMinor r)
  && varchar_ok 255 (Refund_Reason r) && varchar_ok 64 (default "" (Refund_ErrorCode r)).

Definition pg_check : string := "new row violates a constraint of its table".
Definition pg_unique : string := "duplicate key value violates unique constraint".
Definition pg_fk : string := "insert violates foreign key constraint".

Definition op := M State error.

(** * Repository (repository.go) *)

(** The payment of a user under an idempotency key; the pair is unique. *)
Definition find_by_key (s : State) (userID : uuid) (key : string) : option Payment :=
  snd <$> list_find (λ p, UserID p = userID ∧ IdempotencyKey p = key) (map_to_list (payments s)).*2.

Section repository.
Local Open Scope go_scope.

(** The defaults [CreatePayment] writes into its argument. *)
Definition fill_payment (p : Payment) : op Payment :=
  let* created := if CreatedAt p =? time_Zero then time_now else ret (CreatedAt p) in
  let updated := if UpdatedAt p =? time_Zero then created else UpdatedAt p in
  let provider := if String.eqb (Provider p) "" then "SIMULATED" else Provider p in
  ret (MkPayment (ID p) (OrderID p) (UserID p) (IdempotencyKey p) (AmountMinor p) (Currency p)
         provider (Status p) (ErrorCode p) (FailureReason p) created updated).

(** [CreatePayment]; it returns the payment with its defaults, which the code
    writes through the pointer it is given. *)
Definition CreatePayment (p : Payment) : op Payment :=
  lift_result (Validate p) ;;;
  let* p := fill_payment p in
  sql "failed to insert payment: " (λ _ s,
    if negb (payment_ok p) then Err (ErrDriver ("failed to insert payment: " ++ pg_check)%string) else
    match payments s !! ID p, find_by_key s (UserID p) (IdempotencyKey p) with
    | None, None => Ok (set_payments s (<[ID p := p]> (payments s)), p)
    | _, _ => Err ErrIdempotencyConflict
    end).

Definition GetPaymentByID (id : uuid) : op Payment :=
  sql "failed to scan payment: " (λ _ s,
    match payments s !! id with
    | Some p => Ok (s, p)
    | None => Err ErrPaymentNotFound
    end).

Definition GetPaymentByIdempotency (userID : uuid) (key : string) : op Payment :=
  sql "failed to scan payment: " (λ _ s,
    match find_by_key s userID key with
    | Some p => Ok (s, p)
    | None => Err ErrPaymentNotFound
    end).

Definition set_status (p : Payment) (st : PaymentStatus) (code reason : option string) (now : Z) :
    Payment :=
  MkPayment (ID p) (OrderID p) (UserID p) (IdempotencyKey p) (AmountMinor p) (Currency p)
    (Provider p) st code reason (CreatedAt p) now.

Definition UpdatePaymentStatus (id : uuid) (status : PaymentStatus)
    (errorCode failureReason : option string) : op unit :=
  sql "failed to update payment status: " (λ now s,
    match payments s !! id with
    | None => Err ErrPaymentNotFound
    | Some p =>
        let p' := set_status p status errorCode failureReason now in
        if negb (payment_ok p')
        then Err (ErrDriver ("failed to update payment status: " ++ pg_check)%string)
        else Ok (set_payments s (<[id := p']> (payments s)), tt)
    end).

(** [TransitionPaymentStatus]: a compare-and-set on the status, then, when no row
    matched, a second statement that finds out why. *)
Definition TransitionPaymentStatus (id : uuid) (fromStatus toStatus : PaymentStatus) : op unit :=
  let* affected := sql "failed to transition payment status: " (λ now s,
    match payments s !! id with
    | Some p =>
        if decide (Status p = fromStatus)
        then Ok (set_payments s (<[id := set_status p toStatus (ErrorCode p) (FailureReason p) now]>
                                   (payments s)), true)
        else Ok (s, false)
    | None => Ok (s, false)
    end) in
  if (affected : bool) then ret tt else
  let* current := GetPaymentByID id in
  match Status current with
  | PaymentStatusRefunded => fail ErrPaymentAlreadyRefunded
  | _ => fail ErrPaymentCannotBeRefunded
  end.

Definition CreateRefund (refund : Refund_row) : op Refund_row :=
  let* id := if (Refund_ID refund =? uuid_Nil)%N then uuid_New else ret (Refund_ID refund) in
  let* created := if Refund_CreatedAt refund =? time_Zero then time_now
                  else ret (Refund_CreatedAt refund) in
  let updated := if Refund_UpdatedAt refund =? time_Zero then created
                 else Refund_UpdatedAt refund in
  let r := MkRefund id (Refund_PaymentID refund) (Refund_OrderID refund)
             (Refund_AmountMinor refund) (Refund_Reason refund) (Refund_Status refund)
             (Refund_ErrorCode refund) created updated in
  sql "failed to insert payment refund: " (λ _ s,
    if negb (refund_ok r)
    then Err (ErrDriver ("failed to insert payment refund: " ++ pg_check)%string) else
    if decide (Exists (λ x, Refund_ID x = id) (payment_refunds s))
    then Err (ErrDriver ("failed to insert payment refund: " ++ pg_unique)%string) else
    match payments s !! Refund_PaymentID r with
    | None => Err (ErrDriver ("failed to insert payment refund: " ++ pg_fk)%string)
    | Some _ => Ok (set_refunds s (payment_refunds s ++ [r]), r)
    end).

Definition refund_le (x y : Refund_row) : Prop := Refund_CreatedAt x <= Refund_CreatedAt y.
#[local] Instance refund_le_dec : RelDecision refund_le.
Proof. intros x y. unfold refund_le. apply _. Defined.

Definition refunds_of (s : State) (paymentID : uuid) : list Refund_row :=
  filter (λ r, Refund_PaymentID r = paymentID) (payment_refunds s).

Definition GetRefundsByPaymentID (paymentID : uuid) : op (list Refund_row) :=
  sql "failed to query payment refunds: " (λ _ s,
    Ok (s, merge_sort refund_le (refunds_of s paymentID))).
End repository.

(** * Service (service.go) *)

(** The simulated gateway: status, error code, failure reason and returned error
    for a trigger token. *)
Definition simulate (triggerOrToken : string) :
    PaymentStatus * option string * option string * option error :=
  let tokenLower := ToLower (TrimSpace triggerOrToken) in
  let eq t := String.eqb tokenLower t in
  let isDecline :=
    eq "fail" || eq "decline" || eq "force_failure" || eq "sim_tok_decline"
    || eq "decline_insufficient_funds" || eq "decline_fraud" || eq "insufficient_funds"
    || eq "fraud" in
  let isTimeout := eq "timeout" || eq "timeout_latency" in
  let isNetworkError := eq "network_error" in
  if isDecline then
    (PaymentStatusFailed, Some "PAYMENT_DECLINED",
     Some "Payment was declined by the simulated card issuer", Some ErrPaymentDeclined)
  else if isTimeout then
    (PaymentStatusFailed, Some "GATEWAY_TIMEOUT",
     Some "Simulated payment gateway timeout", Some ErrPaymentTimeout)
  else if isNetworkError then
    (PaymentStatusFailed, Some "NETWORK_ERROR",
     Some "Simulated network failure communicating with gateway", Some ErrPaymentDeclined)
  else (PaymentStatusSuccess, None, None, None).

(** What a call returns to its caller: Go's pair of a payment and an error, both
    of which may be present. *)
Definition reply := (option Payment * option error)%type.

(** The answer when the key is already taken by [existing]. *)
Definition replay (existing : Payment) (orderID : uuid) (amountMinor : Z) : reply :=
  if negb (OrderID existing =? orderID)%N || negb (AmountMinor existing =? amountMinor)
  then (None, Some ErrIdempotencyConflict) else
  match Status existing with
  | PaymentStatusSuccess | PaymentStatusRefunded => (Some existing, None)
  | PaymentStatusFailed => (Some existing, Some ErrPaymentDeclined)
  | _ => (Some existing, None)
  end.

Section service.
Context `{UT : UuidText}.
Local Open Scope go_scope.

(** [AuthorizeAndCapture] once the key is known: look it up, decide, insert, and
    look it up again when another call has inserted it meanwhile. *)
Definition capture_keyed (orderID userID : uuid) (amountMinor : Z)
    (currency triggerOrToken idempotencyKey : string) : op reply :=
  let* found := try (GetPaymentByIdempotency userID idempotencyKey) in
  match found with
  | Ok existing => ret (replay existing orderID amountMinor)
  | Err _ =>
      let* paymentID := uuid_New in
      let* now := time_now in
      let '(status, errorCode, failureReason, returnErr) := simulate triggerOrToken in
      let p := MkPayment paymentID orderID userID idempotencyKey amountMinor currency
                 "SIMULATED" status errorCode failureReason now now in
      let* saved := try (CreatePayment p) in
      match saved with
      | Ok p => ret (Some p, returnErr)
      | Err ErrIdempotencyConflict =>
          let* again := try (GetPaymentByIdempotency userID idempotencyKey) in
          match again with
          | Ok existing => ret (replay existing orderID amountMinor)
          | Err _ => ret (None, Some ErrIdempotencyConflict)
          end
      | Err saveErr => ret (None, Some saveErr)
      end
  end.

Definition AuthorizeAndCapture (orderID userID : uuid) (amountMinor : Z)
    (currency triggerOrToken idempotencyKey : string) : op reply :=
  if amountMinor <=? 0 then ret (None, Some ErrInvalidPaymentAmount) else
  let currency := if String.eqb currency "" then "USD" else currency in
  let* idempotencyKey :=
    if String.eqb idempotencyKey "" then (let* u := uuid_New in ret (uuid_String u))
    else ret idempotencyKey in
  capture_keyed orderID userID amountMinor currency triggerOrToken idempotencyKey.
End service.

Section refunding.
Local Open Scope go_scope.

(** [Refund], up to the guards: the payment it may refund. *)
Definition refund_check (paymentID : uuid) (amountMinor : Z) : op Payment :=
  let* found := try (GetPaymentByID paymentID) in
  match found with
  | Err _ => fail ErrPaymentNotFound
  | Ok payment =>
      match Status payment with
      | PaymentStatusRefunded => fail ErrPaymentAlreadyRefunded
      | PaymentStatusSuccess =>
          if AmountMinor payment <? amountMinor
          then fail (ErrInvalidRefundAmount (Some (amountMinor, AmountMinor payment)))
          else ret payment
      | _ => fail ErrPaymentCannotBeRefunded
      end
  end.

Definition refund_transition (paymentID : uuid) : op unit :=
  TransitionPaymentStatus paymentID PaymentStatusSuccess PaymentStatusRefunded.

Definition refund_record (payment : Payment) (paymentID : uuid) (amountMinor : Z)
    (reason : string) : op Refund_row :=
  let* now := time_now in
  let* id := uuid_New in
  map_err (wrap "failed to save refund record: ")
    (CreateRefund (MkRefund id paymentID (OrderID payment) amountMinor reason
                     RefundStatusSuccess None now now)).

(** [Refund]; the user and the idempotency key it is given are not used. *)
Definition Refund (paymentID userID : uuid) (amountMinor : Z) (reason idempotencyKey : string) :
    op Refund_row :=
  if amountMinor <=? 0 then fail (ErrInvalidRefundAmount None) else
  let* payment := refund_check paymentID amountMinor in
  refund_transition paymentID ;;;
  refund_record payment paymentID amountMinor reason.

(** [Service.GetPaymentByID] *)
Definition service_GetPaymentByID (id : uuid) : op Payment := GetPaymentByID id.
End refunding.

(** * Saga adapter (adapter.go) *)

Section adapter.
Context `{UT : UuidText}.
Local Open Scope go_scope.

Definition SagaAdapter_AuthorizeAndCapture (orderID customerID : uuid) (amountMinor : Z)
    (currency paymentToken idempotencyKey : string) : op (uuid * option error) :=
  let* r := AuthorizeAndCapture orderID customerID amountMinor currency paymentToken
              idempotencyKey in
  ret match r with
      | (Some p, Some e) => (ID p, Some e)
      | (None, Some e) => (uuid_Nil, Some e)
      | (Some p, None) => (ID p, None)
      | (None, None) => (uuid_Nil, None)
      end.

Definition SagaAdapter_Refund (paymentID orderID : uuid) (amountMinor : Z)
    (reason idempotencyKey : string) : op unit :=
  if (paymentID =? uuid_Nil)%N then ret tt else
  Refund paymentID uuid_Nil amountMinor reason idempotencyKey ;;;
  ret tt.
End adapter.

(** * The invariant *)

Record inv (s : State) : Prop := {
  inv_id id p : payments s !! id = Some p → ID p = id;
  inv_key id1 id2 p1 p2 :
    payments s !! id1 = Some p1 → payments s !! id2 = Some p2 →
    UserID p1 = UserID p2 → IdempotencyKey p1 = IdempotencyKey p2 → id1 = id2;
  inv_positive id p : payments s !! id = Some p → 0 < AmountMinor p;
}.

(** * Lemmas *)

Lemma find_by_key_Some s u k p :
  find_by_key s u k = Some p →
  UserID p = u ∧ IdempotencyKey p = k ∧ ∃ id, payments s !! id = Some p.
Proof.
  unfold find_by_key. rewrite fmap_Some. intros ([i p'] & H & ->). simpl.
  apply list_find_Some in H as (Hi & [Hu Hk] & _). split_and!; [done..|].
  apply list_elem_of_lookup_2, list_elem_of_fmap in Hi as ([id q] & -> & Hin).
  exists id. by apply elem_of_map_to_list.
Qed.

Lemma find_by_key_None s u k id p :
  find_by_key s u k = None → payments s !! id = Some p → ¬ (UserID p = u ∧ IdempotencyKey p = k).
Proof.
  unfold find_by_key. rewrite fmap_None, list_find_None, Forall_forall.
  intros H Hp. apply (H p), list_elem_of_fmap. exists (id, p). split; [done|].
  by apply elem_of_map_to_list.
Qed.

Lemma find_by_key_is s id p :
  inv s → payments s !! id = Some p → find_by_key s (UserID p) (IdempotencyKey p) = Some p.
Proof.
  intros Hinv Hp. destruct (find_by_key s (UserID p) (IdempotencyKey p)) as [q|] eqn:H.
  - apply find_by_key_Some in H as (Hu & Hk & id' & Hq).
    assert (id = id') as -> by (eapply (inv_key s); eauto). congruence.
  - exfalso. by apply (find_by_key_None s _ _ _ _ H Hp).
Qed.

Lemma lookup_triple env s u k :
  triple env (λ s', s' = s) (try (GetPaymentByIdempotency u k))
    (λ r s', s' = s ∧ match r with
       | Ok p => find_by_key s u k = Some p
       | Err e => faulted env ∨ find_by_key s u k = None end) (λ _ _, False).
Proof.
  eapply (triple_try _ _ _ _ (λ p s', s' = s ∧ find_by_key s u k = Some p) _
    (λ _ s', s' = s ∧ (faulted env ∨ find_by_key s u k = None))); [|done..].
  apply triple_sql.
  - intros n s' -> _. by destruct (find_by_key s u k); [|split; [|right]].
  - intros n msg s' -> Hn. split; [done|left]. by exists n, msg.
Qed.

(** The payment a call creates. *)
Record captured (orderID userID : uuid) (amountMinor : Z) (currency trigger key : string)
    (p : Payment) : Prop := {
  cap_order : OrderID p = orderID;
  cap_user : UserID p = userID;
  cap_key : IdempotencyKey p = key;
  cap_amount : AmountMinor p = amountMinor;
  cap_currency : Currency p = currency;
  cap_outcome : (Status p, ErrorCode p, FailureReason p) = (simulate trigger).1;
}.

Lemma fill_payment_triple env s p :
  Provider p ≠ "" →
  triple env (λ s', s' = s) (fill_payment p)
    (λ p' s', s' = s ∧
       p' = MkPayment (ID p) (OrderID p) (UserID p) (IdempotencyKey p) (AmountMinor p)
              (Currency p) (Provider p) (Status p) (ErrorCode p) (FailureReason p)
              (CreatedAt p') (UpdatedAt p'))
    (λ _ _, False).
Proof.
  intros Hp. unfold fill_payment. destruct (String.eqb_spec (Provider p) ""); [done|].
  eapply (triple_bind _ _ _ _ _ (λ _ s', s' = s)).
  - destruct (CreatedAt p =? time_Zero); [by apply triple_time|].
    by apply (triple_ret env _ (λ _ s', s' = s)).
  - intros c. eapply triple_pre; [apply triple_ret|]. by intros s' ->.
Qed.

(** Saving a payment: it is recorded under its key, or nothing happens. *)
Lemma CreatePayment_triple env s p :
  Provider p ≠ "" →
  triple env (λ s', s' = s) (CreatePayment p)
    (λ p' s', s' = set_payments s (<[ID p := p']> (payments s)) ∧
       payments s !! ID p = None ∧ find_by_key s (UserID p) (IdempotencyKey p) = None ∧
       Validate p = Ok tt ∧
       p' = MkPayment (ID p) (OrderID p) (UserID p) (IdempotencyKey p) (AmountMinor p)
              (Currency p) (Provider p) (Status p) (ErrorCode p) (FailureReason p)
              (CreatedAt p') (UpdatedAt p'))
    (λ e s', s' = s ∧ (faulted env ∨ Validate p = Err e ∨ payment_ok p = false ∨
       (e = ErrIdempotencyConflict ∧
          (is_Some (payments s !! ID p) ∨ is_Some (find_by_key s (UserID p) (IdempotencyKey p)))))).
Proof.
  intros Hp. unfold CreatePayment.
  eapply (triple_bind _ _ _ _ _ (λ _ s', s' = s ∧ Validate p = Ok tt)).
  { apply triple_lift. intros s' ->. destruct (Validate p) as [[]|e]; [done|auto]. }
  intros []. apply triple_at. intros s1 [-> Hv].
  eapply triple_bind.
  { eapply triple_conseq; [by apply (fill_payment_triple env s p)|done| |by intros].
    intros p' s' H. exact H. }
  intros p'. apply triple_at. intros s1 [-> Hp'].
  apply triple_sql.
  2:{ intros n msg s' -> Hn. split; [done|left]. by exists n, msg. }
  intros n s' -> _. replace (payment_ok p') with (payment_ok p) by (rewrite Hp'; done).
  replace (ID p') with (ID p) by (rewrite Hp'; done).
  replace (UserID p') with (UserID p) by (rewrite Hp'; done).
  replace (IdempotencyKey p') with (IdempotencyKey p) by (rewrite Hp'; done).
  destruct (payment_ok p) eqn:Hok; simpl; [|auto 6].
  destruct (payments s !! ID p) eqn:H1; [by split; [|eauto 8]|].
  destruct (find_by_key s (UserID p) (IdempotencyKey p)) eqn:H2; [by split; [|eauto 8]|done].
Qed.

(** A request the payments table can record. *)
Definition recordable (orderID userID : uuid) (amountMinor : Z) (currency key : string) : Prop :=
  orderID ≠ uuid_Nil ∧ userID ≠ uuid_Nil ∧ 0 < amountMinor <= MaxInt64 ∧ currency ≠ "" ∧
  varchar_ok 3 currency = true ∧ varchar_ok 128 key = true.

(** [uuid.New] hands out an identifier that is nil or already a payment's. *)
Definition id_clash (env : Env) (s : State) : Prop :=
  ∃ n, env_uuid env n = uuid_Nil ∨ is_Some (payments s !! env_uuid env n).

(** What [AuthorizeAndCapture] does, once currency and key have their defaults. *)
Definition capture_spec (orderID userID : uuid) (amountMinor : Z) (currency trigger key : string)
    (env : Env) (s s' : State) (rep : reply) : Prop :=
  match find_by_key s userID key with
  | Some p0 => s' = s ∧ (rep = replay p0 orderID amountMinor ∨
                         (faulted env ∧ ∃ e, rep = (None, Some e)))
  | None =>
      (∃ p, s' = set_payments s (<[ID p := p]> (payments s)) ∧ payments s !! ID p = None ∧
         captured orderID userID amountMinor currency trigger key p ∧
         rep = (Some p, (simulate trigger).2)) ∨
      (s' = s ∧ (∃ e, rep = (None, Some e)) ∧
         (faulted env ∨ id_clash env s ∨ ¬ recordable orderID userID amountMinor currency key))
  end.

Lemma simulate_code t : varchar_ok 64 (default "" (simulate t).1.1.2) = true.
Proof. unfold simulate. repeat case_match; simplify_eq/=; done. Qed.

Lemma recordable_ok id o u a c k st code why t1 t2 p :
  recordable o u a c k → id ≠ uuid_Nil → varchar_ok 64 (default "" code) = true →
  p = MkPayment id o u k a c "SIMULATED" st code why t1 t2 →
  Validate p = Ok tt ∧ payment_ok p = true.
Proof.
  intros (Ho & Hu & Ha & Hc & Hc3 & Hk) Hid Hcode ->.
  unfold Validate, payment_ok. simpl. rewrite Hcode, Hk, Hc3.
  apply N.eqb_neq in Ho, Hu, Hid. rewrite Ho, Hu, Hid. apply String.eqb_neq in Hc. rewrite Hc.
  unfold int8_ok, MinInt64 in *. destruct (Z.leb_spec a 0); [lia|]. split; [done|].
  rewrite !andb_true_iff, !Z.leb_le, Z.ltb_lt. repeat split; lia || done.
Qed.

(** The save of a freshly built payment, as the caller sees it. *)
Definition saved_spec (o u : uuid) (a : Z) (c t k : string) (env : Env) (s : State)
    (r : result error Payment) (s' : State) : Prop :=
  match r with
  | Ok p => s' = set_payments s (<[ID p := p]> (payments s)) ∧ payments s !! ID p = None ∧
            find_by_key s u k = None ∧ captured o u a c t k p
  | Err e => s' = s ∧ (faulted env ∨ (id_clash env s ∨ ¬ recordable o u a c k) ∨
                       (e = ErrIdempotencyConflict ∧ is_Some (find_by_key s u k)))
  end.

Lemma save_triple env s n0 o u a c t k now :
  let '(st, code, why, _) := simulate t in
  triple env (λ s', s' = s)
    (try (CreatePayment (MkPayment (env_uuid env n0) o u k a c "SIMULATED" st code why now now)))
    (saved_spec o u a c t k env s) (λ _ _, False).
Proof.
  pose proof (simulate_code t) as Hcode.
  destruct (simulate t) as [[[st code] why] err] eqn:Hsim. simpl in Hcode.
  set (p := MkPayment _ o u k a c "SIMULATED" st code why now now).
  eapply triple_try; [by apply (CreatePayment_triple env s p)| |].
  - intros p' s' (-> & Hn & Hk & _ & Hp'). rewrite Hp'. unfold saved_spec. split_and!; try done.
    split; try done. simpl. by rewrite Hsim.
  - intros e s' [-> H]. split; [done|].
    destruct (decide (env_uuid env n0 = uuid_Nil)) as [Hz|Hz].
    { right; left; left. exists n0. by left. }
    assert (Hok : recordable o u a c k → Validate p = Ok tt ∧ payment_ok p = true)
      by (intros Hrec; by eapply recordable_ok).
    destruct H as [H|[H|[H|[-> [H|H]]]]]; [by left| | | |by auto].
    + right; left; right. intros [H1 _]%Hok. congruence.
    + right; left; right. intros [_ H1]%Hok. congruence.
    + right; left; left. exists n0. by right.
Qed.

Lemma capture_keyed_triple env s o u a c t k :
  triple env (λ s', s' = s) (capture_keyed o u a c t k)
    (λ rep s', capture_spec o u a c t k env s s' rep) (λ _ _, False).
Proof.
  unfold capture_keyed.
  eapply triple_bind; [apply lookup_triple|]. intros found. apply triple_at. intros s1 [-> Hf].
  destruct found as [p0|e0].
  { eapply triple_pre; [apply triple_ret|]. intros s1 ->. unfold capture_spec. rewrite Hf. auto. }
  eapply (triple_bind _ _ _ _ _ (λ id s1, s1 = s ∧ ∃ n, id = env_uuid env n)).
  { apply triple_uuid. eauto. }
  intros id. eapply (triple_bind _ _ _ _ _ (λ _ s1, s1 = s ∧ ∃ n, id = env_uuid env n)).
  { by apply triple_time. }
  intros now. apply triple_at. intros s1 [-> [n0 ->]].
  pose proof (save_triple env s n0 o u a c t k now) as Hsave.
  destruct (simulate t) as [[[st code] why] err] eqn:Hsim.
  eapply triple_bind; [exact Hsave|]. intros saved. apply triple_at. intros s1 Hs.
  destruct saved as [p|e].
  { destruct Hs as (-> & Hn & Hk & Hc). eapply triple_pre; [apply triple_ret|]. intros s2 ->.
    unfold capture_spec. rewrite Hk, Hsim. left. by exists p. }
  destruct Hs as [-> He].
  assert (Hret : ∀ rep, (∃ e, rep = (None, Some e)) → find_by_key s u k = None →
    capture_spec o u a c t k env s s rep).
  { intros rep Hrep Hn. unfold capture_spec. rewrite Hn. right. split_and!; [done..|].
    rewrite Hn in He. destruct He as [?|[[?|?]|[_ [? ?]]]]; try done; auto. }
  assert (Hcase : ∀ rep, (∃ e, rep = (None, Some e)) →
    faulted env ∨ e ≠ ErrIdempotencyConflict → capture_spec o u a c t k env s s rep).
  { intros rep Hrep Hor. destruct (find_by_key s u k) as [p0|] eqn:Hk; [|by apply Hret].
    unfold capture_spec. rewrite Hk. split; [done|].
    right. split; [|done]. destruct Hor as [?|Hne]; [done|]. by destruct Hf. }
  destruct (decide (e = ErrIdempotencyConflict)) as [->|Hne].
  - eapply triple_bind; [apply lookup_triple|]. intros again. apply triple_at. intros s2 [-> Ha].
    destruct again as [p0|e1]; (eapply triple_pre; [apply triple_ret|]); intros s2 ->.
    + unfold capture_spec. rewrite Ha. auto.
    + destruct Ha as [Ha|Ha]; [apply Hcase; eauto|apply Hret; eauto].
  - destruct e; try done; (eapply triple_pre; [apply triple_ret|]); intros s2 ->;
      apply Hcase; eauto.
Qed.

(** The invariant survives a capture. *)
Lemma capture_spec_inv o u a c t k env s s' rep :
  0 < a → inv s → capture_spec o u a c t k env s s' rep → inv s'.
Proof.
  intros Ha Hinv. unfold capture_spec.
  destruct (find_by_key s u k) eqn:Hk; [by intros [-> _]|].
  intros [(p & -> & Hn & Hc & _)|[-> _]]; [|done].
  destruct Hinv as [H1 H2 H3]. split; simpl.
  - intros id q. rewrite lookup_insert_Some. intros [[<- <-]|[_ ?]]; eauto.
  - intros id1 id2 p1 p2. rewrite !lookup_insert_Some.
    intros [[<- <-]|[Hn1 Hl1]] [[<- <-]|[Hn2 Hl2]] Hu Hkey; [done| | |by eauto]; exfalso.
    + eapply (find_by_key_None s u k id2 p2 Hk Hl2). rewrite <-(cap_user _ _ _ _ _ _ _ Hc),
        <-(cap_key _ _ _ _ _ _ _ Hc). done.
    + eapply (find_by_key_None s u k id1 p1 Hk Hl1). rewrite <-(cap_user _ _ _ _ _ _ _ Hc),
        <-(cap_key _ _ _ _ _ _ _ Hc). done.
  - intros id q. rewrite lookup_insert_Some. intros [[<- <-]|[_ ?]]; [|eauto].
    by rewrite (cap_amount _ _ _ _ _ _ _ Hc).
Qed.

Lemma replay_Some p0 o a p e :
  (Some p, e) = replay p0 o a → p = p0 ∧ OrderID p0 = o ∧ AmountMinor p0 = a.
Proof.
  unfold replay. destruct (N.eqb_spec (OrderID p0) o), (Z.eqb_spec (AmountMinor p0) a); simpl;
    try done. destruct (Status p0); intros [= -> _]; done.
Qed.

Section capture_properties.
Context `{UT : UuidText}.

Definition default_currency (currency : string) : string :=
  if String.eqb currency "" then "USD" else currency.

Lemma AuthorizeAndCapture_run o u a c t k env n s n' s' r :
  0 < a → k ≠ "" → AuthorizeAndCapture o u a c t k env n s = (n', s', r) →
  ∃ rep, r = Ok rep ∧ capture_spec o u a (default_currency c) t k env s s' rep.
Proof.
  intros Ha Hk. unfold AuthorizeAndCapture.
  destruct (Z.leb_spec a 0); [lia|]. destruct (String.eqb_spec k ""); [done|].
  rewrite (bind_ok _ _ env n s n s k) by done. intros Hrun.
  pose proof (capture_keyed_triple env s o u a (default_currency c) t k n s n' s' r eq_refl Hrun) as Hs.
  destruct r as [rep|e]; [by exists rep|done].
Qed.

(** C28: a capture with an idempotency key.  When the user has a payment under the
    key, nothing is written and the stored payment answers the call, or a conflict
    when the order or the amount differ.  Otherwise exactly one payment is
    recorded, for that order, user, amount and key, SUCCESS or FAILED as the
    simulated gateway decides, or the call fails and nothing is written, which
    happens only on a driver failure, an identifier clash or an input the table
    cannot hold. *)
Theorem AuthorizeAndCapture_spec o u a c t k env n s n' s' r :
  0 < a → k ≠ "" → AuthorizeAndCapture o u a c t k env n s = (n', s', r) →
  ∃ rep, r = Ok rep ∧ capture_spec o u a (default_currency c) t k env s s' rep.
Proof. apply AuthorizeAndCapture_run. Qed.

(** Retrying a capture never charges twice: whatever happened to the first
    call, once it has recorded a payment, every later call with the same user and
    key, in any environment, leaves the tables alone, and a fault-free one with the
    same order and amount returns that same payment (a failed one is reported as
    declined, whatever error the first call reported). *)
Theorem capture_retry o u a c t k env1 n1 s n1' s1 p e1 env2 n2 c2 t2 n2' s2 r2 :
  inv s → 0 < a → k ≠ "" →
  AuthorizeAndCapture o u a c t k env1 n1 s = (n1', s1, Ok (Some p, e1)) →
  AuthorizeAndCapture o u a c2 t2 k env2 n2 s1 = (n2', s2, r2) →
  s2 = s1 ∧ find_by_key s1 u k = Some p ∧
  (no_faults env2 → r2 = Ok (Some p, if decide (Status p = PaymentStatusFailed)
                                     then Some ErrPaymentDeclined else None)).
Proof.
  intros Hinv Ha Hk H1 H2.
  apply AuthorizeAndCapture_run in H1 as (rep1 & [= <-] & H1); [|done..].
  apply AuthorizeAndCapture_run in H2 as (rep2 & -> & H2); [|done..].
  pose proof (capture_spec_inv _ _ _ _ _ _ _ _ _ _ Ha Hinv H1) as Hinv1.
  assert (H : find_by_key s1 u k = Some p ∧ OrderID p = o ∧ AmountMinor p = a).
  { unfold capture_spec in H1. destruct (find_by_key s u k) as [p0|] eqn:Hf.
    - destruct H1 as [-> [Hr|[_ [e ?]]]]; [|done]. apply replay_Some in Hr as (-> & ? & ?). done.
    - destruct H1 as [(q & -> & Hn & Hc & [= -> _])|[_ [[e ?] _]]]; [|done].
      rewrite <-(cap_user _ _ _ _ _ _ _ Hc), <-(cap_key _ _ _ _ _ _ _ Hc) at 1.
      split_and!; [|apply Hc..]. apply (find_by_key_is _ (ID q)); [done|].
      simpl. by rewrite lookup_insert_eq. }
  destruct H as (Hf & Ho & Hm). unfold capture_spec in H2. rewrite Hf in H2.
  destruct H2 as [-> H2]. split_and!; [done..|]. intros Hnf%no_faults_faulted.
  destruct H2 as [->|[? _]]; [|done]. f_equal. unfold replay.
  rewrite Ho, Hm, N.eqb_refl, Z.eqb_refl. simpl. by destruct (Status p).
Qed.
End capture_properties.

(** * Concurrent refunds *)

(** A call of [Refund] between its statements. *)
Inductive refund_thread :=
| RStart (pid : uuid) (amount : Z) (reason : string)
| RChecked (payment : Payment) (pid : uuid) (amount : Z) (reason : string)
| RTransitioned (payment : Payment) (pid : uuid) (amount : Z) (reason : string)
| RDone (r : result error Refund_row).

(** Run a call up to its next statement that other calls can get ahead of. *)
Definition advance (th : refund_thread) (env : Env) (n : nat) (s : State) :
    nat * State * refund_thread :=
  match th with
  | RStart pid a why =>
      if a <=? 0 then (n, s, RDone (Err (ErrInvalidRefundAmount None))) else
      match refund_check pid a env n s with
      | (n1, s1, Ok p) => (n1, s1, RChecked p pid a why)
      | (n1, s1, Err e) => (n1, s1, RDone (Err e))
      end
  | RChecked p pid a why =>
      match refund_transition pid env n s with
      | (n1, s1, Ok _) => (n1, s1, RTransitioned p pid a why)
      | (n1, s1, Err e) => (n1, s1, RDone (Err e))
      end
  | RTransitioned p pid a why =>
      match refund_record p pid a why env n s with (n1, s1, r) => (n1, s1, RDone r) end
  | RDone r => (n, s, RDone r)
  end.

(** The whole call is its stages run back to back. *)
Fixpoint advance_all (fuel : nat) (th : refund_thread) (env : Env) (n : nat) (s : State) :
    nat * State * refund_thread :=
  match fuel with
  | O => (n, s, th)
  | S fuel => match advance th env n s with (n1, s1, th1) => advance_all fuel th1 env n1 s1 end
  end.

Lemma Refund_stages pid u a why k env n s :
  advance_all 3 (RStart pid a why) env n s =
  match Refund pid u a why k env n s with (n1, s1, r) => (n1, s1, RDone r) end.
Proof.
  unfold Refund, bind, fail. simpl. destruct (a <=? 0); [done|].
  destruct (refund_check pid a env n s) as [[n1 s1] [p|e]]; [|done]. simpl.
  destruct (refund_transition pid env n1 s1) as [[n2 s2] [[]|e]]; [|done]. simpl.
  by destruct (refund_record p pid a why env n2 s2) as [[n3 s3] r].
Qed.

Section concurrent.
Context `{UT : UuidText}.

(** Any number of refund calls, advancing in any order, among captures. *)
Inductive refund_step : State * list refund_thread → State * list refund_thread → Prop :=
| step_spawn s l pid a why : refund_step (s, l) (s, l ++ [RStart pid a why])
| step_advance s l i th env n n' s' th' :
    l !! i = Some th → advance th env n s = (n', s', th') →
    refund_step (s, l) (s', <[i := th']> l)
| step_capture s l o u a c t k env n n' s' r :
    AuthorizeAndCapture o u a c t k env n s = (n', s', r) → refund_step (s, l) (s', l).

Definition one_if (b : bool) : Z := if b then 1 else 0.

(** Refunds of a payment recorded, and about to be recorded. *)
Definition recorded (s : State) (pid : uuid) : Z :=
  sumZ (λ r, one_if (bool_decide (Refund_PaymentID r = pid))) (payment_refunds s).
Definition in_flight (l : list refund_thread) (pid : uuid) : Z :=
  sumZ (λ th, match th with
              | RTransitioned _ q _ _ => one_if (bool_decide (q = pid))
              | _ => 0 end) l.

(** A payment that can bear a refund of [a]. *)
Definition bears (s : State) (pid : uuid) (a : Z) : Prop :=
  ∃ p, payments s !! pid = Some p ∧ 0 < a <= AmountMinor p.
Definition refunded (s : State) (pid : uuid) : Prop :=
  ∃ p, payments s !! pid = Some p ∧ Status p = PaymentStatusRefunded.

Definition thread_ok (s : State) (th : refund_thread) : Prop :=
  match th with
  | RStart _ _ _ | RDone _ => True
  | RChecked _ pid a _ => bears s pid a
  | RTransitioned _ pid a _ => bears s pid a ∧ refunded s pid
  end.

Record refund_inv (w : State * list refund_thread) : Prop := {
  ri_inv : inv w.1;
  ri_rows r : r ∈ payment_refunds w.1 →
    bears w.1 (Refund_PaymentID r) (Refund_AmountMinor r) ∧ refunded w.1 (Refund_PaymentID r);
  ri_threads th : th ∈ w.2 → thread_ok w.1 th;
  ri_once pid : recorded w.1 pid + in_flight w.2 pid <= 1;
}.

(** Changes of the payments that no refund can notice. *)
Record extends (s s' : State) : Prop := {
  ext_refunds : payment_refunds s' = payment_refunds s;
  ext_payments id p : payments s !! id = Some p →
    ∃ p', payments s' !! id = Some p' ∧ AmountMinor p' = AmountMinor p ∧
      (Status p = PaymentStatusRefunded → Status p' = PaymentStatusRefunded);
}.

Lemma extends_refl s : extends s s.
Proof. split; [done|]. intros id p H. by exists p. Qed.

Lemma bears_extends s s' pid a : extends s s' → bears s pid a → bears s' pid a.
Proof.
  intros [_ H] (p & Hp & Ha). destruct (H _ _ Hp) as (p' & Hp' & Hm & _).
  exists p'. by rewrite Hm.
Qed.

Lemma refunded_extends s s' pid : extends s s' → refunded s pid → refunded s' pid.
Proof.
  intros [_ H] (p & Hp & Hs). destruct (H _ _ Hp) as (p' & Hp' & _ & Hs'). exists p'. auto.
Qed.

Lemma thread_ok_extends s s' th : extends s s' → thread_ok s th → thread_ok s' th.
Proof.
  intros He. destruct th; simpl; [done|by apply bears_extends| |done].
  intros [? ?]. split; [by eapply bears_extends|by eapply refunded_extends].
Qed.

Lemma refund_inv_extends s s' l :
  refund_inv (s, l) → extends s s' → inv s' → refund_inv (s', l).
Proof.
  intros [H1 H2 H3 H4] He Hinv'. pose proof (ext_refunds _ _ He) as Hr.
  split; simpl in *; [done| | |].
  - rewrite Hr. intros r [? ?]%H2. split; [by eapply bears_extends|by eapply refunded_extends].
  - intros th Hth. eapply thread_ok_extends; eauto.
  - intros pid. unfold recorded. rewrite Hr. apply H4.
Qed.

(** One thread moves to a state that holds no new claim on a payment. *)
Lemma refund_inv_thread s l i th th' :
  refund_inv (s, l) → l !! i = Some th → thread_ok s th' →
  (∀ pid, in_flight [th'] pid <= in_flight [th] pid) → refund_inv (s, <[i := th']> l).
Proof.
  intros [H1 H2 H3 H4] Hi Hok Hle. split; simpl in *; [done|done| |].
  - intros x Hx. apply list_elem_of_lookup in Hx as [j Hj].
    destruct (decide (i = j)) as [<-|Hne].
    + rewrite list_lookup_insert_eq in Hj by (by eapply lookup_lt_Some). by simplify_eq.
    + rewrite list_lookup_insert_ne in Hj by done. eapply H3, list_elem_of_lookup_2; eauto.
  - intros pid. specialize (H4 pid). specialize (Hle pid). unfold in_flight in *.
    rewrite (sumZ_insert _ _ _ _ _ Hi). simpl in Hle. lia.
Qed.

Lemma refund_check_run pid a env n s n' s' r :
  refund_check pid a env n s = (n', s', r) →
  s' = s ∧ ∀ p, r = Ok p → payments s !! pid = Some p ∧ Status p = PaymentStatusSuccess ∧
                           a <= AmountMinor p.
Proof.
  unfold refund_check, bind, try, GetPaymentByID, sql, ret, fail. intros H.
  destruct (env_fault env n); [by simplify_eq|].
  destruct (payments s !! pid) as [p|]; [|by simplify_eq].
  destruct (Status p) eqn:Hst; try by simplify_eq.
  destruct (Z.ltb_spec (AmountMinor p) a); simplify_eq; [done|].
  split; [done|]. by intros p' [= <-].
Qed.

Lemma refund_transition_run pid env n s n' s' r :
  refund_transition pid env n s = (n', s', r) →
  match r with
  | Ok _ => ∃ p now, payments s !! pid = Some p ∧ Status p = PaymentStatusSuccess ∧
      s' = set_payments s (<[pid := set_status p PaymentStatusRefunded (ErrorCode p)
                                      (FailureReason p) now]> (payments s))
  | Err _ => s' = s
  end.
Proof.
  intros [(e & H & ->)|(n1 & s1 & b & H1 & H2)]%bind_inv; [by apply sql_err_inv in H|].
  apply sql_ok_inv in H1 as (_ & H1 & ->).
  assert (Hfail : s1 = s → b = false →
    match r with Ok _ => False | Err _ => s' = s end).
  { intros -> ->. simpl in H2.
    apply bind_inv in H2 as [(e & H & ->)|(n2 & s2 & q & H3 & H4)]; [by apply sql_err_inv in H|].
    apply sql_ok_inv in H3 as (_ & H3 & ->). destruct (payments s !! pid); simplify_eq/=.
    unfold fail in H4. destruct (Status q); by simplify_eq. }
  destruct (payments s !! pid) as [p|] eqn:Hp; [case_decide as Hst|]; simplify_eq/=.
  - unfold ret in H2. simplify_eq. eauto 6.
  - destruct r; by specialize (Hfail eq_refl eq_refl).
  - destruct r; by specialize (Hfail eq_refl eq_refl).
Qed.

Lemma refund_record_run p pid a why env n s n' s' r :
  refund_record p pid a why env n s = (n', s', r) →
  match r with
  | Ok row => s' = set_refunds s (payment_refunds s ++ [row]) ∧
      Refund_PaymentID row = pid ∧ Refund_AmountMinor row = a
  | Err _ => s' = s
  end.
Proof.
  unfold refund_record. set (m := λ now, bind _ _).
  assert (Hm : ∀ row0 env n s n' s' r, CreateRefund row0 env n s = (n', s', r) →
    match r with
    | Ok row => s' = set_refunds s (payment_refunds s ++ [row]) ∧
        Refund_PaymentID row = Refund_PaymentID row0 ∧ Refund_AmountMinor row = Refund_AmountMinor row0
    | Err _ => s' = s end).
  { clear. intros row0 env n s n' s' r H.
    assert (Ht : triple env (λ s', s' = s) (CreateRefund row0)
      (λ row s', s' = set_refunds s (payment_refunds s ++ [row]) ∧
        Refund_PaymentID row = Refund_PaymentID row0 ∧ Refund_AmountMinor row = Refund_AmountMinor row0)
      (λ _ s', s' = s)).
    { unfold CreateRefund. eapply (triple_bind _ _ _ _ _ (λ _ s', s' = s)).
      { destruct (_ =? _)%N; [by apply triple_uuid|by apply (triple_ret env _ (λ _ s', s' = s))]. }
      intros id. eapply (triple_bind _ _ _ _ _ (λ _ s', s' = s)).
      { destruct (_ =? _); [by apply triple_time|by apply (triple_ret env _ (λ _ s', s' = s))]. }
      intros created. apply triple_sql; [|by intros]. intros k s0 -> _.
      destruct (negb _); [done|]. case_decide; [done|].
      by destruct (payments s !! _). }
    exact (Ht n s n' s' r eq_refl H). }
  subst m. intros H. unfold bind, time_now, uuid_New, map_err in H.
  destruct (CreateRefund _ env (S (S n)) s) as [[n1 s1] [row|e]] eqn:Hc; apply Hm in Hc; by simplify_eq.
Qed.

Lemma capture_extends o u a c t k env n s n' s' r :
  AuthorizeAndCapture o u a c t k env n s = (n', s', r) → inv s → extends s s' ∧ inv s'.
Proof.
  intros Hrun Hinv. unfold AuthorizeAndCapture in Hrun.
  destruct (Z.leb_spec a 0) as [|Ha].
  { unfold ret in Hrun. simplify_eq. split; [apply extends_refl|done]. }
  apply bind_inv in Hrun as [(e & H & _)|(n1 & s1 & k1 & H1 & H2)].
  { exfalso. revert H. unfold bind, uuid_New, ret. by destruct (String.eqb k ""). }
  assert (s1 = s) as ->.
  { revert H1. unfold bind, uuid_New, ret. destruct (String.eqb k ""); by intros [= ]. }
  pose proof (capture_keyed_triple env s o u a _ t k1 _ _ _ _ _ eq_refl H2) as Hs.
  destruct r as [rep|e]; [|done]. split; [|by eapply capture_spec_inv].
  unfold capture_spec in Hs. destruct (find_by_key s u k1).
  { destruct Hs as [-> _]. apply extends_refl. }
  destruct Hs as [(p & -> & Hn & _)|[-> _]]; [|apply extends_refl].
  split; [done|]. simpl. intros id q Hq. exists q. rewrite lookup_insert_ne by congruence. done.
Qed.

Lemma no_claims s l pid p :
  refund_inv (s, l) → payments s !! pid = Some p → Status p ≠ PaymentStatusRefunded →
  recorded s pid = 0 ∧ in_flight l pid = 0.
Proof.
  intros [H1 H2 H3 H4] Hp Hst. simpl in *.
  assert (Hno : ¬ refunded s pid) by (intros (q & Hq & Hr); congruence).
  split; apply sumZ_zero.
  - intros r Hr. case_bool_decide as Hpid; [|done]. destruct (H2 r Hr) as [_ Hx].
    by rewrite Hpid in Hx.
  - intros th Hth. apply H3 in Hth. destruct th; try done. simpl in Hth.
    case_bool_decide as Hpid; [|done]. subst. tauto.
Qed.

Lemma set_status_inv s pid p st code why now :
  inv s → payments s !! pid = Some p →
  inv (set_payments s (<[pid := set_status p st code why now]> (payments s))).
Proof.
  intros [H1 H2 H3] Hp. split; simpl.
  - intros id q. rewrite lookup_insert_Some. intros [[<- <-]|[_ ?]]; [simpl|]; eauto.
  - intros id1 id2 p1 p2. rewrite !lookup_insert_Some.
    intros [[<- <-]|[_ ?]] [[<- <-]|[_ ?]]; simpl; intros; eauto.
  - intros id q. rewrite lookup_insert_Some. intros [[<- <-]|[_ ?]]; [simpl|]; eauto.
Qed.

Lemma set_refunded_extends s pid p now :
  payments s !! pid = Some p →
  extends s (set_payments s (<[pid := set_status p PaymentStatusRefunded (ErrorCode p)
                                         (FailureReason p) now]> (payments s))).
Proof.
  intros Hp. split; [done|]. simpl. intros id q Hq. destruct (decide (pid = id)) as [<-|Hne].
  - rewrite lookup_insert_eq. eexists. split; [done|]. simplify_eq. done.
  - exists q. by rewrite lookup_insert_ne.
Qed.

Lemma advance_inv s l i th env n n' s' th' :
  refund_inv (s, l) → l !! i = Some th → advance th env n s = (n', s', th') →
  refund_inv (s', <[i := th']> l).
Proof.
  intros Hinv Hi Hadv. pose proof (ri_threads _ Hinv th (list_elem_of_lookup_2 _ _ _ Hi)) as Hok.
  destruct th as [pid a why|p pid a why|p pid a why|r]; simpl in Hadv, Hok.
  - destruct (Z.leb_spec a 0); [simplify_eq; by eapply refund_inv_thread|].
    destruct (refund_check pid a env n s) as [[n1 s1] r] eqn:Hrun.
    apply refund_check_run in Hrun as [-> Hr]. destruct r as [p|e]; simplify_eq;
      (eapply refund_inv_thread; [done..| |by intros]); [|done].
    destruct (Hr p eq_refl) as (Hp & _ & Hle). exists p. split; [done|lia].
  - destruct (refund_transition pid env n s) as [[n1 s1] r] eqn:Hrun.
    apply refund_transition_run in Hrun. destruct r as [u|e]; simplify_eq.
    2:{ by eapply refund_inv_thread. }
    destruct Hrun as (q & now & Hq & Hst & ->).
    destruct (no_claims s l pid q Hinv Hq) as [Hz1 Hz2]; [congruence|].
    pose proof (set_refunded_extends s pid q now Hq) as He.
    set (s2 := set_payments s _) in *.
    destruct (refund_inv_extends s s2 l Hinv He) as [G1 G2 G3 G4];
      [apply set_status_inv; [apply Hinv|done]|].
    split; simpl in *; [done|done| |].
    + intros x Hx. apply list_elem_of_lookup in Hx as [j Hj].
      destruct (decide (i = j)) as [<-|Hne].
      * rewrite list_lookup_insert_eq in Hj by (by eapply lookup_lt_Some). simplify_eq. simpl.
        split; [by eapply bears_extends|]. eexists. split; [apply lookup_insert_eq|done].
      * rewrite list_lookup_insert_ne in Hj by done. eapply G3, list_elem_of_lookup_2; eauto.
    + intros pid'. specialize (G4 pid'). unfold in_flight in *.
      rewrite (sumZ_insert _ _ _ _ _ Hi). case_bool_decide; simpl; [subst pid'|lia].
      change (recorded s2 pid) with (recorded s pid). lia.
  - destruct (refund_record p pid a why env n s) as [[n1 s1] r] eqn:Hrun.
    apply refund_record_run in Hrun. simplify_eq. destruct r as [row|e].
    2:{ subst s'. eapply refund_inv_thread; [done..|]. intros q. unfold in_flight. simpl.
        case_bool_decide; simpl; lia. }
    destruct Hrun as (-> & Hpid & Ham).
    destruct Hinv as [G1 G2 G3 G4]. split; simpl in *.
    + by destruct G1.
    + intros x [Hx|Hx]%elem_of_app; [by apply G2|]. apply list_elem_of_singleton in Hx as ->.
      by rewrite Hpid, Ham.
    + intros x Hx. apply list_elem_of_lookup in Hx as [j Hj].
      destruct (decide (i = j)) as [<-|Hne].
      * rewrite list_lookup_insert_eq in Hj by (by eapply lookup_lt_Some). by simplify_eq.
      * rewrite list_lookup_insert_ne in Hj by done. eapply G3, list_elem_of_lookup_2; eauto.
    + intros pid'. specialize (G4 pid'). unfold recorded, in_flight in *. simpl.
      rewrite sumZ_app, (sumZ_insert _ _ _ _ _ Hi). simpl. rewrite Hpid.
      case_bool_decide; simpl; lia.
  - simplify_eq. by eapply refund_inv_thread.
Qed.

Lemma empty_refund_inv : refund_inv (empty_state, []).
Proof.
  split; simpl.
  - split; simpl; intros *; by rewrite lookup_empty.
  - by intros r ?%not_elem_of_nil.
  - by intros th ?%not_elem_of_nil.
  - intros pid. unfold recorded, in_flight. simpl. lia.
Qed.

Lemma refund_step_inv w w' : refund_step w w' → refund_inv w → refund_inv w'.
Proof.
  intros [s l pid a why|s l i th env n n' s' th' Hi Hadv|s l o u a c t k env n n' s' r Hrun] Hinv.
  - destruct Hinv as [H1 H2 H3 H4]. split; simpl in *; [done|done| |].
    + intros th [Hth|Hth]%elem_of_app; [by apply H3|]. by apply list_elem_of_singleton in Hth as ->.
    + intros q. specialize (H4 q). unfold in_flight in *. rewrite sumZ_app. simpl. lia.
  - by eapply advance_inv.
  - destruct (capture_extends _ _ _ _ _ _ _ _ _ _ _ _ Hrun (ri_inv _ Hinv)) as [He Hinv'].
    by eapply refund_inv_extends.
Qed.

Lemma refund_steps_inv w w' : rtc refund_step w w' → refund_inv w → refund_inv w'.
Proof. induction 1; [done|]. intros. eauto using refund_step_inv. Qed.

Lemma recorded_length s pid : recorded s pid = Z.of_nat (length (refunds_of s pid)).
Proof.
  unfold recorded, refunds_of. induction (payment_refunds s) as [|r l IH]; [done|].
  rewrite filter_cons. simpl. case_bool_decide; case_decide; simpl; try done; lia.
Qed.

Lemma at_most_one_row s l pid p :
  refund_inv (s, l) → payments s !! pid = Some p →
  refunds_of s pid = [] ∨
  ∃ r, refunds_of s pid = [r] ∧ 0 < Refund_AmountMinor r <= AmountMinor p ∧
       Status p = PaymentStatusRefunded.
Proof.
  intros [H1 H2 H3 H4] Hp. simpl in *. specialize (H4 pid).
  pose proof (recorded_length s pid) as Hlen.
  assert (0 <= in_flight l pid).
  { apply sumZ_nonneg. intros th _. destruct th; try done. by case_bool_decide. }
  destruct (refunds_of s pid) as [|r [|r' l']] eqn:Hr; [by left| |simpl in Hlen; lia].
  right. exists r. split; [done|].
  assert (Hin : r ∈ refunds_of s pid) by (rewrite Hr; apply list_elem_of_here).
  apply list_elem_of_filter in Hin as [<- Hin].
  destruct (H2 r Hin) as [(q & Hq & Ha) (q' & Hq' & Hst)]. simplify_eq. by split.
Qed.

(** C13: money is given back at most once.  However many refund calls run
    concurrently with each other and with captures, interleaved between any two of
    their statements, with any driver failures: a payment has at most one refund,
    of a positive amount that never exceeds the amount captured, and only after its
    status has become REFUNDED. *)
Theorem refunds_bounded s l pid p :
  rtc refund_step (empty_state, []) (s, l) → payments s !! pid = Some p →
  refunds_of s pid = [] ∨
  ∃ r, refunds_of s pid = [r] ∧ 0 < Refund_AmountMinor r <= AmountMinor p ∧
       Status p = PaymentStatusRefunded.
Proof.
  intros Hr Hp. apply (at_most_one_row s l); [|done].
  by apply (refund_steps_inv _ _ Hr), empty_refund_inv.
Qed.
End concurrent.

(** ** Witnesses *)

Section witnesses.
Local Existing Instance ex_uuid_text.

(** A successful capture of 500 minor units: payment 101. *)
Definition ex_capture : nat * State * result error reply :=
  AuthorizeAndCapture 1 2 500 "" "tok" "key" (calm_env 7 100) 0%nat empty_state.
Definition ex_state : State := final ex_capture.

Lemma empty_inv : inv empty_state.
Proof. split; simpl; intros *; by rewrite lookup_empty. Qed.

Lemma AuthorizeAndCapture_spec_witness :
  ∃ rep, outcome ex_capture = Ok rep ∧
    capture_spec 1 2 500 "USD" "tok" "key" (calm_env 7 100) empty_state ex_state rep.
Proof.
  unfold ex_state. destruct ex_capture as [[n s] r] eqn:H.
  exact (AuthorizeAndCapture_spec 1 2 500 "" "tok" "key" _ _ _ _ _ _ eq_refl ltac:(discriminate) H).
Defined.

(** A timed-out capture and its retry: the same failed payment, reported as
    declined. *)
Lemma capture_retry_witness :
  ∃ p, outcome (AuthorizeAndCapture 1 2 500 "" "Timeout" "key" (calm_env 7 100) 0%nat empty_state)
         = Ok (Some p, Some ErrPaymentTimeout) ∧
       outcome (AuthorizeAndCapture 1 2 500 "" "tok" "key" (calm_env 8 200) 0%nat
                  (final (AuthorizeAndCapture 1 2 500 "" "Timeout" "key" (calm_env 7 100) 0%nat empty_state)))
         = Ok (Some p, Some ErrPaymentDeclined).
Proof.
  destruct (AuthorizeAndCapture 1 2 500 "" "Timeout" "key" (calm_env 7 100) 0%nat empty_state)
    as [[n1 s1] r1] eqn:H1.
  destruct (AuthorizeAndCapture 1 2 500 "" "tok" "key" (calm_env 8 200) 0%nat s1)
    as [[n2 s2] r2] eqn:H2.
  assert (Hr : ∃ p, r1 = Ok (Some p, Some ErrPaymentTimeout) ∧ Status p = PaymentStatusFailed).
  { vm_compute in H1. injection H1 as <- <- <-. eexists. split; reflexivity. }
  destruct Hr as (p & -> & Hst). exists p. split; [reflexivity|].
  destruct (capture_retry 1 2 500 "" "Timeout" "key" _ _ _ _ _ _ _ _ _ _ _ _ _ _ empty_inv
    eq_refl ltac:(discriminate) H1 H2) as (_ & _ & Hrep).
  specialize (Hrep (calm_env_no_faults 8 200)). rewrite Hst in Hrep.
  unfold final, outcome. cbn [fst snd]. rewrite H2. exact Hrep.
Defined.

(** Two refund calls race for the payment; the second to write loses. *)
Definition ex_race : list refund_thread := [RStart 101 500 "a"; RStart 101 400 "b"].

Definition ex_advance (i : nat) (w : State * list refund_thread) : State * list refund_thread :=
  match w.2 !! i with
  | None => w
  | Some th => match advance th (calm_env 9 (1000 + N.of_nat i)) 0%nat w.1 with
               | (_, s, th') => (s, <[i := th']> w.2)
               end
  end.

Lemma ex_advance_step i w : rtc refund_step w (ex_advance i w).
Proof.
  destruct w as [s l]. unfold ex_advance. simpl. destruct (l !! i) as [th|] eqn:Hi; [|done].
  destruct (advance th (calm_env 9 (1000 + N.of_nat i)) 0%nat s) as [[n s'] th'] eqn:H.
  apply rtc_once. by eapply step_advance.
Qed.

Definition ex_interleaving : State * list refund_thread :=
  foldl (λ w i, ex_advance i w) (ex_state, ex_race) [0; 1; 0; 1; 0; 1]%nat.

Lemma ex_advances_steps l w : rtc refund_step w (foldl (λ w i, ex_advance i w) w l).
Proof.
  revert w. induction l as [|i l IH]; intros w; simpl; [done|].
  etransitivity; [apply ex_advance_step|apply IH].
Qed.

Lemma ex_interleaving_steps : rtc refund_step (empty_state, []) ex_interleaving.
Proof.
  assert (H : ex_capture = (ex_capture.1.1, ex_state, outcome ex_capture))
    by (unfold ex_state; by destruct ex_capture as [[? ?] ?]).
  transitivity (ex_state, ex_race); [|apply ex_advances_steps].
  eapply rtc_l; [exact (step_capture empty_state [] 1 2 500 "" "tok" "key" _ _ _ _ _ H)|].
  eapply rtc_l; [exact (step_spawn ex_state [] 101 500 "a")|].
  apply rtc_once. exact (step_spawn ex_state [RStart 101 500 "a"] 101 400 "b").
Qed.

Lemma refunds_bounded_witness :
  ∃ r, refunds_of ex_interleaving.1 101 = [r] ∧ 0 < Refund_AmountMinor r <= 500.
Proof.
  assert (Hp : ∃ p, payments ex_interleaving.1 !! 101%N = Some p ∧ AmountMinor p = 500)
    by (vm_compute; eexists; split; reflexivity).
  destruct Hp as (p & Hp & Ha).
  pose proof ex_interleaving_steps as Hs. rewrite (surjective_pairing ex_interleaving) in Hs.
  destruct (refunds_bounded _ _ 101%N p Hs Hp) as [H|(r & H1 & H2 & _)].
  - vm_compute in H. discriminate H.
  - exists r. rewrite Ha in H2. split; [exact H1|exact H2].
Defined.

(** A refund is not atomic.  The status is moved to REFUNDED in a statement of
    its own before the refund row is inserted, so an insert that fails, here
    because the reason is longer than the column, leaves the payment REFUNDED with
    no refund recorded; the caller is told the refund failed, and every retry is
    refused as already refunded. *)
Theorem refund_not_atomic :
  let long := String.concat "" (repeat "reason--" 33) in
  let run := Refund 101 0 500 long "k" (calm_env 9 300) 0%nat ex_state in
  let retry := Refund 101 0 500 "ok" "k" (calm_env 10 400) 0%nat (final run) in
  Status <$> payments ex_state !! 101%N = Some PaymentStatusSuccess ∧
  (∃ e, outcome run = Err e) ∧
  Status <$> payments (final run) !! 101%N = Some PaymentStatusRefunded ∧
  refunds_of (final run) 101 = [] ∧
  outcome retry = Err ErrPaymentAlreadyRefunded.
Proof. vm_compute. split_and!; try reflexivity. eexists. reflexivity. Qed.
End witnesses.
