(* ===== verification/PaymentDouble.v ===== *)
(** internal/domain/payment/mock_repository.go: the payments kept in memory for the tests, and
    that they stand for the tables of Payment.v.

    The double finds a payment of a user by the text "user:key" and keeps the refunds of each
    payment apart.  Its mutex makes each call one step; a value stands for the copy that a
    call gives out. *)

From S2P Require Import Prelude Payment Simulation.

(** * The double *)

Record Double := MkDouble {
  d_payments : gmap uuid Payment;
  d_idempotency : gmap string uuid;
  d_refunds : gmap uuid (list Refund_row);
  d_failOnCreate : option error;
}.

Definition NewMockRepository : Double := MkDouble ∅ ∅ ∅ None.

Definition dop := M Double error.

Definition with_payments (d : Double) (m : gmap uuid Payment) : Double :=
  MkDouble m (d_idempotency d) (d_refunds d) (d_failOnCreate d).

(** What the dereference of a missing payment would be: a panic, not an answer. *)
Definition nil_dereference : error :=
  ErrDriver "runtime error: invalid memory address or nil pointer dereference".

Section double.
Context `{UT : UuidText}.
Local Open Scope go_scope.

Definition SetFailOnCreate (err : option error) : dop unit :=
  locked (λ d, Ok (MkDouble (d_payments d) (d_idempotency d) (d_refunds d) err, tt)).

(** [fmt.Sprintf("%s:%s", userID.String(), key)] *)
Definition idemKey (userID : uuid) (key : string) : string := (uuid_String userID ++ ":" ++ key)%string.

(** The defaults are those of the copy: the caller's payment, which is the answer here as in
    Payment.v, stays as it is. *)
Definition mock_CreatePayment (p : Payment) : dop Payment :=
  locked (λ d, match d_failOnCreate d with Some err => Err err | None => Ok (d, tt) end) ;;;
  lift_result (Validate p) ;;;
  let key := idemKey (UserID p) (IdempotencyKey p) in
  locked (λ d, match d_idempotency d !! key with Some _ => Err ErrIdempotencyConflict | None => Ok (d, tt) end) ;;;
  let* created := if CreatedAt p =? time_Zero then time_now else ret (CreatedAt p) in
  let updated := if UpdatedAt p =? time_Zero then created else UpdatedAt p in
  let provider := if String.eqb (Provider p) "" then "SIMULATED"%string else Provider p in
  let cp := MkPayment (ID p) (OrderID p) (UserID p) (IdempotencyKey p) (AmountMinor p) (Currency p)
              provider (Status p) (ErrorCode p) (FailureReason p) created updated in
  locked (λ d, Ok (MkDouble (<[ID p := cp]> (d_payments d)) (<[key := ID p]> (d_idempotency d))
                     (d_refunds d) (d_failOnCreate d), p)).

Definition mock_GetPaymentByID (id : uuid) : dop Payment :=
  locked (λ d, match d_payments d !! id with Some p => Ok (d, p) | None => Err ErrPaymentNotFound end).

Definition mock_GetPaymentByIdempotency (userID : uuid) (key : string) : dop Payment :=
  locked (λ d,
    match d_idempotency d !! idemKey userID key with
    | None => Err ErrPaymentNotFound
    | Some paymentID =>
        match d_payments d !! paymentID with
        | Some p => Ok (d, p)
        | None => Err nil_dereference
        end
    end).

Definition mock_UpdatePaymentStatus (id : uuid) (status : PaymentStatus)
    (errorCode failureReason : option string) : dop unit :=
  locked (λ d, match d_payments d !! id with Some _ => Ok (d, tt) | None => Err ErrPaymentNotFound end) ;;;
  let* now := time_now in
  locked (λ d, Ok (with_payments d (alter (λ p, set_status p status errorCode failureReason now) id (d_payments d)), tt)).

Definition mock_TransitionPaymentStatus (id : uuid) (fromStatus toStatus : PaymentStatus) : dop unit :=
  locked (λ d,
    match d_payments d !! id with
    | None => Err ErrPaymentNotFound
    | Some p =>
        if decide (Status p = fromStatus) then Ok (d, tt) else
        match Status p with
        | PaymentStatusRefunded => Err ErrPaymentAlreadyRefunded
        | _ => Err ErrPaymentCannotBeRefunded
        end
    end) ;;;
  let* now := time_now in
  locked (λ d, Ok (with_payments d (alter (λ p, set_status p toStatus (ErrorCode p) (FailureReason p) now) id (d_payments d)), tt)).

(** The caller's refund stays as it is here too. *)
Definition mock_CreateRefund (refund : Refund_row) : dop Refund_row :=
  let* id := if (Refund_ID refund =? uuid_Nil)%N then uuid_New else ret (Refund_ID refund) in
  let* created := if Refund_CreatedAt refund =? time_Zero then time_now else ret (Refund_CreatedAt refund) in
  let updated := if Refund_UpdatedAt refund =? time_Zero then created else Refund_UpdatedAt refund in
  let cp := MkRefund id (Refund_PaymentID refund) (Refund_OrderID refund) (Refund_AmountMinor refund)
              (Refund_Reason refund) (Refund_Status refund) (Refund_ErrorCode refund) created updated in
  locked (λ d, Ok (MkDouble (d_payments d) (d_idempotency d)
                     (<[Refund_PaymentID cp := default [] (d_refunds d !! Refund_PaymentID cp) ++ [cp]]> (d_refunds d))
                     (d_failOnCreate d), refund)).

Definition mock_GetRefundsByPaymentID (paymentID : uuid) : dop (list Refund_row) :=
  locked (λ d, Ok (d, default [] (d_refunds d !! paymentID))).
End double.

(** * Requests to either *)

Inductive request :=
| ReqCreate (p : Payment)
| ReqGet (id : uuid)
| ReqFind (userID : uuid) (key : string)
| ReqUpdate (id : uuid) (status : PaymentStatus) (errorCode failureReason : option string)
| ReqTransition (id : uuid) (fromStatus toStatus : PaymentStatus)
| ReqRefund (r : Refund_row)
| ReqRefunds (paymentID : uuid).

Inductive answer :=
| Done
| Found (p : Payment)
| Refunded (r : Refund_row)
| Refunds (l : list Refund_row).

Section serving.
Context `{UT : UuidText}.
Local Open Scope go_scope.

Definition serve (r : request) : op answer :=
  match r with
  | ReqCreate p => let* p := CreatePayment p in ret (Found p)
  | ReqGet id => let* p := GetPaymentByID id in ret (Found p)
  | ReqFind u k => let* p := GetPaymentByIdempotency u k in ret (Found p)
  | ReqUpdate id st c r => UpdatePaymentStatus id st c r ;;; ret Done
  | ReqTransition id f t => TransitionPaymentStatus id f t ;;; ret Done
  | ReqRefund r => let* r := CreateRefund r in ret (Refunded r)
  | ReqRefunds id => let* l := GetRefundsByPaymentID id in ret (Refunds l)
  end.

Definition mock_serve (r : request) : dop answer :=
  match r with
  | ReqCreate p => let* p := mock_CreatePayment p in ret (Found p)
  | ReqGet id => let* p := mock_GetPaymentByID id in ret (Found p)
  | ReqFind u k => let* p := mock_GetPaymentByIdempotency u k in ret (Found p)
  | ReqUpdate id st c r => mock_UpdatePaymentStatus id st c r ;;; ret Done
  | ReqTransition id f t => mock_TransitionPaymentStatus id f t ;;; ret Done
  | ReqRefund r => let* r := mock_CreateRefund r in ret (Refunded r)
  | ReqRefunds id => let* l := mock_GetRefundsByPaymentID id in ret (Refunds l)
  end.
End serving.

(** * The double stands for the tables *)

(** The text of an identifier has no colon, so "user:key" has one reading. *)
Class UuidCut `{UT : UuidText} :=
  uuid_cut : ∀ u v a b, (uuid_String u ++ ":" ++ a = uuid_String v ++ ":" ++ b)%string → u = v ∧ a = b.

(** Of two refunds of a payment the one that is stored first is the older. *)
Definition older (x y : Refund_row) : Prop := Refund_CreatedAt x < Refund_CreatedAt y.

Record represents `{UT : UuidText} (s : State) (d : Double) : Prop := {
  rep_payments : d_payments d = payments s;
  rep_keys key id : d_idempotency d !! key = Some id ↔
    ∃ p, payments s !! id = Some p ∧ key = idemKey (UserID p) (IdempotencyKey p);
  rep_refunds id : default [] (d_refunds d !! id) = refunds_of s id;
  rep_create : d_failOnCreate d = None;
  rep_inv : inv s;
  rep_older id : StronglySorted older (refunds_of s id);
}.

(** A request that the tables take as it is; it may still be refused. *)
Definition fits (s : State) (r : request) : Prop :=
  match r with
  | ReqCreate p =>
      CreatedAt p ≠ time_Zero ∧ UpdatedAt p ≠ time_Zero ∧ Provider p ≠ "" ∧ payment_ok p = true ∧
      payments s !! ID p = None
  | ReqUpdate id st c r =>
      match payments s !! id with Some p => payment_ok (set_status p st c r 0) = true | None => True end
  | ReqRefund r =>
      Refund_ID r ≠ uuid_Nil ∧ Refund_CreatedAt r ≠ time_Zero ∧ Refund_UpdatedAt r ≠ time_Zero ∧
      refund_ok r = true ∧ is_Some (payments s !! Refund_PaymentID r) ∧
      Forall (λ x, Refund_ID x ≠ Refund_ID r) (payment_refunds s) ∧
      Forall (λ x, older x r) (refunds_of s (Refund_PaymentID r))
  | ReqGet _ | ReqFind _ _ | ReqTransition _ _ _ | ReqRefunds _ => True
  end.

#[export] Instance older_dec : RelDecision older.
Proof. intros x y. unfold older. apply _. Defined.
#[export] Instance fits_dec s r : Decision (fits s r).
Proof. destruct r; simpl; try destruct (_ !! id); apply _. Defined.

Section simulation.
Context `{UT : UuidText, UC : !UuidCut} (env : Env) (Hstill : still env).

Notation stands m1 m2 s d := (sim represents env m1 m2 s d).

Lemma key_lookup s d u k :
  represents s d →
  match d_idempotency d !! idemKey u k with
  | Some id => ∃ p, payments s !! id = Some p ∧ find_by_key s u k = Some p
  | None => find_by_key s u k = None
  end.
Proof.
  intros H. destruct (d_idempotency d !! idemKey u k) as [id|] eqn:Hk.
  - apply (rep_keys _ _ H) in Hk as (p & Hp & [-> ->]%uuid_cut). exists p. split; [done|].
    by apply (find_by_key_is s id); [apply (rep_inv _ _ H)|].
  - destruct (find_by_key s u k) as [p|] eqn:Hf; [|done]. apply find_by_key_Some in Hf as (<- & <- & id & Hp).
    assert (d_idempotency d !! idemKey (UserID p) (IdempotencyKey p) = Some id) by (apply (rep_keys _ _ H); eauto).
    congruence.
Qed.

Lemma get_stands s d id : represents s d → stands (GetPaymentByID id) (mock_GetPaymentByID id) s d.
Proof.
  intros H n1 n2. unfold GetPaymentByID, mock_GetPaymentByID, locked.
  rewrite still_sql, (rep_payments _ _ H) by done. by destruct (payments s !! id).
Qed.

Lemma find_stands s d u k :
  represents s d → stands (GetPaymentByIdempotency u k) (mock_GetPaymentByIdempotency u k) s d.
Proof.
  intros H n1 n2. unfold GetPaymentByIdempotency, mock_GetPaymentByIdempotency, locked.
  rewrite still_sql by done. pose proof (key_lookup s d u k H) as Hk.
  destruct (d_idempotency d !! idemKey u k) as [id|].
  - destruct Hk as (p & Hp & ->). by rewrite (rep_payments _ _ H), Hp.
  - by rewrite Hk.
Qed.

(** A row that keeps its customer and its key keeps the two in step. *)
Lemma represents_status s d id p p' :
  represents s d → payments s !! id = Some p → ID p' = ID p → UserID p' = UserID p →
  IdempotencyKey p' = IdempotencyKey p → AmountMinor p' = AmountMinor p →
  represents (set_payments s (<[id := p']> (payments s))) (with_payments d (<[id := p']> (d_payments d))).
Proof.
  intros [Hp Hk Hr Hc [I1 I2 I3] Ho] Hid E1 E2 E3 E4.
  assert (Hl : ∀ i q, <[id := p']> (payments s) !! i = Some q → ∃ q0, payments s !! i = Some q0 ∧
    ID q = ID q0 ∧ UserID q = UserID q0 ∧ IdempotencyKey q = IdempotencyKey q0 ∧ AmountMinor q = AmountMinor q0).
  { intros i q [[<- <-]|[_ H]]%lookup_insert_Some; [by exists p|by exists q]. }
  split; cbn; [by rewrite Hp| |done|done| |done].
  - intros key i. rewrite Hk. split.
    + intros (q & Hq & ->). destruct (decide (i = id)) as [->|Hne].
      * exists p'. rewrite lookup_insert_eq. simplify_eq. by rewrite E2, E3.
      * exists q. by rewrite lookup_insert_ne.
    + intros (q & (q0 & Hq & _ & Eu & Ek & _)%Hl & ->). exists q0. by rewrite Eu, Ek.
  - split; cbn.
    + intros i q (q0 & Hq & -> & _)%Hl. by apply I1.
    + intros i j q r (q0 & Hq & _ & Eu & Ek & _)%Hl (r0 & Hr0 & _ & Fu & Fk & _)%Hl U K.
      eapply I2; [done..| |]; congruence.
    + intros i q (q0 & Hq & _ & _ & _ & ->)%Hl. by eapply I3.
Qed.

Lemma update_stands s d id st c r :
  represents s d → fits s (ReqUpdate id st c r) →
  stands (UpdatePaymentStatus id st c r) (mock_UpdatePaymentStatus id st c r) s d.
Proof.
  intros H Hfit n1 n2. cbn in Hfit. unfold UpdatePaymentStatus, mock_UpdatePaymentStatus, bind, locked, time_now.
  rewrite still_sql, (rep_payments _ _ H) by done. destruct (payments s !! id) as [p|] eqn:Hp; [|done].
  unfold payment_ok in *. cbn in *. rewrite Hfit, (proj2 Hstill n2). cbn. split; [done|].
  rewrite (rep_payments _ _ H), (alter_at _ _ _ p Hp). rewrite <-(rep_payments _ _ H) at 2.
  by apply (represents_status s d id p).
Qed.

Lemma transition_stands s d id f t :
  represents s d → stands (TransitionPaymentStatus id f t) (mock_TransitionPaymentStatus id f t) s d.
Proof.
  intros H n1 n2. unfold TransitionPaymentStatus, mock_TransitionPaymentStatus, GetPaymentByID, bind, locked, time_now.
  rewrite still_sql, (rep_payments _ _ H) by done. destruct (payments s !! id) as [p|] eqn:Hp.
  - destruct (decide (Status p = f)); cbn.
    + rewrite (proj2 Hstill n2). split; [done|].
      rewrite (rep_payments _ _ H), (alter_at _ _ _ p Hp). rewrite <-(rep_payments _ _ H) at 2.
      by apply (represents_status s d id p).
    + rewrite still_sql, Hp by done. cbn. by destruct (Status p).
  - rewrite still_sql, Hp by done. done.
Qed.
Lemma create_stands s d p :
  represents s d → fits s (ReqCreate p) → stands (CreatePayment p) (mock_CreatePayment p) s d.
Proof.
  intros H (Hc & Hu & Hpr & Hok & Hnew) n1 n2. unfold CreatePayment, mock_CreatePayment, fill_payment.
  apply Z.eqb_neq in Hc, Hu. apply String.eqb_neq in Hpr. rewrite Hc, Hu, Hpr.
  unfold bind, lift_result, locked, ret. rewrite (rep_create _ _ H).
  destruct (Validate p) as [[]|e] eqn:Hv; [|done].
  assert (MkPayment (ID p) (OrderID p) (UserID p) (IdempotencyKey p) (AmountMinor p) (Currency p)
         (Provider p) (Status p) (ErrorCode p) (FailureReason p) (CreatedAt p) (UpdatedAt p) = p) as -> by by destruct p.
  rewrite still_sql by done. rewrite Hok, Hnew. cbn.
  pose proof (key_lookup s d (UserID p) (IdempotencyKey p) H) as Hk.
  destruct (d_idempotency d !! _) as [id|] eqn:Hd.
  { destruct Hk as (q & _ & ->). done. }
  rewrite Hk. split; [done|]. destruct H as [Hp Hkeys Hr Hf [I1 I2 I3] Ho].
  assert (Hother : ∀ i q, payments s !! i = Some q → UserID q = UserID p → IdempotencyKey q = IdempotencyKey p → False).
  { intros i q Hq Eu Ek. by apply (find_by_key_None s _ _ _ _ Hk Hq). }
  split; cbn; [by rewrite Hp| |done|done| |done].
  - intros key i. split.
    + intros [[<- <-]|[Hne Hi]]%lookup_insert_Some; [exists p; by rewrite lookup_insert_eq|].
      apply Hkeys in Hi as (q & Hq & ->). exists q. rewrite lookup_insert_ne; [done|]. intros <-. congruence.
    + intros (q & [[<- <-]|[Hne Hq]]%lookup_insert_Some & ->); [by rewrite lookup_insert_eq|].
      rewrite lookup_insert_ne; [apply Hkeys; eauto|]. intros [Eu Ek]%uuid_cut. by eapply Hother.
  - split; cbn.
    + intros i q [[<- <-]|[_ Hq]]%lookup_insert_Some; [done|by apply I1].
    + intros i j q r [[<- <-]|[_ Hq]]%lookup_insert_Some [[<- <-]|[_ Hr0]]%lookup_insert_Some Eu Ek;
        [done|exfalso; by eapply (Hother j r)|exfalso; by eapply (Hother i q)|by eapply I2].
    + intros i q [[<- <-]|[_ Hq]]%lookup_insert_Some; [|by eapply I3].
      unfold payment_ok in Hok. rewrite !andb_true_iff in Hok. lia.
Qed.

Lemma refund_stands s d r :
  represents s d → fits s (ReqRefund r) → stands (CreateRefund r) (mock_CreateRefund r) s d.
Proof.
  intros H (Hid & Hc & Hu & Hok & [p Hp] & Hnew & Hold) n1 n2. unfold CreateRefund, mock_CreateRefund.
  apply N.eqb_neq in Hid. apply Z.eqb_neq in Hc, Hu. rewrite Hid, Hc, Hu.
  unfold bind, locked, ret. rewrite still_sql by done.
  assert (MkRefund (Refund_ID r) (Refund_PaymentID r) (Refund_OrderID r)
             (Refund_AmountMinor r) (Refund_Reason r) (Refund_Status r)
             (Refund_ErrorCode r) (Refund_CreatedAt r) (Refund_UpdatedAt r) = r) as -> by by destruct r.
  rewrite Hok. rewrite decide_False by (rewrite Exists_exists; intros (x & Hx & Heq); by rewrite Forall_forall in Hnew; apply (Hnew x)).
  rewrite Hp. split; [done|]. destruct H as [Hps Hkeys Hr Hf Hi Ho].
  assert (Hof : ∀ id, refunds_of (set_refunds s (payment_refunds s ++ [r])) id =
    refunds_of s id ++ (if decide (Refund_PaymentID r = id) then [r] else [])).
  { intros id. unfold refunds_of, set_refunds. cbn. by rewrite filter_app. }
  unfold final. split; cbn [fst snd d_payments d_idempotency d_refunds d_failOnCreate]; [done|done| |done|by destruct Hi; split|].
  - intros id. rewrite Hof. destruct (decide (Refund_PaymentID r = id)) as [<-|Hne].
    + by rewrite lookup_insert_eq, Hr.
    + by rewrite lookup_insert_ne, app_nil_r.
  - intros id. rewrite Hof. destruct (decide (Refund_PaymentID r = id)) as [<-|Hne]; [|by rewrite app_nil_r].
    apply StronglySorted_app_2; [|apply Ho|repeat constructor].
    intros x y Hx Hy%list_elem_of_singleton. subst y. rewrite Forall_forall in Hold. by apply Hold.
Qed.

Lemma older_one l x y :
  StronglySorted older l → x ∈ l → y ∈ l → Refund_CreatedAt x = Refund_CreatedAt y → x = y.
Proof.
  unfold older. induction 1 as [|z l _ IH Hz]; [by intros ?%elem_of_nil|].
  rewrite Forall_forall in Hz. intros [->|Hx]%elem_of_cons [->|Hy]%elem_of_cons Heq; [done|..|by apply IH].
  - specialize (Hz _ Hy). lia.
  - specialize (Hz _ Hx). lia.
Qed.

Lemma refunds_stands s d id :
  represents s d → stands (GetRefundsByPaymentID id) (mock_GetRefundsByPaymentID id) s d.
Proof.
  intros H n1 n2. unfold GetRefundsByPaymentID, mock_GetRefundsByPaymentID, locked.
  rewrite still_sql, (rep_refunds _ _ H) by done. split; [|done]. cbn. f_equal.
  apply (same_order refund_le older); [unfold refund_le, older; lia| | | |by rewrite merge_sort_Permutation].
  - intros x y Hx Hy Hxy Hyx. rewrite merge_sort_Permutation in Hx, Hy.
    apply (older_one _ x y (rep_older _ _ H id) Hx Hy). unfold refund_le in *. lia.
  - apply Sorted_StronglySorted; [|apply Sorted_merge_sort]; intros ?; unfold refund_le; intros; lia.
  - apply (rep_older _ _ H).
Qed.
End simulation.

Lemma serve_stands `{UT : UuidText, UC : !UuidCut} env r s d :
  still env → represents s d → fits s r → sim represents env (serve r) (mock_serve r) s d.
Proof.
  intros Hstill H Hr. destruct r; cbn [serve mock_serve]; apply sim_then;
    eauto using create_stands, get_stands, find_stands, update_stands, transition_stands, refund_stands,
      refunds_stands.
Qed.


Lemma represents_empty `{UT : UuidText} : represents empty_state NewMockRepository.
Proof.
  split; [done| |done|done| |].
  - intros key id. cbn. rewrite lookup_empty. split; [done|]. intros (p & H & _). by rewrite lookup_empty in H.
  - split; intros *; cbn; by rewrite lookup_empty.
  - intros id. constructor.
Qed.

(** For the examples: as many letters as the number says. *)
Fixpoint letters (n : nat) : string := match n with O => "" | S n => String "a" (letters n) end.
#[local] Instance ex_text : UuidText := λ u, letters (N.to_nat u).
#[local] Instance ex_cut : UuidCut.
Proof.
  intros u v a b. unfold uuid_String, ex_text.
  enough (∀ n m, (letters n ++ ":" ++ a)%string = (letters m ++ ":" ++ b)%string → n = m ∧ a = b) as H.
  { intros [Hn Hab]%H. split; [by apply N2Nat.inj|done]. }
  induction n as [|n IH]; intros [|m]; try done.
  - intros H. by injection H.
  - intros H. injection H as H. by destruct (IH m H) as [-> ->].
Qed.

Definition ex_payment (id : uuid) (key : string) : Payment :=
  MkPayment id 3 4 key 500 "EUR" "SIMULATED" PaymentStatusSuccess None None 10 10.
Definition ex_refund (id : uuid) (at_ : Z) : Refund_row :=
  MkRefund id 1 3 200 "late" RefundStatusSuccess None at_ at_.
Definition ex_requests : list request :=
  [ReqCreate (ex_payment 1 "k"); ReqCreate (ex_payment 2 "k"); ReqCreate (ex_payment 2 "l"); ReqFind 4 "k";
   ReqTransition 1 PaymentStatusSuccess PaymentStatusRefunded; ReqRefund (ex_refund 5 30);
   ReqRefund (ex_refund 6 40); ReqTransition 1 PaymentStatusSuccess PaymentStatusRefunded;
   ReqUpdate 2 PaymentStatusFailed (Some "LATE") None; ReqUpdate 9 PaymentStatusFailed None None; ReqGet 2; ReqRefunds 1].


(** ** Where it does not stand for them *)

(** The repository writes the defaults into the caller's payment, the double into its copy. *)
Example defaults_differ :
  let p := MkPayment 1 3 4 "k" 500 "EUR" "" PaymentStatusSuccess None None time_Zero time_Zero in
  outcome (CreatePayment p (calm_env 50 1) 0%nat empty_state) =
    Ok (MkPayment 1 3 4 "k" 500 "EUR" "SIMULATED" PaymentStatusSuccess None None 50 50) ∧
  outcome (mock_CreatePayment p (calm_env 50 1) 0%nat NewMockRepository) = Ok p.
Proof. by vm_compute. Qed.

(** A refund of a payment that is not there is stored by the double alone. *)
Lemma orphan_refund_differs r env n d s :
  no_faults env → payments s !! Refund_PaymentID r = None →
  outcome (mock_CreateRefund r env n d) = Ok r ∧ ∀ r', outcome (CreateRefund r env n s) ≠ Ok r'.
Proof.
  intros Hf H. unfold mock_CreateRefund, CreateRefund, bind, locked, ret, time_now, uuid_New. split.
  - by destruct (_ =? uuid_Nil)%N, (Refund_CreatedAt r =? time_Zero).
  - intros r'. destruct (_ =? uuid_Nil)%N, (Refund_CreatedAt r =? time_Zero); rewrite sql_run by apply Hf; cbn;
      destruct (negb _); cbn; try done; destruct (decide _); cbn; try done; by rewrite H.
Qed.
