(* ===== verification/PaymentHandler.v ===== *)
(** internal/domain/payment/handler.go: the requests of the HTTP interface of payments,
    over the service of Payment.v, and the JSON they read and write (models.go).

    A handler always answers, unless it panics: its error type is the text of a panic. *)

From S2P Require Import Prelude Strconv Json Decode Web Payment.

(** * Data *)

Record SimulatePaymentRequest := MkSimulatePaymentRequest {
  Sim_OrderID : uuid;
  Sim_AmountMinor : Z;
  Sim_Currency : string;
  Sim_Trigger : string;
}.

Record RefundPaymentRequest := MkRefundPaymentRequest {
  RefundReq_AmountMinor : Z;
  RefundReq_Reason : string;
}.

Record rawMoney := MkRawMoney { Raw_Amount : Z; Raw_Currency : string }.

Record PaymentResponse := MkPaymentResponse {
  PR_ID : uuid;
  PR_OrderID : uuid;
  PR_UserID : uuid;
  PR_IdempotencyKey : string;
  PR_AmountMinor : Z;
  PR_Currency : string;
  PR_Provider : string;
  PR_Status : PaymentStatus;
  PR_ErrorCode : option string;
  PR_FailureReason : option string;
  PR_CreatedAt : Z;
  PR_UpdatedAt : Z;
}.

Record RefundResponse := MkRefundResponse {
  RR_ID : uuid;
  RR_PaymentID : uuid;
  RR_OrderID : uuid;
  RR_AmountMinor : Z;
  RR_Reason : string;
  RR_Status : RefundStatus;
  RR_CreatedAt : Z;
  RR_UpdatedAt : Z;
}.

Definition Payment_ToResponse (p : Payment) : PaymentResponse :=
  MkPaymentResponse (ID p) (OrderID p) (UserID p) (IdempotencyKey p) (AmountMinor p) (Currency p)
    (Provider p) (Status p) (ErrorCode p) (FailureReason p) (CreatedAt p) (UpdatedAt p).

Definition Refund_ToResponse (r : Refund_row) : RefundResponse :=
  MkRefundResponse (Refund_ID r) (Refund_PaymentID r) (Refund_OrderID r) (Refund_AmountMinor r)
    (Refund_Reason r) (Refund_Status r) (Refund_CreatedAt r) (Refund_UpdatedAt r).

(** * Reading requests *)

Section handler.
Context `{UT : UuidText} `{UP : UuidParse} `{JT : JsonErrorText}.
Local Open Scope go_scope.

Definition rawMoney_fields : setter rawMoney :=
  object false [("amount", into_int (λ z m, MkRawMoney z (Raw_Currency m)));
                ("currency", into_string (λ x m, MkRawMoney (Raw_Amount m) x))].

(** The struct that [UnmarshalJSON] of a request decodes into first: every field of the
    two schemas, as a pointer where its absence counts. *)
Record aux := MkAux {
  Aux_OrderID : option uuid;
  Aux_AmountMinor : option Z;
  Aux_Currency : string;
  Aux_Trigger : string;
  Aux_Scenario : string;
  Aux_Amount : option rawMoney;
}.

Definition no_aux : aux := MkAux None None "" "" "" None.

Definition aux_order_id : string * setter aux :=
  ("order_id", in_field Aux_OrderID
     (λ x a, MkAux x (Aux_AmountMinor a) (Aux_Currency a) (Aux_Trigger a) (Aux_Scenario a) (Aux_Amount a))
     (pointer uuid_Nil (into_uuid (λ u _, u)))).
Definition aux_amount_minor : string * setter aux :=
  ("amount_minor", in_field Aux_AmountMinor
     (λ x a, MkAux (Aux_OrderID a) x (Aux_Currency a) (Aux_Trigger a) (Aux_Scenario a) (Aux_Amount a))
     (pointer 0 (into_int (λ z _, z)))).
Definition aux_amount : string * setter aux :=
  ("amount", in_field Aux_Amount
     (λ x a, MkAux (Aux_OrderID a) (Aux_AmountMinor a) (Aux_Currency a) (Aux_Trigger a) (Aux_Scenario a) x)
     (pointer (MkRawMoney 0 "") rawMoney_fields)).

Definition SimulatePaymentRequest_UnmarshalJSON : setter SimulatePaymentRequest := λ v r,
  let d := object false
    [aux_order_id; aux_amount_minor;
     ("currency", into_string (λ x a,
        MkAux (Aux_OrderID a) (Aux_AmountMinor a) x (Aux_Trigger a) (Aux_Scenario a) (Aux_Amount a)));
     ("trigger", into_string (λ x a,
        MkAux (Aux_OrderID a) (Aux_AmountMinor a) (Aux_Currency a) x (Aux_Scenario a) (Aux_Amount a)));
     ("scenario", into_string (λ x a,
        MkAux (Aux_OrderID a) (Aux_AmountMinor a) (Aux_Currency a) (Aux_Trigger a) x (Aux_Amount a)));
     aux_amount] v no_aux in
  match saved d with
  | Some err => hard_error err r
  | None =>
      let a := target d in
      let orderID := match Aux_OrderID a with Some u => u | None => Sim_OrderID r end in
      let '(amountMinor, currency) :=
        match Aux_AmountMinor a, Aux_Amount a with
        | Some z, _ => (z, Sim_Currency r)
        | None, Some m =>
            (Raw_Amount m, if String.eqb (Raw_Currency m) "" then Sim_Currency r else Raw_Currency m)
        | None, None => (Sim_AmountMinor r, Sim_Currency r)
        end in
      let currency := if String.eqb (Aux_Currency a) "" then currency else Aux_Currency a in
      let currency := if String.eqb currency "" then "USD" else currency in
      let trigger :=
        if negb (String.eqb (Aux_Trigger a) "") then Aux_Trigger a
        else if negb (String.eqb (Aux_Scenario a) "") then Aux_Scenario a
        else Sim_Trigger r in
      stored (MkSimulatePaymentRequest orderID amountMinor currency trigger)
  end.

(** Here the reason is kept in the place of the trigger. *)
Definition RefundPaymentRequest_UnmarshalJSON : setter RefundPaymentRequest := λ v r,
  let d := object false
    [aux_amount_minor; aux_amount;
     ("reason", into_string (λ x a,
        MkAux (Aux_OrderID a) (Aux_AmountMinor a) (Aux_Currency a) x (Aux_Scenario a) (Aux_Amount a)))]
    v no_aux in
  match saved d with
  | Some err => hard_error err r
  | None =>
      let a := target d in
      let amountMinor :=
        match Aux_AmountMinor a, Aux_Amount a with
        | Some z, _ => z
        | None, Some m => Raw_Amount m
        | None, None => RefundReq_AmountMinor r
        end in
      stored (MkRefundPaymentRequest amountMinor (Aux_Trigger a))
  end.

(** * Requests *)

Definition hop A := M State string (Response A).

(** [Idempotency-Key], or a new one. *)
Definition request_key (r : Request) : M State string string :=
  let idemKey := Header_Get r "Idempotency-Key" in
  if String.eqb idemKey "" then (let* u := uuid_New in ret (uuid_String u)) else ret idemKey.

Definition bad_request {A} (r : Request) (code detail : string) : Response A :=
  RespondProblem ∅ r StatusBadRequest code "Bad Request" detail.
Definition conflict {A} (r : Request) (code : string) (e : error) : Response A :=
  RespondProblem ∅ r StatusConflict code "Conflict" (Error e).
Definition internal_error {A} (r : Request) (code : string) (e : error) : Response A :=
  RespondProblem ∅ r StatusInternalServerError code "Internal Server Error" (Error e).

(** [simulatePayment] after the call of the service; the response of no payment is a
    method called on nil. *)
Definition respond_simulate (r : Request) (rep : reply) : option (Response PaymentResponse) :=
  match rep with
  | (p, Some err) =>
      match err with
      | ErrIdempotencyConflict => Some (conflict r "IDEMPOTENCY_CONFLICT" err)
      | ErrInvalidPaymentAmount => Some (bad_request r "INVALID_AMOUNT" (Error err))
      | _ =>
          Some match p with
               | Some p => RespondJSON ∅ StatusOK (Payment_ToResponse p)
               | None => internal_error r "PAYMENT_ERROR" err
               end
      end
  | (Some p, None) => Some (RespondJSON ∅ StatusOK (Payment_ToResponse p))
  | (None, None) => None
  end.

Definition simulatePayment (r : Request) : hop PaymentResponse :=
  match DecodeJSON SimulatePaymentRequest_UnmarshalJSON (MkSimulatePaymentRequest uuid_Nil 0 "" "") r with
  | (_, Some err) => ret (bad_request r "INVALID_REQUEST" err)
  | (req, None) =>
      let* idemKey := request_key r in
      let* userUUID :=
        match uuid_Parse (Header_Get r "X-User-ID") with
        | None => uuid_New
        | Some u => if (u =? uuid_Nil)%N then uuid_New else ret u
        end in
      let* rep := call (AuthorizeAndCapture (Sim_OrderID req) userUUID (Sim_AmountMinor req) (Sim_Currency req)
                          (Sim_Trigger req) idemKey) in
      match rep with
      | Ok rep =>
          match respond_simulate r rep with
          | Some resp => ret resp
          | None => fail "invalid memory address or nil pointer dereference"
          end
      | Err e => ret (internal_error r "PAYMENT_ERROR" e)
      end
  end.

(** The parameter of the route, under its two names. *)
Definition payment_param (r : Request) : option uuid :=
  let rawID := URLParam r "payment_id" in
  let rawID := if String.eqb rawID "" then URLParam r "id" else rawID in
  match uuid_Parse rawID with
  | None => None
  | Some u => if (u =? uuid_Nil)%N then None else Some u
  end.

Definition refundPayment (r : Request) : hop RefundResponse :=
  match payment_param r with
  | None => ret (bad_request r "INVALID_ID" "Invalid payment ID")
  | Some paymentID =>
  match DecodeJSON RefundPaymentRequest_UnmarshalJSON (MkRefundPaymentRequest 0 "") r with
  | (_, Some err) => ret (bad_request r "INVALID_REQUEST" err)
  | (req, None) =>
      let* idemKey := request_key r in
      let userUUID := default uuid_Nil (uuid_Parse (Header_Get r "X-User-ID")) in
      let* refund := call (Refund paymentID userUUID (RefundReq_AmountMinor req) (RefundReq_Reason req) idemKey) in
      ret match refund with
          | Err (ErrPaymentNotFound as e) =>
              RespondProblem ∅ r StatusNotFound "PAYMENT_NOT_FOUND" "Not Found" (Error e)
          | Err (ErrPaymentAlreadyRefunded as e) => conflict r "ALREADY_REFUNDED" e
          | Err (ErrInvalidRefundAmount _ as e) | Err (ErrPaymentCannotBeRefunded as e) =>
              bad_request r "INVALID_REFUND" (Error e)
          | Err e => internal_error r "REFUND_ERROR" e
          | Ok refund => RespondJSON ∅ StatusOK (Refund_ToResponse refund)
          end
  end end.

Definition getPayment (r : Request) : hop PaymentResponse :=
  match payment_param r with
  | None => ret (bad_request r "INVALID_ID" "Invalid payment ID")
  | Some paymentID =>
      let* payment := call (service_GetPaymentByID paymentID) in
      ret match payment with
          | Err ErrPaymentNotFound =>
              RespondProblem ∅ r StatusNotFound "PAYMENT_NOT_FOUND" "Not Found" "Payment not found"
          | Err e => internal_error r "INTERNAL_ERROR" e
          | Ok payment => RespondJSON ∅ StatusOK (Payment_ToResponse payment)
          end
  end.
End handler.

(** * Retries *)

Section retries.
Context `{UT : UuidText} `{UP : UuidParse} `{JT : JsonErrorText}.

(** The user [u] asks for the capture [req] under the key [k]. *)
Record capturing (r : Request) (u : uuid) (k : string) (req : SimulatePaymentRequest) : Prop := {
  cap_body : DecodeJSON SimulatePaymentRequest_UnmarshalJSON (MkSimulatePaymentRequest uuid_Nil 0 "" "") r = (req, None);
  cap_key : Header_Get r "Idempotency-Key" = k;
  cap_user : uuid_Parse (Header_Get r "X-User-ID") = Some u;
}.

Lemma simulatePayment_run r u k req env n s :
  capturing r u k req → u ≠ uuid_Nil → k ≠ "" →
  simulatePayment r env n s =
    let run := AuthorizeAndCapture (Sim_OrderID req) u (Sim_AmountMinor req) (Sim_Currency req)
                 (Sim_Trigger req) k env n s in
    (run.1.1, final run,
     match outcome run with
     | Err e => Ok (internal_error r "PAYMENT_ERROR" e)
     | Ok rep => match respond_simulate r rep with
                 | Some resp => Ok resp
                 | None => Err "invalid memory address or nil pointer dereference"
                 end
     end).
Proof.
  intros [Hb Hk Hu] Hu0 Hk0. apply N.eqb_neq in Hu0. apply String.eqb_neq in Hk0.
  unfold simulatePayment, request_key. cbv zeta. rewrite Hb, Hk, Hk0, Hu, Hu0.
  unfold bind, ret, call, final, outcome.
  destruct (AuthorizeAndCapture _ _ _ _ _ _ env n s) as [[n' s'] [rep|e]]; [|done]. cbn [fst snd].
  by destruct (respond_simulate r rep).
Qed.

(** A 200 is the response of a payment. *)
Lemma respond_simulate_ok r rep resp :
  respond_simulate r rep = Some resp → StatusCode resp = 200 →
  ∃ p e, rep = (Some p, e) ∧ resp = RespondJSON ∅ 200 (Payment_ToResponse p).
Proof.
  destruct rep as [[p|] [e|]]; [destruct e| |destruct e|done]; simpl; intros [= <-]; simpl; try done; intros; by eexists _, _.
Qed.

End retries.

(** * Examples *)

Section examples.
#[local] Existing Instance ex_uuid_text.
#[local] Instance ex_parse : UuidParse := λ s,
  if String.eqb s "user-7" then Some 7%N else if String.eqb s "order-3" then Some 3%N else None.
#[local] Instance ex_error_text : JsonErrorText := λ _, "malformed".

(** The two schemas of an amount. *)
Definition ex_flat (trigger : string) : string :=
  ("{" ++ quoted "order_id" ++ ":" ++ quoted "order-3" ++ "," ++ quoted "amount_minor" ++ ":1250,"
   ++ quoted "trigger" ++ ":" ++ quoted trigger ++ "}")%string.
Definition ex_nested (trigger : string) : string :=
  ("{" ++ quoted "order_id" ++ ":" ++ quoted "order-3" ++ "," ++ quoted "amount" ++ ":{" ++ quoted "amount"
   ++ ":1250}," ++ quoted "scenario" ++ ":" ++ quoted trigger ++ "}")%string.

Definition ex_simulate (body : string) : Request :=
  MkRequest {["X-User-Id" := "user-7"; "Idempotency-Key" := "k"]} ∅ ∅ "/api/v1/payments/simulate" (Bytes body) 0.

Definition ex_declined := simulatePayment (ex_simulate (ex_flat "decline")) (calm_env 100 20) 0%nat empty_state.

End examples.
