(* ===== verification/Outbox.v ===== *)
(** internal/domain/outbox (and the message type of internal/platform/kafka): the
    outbox table, the leases of the poller, retries with backoff and the dead
    letter table.

    The tables are those of migrations/00006_create_messaging_tables.sql.  The
    broker is a parameter ([Broker]): what it does with a produced record is not in
    the repository. *)

From S2P Require Import Prelude Database Json.

(** * Data (models.go, errors.go, kafka/message.go) *)

Inductive error : Type :=
| ErrMessageNotFound
| ErrAlreadyLeased
| ErrMaxRetriesExceeded
| ErrWorkerInactive
| ErrContext (msg : string)
| ErrDriver (msg : string).

Definition Error (e : error) : string :=
  match e with
  | ErrMessageNotFound => "outbox message not found"
  | ErrAlreadyLeased => "outbox message already leased by another worker"
  | ErrMaxRetriesExceeded => "outbox message exceeded maximum retry attempts"
  | ErrWorkerInactive => "outbox poller is not active"
  | ErrContext msg => msg
  | ErrDriver msg => msg
  end%string.

#[export] Instance error_GoError : GoError error :=
  {| error_text := Error; driver_error := ErrDriver; driver_error_text := λ _, eq_refl |}.

Definition wrap (prefix : string) (e : error) : error :=
  match e with ErrDriver m => ErrDriver (prefix ++ m)%string | _ => e end.

Inductive OutboxStatus :=
| StatusPending
| StatusPublished
| StatusFailed
| StatusDeadLetter.

#[export] Instance OutboxStatus_eq_dec : EqDecision OutboxStatus.
Proof. solve_decision. Defined.

(** The JSON columns hold parsed values; [time.Time] is nanoseconds. *)
Record OutboxMessage := MkOutboxMessage {
  ID : uuid;
  AggregateType : string;
  AggregateID : string;
  EventType : string;
  Payload : json;
  Headers : gmap string string;
  Status : OutboxStatus;
  RetryCount : Z;
  LastError : option string;
  LeasedUntil : option Z;
  LeasedBy : option string;
  TraceContext : option string;
  CreatedAt : Z;
  PublishedAt : option Z;
}.

Record DeadLetterMessage := MkDeadLetterMessage {
  DLQ_ID : uuid;
  DLQ_SourceType : string;
  DLQ_SourceID : string;
  DLQ_Topic : string;
  DLQ_Partition : Z;
  DLQ_OffsetVal : Z;
  DLQ_ErrorReason : string;
  DLQ_Payload : json;
  DLQ_Headers : gmap string string;
  DLQ_RetryCount : Z;
  DLQ_CreatedAt : Z;
}.

(** [kafka.Message]; the value is the JSON it encodes. *)
Record Message := MkMessage {
  Topic : string;
  Key : string;
  Value : json;
  MsgHeaders : gmap string string;
  Timestamp : Z;
}.

(** * Tables *)

Record State := MkState {
  outbox_messages : gmap uuid OutboxMessage;
  dead_letter_messages : list DeadLetterMessage;
}.

Definition empty_state : State := MkState ∅ [].

Definition set_messages (s : State) (m : gmap uuid OutboxMessage) : State :=
  MkState m (dead_letter_messages s).

Definition message_ok (m : OutboxMessage) : bool :=
  varchar_ok 64 (AggregateType m) && varchar_ok 64 (AggregateID m)
  && varchar_ok 128 (EventType m) && int4_ok (RetryCount m)
  && varchar_ok 128 (default "" (LeasedBy m)) && varchar_ok 512 (default "" (TraceContext m)).

Definition dead_letter_ok (d : DeadLetterMessage) : bool :=
  (String.eqb (DLQ_SourceType d) "OUTBOX" || String.eqb (DLQ_SourceType d) "INBOX")
  && varchar_ok 255 (DLQ_SourceID d) && varchar_ok 128 (DLQ_Topic d)
  && int4_ok (DLQ_Partition d) && int8_ok (DLQ_OffsetVal d) && int4_ok (DLQ_RetryCount d).

Definition pg_check : string := "new row violates a constraint of its table".
Definition pg_unique : string := "duplicate key value violates unique constraint".

(** The broker behind [kafka.Publisher]: at each use, whether the record reaches
    the log and the error the client reports.  An acknowledged record is in the
    log; an unacknowledged one may be. *)
Class Broker := {
  produce : nat → Message → bool * option string;
  produce_acked n m : (produce n m).2 = None → (produce n m).1 = true;
}.

(** The poller sees the tables and the log of the broker. *)
Record World := MkWorld {
  db : State;
  log : list Message;
}.

Definition op := M State error.
Definition prog := M World error.

Definition on_db {A} (m : op A) : prog A := zoom db (λ s w, MkWorld s (log w)) m.

(** * Backoff (backoff.go) *)

Record BackoffPolicy := MkBackoffPolicy {
  InitialInterval : Z;
  MaxInterval : Z;
  MaxRetries : Z;
  EnableJitter : bool;
}.

Definition Millisecond : Z := 1000000.

Definition DefaultBackoffPolicy : BackoffPolicy :=
  MkBackoffPolicy (500 * Millisecond) (30 * Second) 5 true.

(** [Calculate]; [rand_Int max] is the number drawn below [max], if any. *)
Definition Calculate (p : BackoffPolicy) (rand_Int : Z → option Z) (retryCount : Z) : Z :=
  if retryCount <=? 0 then InitialInterval p else
  let shift := if 10 <? retryCount then 10 else retryCount in
  let multiplier := Z.shiftl 1 shift in
  let delay := mul64 (InitialInterval p) multiplier in
  let delay := if MaxInterval p <? delay then MaxInterval p else delay in
  if EnableJitter p && (0 <? delay) then
    let maxJitter := Z.quot delay 4 in
    if 0 <? maxJitter then
      match rand_Int maxJitter with
      | Some n => add64 delay n
      | None => delay
      end
    else delay
  else delay.

Definition IsMaxRetriesExceeded (p : BackoffPolicy) (retryCount : Z) : bool :=
  MaxRetries p <=? retryCount.

(** * Repository (repository.go) *)

Section repository.
Local Open Scope go_scope.

(** [NewOutboxMessage] *)
Definition NewOutboxMessage (aggregateType aggregateID eventType : string) (payload : json)
    (headers : gmap string string) : op OutboxMessage :=
  let* id := uuid_New in
  let* now := time_now in
  ret (MkOutboxMessage id aggregateType aggregateID eventType payload headers StatusPending 0
         None None None None now None).

Definition insert_message (what : string) (m : OutboxMessage) : op unit :=
  sql what (λ _ s,
    if negb (message_ok m) then Err (ErrDriver (what ++ pg_check)%string) else
    match outbox_messages s !! ID m with
    | Some _ => Err (ErrDriver (what ++ pg_unique)%string)
    | None => Ok (set_messages s (<[ID m := m]> (outbox_messages s)), tt)
    end).

Definition SaveMessage (msg : OutboxMessage) : op unit :=
  let* id := if (ID msg =? uuid_Nil)%N then uuid_New else ret (ID msg) in
  let* created := if CreatedAt msg =? time_Zero then time_now else ret (CreatedAt msg) in
  insert_message "outbox: insert message: "
    (MkOutboxMessage id (AggregateType msg) (AggregateID msg) (EventType msg) (Payload msg)
       (Headers msg) (Status msg) (RetryCount msg) (LastError msg) (LeasedUntil msg)
       (LeasedBy msg) (TraceContext msg) created (PublishedAt msg)).

(** [EventRecorder.RecordEvent] (recorder.go) *)
Definition RecordEvent (aggregateType aggregateID eventType : string) (payload : json) : op unit :=
  let* msg := NewOutboxMessage aggregateType aggregateID eventType payload ∅ in
  SaveMessage msg.

(** The rows waiting for dispatch: status IN ('PENDING', 'FAILED'). *)
Definition waiting (m : OutboxMessage) : bool :=
  match Status m with StatusPending | StatusFailed => true | _ => false end.

(** ... AND (leased_until IS NULL OR leased_until < NOW()) *)
Definition eligible (now : Z) (m : OutboxMessage) : bool :=
  waiting m && match LeasedUntil m with None => true | Some t => t <? now end.

Definition created_le (x y : OutboxMessage) : Prop := CreatedAt x <= CreatedAt y.
#[export] Instance created_le_dec : RelDecision created_le.
Proof. intros x y. unfold created_le. apply _. Defined.

Definition select_eligible (now batchSize : Z) (s : State) : list OutboxMessage :=
  take (Z.to_nat batchSize)
    (merge_sort created_le (filter (λ m, eligible now m) (map_to_list (outbox_messages s)).*2)).

Definition set_lease (m : OutboxMessage) (until : option Z) (by_ : option string) : OutboxMessage :=
  MkOutboxMessage (ID m) (AggregateType m) (AggregateID m) (EventType m) (Payload m) (Headers m)
    (Status m) (RetryCount m) (LastError m) until by_ (TraceContext m) (CreatedAt m)
    (PublishedAt m).

(** [UPDATE outbox_messages SET ... WHERE id = ANY(ids) AND cond] *)
Definition update_any (ids : list uuid) (cond : OutboxMessage → bool)
    (f : OutboxMessage → OutboxMessage) (s : State) : State :=
  set_messages s (map_imap (λ id m, Some (if bool_decide (id ∈ ids) && cond m then f m else m))
                    (outbox_messages s)).

Definition LeaseMessages (workerID : string) (batchSize leaseDuration : Z) :
    op (list OutboxMessage) :=
  let batchSize := if batchSize <=? 0 then 10 else batchSize in
  let leaseDuration := if leaseDuration <=? 0 then 30 * Second else leaseDuration in
  map_err (wrap "outbox: lease messages: ") (ExecuteTx (
    let* leased := sql "query outbox for update: " (λ now s, Ok (s, select_eligible now batchSize s)) in
    match leased with
    | [] => ret []
    | _ =>
        let* now := time_now in
        let expires := now + leaseDuration in
        sql "update leased rows: " (λ _ s,
          if negb (varchar_ok 128 workerID)
          then Err (ErrDriver ("update leased rows: " ++ pg_check)%string)
          else Ok (update_any (ID <$> leased) (λ _, true)
                     (λ m, set_lease m (Some expires) (Some workerID)) s, tt)) ;;;
        ret ((λ m, set_lease m (Some expires) (Some workerID)) <$> leased)
    end)).

Definition ExtendLease (workerID : string) (ids : list uuid) (leaseDuration : Z) : op unit :=
  match ids with
  | [] => ret tt
  | _ =>
      let* now := time_now in
      let expires := now + leaseDuration in
      sql "outbox: extend lease: " (λ _ s,
        Ok (update_any ids
              (λ m, bool_decide (LeasedBy m = Some workerID) && waiting m)
              (λ m, set_lease m (Some expires) (LeasedBy m)) s, tt))
  end.

Definition MarkPublished (id : uuid) : op unit :=
  sql "outbox: mark published: " (λ now s,
    match outbox_messages s !! id with
    | None => Err ErrMessageNotFound
    | Some m =>
        let m' := MkOutboxMessage (ID m) (AggregateType m) (AggregateID m) (EventType m)
                    (Payload m) (Headers m) StatusPublished (RetryCount m) (LastError m)
                    None None (TraceContext m) (CreatedAt m) (Some now) in
        Ok (set_messages s (<[id := m']> (outbox_messages s)), tt)
    end).

Definition MarkFailed (id : uuid) (errMsg : string) (nextRetryAt : Z) (deadLetter : bool) :
    op unit :=
  sql "outbox: mark failed: " (λ _ s,
    match outbox_messages s !! id with
    | None => Ok (s, tt)
    | Some m =>
        let m' := MkOutboxMessage (ID m) (AggregateType m) (AggregateID m) (EventType m)
                    (Payload m) (Headers m)
                    (if deadLetter then StatusDeadLetter else StatusFailed) (RetryCount m + 1)
                    (Some errMsg) (if deadLetter then None else Some nextRetryAt) None
                    (TraceContext m) (CreatedAt m) (PublishedAt m) in
        if negb (message_ok m') then Err (ErrDriver ("outbox: mark failed: " ++ pg_check)%string)
        else Ok (set_messages s (<[id := m']> (outbox_messages s)), tt)
    end).

Definition SaveDeadLetter (dlq : DeadLetterMessage) : op unit :=
  let* id := if (DLQ_ID dlq =? uuid_Nil)%N then uuid_New else ret (DLQ_ID dlq) in
  let* created := if DLQ_CreatedAt dlq =? time_Zero then time_now else ret (DLQ_CreatedAt dlq) in
  let d := MkDeadLetterMessage id (DLQ_SourceType dlq) (DLQ_SourceID dlq) (DLQ_Topic dlq)
             (DLQ_Partition dlq) (DLQ_OffsetVal dlq) (DLQ_ErrorReason dlq) (DLQ_Payload dlq)
             (DLQ_Headers dlq) (DLQ_RetryCount dlq) created in
  sql "outbox: save dead letter: " (λ _ s,
    if negb (dead_letter_ok d) then Err (ErrDriver ("outbox: save dead letter: " ++ pg_check)%string) else
    if decide (Exists (λ x, DLQ_ID x = id) (dead_letter_messages s))
    then Err (ErrDriver ("outbox: save dead letter: " ++ pg_unique)%string) else
    Ok (MkState (outbox_messages s) (dead_letter_messages s ++ [d]), tt)).

Definition GetMessageByID (id : uuid) : op OutboxMessage :=
  sql "outbox: get message: " (λ _ s,
    match outbox_messages s !! id with
    | Some m => Ok (s, m)
    | None => Err ErrMessageNotFound
    end).

Definition dlq_ge (x y : DeadLetterMessage) : Prop := DLQ_CreatedAt y <= DLQ_CreatedAt x.
#[export] Instance dlq_ge_dec : RelDecision dlq_ge.
Proof. intros x y. unfold dlq_ge. apply _. Defined.

Definition GetDeadLetterMessages (limit : Z) : op (list DeadLetterMessage) :=
  let limit := if limit <=? 0 then 50 else limit in
  sql "outbox: get dlq messages: " (λ _ s,
    Ok (s, take (Z.to_nat limit) (merge_sort dlq_ge (dead_letter_messages s)))).

Definition GetPendingCount : op Z :=
  sql "outbox: get pending count: " (λ _ s,
    Ok (s, Z.of_nat (length (filter (λ m, waiting m) (map_to_list (outbox_messages s)).*2)))).
End repository.

(** * Poller (poller.go) *)

Definition DefaultTopicResolver (msg : OutboxMessage) : string :=
  if String.eqb (AggregateType msg) "order" then "shopflow.orders"
  else if String.eqb (AggregateType msg) "inventory" then "shopflow.inventory"
  else if String.eqb (AggregateType msg) "payment" then "shopflow.payments"
  else "shopflow.events".

Record PollerConfig := MkPollerConfig {
  PollInterval : Z;
  BatchSize : Z;
  LeaseDuration : Z;
  WorkerID : string;
  Backoff : BackoffPolicy;
  DLQTopic : string;
  TopicResolver : OutboxMessage → string;
}.

Definition DefaultPollerConfig (workerID : string) : PollerConfig :=
  MkPollerConfig (100 * Millisecond) 50 (30 * Second) workerID DefaultBackoffPolicy
    "shopflow.deadletter" DefaultTopicResolver.

(** The defaults of [NewPoller]. *)
Definition NewPoller (cfg : PollerConfig) (fresh : string) : PollerConfig :=
  MkPollerConfig
    (if PollInterval cfg <=? 0 then 100 * Millisecond else PollInterval cfg)
    (if BatchSize cfg <=? 0 then 50 else BatchSize cfg)
    (if LeaseDuration cfg <=? 0 then 30 * Second else LeaseDuration cfg)
    (if String.eqb (WorkerID cfg) "" then "outbox-worker-" ++ fresh else WorkerID cfg)%string
    (Backoff cfg) (DLQTopic cfg) (TopicResolver cfg).

Section poller.
Context `{UT : UuidText} `{BK : Broker}.
Local Open Scope go_scope.

(** [Publisher.Publish] *)
Definition Publish (m : Message) : prog unit := λ _ n w,
  let '(delivered, err) := produce n m in
  let w' := if (delivered : bool) then MkWorld (db w) (log w ++ [m]) else w in
  (S n, w', match err with None => Ok tt | Some e => Err (ErrDriver e) end).

Definition message_headers (msg : OutboxMessage) : gmap string string :=
  let headers :=
    <["message_id" := uuid_String (ID msg)]>
    (<["aggregate_id" := AggregateID msg]>
    (<["aggregate_type" := AggregateType msg]>
    (<["event_type" := EventType msg]> (Headers msg)))) in
  match TraceContext msg with
  | Some t => if String.eqb t "" then headers else <["traceparent" := t]> headers
  | None => headers
  end.

Definition kafka_message (cfg : PollerConfig) (msg : OutboxMessage) : Message :=
  MkMessage (TopicResolver cfg msg) (AggregateID msg) (Payload msg) (message_headers msg)
    (CreatedAt msg).

(** [rand.Int(rand.Reader, max)]: a reading of the environment, reduced. *)
Definition rand_reader : prog Z := λ env n w, (S n, w, Ok (Z.of_N (env_uuid env n))).

(** [handlePublishFailure]; the errors of the repository are logged and dropped. *)
Definition handlePublishFailure (cfg : PollerConfig) (msg : OutboxMessage) (topic : string)
    (pubErr : error) : prog unit :=
  let nextRetryCount := RetryCount msg + 1 in
  let errMsg := Error pubErr in
  if IsMaxRetriesExceeded (Backoff cfg) nextRetryCount then
    let* _ := try (on_db (MarkFailed (ID msg) errMsg time_Zero true)) in
    let* id := uuid_New in
    let* now := time_now in
    let dlq := MkDeadLetterMessage id "OUTBOX" (uuid_String (ID msg)) topic 0 0
                 ("Exceeded max retries (" ++ fmt_d nextRetryCount ++ "): " ++ errMsg)%string
                 (Payload msg) (Headers msg) nextRetryCount now in
    let* _ := try (on_db (SaveDeadLetter dlq)) in
    if String.eqb (DLQTopic cfg) "" then ret tt else
    let* _ := try (Publish (MkMessage (DLQTopic cfg) (uuid_String (ID msg)) (Payload msg)
      (<["source_type" := "OUTBOX"]> (<["source_id" := uuid_String (ID msg)]>
       (<["original_top" := topic]> {["error_reason" := DLQ_ErrorReason dlq]}))) time_Zero)) in
    ret tt
  else
    let* r := rand_reader in
    let backoffDuration := Calculate (Backoff cfg) (λ max, Some (r mod max)) nextRetryCount in
    let* now := time_now in
    let* _ := try (on_db (MarkFailed (ID msg) errMsg (now + backoffDuration) false)) in
    ret tt.

(** Publish one leased message and record the outcome; whether it counts. *)
Definition publish_one (cfg : PollerConfig) (msg : OutboxMessage) : prog bool :=
  let* r := try (Publish (kafka_message cfg msg)) in
  match r with
  | Ok _ =>
      let* marked := try (on_db (MarkPublished (ID msg))) in
      ret match marked with Ok _ => true | Err _ => false end
  | Err publishErr =>
      handlePublishFailure cfg msg (TopicResolver cfg msg) publishErr ;;;
      ret false
  end.

(** The loop over the leased batch; [ctx_Err] is the context's error before each
    message.  The answer is the count and the error. *)
Fixpoint publish_all (cfg : PollerConfig) (ctx_Err : nat → option string) (i : nat)
    (l : list OutboxMessage) (count : Z) : prog (Z * option error) :=
  match l with
  | [] => ret (count, None)
  | msg :: rest =>
      match ctx_Err i with
      | Some e => ret (count, Some (ErrContext e))
      | None =>
          let* counted := publish_one cfg msg in
          publish_all cfg ctx_Err (S i) rest (if (counted : bool) then count + 1 else count)
      end
  end.

Definition PollAndPublish (cfg : PollerConfig) (ctx_Err : nat → option string) :
    prog (Z * option error) :=
  let* leased := try (on_db (LeaseMessages (WorkerID cfg) (BatchSize cfg) (LeaseDuration cfg))) in
  match leased with
  | Err e => ret (0, Some e)
  | Ok [] => ret (0, None)
  | Ok l => publish_all cfg ctx_Err 0%nat l 0
  end.
End poller.

(** * Lemmas *)

(** ** Backoff *)

(** The delay before jitter. *)
Definition base_delay (p : BackoffPolicy) (k : Z) : Z :=
  Z.min (InitialInterval p * 2 ^ Z.min k 10) (MaxInterval p).

(** A policy whose largest delays fit Go's durations. *)
Definition policy_ok (p : BackoffPolicy) : Prop :=
  0 < InitialInterval p ∧ InitialInterval p * 1024 <= MaxInt64 ∧
  InitialInterval p <= MaxInterval p ∧ MaxInterval p + MaxInterval p / 4 <= MaxInt64.

Lemma Calculate_base p rand k :
  policy_ok p → 0 < k →
  Calculate p rand k =
    let delay := base_delay p k in
    if EnableJitter p && (0 <? delay / 4) then
      match rand (delay / 4) with Some n => add64 delay n | None => delay end
    else delay.
Proof.
  intros (Hi & Hi' & Hm & Hm') Hk. unfold Calculate.
  destruct (Z.leb_spec k 0); [lia|].
  replace (if 10 <? k then 10 else k) with (Z.min k 10) by (destruct (Z.ltb_spec 10 k); lia).
  rewrite Z.shiftl_mul_pow2 by lia. rewrite Z.mul_1_l.
  assert (Hpow : 1 <= 2 ^ Z.min k 10 <= 1024).
  { split; [apply (Z.pow_le_mono_r 2 0); lia|]. change 1024 with (2 ^ 10). apply Z.pow_le_mono_r; lia. }
  rewrite mul64_id by (unfold in64, MinInt64; nia).
  set (d := InitialInterval p * 2 ^ Z.min k 10).
  replace (if MaxInterval p <? d then MaxInterval p else d) with (base_delay p k)
    by (unfold base_delay; fold d; destruct (Z.ltb_spec (MaxInterval p) d); lia).
  assert (Hb : 0 < base_delay p k) by (unfold base_delay; fold d; nia).
  cbv zeta. rewrite (Z.quot_div_nonneg (base_delay p k) 4) by lia.
  destruct (Z.ltb_spec 0 (base_delay p k)); [|lia]. destruct (EnableJitter p); [|done].
  simpl. by destruct (0 <? base_delay p k / 4).
Qed.

Lemma base_delay_mono p j k :
  0 < InitialInterval p → 0 < j <= k → base_delay p j <= base_delay p k.
Proof.
  intros Hi Hjk. unfold base_delay.
  assert (2 ^ Z.min j 10 <= 2 ^ Z.min k 10) by (apply Z.pow_le_mono_r; lia). nia.
Qed.

(** The retry delay.  For every retry of a policy whose delays fit Go's
    durations, the delay is at least min(initial * 2^min(k,10), max), exceeds it by
    less than a quarter, never overflows, and its lower bound grows with the retry
    count; the production policy is such a policy, and never waits 37.5 seconds. *)
Theorem backoff_bounds p rand j k :
  policy_ok p → (∀ m n, rand m = Some n → 0 <= n < m) → 0 < j <= k →
  base_delay p k <= Calculate p rand k <= base_delay p k + base_delay p k / 4 ∧
  base_delay p j <= Calculate p rand k ∧
  policy_ok DefaultBackoffPolicy ∧
  Calculate DefaultBackoffPolicy rand k < 37500 * Millisecond.
Proof.
  intros Hp Hrand Hjk.
  assert (Hall : ∀ q, policy_ok q → base_delay q k <= Calculate q rand k ∧
    Calculate q rand k <= base_delay q k + base_delay q k / 4 ∧
    (0 < base_delay q k / 4 → Calculate q rand k < base_delay q k + base_delay q k / 4)).
  { intros q Hq. rewrite Calculate_base by (done || lia). cbv zeta.
    destruct Hq as (Hi & _ & Hm & Hmax).
    assert (0 < base_delay q k <= MaxInterval q).
    { unfold base_delay. assert (1 <= 2 ^ Z.min k 10) by (apply (Z.pow_le_mono_r 2 0); lia). nia. }
    pose proof (Z.div_le_mono (base_delay q k) (MaxInterval q) 4).
    pose proof (Z.div_pos (base_delay q k) 4).
    destruct (EnableJitter q); simpl; [|lia].
    destruct (Z.ltb_spec 0 (base_delay q k / 4)); [|lia].
    destruct (rand (base_delay q k / 4)) as [x|] eqn:Hx; [|lia].
    apply Hrand in Hx. rewrite add64_id; [lia|]. unfold in64, MinInt64. lia. }
  assert (Hd : policy_ok DefaultBackoffPolicy) by (repeat split; vm_compute; congruence).
  destruct (Hall p Hp) as (H1 & H2 & _). destruct (Hall _ Hd) as (D1 & D2 & D3).
  assert (base_delay DefaultBackoffPolicy k <= 30 * Second) by (apply Z.le_min_r).
  pose proof (base_delay_mono p j k ltac:(apply Hp) Hjk).
  split_and!; [done..|lia|done|].
  pose proof (Z.div_le_mono (base_delay DefaultBackoffPolicy k) (30 * Second) 4).
  assert (0 < base_delay DefaultBackoffPolicy k / 4).
  { apply Z.div_str_pos. pose proof (base_delay_mono DefaultBackoffPolicy 1 k eq_refl ltac:(lia)) as Hm1.
    change (base_delay DefaultBackoffPolicy 1) with 1000000000 in Hm1. lia. }
  change (30 * Second / 4) with 7500000000 in *. unfold Second, Millisecond in *. lia.
Qed.

Lemma backoff_bounds_witness :
  Calculate DefaultBackoffPolicy (λ m, Some (m - 1)) 3 = 4999999999 ∧
  base_delay DefaultBackoffPolicy 3 <= Calculate DefaultBackoffPolicy (λ m, Some (Z.max 0 (m - 1))) 3.
Proof.
  split; [vm_compute; reflexivity|].
  refine (proj1 (proj1 (backoff_bounds DefaultBackoffPolicy
    (λ m, if 0 <? m then Some (Z.max 0 (m - 1)) else None) 3 3 _ _ _))).
  - repeat split; vm_compute; congruence.
  - intros m n. destruct (Z.ltb_spec 0 m); [|discriminate]. intros [= <-]. lia.
  - lia.
Defined.

(** ** Leases *)

Definition wf (s : State) : Prop := ∀ id m, outbox_messages s !! id = Some m → ID m = id.

Lemma select_eligible_elem now b s m :
  m ∈ select_eligible now b s → eligible now m = true ∧ ∃ id, outbox_messages s !! id = Some m.
Proof.
  unfold select_eligible. intros Hin.
  apply (elem_of_submseteq _ (merge_sort created_le
    (filter (λ m, eligible now m) (map_to_list (outbox_messages s)).*2))) in Hin;
    [|apply sublist_submseteq, sublist_take].
  rewrite merge_sort_Permutation in Hin. apply list_elem_of_filter in Hin as [He Hin].
  split; [by destruct (eligible now m)|].
  apply list_elem_of_fmap in Hin as ([id x] & -> & Hin). exists id. by apply elem_of_map_to_list.
Qed.

Lemma ids_nodup s : wf s → NoDup (ID <$> (map_to_list (outbox_messages s)).*2).
Proof.
  intros Hwf. rewrite <-list_fmap_compose.
  rewrite (list_fmap_ext _ fst); [apply NoDup_fst_map_to_list|].
  intros i [id m] H. simpl. apply list_elem_of_lookup_2, elem_of_map_to_list in H. by apply Hwf.
Qed.

Lemma select_eligible_nodup now b s : wf s → NoDup (ID <$> select_eligible now b s).
Proof.
  intros Hwf. unfold select_eligible. eapply sublist_NoDup; [|apply fmap_sublist, sublist_take].
  rewrite merge_sort_Permutation. eapply sublist_NoDup; [by apply ids_nodup|].
  apply fmap_sublist, sublist_filter.
Qed.

Lemma select_eligible_length now b s : Z.of_nat (length (select_eligible now b s)) <= Z.max 0 b.
Proof. unfold select_eligible. rewrite length_take. lia. Qed.

Lemma lookup_update_any ids cond f s id :
  outbox_messages (update_any ids cond f s) !! id =
  (λ m, if bool_decide (id ∈ ids) && cond m then f m else m) <$> outbox_messages s !! id.
Proof. unfold update_any. simpl. rewrite map_lookup_imap. by destruct (outbox_messages s !! id). Qed.

(** The contract of a lease: at some clock readings [t1] (the NOW() of the query)
    and [t2] of this environment, the batch is the oldest eligible rows, each held
    for [dur] by this worker, and no other row changes. *)
Definition lease_spec (workerID : string) (batch dur : Z) (env : Env) (s : State)
    (l : list OutboxMessage) (s' : State) : Prop :=
  ∃ n1 n2,
    let hold m := set_lease m (Some (env_now env n2 + dur)) (Some workerID) in
    let sel := select_eligible (env_now env n1) batch s in
    l = hold <$> sel ∧
    dead_letter_messages s' = dead_letter_messages s ∧
    ∀ id, outbox_messages s' !! id =
      (λ m, if bool_decide (id ∈ ID <$> sel) then hold m else m) <$> outbox_messages s !! id.

Definition batch_of (batchSize : Z) : Z := if batchSize <=? 0 then 10 else batchSize.
Definition duration_of (d : Z) : Z := if d <=? 0 then 30 * Second else d.

Lemma LeaseMessages_triple env s0 w b d :
  triple env (λ s, s = s0) (LeaseMessages w b d)
    (λ l s, lease_spec w (batch_of b) (duration_of d) env s0 l s) (λ _ s, s = s0).
Proof.
  unfold LeaseMessages. fold (batch_of b) (duration_of d).
  apply triple_map_err, triple_ExecuteTx.
  eapply (triple_bind _ _ _ _ _ (λ l s, s = s0 ∧ ∃ n1, l = select_eligible (env_now env n1) (batch_of b) s0)).
  { apply triple_sql; [|done]. intros n s -> _. by eauto. }
  intros l. apply triple_at. intros s [-> [n1 Hl]]. destruct l as [|x l].
  { eapply triple_pre; [apply triple_ret|]. intros s ->. exists n1, O. rewrite <-Hl. simpl.
    split_and!; [done..|]. intros id. by destruct (outbox_messages s0 !! id). }
  rewrite Hl. clear x l Hl.
  eapply (triple_bind _ _ _ _ _ (λ now s, s = s0 ∧ ∃ n2, now = env_now env n2)).
  { apply triple_time. by eauto. }
  intros now. apply triple_at. intros s [-> [n2 ->]].
  eapply triple_bind.
  - eapply (triple_sql _ _ _ _ (λ _ s, s = update_any _ _ _ s0)); [|by intros].
    intros n s -> _. by destruct (negb _).
  - intros []. eapply triple_pre; [apply triple_ret|]. intros s ->. exists n1, n2.
    split_and!; [done..|]. intros id. rewrite lookup_update_any.
    by destruct (outbox_messages s0 !! id); simpl; [rewrite andb_true_r|].
Qed.

#[local] Instance created_le_total : Total created_le.
Proof. intros x y. unfold created_le. lia. Qed.
#[local] Instance created_le_trans : Transitive created_le.
Proof. intros x y z. unfold created_le. lia. Qed.

(** The batch is the oldest of the eligible rows. *)
Lemma select_eligible_oldest now b s id m x :
  outbox_messages s !! id = Some m → eligible now m = true →
  m ∉ select_eligible now b s → x ∈ select_eligible now b s → CreatedAt x <= CreatedAt m.
Proof.
  intros Hm He Hnot Hx. unfold select_eligible in *.
  set (l := merge_sort created_le _) in *.
  assert (Hin : m ∈ l).
  { unfold l. rewrite merge_sort_Permutation. apply list_elem_of_filter. split; [by rewrite He|].
    apply list_elem_of_fmap. exists (id, m). split; [done|]. by apply elem_of_map_to_list. }
  assert (Hs : StronglySorted created_le l) by (apply Sorted_StronglySorted, Sorted_merge_sort; apply _).
  rewrite <-(take_drop (Z.to_nat b) l) in Hin, Hs. apply elem_of_app in Hin as [?|Hin]; [done|].
  apply (StronglySorted_app_1_elem_of created_le _ _ x m Hs Hx Hin).
Qed.


(** ** The poll cycle *)

Section poll.
Context `{UT : UuidText} `{BK : Broker} (cfg : PollerConfig).

(** The broker's log has the event of a message. *)
Definition delivered (w : World) (m : OutboxMessage) : Prop :=
  ∃ k, k ∈ log w ∧ Key k = AggregateID m ∧ Value k = Payload m ∧
       MsgHeaders k = message_headers m ∧ Timestamp k = CreatedAt m.

(** What the poll cycle keeps true of the tables and the log. *)
Record poll_inv (w : World) : Prop := {
  pi_wf : wf (db w);
  pi_delivered id m : outbox_messages (db w) !! id = Some m →
    Status m = StatusPublished → delivered w m;
  pi_waiting id m : outbox_messages (db w) !! id = Some m →
    waiting m = true → RetryCount m < MaxRetries (Backoff cfg);
  pi_dead id m : outbox_messages (db w) !! id = Some m →
    Status m = StatusDeadLetter → MaxRetries (Backoff cfg) <= RetryCount m;
}.

(** The event a message carries, which no operation of the poller touches. *)
Definition content (m : OutboxMessage) :=
  (ID m, AggregateType m, AggregateID m, EventType m, (Payload m, Headers m, TraceContext m, CreatedAt m)).

(** No row disappears or changes its event, a row that left the waiting states
    stays as it is, and the log only grows. *)
Record grows (w w' : World) : Prop := {
  gr_rows id m : outbox_messages (db w) !! id = Some m →
    ∃ m', outbox_messages (db w') !! id = Some m' ∧ content m' = content m ∧
      (waiting m = false → m' = m);
  gr_log : ∃ l, log w' = log w ++ l;
}.

Lemma grows_refl w : grows w w.
Proof. split; [by eauto|]. exists []. by rewrite app_nil_r. Qed.

Lemma grows_trans w1 w2 w3 : grows w1 w2 → grows w2 w3 → grows w1 w3.
Proof.
  intros [H1 [l1 L1]] [H2 [l2 L2]]. split.
  - intros id m Hm. destruct (H1 _ _ Hm) as (m2 & Hm2 & Hc2 & Hs2).
    destruct (H2 _ _ Hm2) as (m3 & Hm3 & Hc3 & Hs3). exists m3. split_and!; [done|congruence|].
    intros Hw. pose proof (Hs2 Hw) as ->. auto.
  - exists (l1 ++ l2). by rewrite L2, L1, app_assoc.
Qed.

Lemma delivered_content w m m' :
  content m' = content m → delivered w m → delivered w m'.
Proof.
  intros Hc (k & Hk & H1 & H2 & H3 & H4). exists k. unfold content in Hc. simplify_eq.
  split_and!; [done|congruence..| |congruence]. rewrite H3. unfold message_headers.
  by repeat match goal with E : _ m' = _ m |- _ => rewrite E end.
Qed.

Lemma delivered_grows w w' m : (∃ l, log w' = log w ++ l) → delivered w m → delivered w' m.
Proof. intros [l Hl] (k & Hk & H). exists k. split; [|done]. rewrite Hl. set_solver. Qed.

(** One row replaced by [m'], under the conditions of the invariant. *)
Lemma poll_inv_replace w id m m' lg :
  poll_inv w → outbox_messages (db w) !! id = Some m → waiting m = true →
  content m' = content m → (∃ l, lg = log w ++ l) →
  (Status m' = StatusPublished → delivered (MkWorld (db w) lg) m) →
  (waiting m' = true → RetryCount m' < MaxRetries (Backoff cfg)) →
  (Status m' = StatusDeadLetter → MaxRetries (Backoff cfg) <= RetryCount m') →
  let w' := MkWorld (set_messages (db w) (<[id := m']> (outbox_messages (db w)))) lg in
  poll_inv w' ∧ grows w w'.
Proof.
  intros [H1 H2 H3 H4] Hm Hw Hc Hlg Hd Hr Hdead w'.
  assert (Hgrow : grows w w').
  { split; [|done]. intros i x Hx. simpl. destruct (decide (id = i)) as [<-|].
    - assert (x = m) as -> by congruence. exists m'. rewrite lookup_insert_eq.
      split_and!; [done..|congruence].
    - exists x. by rewrite lookup_insert_ne. }
  split; [|done]. split; simpl.
  - intros i x. simpl. rewrite lookup_insert_Some. intros [[<- <-]|[_ Hx]]; [|by apply H1].
    rewrite <-(H1 _ _ Hm). unfold content in Hc. congruence.
  - intros i x. rewrite lookup_insert_Some. intros [[<- <-]|[_ Hx]] Hst.
    + eapply delivered_content; [done|]. destruct (Hd Hst) as (k & ?). by exists k.
    + eapply delivered_grows; [exact Hlg|]. by eapply H2.
  - intros i x. rewrite lookup_insert_Some. intros [[<- <-]|[_ Hx]]; [done|by eapply H3].
  - intros i x. rewrite lookup_insert_Some. intros [[<- <-]|[_ Hx]]; [done|by eapply H4].
Qed.

Lemma poll_inv_log w lg : poll_inv w → (∃ l, lg = log w ++ l) →
  poll_inv (MkWorld (db w) lg) ∧ grows w (MkWorld (db w) lg).
Proof.
  intros [H1 H2 H3 H4] Hl. split; [|by split; [eauto|]]. split; simpl; [done| |done|done].
  intros id m Hm Hs. eapply delivered_grows; [exact Hl|]. by eapply H2.
Qed.

(** Changes of the dead letter table alone. *)
Lemma poll_inv_dlq w d : poll_inv w →
  poll_inv (MkWorld (MkState (outbox_messages (db w)) d) (log w)) ∧
  grows w (MkWorld (MkState (outbox_messages (db w)) d) (log w)).
Proof.
  intros [H1 H2 H3 H4]. split; [by split|]. split; simpl; [by eauto|]. exists []. by rewrite app_nil_r.
Qed.

(** Running a repository operation for its effect only. *)
Lemma try_on_db_triple {A} env (m : op A) (P : State → Prop) w0 Q R :
  P (db w0) → triple env P m Q R →
  triple env (λ w, w = w0) (try (on_db m))
    (λ r w, ∃ s, w = MkWorld s (log w0) ∧ match r with Ok a => Q a s | Err e => R e s end)
    (λ _ _, False).
Proof.
  intros Hp Hm. eapply triple_try.
  - apply (triple_zoom env db (λ s w, MkWorld s (log w)) m P Q R w0); done.
  - intros a w (s & -> & H). by exists s.
  - intros e w (s & -> & H). by exists s.
Qed.

(** The row of [msg] as the cycle leaves it. *)
Definition outcome_row (w0 : World) (msg : OutboxMessage) (w : World) : Prop :=
  poll_inv w ∧ grows w0 w ∧
  (∀ id, id ≠ ID msg → outbox_messages (db w) !! id = outbox_messages (db w0) !! id).

Lemma outcome_row_trans w0 w1 msg : ∀ w,
  outcome_row w0 msg w1 → poll_inv w ∧ grows w1 w →
  outbox_messages (db w) = outbox_messages (db w1) → outcome_row w0 msg w.
Proof.
  intros w (H1 & H2 & H3) [G1 G2] Heq. split_and!; [done|by eapply grows_trans|].
  intros id Hid. rewrite Heq. by apply H3.
Qed.

Lemma mark_failed_triple env w0 msg e t dl :
  poll_inv w0 → outbox_messages (db w0) !! ID msg = Some msg → waiting msg = true →
  dl = IsMaxRetriesExceeded (Backoff cfg) (RetryCount msg + 1) →
  triple env (λ w, w = w0) (try (on_db (MarkFailed (ID msg) e t dl)))
    (λ _ w, outcome_row w0 msg w) (λ _ _, False).
Proof.
  intros Hinv Hm Hw Hdl.
  eapply triple_conseq; [apply (try_on_db_triple env _ (λ s, s = db w0) w0
    (λ _ s, outcome_row w0 msg (MkWorld s (log w0))) (λ _ s, s = db w0))|done| |done]; [done| |].
  - apply triple_sql; [|done]. intros n s -> _. rewrite Hm. cbv zeta.
    set (m' := MkOutboxMessage _ _ _ _ _ _ _ _ _ _ _ _ _ _).
    destruct (negb (message_ok m')); [done|].
    destruct (poll_inv_replace w0 (ID msg) msg m' (log w0) Hinv Hm Hw eq_refl) as [H1 H2].
    + exists []. by rewrite app_nil_r.
    + unfold m'. simpl. by destruct dl.
    + unfold m', waiting. simpl. subst dl. unfold IsMaxRetriesExceeded.
      destruct (Z.leb_spec (MaxRetries (Backoff cfg)) (RetryCount msg + 1)); [done|lia].
    + unfold m'. simpl. subst dl. unfold IsMaxRetriesExceeded.
      destruct (Z.leb_spec (MaxRetries (Backoff cfg)) (RetryCount msg + 1)); [done|done].
    + split_and!; [done..|]. intros id Hid. simpl. by rewrite lookup_insert_ne.
  - intros r w (s & -> & H). destruct r; [done|]. subst s.
    replace (MkWorld (db w0) (log w0)) with w0 by (by destruct w0).
    split_and!; [done|apply grows_refl|done].
Qed.

Lemma Publish_triple env w0 m :
  triple env (λ w, w = w0) (Publish m)
    (λ _ w, w = MkWorld (db w0) (log w0 ++ [m]))
    (λ _ w, ∃ l, w = MkWorld (db w0) (log w0 ++ l)).
Proof.
  intros n w n' w' r -> Hrun. unfold Publish in Hrun.
  destruct (produce n m) as [d e] eqn:Hp. pose proof (produce_acked n m) as Hack.
  rewrite Hp in Hack. simpl in Hack. destruct e as [e|]; injection Hrun as <- <- <-.
  - destruct d; [by exists [m]|]. exists []. rewrite app_nil_r. by destruct w0.
  - by rewrite (Hack eq_refl).
Qed.

Lemma handle_failure_triple env w0 msg topic e :
  poll_inv w0 → outbox_messages (db w0) !! ID msg = Some msg → waiting msg = true →
  triple env (λ w, w = w0) (handlePublishFailure cfg msg topic e)
    (λ _ w, outcome_row w0 msg w) (λ _ _, False).
Proof.
  intros Hinv Hm Hw. unfold handlePublishFailure.
  destruct (IsMaxRetriesExceeded (Backoff cfg) (RetryCount msg + 1)) eqn:Hmax.
  - eapply triple_bind; [by apply mark_failed_triple|]. intros ?.
    eapply (triple_bind _ _ _ _ _ (λ _ w, outcome_row w0 msg w)); [by apply triple_uuid|]. intros id.
    eapply (triple_bind _ _ _ _ _ (λ _ w, outcome_row w0 msg w)); [by apply triple_time|]. intros now.
    eapply (triple_bind _ _ _ _ _ (λ _ w, outcome_row w0 msg w)).
    + apply triple_at. intros w1 H1.
      eapply triple_conseq; [apply (try_on_db_triple env _ (λ s, s = db w1) w1
        (λ _ s, ∃ d, s = MkState (outbox_messages (db w1)) d)
        (λ _ s, ∃ d, s = MkState (outbox_messages (db w1)) d))|done| |done]; [done| |].
      * unfold SaveDeadLetter.
        eapply (triple_bind _ _ _ _ _ (λ _ s, s = db w1)).
        { case_match; [by apply triple_uuid|by apply (triple_ret env _ (λ _ s, s = db w1))]. }
        intros id'. eapply (triple_bind _ _ _ _ _ (λ _ s, s = db w1)).
        { case_match; [by apply triple_time|by apply (triple_ret env _ (λ _ s, s = db w1))]. }
        intros created.
        assert (Hsame : ∃ d, db w1 = MkState (outbox_messages (db w1)) d)
          by (exists (dead_letter_messages (db w1)); by destruct (db w1)).
        apply triple_sql; [|by intros n m s ->]. intros n s -> _.
        destruct (negb _); [done|]. case_decide; [done|]. by eexists.
      * intros r w (s & -> & Hs). assert (∃ d, s = MkState (outbox_messages (db w1)) d) as [d ->]
          by (by destruct r). eapply outcome_row_trans; [done| |done]. apply poll_inv_dlq, H1.
    + intros ?. case_match; [apply (triple_ret env tt (λ _ w, outcome_row w0 msg w))|].
      eapply (triple_bind _ _ _ _ _ (λ _ w, outcome_row w0 msg w));
        [|intros; apply (triple_ret env tt (λ _ w, outcome_row w0 msg w))].
      apply triple_at. intros w1 H1. eapply triple_try; [apply Publish_triple|..].
      * intros [] w ->. eapply outcome_row_trans; [done| |done]. apply poll_inv_log; [apply H1|by eexists].
      * intros e' w [l ->]. eapply outcome_row_trans; [done| |done].
        apply poll_inv_log; [apply H1|by eexists].
  - eapply (triple_bind _ _ _ _ _ (λ _ w, w = w0)).
    { intros n w n' w' r -> [= <- <- <-]. done. }
    intros rnd. eapply (triple_bind _ _ _ _ _ (λ _ w, w = w0)); [by apply triple_time|]. intros now.
    eapply (triple_bind _ _ _ _ _ (λ _ w, outcome_row w0 msg w));
      [|intros; apply (triple_ret env tt (λ _ w, outcome_row w0 msg w))].
    by apply mark_failed_triple.
Qed.

Lemma publish_one_triple env w0 msg :
  poll_inv w0 → outbox_messages (db w0) !! ID msg = Some msg → waiting msg = true →
  triple env (λ w, w = w0) (publish_one cfg msg)
    (λ counted w, outcome_row w0 msg w ∧ (counted = true → ∃ m,
       outbox_messages (db w) !! ID msg = Some m ∧ Status m = StatusPublished)) (λ _ _, False).
Proof.
  intros Hinv Hm Hw. unfold publish_one.
  eapply triple_bind.
  { eapply (triple_try _ _ _ (λ r w, match r with
      | Ok _ => w = MkWorld (db w0) (log w0 ++ [kafka_message cfg msg])
      | Err _ => ∃ l, w = MkWorld (db w0) (log w0 ++ l) end)); [apply Publish_triple|done|done]. }
  intros r. apply triple_at. intros w1 Hr. destruct r as [u|e].
  - subst w1. set (w1 := MkWorld (db w0) (log w0 ++ [kafka_message cfg msg])).
    eapply (triple_bind _ _ _ _ _ (λ r w, outcome_row w0 msg w ∧ match r with
      | Ok _ => ∃ m, outbox_messages (db w) !! ID msg = Some m ∧ Status m = StatusPublished
      | Err _ => True end)).
    2:{ intros r. eapply triple_pre; [apply triple_ret|]. intros w [H1 H2]. split; [done|]. by destruct r. }
    destruct (poll_inv_log w0 (log w1) Hinv ltac:(by eexists)) as [G1 G2].
    eapply triple_conseq; [apply (try_on_db_triple env _ (λ s, s = db w1) w1
      (λ _ s, ∃ now, s = set_messages (db w0) (<[ID msg := MkOutboxMessage (ID msg)
         (AggregateType msg) (AggregateID msg) (EventType msg) (Payload msg) (Headers msg)
         StatusPublished (RetryCount msg) (LastError msg) None None (TraceContext msg)
         (CreatedAt msg) (Some now)]> (outbox_messages (db w0))))
      (λ _ s, s = db w0))|done| |done]; [done| |].
    + apply triple_sql; [|by intros n m s ->]. intros n s -> _. simpl. rewrite Hm. by eexists.
    + intros r w (s & -> & H). destruct r as [u'|e].
      * destruct H as [now ->].
        destruct (poll_inv_replace w0 (ID msg) msg (MkOutboxMessage (ID msg)
          (AggregateType msg) (AggregateID msg) (EventType msg) (Payload msg) (Headers msg)
          StatusPublished (RetryCount msg) (LastError msg) None None (TraceContext msg)
          (CreatedAt msg) (Some now)) (log w1) Hinv Hm Hw eq_refl) as [K1 K2]; [by eexists| |done|done|].
        -- intros _. exists (kafka_message cfg msg). split_and!; [|done..]. simpl. set_solver.
        -- split; [split_and!; [done..|]|].
           ++ intros id Hid. simpl. by rewrite lookup_insert_ne.
           ++ eexists. simpl. by rewrite lookup_insert_eq.
      * subst s. split; [|done]. by split_and!.
  - destruct Hr as [l ->].
    destruct (poll_inv_log w0 (log w0 ++ l) Hinv ltac:(by eexists)) as [G1 G2].
    eapply triple_bind; [by apply (handle_failure_triple env (MkWorld (db w0) (log w0 ++ l)) msg)|].
    intros []. eapply triple_pre; [apply triple_ret|]. intros w (H1 & H2 & H3). split; [|done].
    split_and!; [done|by eapply grows_trans|done].
Qed.

(** The rows of a batch that are still to be published. *)
Definition pending_batch (w : World) (l : list OutboxMessage) : Prop :=
  NoDup (ID <$> l) ∧ ∀ m, m ∈ l → outbox_messages (db w) !! ID m = Some m ∧ waiting m = true.

Lemma publish_all_triple env ctx l : ∀ i w0 c,
  poll_inv w0 → pending_batch w0 l →
  triple env (λ w, w = w0) (publish_all cfg ctx i l c)
    (λ r w, poll_inv w ∧ grows w0 w ∧ c <= r.1 <= c + Z.of_nat (length l)) (λ _ _, False).
Proof.
  induction l as [|msg l IH]; intros i w0 c Hinv [Hnd Hb]; simpl.
  - eapply triple_pre; [apply triple_ret|]. intros w ->. split_and!; [done|apply grows_refl|simpl; lia..].
  - destruct (ctx i).
    { eapply triple_pre; [apply triple_ret|]. intros w ->.
      split_and!; [done|apply grows_refl|simpl; lia..]. }
    rewrite fmap_cons, NoDup_cons in Hnd. destruct Hnd as [Hnot Hnd].
    destruct (Hb msg) as [Hm Hw]; [apply list_elem_of_here|].
    eapply triple_bind; [by apply publish_one_triple|]. intros b. apply triple_at.
    intros w1 [(H1 & H2 & H3) _]. eapply triple_conseq; [apply (IH (S i) w1)|done| |done]; [done| |].
    + split; [done|]. intros m Hin. rewrite H3; [apply Hb; set_solver|].
      intros Heq. apply Hnot. rewrite <-Heq. by apply list_elem_of_fmap_2.
    + intros r w (K1 & K2 & K3). split_and!; [done|by eapply grows_trans|..];
        destruct b; lia.
Qed.

Lemma lease_poll_inv env w0 wk b d l s :
  poll_inv w0 → lease_spec wk b d env (db w0) l s →
  let w := MkWorld s (log w0) in poll_inv w ∧ grows w0 w ∧ pending_batch w l ∧
    Z.of_nat (length l) <= Z.max 0 b.
Proof.
  intros [H1 H2 H3 H4] (n1 & n2 & -> & Hd & Hrows) w.
  set (hold := λ m, set_lease m _ _) in *. set (sel := select_eligible _ b (db w0)) in *.
  assert (Hrow : ∀ id m', outbox_messages s !! id = Some m' → ∃ m,
    outbox_messages (db w0) !! id = Some m ∧ (m' = m ∨ m' = hold m)).
  { intros id m'. rewrite Hrows. destruct (outbox_messages (db w0) !! id) as [m|]; [|done].
    intros [= <-]. exists m. split; [done|]. case_bool_decide; auto. }
  split_and!.
  - split; simpl.
    + intros id m' (m & Hm & [->| ->])%Hrow; simpl; by apply H1.
    + intros id m' (m & Hm & [->| ->])%Hrow Hs; exact (H2 _ _ Hm Hs).
    + intros id m' (m & Hm & [->| ->])%Hrow Hs; exact (H3 _ _ Hm Hs).
    + intros id m' (m & Hm & [->| ->])%Hrow Hs; exact (H4 _ _ Hm Hs).
  - split; simpl; [|exists []; by rewrite app_nil_r]. intros id m Hm. eexists.
    rewrite Hrows, Hm. split; [done|]. split; [by case_bool_decide|].
    intros Hw. case_bool_decide as Hin; [|done]. exfalso.
    apply list_elem_of_fmap in Hin as (x & Hx & Hin).
    apply select_eligible_elem in Hin as [He [id' Hid']].
    pose proof (H1 _ _ Hid') as Hid''. assert (id' = id) as -> by congruence.
    assert (x = m) as -> by congruence. unfold eligible in He. by rewrite Hw in He.
  - split.
    + rewrite <-list_fmap_compose. apply (select_eligible_nodup _ b (db w0)), H1.
    + intros m' (m & -> & Hin)%list_elem_of_fmap. simpl.
      pose proof Hin as [He [id Hid]]%select_eligible_elem. pose proof (H1 _ _ Hid) as <-.
      rewrite Hrows, Hid. simpl. rewrite bool_decide_true by (by apply list_elem_of_fmap_2).
      split; [done|]. unfold eligible in He. by apply andb_true_iff in He as [? _].
  - rewrite length_fmap. apply select_eligible_length.
Qed.

Lemma PollAndPublish_triple env ctx w0 :
  poll_inv w0 →
  triple env (λ w, w = w0) (PollAndPublish cfg ctx)
    (λ r w, poll_inv w ∧ grows w0 w ∧ 0 <= r.1 <= batch_of (BatchSize cfg)) (λ _ _, False).
Proof.
  intros Hinv. unfold PollAndPublish.
  eapply triple_bind.
  { apply (try_on_db_triple env _ (λ s, s = db w0) w0); [done|]. apply LeaseMessages_triple. }
  intros leased. apply triple_at. intros w (s & -> & Hl).
  assert (0 < batch_of (BatchSize cfg)) 
    by (unfold batch_of; destruct (Z.leb_spec (BatchSize cfg) 0); lia).
  destruct leased as [l|e].
  - pose proof (lease_poll_inv _ _ _ _ _ _ _ Hinv Hl) as (G1 & G2 & G3 & G4).
    destruct l as [|m l].
    + eapply triple_pre; [apply triple_ret|]. intros w ->. simpl. split_and!; [done..|lia|lia].
    + eapply triple_conseq; [by apply (publish_all_triple env ctx (m :: l) 0%nat _ 0 G1 G3)|done| |done].
      intros r w (K1 & K2 & K3). split_and!; [done|by eapply grows_trans|lia..].
  - subst s. eapply triple_pre; [apply triple_ret|]. intros w ->. simpl.
    replace (MkWorld (db w0) (log w0)) with w0 by (by destruct w0).
    split_and!; [done|apply grows_refl|lia..].
Qed.

(** C14: no event is lost and none is retried for ever.  Whatever the driver, the
    broker and the context do during a poll cycle, it ends with an answer, and: a
    message is PUBLISHED only if its event, with its key, payload and headers, is in
    the broker's log; a message still waiting has failed fewer than MaxRetries
    times; a DEAD_LETTER message has failed at least that often; no message
    disappears, changes its event or leaves PUBLISHED or DEAD_LETTER again; the log
    only grows; and at most a batch is counted as published. *)
Theorem poll_no_loss env ctx n w n' w' r :
  poll_inv w → PollAndPublish cfg ctx env n w = (n', w', r) →
  ∃ count e, r = Ok (count, e) ∧ poll_inv w' ∧ grows w w' ∧
    0 <= count <= batch_of (BatchSize cfg).
Proof.
  intros Hinv Hrun.
  pose proof (PollAndPublish_triple env ctx w Hinv n w n' w' r eq_refl Hrun) as H.
  destruct r as [[c e]|e]; [|done]. destruct H as (H1 & H2 & H3). by exists c, e.
Qed.
End poll.

(** ** Witnesses *)

Section witnesses.
Local Existing Instance ex_uuid_text.

Definition ex_message (id : uuid) (created : Z) : OutboxMessage :=
  MkOutboxMessage id "order" "o-1" "OrderCreated" (JInt 7) ∅ StatusPending 0 None None None None
    created None.

Definition ex_db : State :=
  MkState (list_to_map [(1%N, ex_message 1 30); (2%N, ex_message 2 10); (3%N, ex_message 3 20)]) [].

Lemma ex_db_wf : wf ex_db.
Proof.
  intros id m H. apply (elem_of_list_to_map_2 (M := gmap uuid)) in H.
  set_unfold in H. naive_solver.
Qed.


(** A broker that loses every third record. *)
Definition ex_produce (n : nat) (m : Message) : bool * option string :=
  if (n mod 3 =? 0)%nat then (false, Some "broker unavailable") else (true, None).
Definition ex_broker : Broker.
Proof.
  refine {| produce := ex_produce; produce_acked := _ |}.
  intros n m. unfold ex_produce. by destruct (n mod 3 =? 0)%nat.
Defined.
Local Existing Instance ex_broker.

Definition ex_cfg : PollerConfig := DefaultPollerConfig "outbox-worker-1".
Definition ex_world : World := MkWorld ex_db [].

Lemma ex_world_inv : poll_inv ex_cfg ex_world.
Proof.
  assert (Hall : ∀ id m, outbox_messages ex_db !! id = Some m →
    Status m = StatusPending ∧ RetryCount m = 0).
  { intros id m H. apply (elem_of_list_to_map_2 (M := gmap uuid)) in H. set_unfold in H. naive_solver. }
  split; [apply ex_db_wf|..]; intros id m [Hs Hr]%Hall; [congruence| |congruence].
  intros _. rewrite Hr. reflexivity.
Qed.

Lemma poll_no_loss_witness :
  match PollAndPublish ex_cfg (λ _, None) (calm_env 100 0) 0%nat ex_world with
  | (_, w', r) => poll_inv ex_cfg w' ∧ r = Ok (2, None) ∧ length (log w') = 2%nat
  end.
Proof.
  destruct (PollAndPublish ex_cfg (λ _, None) (calm_env 100 0) 0%nat ex_world) as [[n w] r] eqn:H.
  destruct (poll_no_loss ex_cfg _ _ _ _ _ _ _ ex_world_inv H) as (c & e & Hr & Hinv & _).
  split; [exact Hinv|]. clear Hinv Hr.
  vm_compute in H. injection H as <- <- <-. vm_compute. split; reflexivity.
Defined.
End witnesses.
