(* ===== verification/OutboxDouble.v ===== *)
(** internal/domain/outbox/mock_repository.go: the repository in memory that the tests of the
    outbox run on, and in what it agrees with the one over PostgreSQL.

    The tables of Outbox.v serve it as its map and its slice.  What it gives out are copies,
    so a value stands for a pointer.  It fails only where it says so, and its mutex makes each
    call one step. *)

From S2P Require Import Prelude Database Json Outbox Simulation.

(** * The double *)

Section double.
Context `{UT : UuidText}.
Local Open Scope go_scope.

Definition mock_SaveMessage (msg : OutboxMessage) : op unit :=
  let* id := if (ID msg =? uuid_Nil)%N then uuid_New else ret (ID msg) in
  let* created := if CreatedAt msg =? time_Zero then time_now else ret (CreatedAt msg) in
  let cp := MkOutboxMessage id (AggregateType msg) (AggregateID msg) (EventType msg) (Payload msg)
              (Headers msg) (Status msg) (RetryCount msg) (LastError msg) (LeasedUntil msg)
              (LeasedBy msg) (TraceContext msg) created (PublishedAt msg) in
  locked (λ s, Ok (set_messages s (<[id := cp]> (outbox_messages s)), tt)).

(** The candidates by their creation, and then by the text of their identifier. *)
Definition mock_le (x y : OutboxMessage) : Prop :=
  CreatedAt x < CreatedAt y ∨ (CreatedAt x = CreatedAt y ∧ String.le (uuid_String (ID x)) (uuid_String (ID y))).
#[export] Instance mock_le_dec : RelDecision mock_le.
Proof. intros x y. unfold mock_le. apply _. Defined.

Definition mock_candidates (now : Z) (s : State) : list OutboxMessage :=
  merge_sort mock_le (filter (λ m, eligible now m) (map_to_list (outbox_messages s)).*2).

Definition mock_LeaseMessages (workerID : string) (batchSize leaseDuration : Z) : op (list OutboxMessage) :=
  let* now := time_now in
  let expires := now + leaseDuration in
  let lease m := set_lease m (Some expires) (Some workerID) in
  locked (λ s,
    let candidates := mock_candidates now s in
    let limit := if Z.of_nat (length candidates) <? batchSize then Z.of_nat (length candidates) else batchSize in
    let targets := take (Z.to_nat limit) candidates in
    Ok (set_messages s (foldl (λ ms m, <[ID m := lease m]> ms) (outbox_messages s) targets), lease <$> targets)).

Definition mock_ExtendLease (workerID : string) (ids : list uuid) (leaseDuration : Z) : op unit :=
  let* now := time_now in
  let expires := now + leaseDuration in
  locked (λ s, Ok (update_any ids (λ m, bool_decide (LeasedBy m = Some workerID))
                     (λ m, set_lease m (Some expires) (LeasedBy m)) s, tt)).

Definition mock_MarkPublished (id : uuid) : op unit :=
  let* now := time_now in
  locked (λ s,
    match outbox_messages s !! id with
    | None => Err ErrMessageNotFound
    | Some m =>
        let m' := MkOutboxMessage (ID m) (AggregateType m) (AggregateID m) (EventType m)
                    (Payload m) (Headers m) StatusPublished (RetryCount m) (LastError m)
                    None None (TraceContext m) (CreatedAt m) (Some now) in
        Ok (set_messages s (<[id := m']> (outbox_messages s)), tt)
    end).

Definition mock_MarkFailed (id : uuid) (errMsg : string) (nextRetryAt : Z) (deadLetter : bool) : op unit :=
  locked (λ s,
    match outbox_messages s !! id with
    | None => Err ErrMessageNotFound
    | Some m =>
        let m' := MkOutboxMessage (ID m) (AggregateType m) (AggregateID m) (EventType m)
                    (Payload m) (Headers m)
                    (if deadLetter then StatusDeadLetter else StatusFailed) (add64 (RetryCount m) 1)
                    (Some errMsg) (if deadLetter then None else Some nextRetryAt) None
                    (TraceContext m) (CreatedAt m) (PublishedAt m) in
        Ok (set_messages s (<[id := m']> (outbox_messages s)), tt)
    end).

Definition mock_SaveDeadLetter (dlq : DeadLetterMessage) : op unit :=
  let* id := if (DLQ_ID dlq =? uuid_Nil)%N then uuid_New else ret (DLQ_ID dlq) in
  let* created := if DLQ_CreatedAt dlq =? time_Zero then time_now else ret (DLQ_CreatedAt dlq) in
  let cp := MkDeadLetterMessage id (DLQ_SourceType dlq) (DLQ_SourceID dlq) (DLQ_Topic dlq)
              (DLQ_Partition dlq) (DLQ_OffsetVal dlq) (DLQ_ErrorReason dlq) (DLQ_Payload dlq)
              (DLQ_Headers dlq) (DLQ_RetryCount dlq) created in
  locked (λ s, Ok (MkState (outbox_messages s) (dead_letter_messages s ++ [cp]), tt)).

Definition mock_GetMessageByID (id : uuid) : op OutboxMessage :=
  locked (λ s, match outbox_messages s !! id with Some m => Ok (s, m) | None => Err ErrMessageNotFound end).

(** In the order in which they were stored. *)
Definition mock_GetDeadLetterMessages (limit : Z) : op (list DeadLetterMessage) :=
  locked (λ s,
    let len := Z.of_nat (length (dead_letter_messages s)) in
    let limit := if (limit <=? 0) || (len <? limit) then len else limit in
    Ok (s, take (Z.to_nat limit) (dead_letter_messages s))).

Definition mock_GetPendingCount : op Z :=
  locked (λ s, Ok (s, Z.of_nat (length (filter (λ m, waiting m) (map_to_list (outbox_messages s)).*2)))).
End double.

(** * Requests to either *)

Inductive request :=
| ReqSave (msg : OutboxMessage)
| ReqLease (workerID : string) (batchSize leaseDuration : Z)
| ReqExtend (workerID : string) (ids : list uuid) (leaseDuration : Z)
| ReqPublished (id : uuid)
| ReqFailed (id : uuid) (errMsg : string) (nextRetryAt : Z) (deadLetter : bool)
| ReqDeadLetter (dlq : DeadLetterMessage)
| ReqGet (id : uuid)
| ReqCount.

Inductive answer :=
| Done
| Leased (l : list OutboxMessage)
| Found (m : OutboxMessage)
| Counted (k : Z).

Section serving.
Context `{UT : UuidText}.
Local Open Scope go_scope.

Definition serve (r : request) : op answer :=
  match r with
  | ReqSave msg => SaveMessage msg ;;; ret Done
  | ReqLease w b d => let* l := LeaseMessages w b d in ret (Leased l)
  | ReqExtend w ids d => ExtendLease w ids d ;;; ret Done
  | ReqPublished id => MarkPublished id ;;; ret Done
  | ReqFailed id e t dl => MarkFailed id e t dl ;;; ret Done
  | ReqDeadLetter d => SaveDeadLetter d ;;; ret Done
  | ReqGet id => let* m := GetMessageByID id in ret (Found m)
  | ReqCount => let* k := GetPendingCount in ret (Counted k)
  end.

Definition mock_serve (r : request) : op answer :=
  match r with
  | ReqSave msg => mock_SaveMessage msg ;;; ret Done
  | ReqLease w b d => let* l := mock_LeaseMessages w b d in ret (Leased l)
  | ReqExtend w ids d => mock_ExtendLease w ids d ;;; ret Done
  | ReqPublished id => mock_MarkPublished id ;;; ret Done
  | ReqFailed id e t dl => mock_MarkFailed id e t dl ;;; ret Done
  | ReqDeadLetter d => mock_SaveDeadLetter d ;;; ret Done
  | ReqGet id => let* m := mock_GetMessageByID id in ret (Found m)
  | ReqCount => let* k := mock_GetPendingCount in ret (Counted k)
  end.
End serving.

(** * Where they agree *)

(** The messages that come about: under their identifiers, created at different instants,
    and leased only while they wait. *)
Record store_ok (s : State) : Prop := {
  so_key id m : outbox_messages s !! id = Some m → ID m = id;
  so_created id1 id2 m1 m2 : outbox_messages s !! id1 = Some m1 → outbox_messages s !! id2 = Some m2 →
    CreatedAt m1 = CreatedAt m2 → id1 = id2;
  so_leased id m : outbox_messages s !! id = Some m → LeasedBy m ≠ None → waiting m = true;
}.

(** A request that the tables take as it is. *)
Definition fits (s : State) (r : request) : Prop :=
  match r with
  | ReqSave msg =>
      ID msg ≠ uuid_Nil ∧ CreatedAt msg ≠ time_Zero ∧ message_ok msg = true ∧
      outbox_messages s !! ID msg = None ∧
      map_Forall (λ _ m, CreatedAt m ≠ CreatedAt msg) (outbox_messages s) ∧
      (LeasedBy msg ≠ None → waiting msg = true)
  | ReqLease w b d => 0 < b ∧ 0 < d ∧ varchar_ok 128 w = true
  | ReqFailed id e t dl =>
      match outbox_messages s !! id with
      | Some m => message_ok m = true ∧ RetryCount m < MaxInt32
      | None => False
      end
  | ReqDeadLetter d =>
      DLQ_ID d ≠ uuid_Nil ∧ DLQ_CreatedAt d ≠ time_Zero ∧ dead_letter_ok d = true ∧
      Forall (λ x, DLQ_ID x ≠ DLQ_ID d) (dead_letter_messages s)
  | ReqExtend _ _ _ | ReqPublished _ | ReqGet _ | ReqCount => True
  end.

#[export] Instance fits_dec s r : Decision (fits s r).
Proof. destruct r; simpl; [..|destruct (_ !! _)| | |]; apply _. Defined.


Section agree.
Context `{UT : UuidText} (env : Env) (Hstill : still env).

(** Both hold the same tables. *)
Definition same (s d : State) : Prop := s = d ∧ store_ok s.

Definition alike {A} (m1 m2 : op A) (s : State) : Prop :=
  ∀ n1 n2, final (m1 env n1 s) = final (m2 env n2 s) ∧ outcome (m1 env n1 s) = outcome (m2 env n2 s) ∧
    store_ok (final (m1 env n1 s)).

Lemma alike_sim {A} (m1 m2 : op A) s : alike m1 m2 s → sim same env m1 m2 s s.
Proof. intros H n1 n2. destruct (H n1 n2) as (Hf & Ho & Hs). by split. Qed.

Lemma store_ok_insert s id m :
  store_ok s → ID m = id → (∀ id' m', outbox_messages s !! id' = Some m' → CreatedAt m' = CreatedAt m → id' = id) →
  (LeasedBy m ≠ None → waiting m = true) → store_ok (set_messages s (<[id := m]> (outbox_messages s))).
Proof.
  intros [H1 H2 H3] Hid Hc Hl. split; cbn.
  - intros id' m' [[<- <-]|[_ H]]%lookup_insert_Some; eauto.
  - intros id1 id2 m1 m2 [[<- <-]|[_ L1]]%lookup_insert_Some [[<- <-]|[_ L2]]%lookup_insert_Some Heq;
      [done|symmetry; eapply Hc; eauto|eapply Hc; eauto|eauto].
  - intros id' m' [[<- <-]|[_ H]]%lookup_insert_Some; eauto.
Qed.

(** A row that keeps its identifier and its creation. *)
Lemma store_ok_update s id m m' :
  store_ok s → outbox_messages s !! id = Some m → ID m' = ID m → CreatedAt m' = CreatedAt m →
  (LeasedBy m' ≠ None → waiting m' = true) → store_ok (set_messages s (<[id := m']> (outbox_messages s))).
Proof.
  intros Hs Hm Hid Hc Hl. apply store_ok_insert; [done| | |done].
  - rewrite Hid. by eapply so_key.
  - intros id' m0 Hm0 Heq. eapply (so_created _ Hs); [done..|]. congruence.
Qed.

Lemma save_alike msg s : store_ok s → fits s (ReqSave msg) → alike (SaveMessage msg) (mock_SaveMessage msg) s.
Proof.
  intros Hs (Hid & Hc & Hok & Hnew & Hcreated & Hl) n1 n2. unfold SaveMessage, mock_SaveMessage.
  apply N.eqb_neq in Hid. apply Z.eqb_neq in Hc. rewrite Hid, Hc.
  unfold bind, ret, insert_message, locked. rewrite still_sql by done. cbn [ID].
  assert (MkOutboxMessage (ID msg) (AggregateType msg) (AggregateID msg) (EventType msg) (Payload msg)
              (Headers msg) (Status msg) (RetryCount msg) (LastError msg) (LeasedUntil msg)
              (LeasedBy msg) (TraceContext msg) (CreatedAt msg) (PublishedAt msg) = msg) as -> by by destruct msg.
  rewrite Hok, Hnew. cbn. split_and!; [done..|]. apply store_ok_insert; [done..| |done].
  intros id' m' H Heq. by destruct (Hcreated _ _ H).
Qed.

(** The rows of [update_any] that change are found by what the statement keeps of them. *)
Lemma store_ok_update_any s ids cond f :
  store_ok s → (∀ m, ID (f m) = ID m ∧ CreatedAt (f m) = CreatedAt m) →
  (∀ id m, outbox_messages s !! id = Some m → id ∈ ids → cond m = true → LeasedBy (f m) ≠ None → waiting (f m) = true) →
  store_ok (update_any ids cond f s).
Proof.
  intros Hs Hf Hw.
  assert (Hl : ∀ id m', outbox_messages (update_any ids cond f s) !! id = Some m' →
    ∃ m, outbox_messages s !! id = Some m ∧ ID m' = ID m ∧ CreatedAt m' = CreatedAt m ∧
      (LeasedBy m' ≠ None → waiting m' = true)).
  { intros id m'. rewrite lookup_update_any. intros (m & Hm & Hm')%fmap_Some. exists m. split; [done|].
    destruct (bool_decide (id ∈ ids)) eqn:Hid, (cond m) eqn:Hc; cbn in Hm'; subst m'.
    - destruct (Hf m) as [-> ->]. split_and!; [done..|]. apply (Hw _ _ Hm); [|done]. by apply bool_decide_eq_true in Hid.
    - split_and!; [done..|]. by eapply so_leased.
    - split_and!; [done..|]. by eapply so_leased.
    - split_and!; [done..|]. by eapply so_leased. }
  split.
  - intros id m' (m & Hm & -> & _)%Hl. by eapply so_key.
  - intros id1 id2 m1 m2 (x1 & H1 & _ & E1 & _)%Hl (x2 & H2 & _ & E2 & _)%Hl Hc.
    eapply so_created; [done..|]. congruence.
  - by intros id m' (m & _ & _ & _ & H)%Hl.
Qed.

Lemma extend_alike w ids d s : store_ok s → alike (ExtendLease w ids d) (mock_ExtendLease w ids d) s.
Proof.
  intros Hs n1 n2. set (now := env_now env 0%nat).
  set (f := λ m, set_lease m (Some (now + d)) (LeasedBy m)).
  set (held := λ m, bool_decide (LeasedBy m = Some w)).
  assert (Hmock : mock_ExtendLease w ids d env n2 s = (S n2, update_any ids held f s, Ok tt)).
  { unfold mock_ExtendLease, bind, time_now, locked. by rewrite (proj2 Hstill n2). }
  assert (Hsql : final (ExtendLease w ids d env n1 s) = update_any ids held f s ∧
                 outcome (ExtendLease w ids d env n1 s) = Ok tt).
  { unfold ExtendLease. destruct ids as [|i ids].
    - split; [|done]. cbn. destruct s as [ms dl]. unfold update_any, set_messages. cbn. f_equal.
      apply map_eq. intros id. rewrite map_lookup_imap. by destruct (ms !! id).
    - unfold bind, time_now. rewrite still_sql, (proj2 Hstill n1) by done. split; [|done]. cbn.
      unfold update_any, set_messages. f_equal. apply map_eq. intros id. rewrite !map_lookup_imap.
      destruct (outbox_messages s !! id) as [m|] eqn:Hm; [|done]. cbn. unfold held.
      destruct (bool_decide (LeasedBy m = Some w)) eqn:Hw; [|done]. apply bool_decide_eq_true in Hw.
      rewrite (so_leased _ Hs _ _ Hm); [done|congruence]. }
  destruct Hsql as [-> ->]. rewrite Hmock. split_and!; [done..|].
  apply store_ok_update_any; [done..|]. intros id m Hm _ _. cbn. apply (so_leased _ Hs _ _ Hm).
Qed.

Lemma foldl_insert_lookup (g : OutboxMessage → OutboxMessage) l (ms : gmap uuid OutboxMessage) id :
  NoDup (ID <$> l) → (∀ m, m ∈ l → ms !! ID m = Some m) →
  foldl (λ ms m, <[ID m := g m]> ms) ms l !! id =
  (λ m, if bool_decide (id ∈ ID <$> l) then g m else m) <$> ms !! id.
Proof.
  revert ms. induction l as [|x l IH]; intros ms Hnd Hin; cbn.
  { by destruct (ms !! id). }
  inversion Hnd as [|? ? Hx Hnd']; subst. rewrite IH; [|done|].
  - destruct (decide (id = ID x)) as [->|Hne].
    + rewrite lookup_insert_eq, (Hin x) by left. cbn.
      rewrite bool_decide_false by done. rewrite bool_decide_true by by left. done.
    + rewrite lookup_insert_ne by done. destruct (ms !! id) as [m|]; [|done]. cbn. do 2 f_equal.
      by rewrite (bool_decide_ext _ (id ∈ ID x :: (ID <$> l))) by (rewrite elem_of_cons; tauto).
  - intros m Hm. rewrite lookup_insert_ne; [apply Hin; by right|]. intros Heq. apply Hx. rewrite Heq.
    by apply list_elem_of_fmap_2.
Qed.

#[local] Instance mock_le_total : Total mock_le.
Proof.
  intros x y. unfold mock_le. destruct (Z.lt_trichotomy (CreatedAt x) (CreatedAt y)) as [|[|]]; [tauto| |tauto].
  destruct (String.le_total (uuid_String (ID x)) (uuid_String (ID y))); [left|right]; right; split; by auto.
Qed.
#[local] Instance mock_le_trans : Transitive mock_le.
Proof.
  intros x y z. unfold mock_le. intros [?|[? ?]] [?|[? ?]]; try (left; lia).
  right. split; [lia|]. etrans; done.
Qed.

Lemma elem_of_messages s m : m ∈ (map_to_list (outbox_messages s)).*2 → ∃ id, outbox_messages s !! id = Some m.
Proof. intros ([id x] & -> & Hin)%list_elem_of_fmap. exists id. by apply elem_of_map_to_list. Qed.

(** Of messages created at different instants there is one order. *)
Lemma select_candidates now b s : store_ok s → select_eligible now b s = take (Z.to_nat b) (mock_candidates now s).
Proof.
  intros Hs. unfold select_eligible, mock_candidates. f_equal.
  apply (same_order created_le mock_le); [unfold mock_le, created_le; intros x y; lia|..].
  - intros x y Hx Hy Hle1 Hle2. rewrite merge_sort_Permutation in Hx, Hy.
    apply list_elem_of_filter in Hx as [_ [ix Hx]%elem_of_messages].
    apply list_elem_of_filter in Hy as [_ [iy Hy]%elem_of_messages].
    assert (ix = iy) as -> by (eapply (so_created _ Hs); [done..|]; unfold created_le in *; lia). congruence.
  - apply Sorted_StronglySorted; [apply created_le_trans|]. apply Sorted_merge_sort, created_le_total.
  - apply Sorted_StronglySorted; [apply _|]. apply Sorted_merge_sort, _.
  - by rewrite !merge_sort_Permutation.
Qed.

Lemma mock_limit {A} (l : list A) b :
  take (Z.to_nat (if Z.of_nat (length l) <? b then Z.of_nat (length l) else b)) l = take (Z.to_nat b) l.
Proof. destruct (Z.ltb_spec (Z.of_nat (length l)) b); [|done]. rewrite !take_ge by lia. done. Qed.

Lemma lease_alike w b d s :
  store_ok s → fits s (ReqLease w b d) → alike (LeaseMessages w b d) (mock_LeaseMessages w b d) s.
Proof.
  intros Hs (Hb & Hd & Hw) n1 n2. pose proof (proj1 Hstill) as Hf. set (now := env_now env 0%nat).
  set (f := λ m, set_lease m (Some (now + d)) (Some w)). set (sel := select_eligible now b s).
  assert (Hsel : ∀ m, m ∈ sel → eligible now m = true ∧ outbox_messages s !! ID m = Some m).
  { intros m [He [id Hm]]%select_eligible_elem. split; [done|]. by rewrite (so_key _ Hs _ _ Hm). }
  assert (Hmock : mock_LeaseMessages w b d env n2 s =
    (S n2, set_messages s (foldl (λ ms m, <[ID m := f m]> ms) (outbox_messages s) sel), Ok (f <$> sel))).
  { unfold mock_LeaseMessages, bind, time_now, locked, sel. rewrite (proj2 Hstill n2).
    by rewrite mock_limit, select_candidates. }
  assert (Heq : update_any (ID <$> sel) (λ _, true) f s =
                set_messages s (foldl (λ ms m, <[ID m := f m]> ms) (outbox_messages s) sel)).
  { unfold update_any. f_equal. apply map_eq. intros id.
    rewrite foldl_insert_lookup; [|by apply select_eligible_nodup; intros ?; apply so_key|by intros m [_ ?]%Hsel].
    rewrite map_lookup_imap. destruct (outbox_messages s !! id); [|done]. cbn. by rewrite andb_true_r. }
  assert (Hsql : ∃ k, LeaseMessages w b d env n1 s = (k, update_any (ID <$> sel) (λ _, true) f s, Ok (f <$> sel))).
  { unfold LeaseMessages. rewrite (proj2 (Z.leb_gt b 0)), (proj2 (Z.leb_gt d 0)) by lia.
    unfold map_err. rewrite ExecuteTx_run by done. unfold bind at 1. rewrite still_sql by done. fold now sel.
    destruct sel as [|m l] eqn:E.
    - rewrite Heq. eexists. by destruct s.
    - unfold bind, time_now. rewrite still_sql, (proj2 Hstill) by done. fold now. rewrite Hw. by eexists. }
  destruct Hsql as [k ->]. rewrite Hmock, Heq. split_and!; [done..|]. rewrite <-Heq.
  apply store_ok_update_any; [done..|]. intros id m Hm (x & -> & Hx)%list_elem_of_fmap _ _.
  apply Hsel in Hx as [He Hx]. assert (x = m) as -> by congruence.
  unfold eligible in He. by apply andb_true_iff in He as [He _].
Qed.

Lemma published_alike id s : store_ok s → alike (MarkPublished id) (mock_MarkPublished id) s.
Proof.
  intros Hs n1 n2. unfold MarkPublished, mock_MarkPublished, bind, time_now, locked.
  rewrite still_sql, (proj2 Hstill n2) by done.
  destruct (outbox_messages s !! id) as [m|] eqn:Hm; cbn; [|done].
  split_and!; [done..|]. by apply (store_ok_update _ _ m).
Qed.

Lemma failed_alike id e t dl s :
  store_ok s → fits s (ReqFailed id e t dl) → alike (MarkFailed id e t dl) (mock_MarkFailed id e t dl) s.
Proof.
  intros Hs Hfit n1 n2. unfold MarkFailed, mock_MarkFailed, locked. rewrite still_sql by done. cbn in Hfit.
  destruct (outbox_messages s !! id) as [m|] eqn:Hm; [|done]. destruct Hfit as [Hok Hr].
  unfold message_ok in Hok. rewrite !andb_true_iff in Hok. destruct Hok as (((((H1 & H2) & H3) & H4) & _) & H6).
  assert (H4' : int4_ok (RetryCount m + 1) = true) by (unfold int4_ok, MaxInt32 in *; lia).
  unfold message_ok. cbn [AggregateType AggregateID EventType RetryCount LeasedBy TraceContext].
  rewrite H1, H2, H3, H4', H6.
  assert (add64 (RetryCount m) 1 = RetryCount m + 1) as ->
    by (apply add64_id; unfold int4_ok, in64, MinInt64, MaxInt64, MinInt32, MaxInt32 in *; lia).
  cbn. split_and!; [done..|]. by apply (store_ok_update _ _ m).
Qed.

Lemma dead_letter_alike d s :
  store_ok s → fits s (ReqDeadLetter d) → alike (SaveDeadLetter d) (mock_SaveDeadLetter d) s.
Proof.
  intros [K1 K2 K3] (Hid & Hc & Hok & Hnew) n1 n2. unfold SaveDeadLetter, mock_SaveDeadLetter.
  apply N.eqb_neq in Hid. apply Z.eqb_neq in Hc. rewrite Hid, Hc. unfold bind, ret, locked. rewrite still_sql by done.
  assert (MkDeadLetterMessage (DLQ_ID d) (DLQ_SourceType d) (DLQ_SourceID d) (DLQ_Topic d)
              (DLQ_Partition d) (DLQ_OffsetVal d) (DLQ_ErrorReason d) (DLQ_Payload d)
              (DLQ_Headers d) (DLQ_RetryCount d) (DLQ_CreatedAt d) = d) as -> by by destruct d.
  rewrite Hok. rewrite decide_False by (rewrite Exists_exists; intros (x & Hx & Heq); by rewrite Forall_forall in Hnew; apply (Hnew x)).
  by split_and!.
Qed.

Lemma get_alike id s : store_ok s → alike (GetMessageByID id) (mock_GetMessageByID id) s.
Proof.
  intros Hs n1 n2. unfold GetMessageByID, mock_GetMessageByID, locked. rewrite still_sql by done.
  by destruct (outbox_messages s !! id).
Qed.

Lemma count_alike s : store_ok s → alike GetPendingCount mock_GetPendingCount s.
Proof. intros Hs n1 n2. unfold GetPendingCount, mock_GetPendingCount, locked. by rewrite still_sql by done. Qed.

Lemma serve_alike r s d : same s d → fits s r → sim same env (serve r) (mock_serve r) s d.
Proof.
  intros [<- Hs] Hr. destruct r; cbn [serve mock_serve]; apply sim_then, alike_sim;
    eauto using save_alike, lease_alike, extend_alike, published_alike, failed_alike, dead_letter_alike,
      get_alike, count_alike.
Qed.
End agree.

(** the double of the tests stands for the repository over PostgreSQL.  While nothing
    fails and the clock stands still, a caller that sends both the same requests gets the
    same answers from both and leaves the same messages in both, whatever the requests:
    stores, leases of a batch, extensions, outcomes of a dispatch, readings.  The requests
    are ones that the tables take: what is stored is new, complete and of the width of the
    columns, no two messages are of one instant, a batch is not empty, and what is marked
    as failed exists. *)
Theorem double_agrees `{UT : UuidText} env rs n1 n2 s :
  still env → store_ok s → all_fit serve env fits rs n1 s →
  serve_all serve env rs n1 s = serve_all mock_serve env rs n2 s.
Proof.
  intros Hstill Hs Hfit.
  destruct (sim_all same env serve mock_serve fits (serve_alike env Hstill) rs n1 n2 s s) as [Ha [Hf _]];
    [done..|].
  destruct (serve_all serve env rs n1 s), (serve_all mock_serve env rs n2 s). cbn in *. congruence.
Qed.

(** Two messages are stored, leased one after the other, retried, published and counted. *)
Definition ex_message (id : uuid) (at_ : Z) : OutboxMessage :=
  MkOutboxMessage id "order" "o-1" "order.created" JNull ∅ StatusPending 0 None None None None at_ None.
Definition ex_requests : list request :=
  [ReqSave (ex_message 7 20); ReqSave (ex_message 8 10); ReqLease "w1" 1 500; ReqLease "w2" 5 500;
   ReqExtend "w1" [8%N; 7%N] 900; ReqFailed 8 "broker away" 2000 false; ReqPublished 7; ReqPublished 9;
   ReqGet 8; ReqCount].

Lemma double_agrees_witness :
  let serve' := @serve in let run := serve_all serve (calm_env 1000 1) ex_requests 0 empty_state in
  (omap (λ a, match a with Ok (Leased l) => Some (ID <$> l) | Ok (Counted k) => Some [Z.to_N k] | _ => None end) run.2 =
     [[8]; [7]; [1]]%N) ∧
  run = serve_all (mock_serve (UT := ex_uuid_text)) (calm_env 1000 1) ex_requests 3 empty_state.
Proof.
  split; [by vm_compute|]. apply (double_agrees (UT := ex_uuid_text) (calm_env 1000 1) ex_requests 0 3 empty_state).
  - apply calm_env_still.
  - by split.
  - apply (bool_decide_unpack _). vm_compute. exact I.
Defined.

(** ** Where they do not *)

(** A failure of a message that is not there is an answer of the double alone. *)
Lemma failed_unknown_differs id e t dl env n s :
  no_faults env → outbox_messages s !! id = None →
  outcome (MarkFailed id e t dl env n s) = Ok tt ∧
  outcome (mock_MarkFailed id e t dl env n s) = Err ErrMessageNotFound.
Proof.
  intros Hf H. unfold MarkFailed, mock_MarkFailed, locked. rewrite sql_run by apply Hf.
  by rewrite H.
Qed.

(** A batch of no size is ten messages of the repository, and none of the double. *)
Example empty_batch_differs :
  let s := set_messages empty_state {[7%N := ex_message 7 20]} in
  fst (serve_all serve (calm_env 9 1) [ReqLease "w" 0 5] 0 s) ≠
  fst (serve_all (mock_serve (UT := ex_uuid_text)) (calm_env 9 1) [ReqLease "w" 0 5] 0 s).
Proof. intros s. subst s. intros H. apply (f_equal (λ s, LeasedBy <$> outbox_messages s !! 7%N)) in H. by vm_compute in H. Qed.

(** The newest dead letter is the repository's first and the double's last. *)
Example dead_letters_differ :
  let letter id at_ := MkDeadLetterMessage id "OUTBOX" "7" "t" 0 0 "why" JNull ∅ 1 at_ in
  let s := MkState ∅ [letter 1%N 10; letter 2%N 20] in
  outcome (GetDeadLetterMessages 1 (calm_env 9 1) 0%nat s) = Ok [letter 2%N 20] ∧
  outcome (mock_GetDeadLetterMessages 1 (calm_env 9 1) 0%nat s) = Ok [letter 1%N 10].
Proof. by vm_compute. Qed.
