(* ===== verification/Worker.v ===== *)
(** The lifecycle of the background workers: Start, Stop and IsActive of the outbox poller
    (internal/domain/outbox/poller.go), of the saga watchdog
    (internal/domain/saga/watchdog.go), of the consumer of Kafka
    (internal/platform/kafka/consumer.go) and of the inbox processor on top of it
    (internal/domain/inbox/processor.go).

    The first three are the same code but for their texts: a flag under a mutex, the
    function that cancels the context of the last loop, and a WaitGroup that counts the
    loops that have not returned.  A loop is a goroutine of its own; so is a call of Stop
    that waits.  What a cycle of the loop does to the world is a parameter ([work]), a
    relation between the states before and after a piece of it. *)

From S2P Require Import Prelude.

(** Where a loop is: choosing between its ticker and its context, in a cycle, or returned. *)
Inductive phase := Selecting | Working | Ended.

(** A loop, with the context its own is derived from, and whether its own is over. *)
Record loop := MkLoop { parent : nat; cancelled : bool; at_ : phase }.

(** A call of Stop that has found the worker active, when [mark] loops had been started. *)
Inductive stopping := Waiting (mark : nat) | Stopped (mark : nat) | TimedOut (mark : nat).

(** [over] are the contexts that are done; [closed] is whether the client that the consumer
    owns has been closed. *)
Record worker := MkWorker {
  active : bool;
  cancel : nat;                              (** the loop that [cancel] cancels *)
  loops : list loop;
  stops : list stopping;
  over : gset nat;
  closed : bool;
}.

Definition new_worker : worker := MkWorker false 0 [] [] ∅ false.

Definition set_loops (w : worker) (ls : list loop) : worker :=
  MkWorker (active w) (cancel w) ls (stops w) (over w) (closed w).
Definition set_stops (w : worker) (ss : list stopping) (c : bool) : worker :=
  MkWorker (active w) (cancel w) (loops w) ss (over w) c.

Definition set_cancelled (l : loop) : loop := MkLoop (parent l) true (at_ l).
Definition set_phase (p : phase) (l : loop) : loop := MkLoop (parent l) (cancelled l) p.

(** [wg.Wait] returns: no loop is left. *)
Definition drained (w : worker) : Prop := Forall (λ l, at_ l = Ended) (loops w).

Section worker.
Context (name : string).                     (** as the errors call it *)
Context (owns : bool).                       (** closes its client when it has stopped *)

Definition Start (ctx : nat) (w : worker) : worker * option string :=
  if active w then (w, Some (name ++ " is already running")%string) else
  (MkWorker true (length (loops w)) (loops w ++ [MkLoop ctx (bool_decide (ctx ∈ over w)) Selecting])
     (stops w) (over w) (closed w), None).

(** Stop up to its wait; an inactive worker is stopped at once. *)
Definition Stop (w : worker) : worker :=
  if negb (active w) then w else
  MkWorker false (cancel w) (alter set_cancelled (cancel w) (loops w))
    (stops w ++ [Waiting (length (loops w))]) (over w) (closed w).

(** The end of a Stop: the loops are drained, or its context is done. *)
Definition stop_clean (k mark : nat) (w : worker) : worker :=
  set_stops w (<[k := Stopped mark]> (stops w)) (closed w || owns).
Definition stop_timeout (k mark : nat) (w : worker) : worker :=
  set_stops w (<[k := TimedOut mark]> (stops w)) (closed w).

Definition IsActive (w : worker) : bool := active w.

(** A context is cancelled, and with it those derived from it. *)
Definition cancel_context (ctx : nat) (w : worker) : worker :=
  MkWorker (active w) (cancel w) ((λ l, if decide (parent l = ctx) then set_cancelled l else l) <$> loops w)
    (stops w) ({[ctx]} ∪ over w) (closed w).

(** ** Steps *)

Section steps.
Context {X : Type} (work : X → X → Prop).

(** What happens to a worker other than a Start: a Stop is called, returns or gives up; a
    context is cancelled; a loop begins a cycle, does a piece of it, ends it, or returns.
    With a cancelled context the choice of the loop may still fall on its ticker. *)
Inductive quiet : worker * X → worker * X → Prop :=
| quiet_stop w x : quiet (w, x) (Stop w, x)
| quiet_stopped w x k m : stops w !! k = Some (Waiting m) → drained w → quiet (w, x) (stop_clean k m w, x)
| quiet_timeout w x k m : stops w !! k = Some (Waiting m) → quiet (w, x) (stop_timeout k m w, x)
| quiet_cancel w x ctx : quiet (w, x) (cancel_context ctx w, x)
| quiet_tick w x i l : loops w !! i = Some l → at_ l = Selecting → closed w = false →
    quiet (w, x) (set_loops w (<[i := set_phase Working l]> (loops w)), x)
| quiet_work w x x' i l : loops w !! i = Some l → at_ l = Working → work x x' → quiet (w, x) (w, x')
| quiet_cycle w x i l : loops w !! i = Some l → at_ l = Working →
    quiet (w, x) (set_loops w (<[i := set_phase Selecting l]> (loops w)), x)
| quiet_return w x i l : loops w !! i = Some l → cancelled l = true ∨ closed w = true →
    quiet (w, x) (set_loops w (<[i := set_phase Ended l]> (loops w)), x).

Inductive step : worker * X → worker * X → Prop :=
| step_quiet c c' : quiet c c' → step c c'
| step_start w x ctx : step (w, x) ((Start ctx w).1, x).

(** ** The invariant *)

(** Who still waits, or has waited in vain, for the loops below a mark. *)
Definition unsure (w : worker) (i : nat) : Prop :=
  ∃ k m, (stops w !! k = Some (Waiting m) ∨ stops w !! k = Some (TimedOut m)) ∧ (i < m)%nat.

Record lifecycle (w : worker) : Prop := {
  lc_live i l : loops w !! i = Some l → cancelled l = false → active w = true ∧ i = cancel w;
  lc_active : active w = true → cancel w = pred (length (loops w)) ∧ (0 < length (loops w))%nat;
  lc_running i l : loops w !! i = Some l → at_ l ≠ Ended → (active w = true ∧ i = cancel w) ∨ unsure w i;
  lc_mark k m : stops w !! k = Some (Waiting m) ∨ stops w !! k = Some (Stopped m) ∨ stops w !! k = Some (TimedOut m) →
    (m <= length (loops w))%nat;
  lc_stopped k m i l : stops w !! k = Some (Stopped m) → loops w !! i = Some l → (i < m)%nat → at_ l = Ended;
}.

Lemma lookup_alter_loop f i j (ls : list loop) l :
  alter f i ls !! j = Some l → ∃ l0, ls !! j = Some l0 ∧ l = (if decide (i = j) then f l0 else l0).
Proof.
  rewrite list_lookup_alter. case_decide as Hi; [subst|by eauto].
  intros (l0 & Hl0 & ->)%fmap_Some. by exists l0.
Qed.

Lemma lookup_insert_loop {A} (y : A) i j (ls : list A) l :
  <[i := y]> ls !! j = Some l → (i = j ∧ l = y ∧ is_Some (ls !! i)) ∨ (i ≠ j ∧ ls !! j = Some l).
Proof.
  destruct (decide (i = j)) as [->|Hne].
  - intros H. left. assert (Hlt : (j < length ls)%nat).
    { apply lookup_lt_Some in H. by rewrite length_insert in H. }
    rewrite list_lookup_insert_eq in H by done. injection H as ->. by rewrite lookup_lt_is_Some.
  - rewrite list_lookup_insert_ne by done. auto.
Qed.

Lemma new_lifecycle : lifecycle new_worker.
Proof. split; try done; by intros; destruct_or?. Qed.

(** A change of the phase of a loop, when a running one was allowed to run. *)
Lemma phase_lifecycle w i l p :
  loops w !! i = Some l → at_ l ≠ Ended ∨ p = Ended → lifecycle w → lifecycle (set_loops w (<[i := set_phase p l]> (loops w))).
Proof.
  intros Hl Hp [Hlive Hact Hrun Hmark Hstop]. split; cbn [set_loops active cancel loops stops].
  - intros j z [(-> & -> & _)|[_ Hz]]%lookup_insert_loop; [|by apply Hlive]. cbn. by apply Hlive.
  - by rewrite length_insert.
  - intros j z [(-> & -> & _)|[_ Hz]]%lookup_insert_loop; [|by eapply Hrun].
    cbn. intros Hne. destruct Hp as [Hp|Hp]; [|done]. by eapply Hrun.
  - intros k m. rewrite length_insert. apply Hmark.
  - intros k m j z Hk [(-> & -> & _)|[_ Hz]]%lookup_insert_loop Hlt; [|by eapply Hstop].
    cbn. destruct Hp as [Hp|Hp]; [|done]. contradict Hp. by eapply Hstop.
Qed.

(** A Stop that ends: it has seen the loops drained, or stays unsure of them. *)
Lemma stops_lifecycle w k m s c :
  stops w !! k = Some (Waiting m) → s = TimedOut m ∨ s = Stopped m ∧ drained w →
  lifecycle w → lifecycle (set_stops w (<[k := s]> (stops w)) c).
Proof.
  intros Hk Hs [Hlive Hact Hrun Hmark Hstop]. split; cbn [set_stops active cancel loops stops]; [done|done| | |].
  - intros i l Hl Hne. destruct (Hrun i l Hl Hne) as [|(k' & m' & Hk' & Hlt)]; [by left|right].
    destruct (decide (k' = k)) as [->|Hnk].
    + destruct Hs as [->|[-> Hd]]; [|by eapply Forall_lookup_1 in Hd].
      exists k, m. split; [right; apply list_lookup_insert_eq; by eapply lookup_lt_Some|].
      rewrite Hk in Hk'. naive_solver.
    + exists k', m'. unfold unsure. cbn [set_stops stops]. by rewrite list_lookup_insert_ne by done.
  - intros k' m' Hk'. destruct (decide (k' = k)) as [->|Hnk].
    + rewrite list_lookup_insert_eq in Hk' by (by eapply lookup_lt_Some).
      assert (m' = m) as -> by (destruct Hs as [->|[-> _]]; naive_solver). apply (Hmark k). auto.
    + rewrite list_lookup_insert_ne in Hk' by done. by apply (Hmark k').
  - intros k' m' i l [(-> & <- & _)|[_ Hk']]%lookup_insert_loop Hl Hlt; [|by eapply Hstop].
    destruct Hs as [|[_ Hd]]; [done|]. by eapply Forall_lookup_1 in Hd.
Qed.

(** Cancelling takes no right to run away. *)
Lemma cancel_context_lifecycle w ctx : lifecycle w → lifecycle (cancel_context ctx w).
Proof.
  intros [Hlive Hact Hrun Hmark Hstop]. split; cbn [cancel_context active cancel loops stops]; try rewrite length_fmap; [|done| |done|].
  - intros i l (l0 & -> & Hl0)%list_lookup_fmap_Some. case_decide; [done|]. by apply Hlive.
  - intros i l (l0 & -> & Hl0)%list_lookup_fmap_Some Hne. apply (Hrun i l0 Hl0). by case_decide.
  - intros k m i l Hk (l0 & -> & Hl0)%list_lookup_fmap_Some Hlt. pose proof (Hstop k m i l0 Hk Hl0 Hlt). by case_decide.
Qed.

Lemma Stop_lifecycle w : lifecycle w → lifecycle (Stop w).
Proof.
  unfold Stop. destruct (active w) eqn:Ha; [|done]. cbn [negb]. intros [Hlive Hact Hrun Hmark Hstop].
  split; cbn [active cancel loops stops]; [| |..].
  - intros i l (l0 & Hl0 & ->)%lookup_alter_loop. case_decide as Hi; [done|]. intros Hc.
    destruct (Hlive i l0 Hl0 Hc) as [_ ->]. done.
  - done.
  - intros i l (l0 & Hl0 & ->)%lookup_alter_loop _. right. exists (length (stops w)), (length (loops w)).
    cbn [stops]. rewrite lookup_app_r, Nat.sub_diag by done. split; [by left|]. by eapply lookup_lt_Some.
  - intros k m. rewrite length_alter. intros Hk.
    assert (Hcase : (stops w !! k = Some (Waiting m) ∨ stops w !! k = Some (Stopped m) ∨ stops w !! k = Some (TimedOut m)) ∨
      m = length (loops w)).
    { rewrite !lookup_app_Some in Hk. destruct_or! Hk; auto; destruct Hk as [_ [_ Hk]%list_lookup_singleton_Some]; naive_solver. }
    destruct Hcase as [Hc| ->]; [by eapply Hmark|lia].
  - intros k m i l [Hk|[_ [_ ?]%list_lookup_singleton_Some]]%lookup_app_Some (l0 & Hl0 & ->)%lookup_alter_loop Hlt; [|done].
    pose proof (Hstop k m i l0 Hk Hl0 Hlt). by case_decide.
Qed.

Lemma Start_lifecycle ctx w : lifecycle w → lifecycle (Start ctx w).1.
Proof.
  unfold Start. destruct (active w) eqn:Ha; [done|]. cbn [fst]. intros [Hlive Hact Hrun Hmark Hstop].
  split; cbn [active cancel loops stops].
  - intros i l [Hl|[Hle [? <-]%list_lookup_singleton_Some]]%lookup_app_Some Hc.
    + destruct (Hlive i l Hl Hc). congruence.
    + split; [done|lia].
  - intros _. rewrite length_app. cbn. lia.
  - intros i l [Hl|[Hle [? <-]%list_lookup_singleton_Some]]%lookup_app_Some Hne; [|left; split; [done|lia]].
    destruct (Hrun i l Hl Hne) as [[? _]|Hu]; [congruence|by right].
  - intros k m Hk. rewrite length_app. pose proof (Hmark k m Hk). lia.
  - intros k m i l Hk [Hl|[Hle [? <-]%list_lookup_singleton_Some]]%lookup_app_Some Hlt; [by eapply Hstop|].
    assert (m <= length (loops w))%nat by (apply (Hmark k); auto). lia.
Qed.

Lemma step_lifecycle w x w' x' : step (w, x) (w', x') → lifecycle w → lifecycle w'.
Proof.
  intros H. inversion H as [c c' Hq| ? ? ctx]; subst; [|apply Start_lifecycle].
  inversion Hq; subst; [apply Stop_lifecycle| | |apply cancel_context_lifecycle| |done| |].
  - eapply stops_lifecycle; [done|]. by right.
  - eapply stops_lifecycle; [done|]. by left.
  - eapply phase_lifecycle; [done|]. left. congruence.
  - eapply phase_lifecycle; [done|]. left. congruence.
  - eapply phase_lifecycle; [done|]. by right.
Qed.
Lemma reachable_lifecycle w x0 x : rtc step (new_worker, x0) (w, x) → lifecycle w.
Proof.
  intros H. remember (new_worker, x0) as c0 eqn:E0. remember (w, x) as c eqn:E.
  cut (lifecycle c.1); [by subst|]. assert (H0 : lifecycle c0.1) by (subst; apply new_lifecycle).
  clear E0 E. induction H as [|[w1 x1] [w2 x2] c Hs _ IH]; [done|]. by eapply IH, step_lifecycle.
Qed.

(** ** At rest *)

Lemma quiet_drained w x w' x' : quiet (w, x) (w', x') → drained w → x' = x ∧ drained w'.
Proof.
  intros H Hd. unfold drained in *.
  assert (Hno : ∀ i l, loops w !! i = Some l → at_ l ≠ Ended → False).
  { intros i l Hl Hne. by eapply Forall_lookup_1 in Hd. }
  inversion H; subst; try done; try (exfalso; eapply Hno; [done|congruence]).
  - split; [done|]. unfold Stop. destruct (active w); [|done]. cbn [negb loops].
    apply Forall_alter; [done|]. by intros.
  - split; [done|]. cbn. apply Forall_fmap. eapply Forall_impl; [done|]. intros l Hl. cbn. by case_decide.
  - split; [done|]. by apply Forall_insert.
Qed.

Lemma quiet_rtc_drained c c' : rtc quiet c c' → drained c.1 → c'.2 = c.2 ∧ drained c'.1.
Proof.
  induction 1 as [|[w1 x1] [w2 x2] c3 Hq _ IH]; [done|]. intros Hd.
  apply quiet_drained in Hq as [-> Hd2]; [|done]. by apply IH.
Qed.

(** Loops whose contexts are over can all return. *)
Lemma return_all w x : Forall (λ l, cancelled l = true) (loops w) →
  ∃ ls, Forall (λ l, at_ l = Ended) ls ∧ rtc quiet (w, x) (set_loops w ls, x).
Proof.
  intros Hc.
  cut (∀ n, (n <= length (loops w))%nat → ∃ ls, length ls = length (loops w) ∧ Forall (λ l, cancelled l = true) ls ∧
    Forall (λ l, at_ l = Ended) (take n ls) ∧ rtc quiet (w, x) (set_loops w ls, x)).
  { intros H. destruct (H (length (loops w))) as (ls & Hlen & _ & He & Hr); [done|].
    exists ls. by rewrite <- Hlen, firstn_all in He. }
  induction n as [|n IH]; intros Hn.
  - exists (loops w). split_and!; [done..|]. destruct w. apply rtc_refl.
  - destruct IH as (ls & Hlen & Hcs & He & Hr); [lia|].
    destruct (lookup_lt_is_Some_2 ls n) as [l Hl]; [lia|]. pose proof (Forall_lookup_1 _ _ _ _ Hcs Hl) as Hcl.
    exists (<[n := set_phase Ended l]> ls). split_and!.
    + by rewrite length_insert.
    + by apply Forall_insert.
    + rewrite (take_S_r _ _ (set_phase Ended l)) by (apply list_lookup_insert_eq; lia).
      apply Forall_app. split; [|by constructor]. by rewrite take_insert_ge.
    + eapply rtc_r; [done|]. apply (quiet_return (set_loops w ls) x n l); [done|by left].
Qed.

(** C31: the background workers start and stop as they should.  However calls of Start and
    Stop, cancelled contexts and the loops interleave: at most one loop has a context that
    is not over, and only while the worker is active.  A Stop that has returned cleanly,
    with no Start since it was called, leaves a worker that does nothing more, whatever
    else happens.  One that still waits for an inactive worker can always come to that end.
    And as long as every Stop has returned cleanly, no two loops run at a time, and none
    while the worker is inactive. *)
Theorem worker_lifecycle w x0 x :
  rtc step (new_worker, x0) (w, x) →
  (∀ i j li lj, loops w !! i = Some li → loops w !! j = Some lj → cancelled li = false → cancelled lj = false →
     i = j ∧ IsActive w = true) ∧
  (∀ k, stops w !! k = Some (Stopped (length (loops w))) →
     ∀ w' x', rtc quiet (w, x) (w', x') → x' = x ∧ drained w') ∧
  (∀ k m, stops w !! k = Some (Waiting m) → IsActive w = false →
     ∃ w', rtc quiet (w, x) (w', x) ∧ stops w' !! k = Some (Stopped m) ∧ drained w') ∧
  ((∀ k s, stops w !! k = Some s → ∃ m, s = Stopped m) →
     ∀ i j li lj, loops w !! i = Some li → loops w !! j = Some lj → at_ li ≠ Ended → at_ lj ≠ Ended →
     i = j ∧ IsActive w = true).
Proof.
  intros Hr. destruct (reachable_lifecycle _ _ _ Hr) as [Hlive Hact Hrun Hmark Hstop]. unfold IsActive. split_and!.
  - intros i j li lj Hi Hj Hci Hcj. destruct (Hlive i li Hi Hci) as [Ha ->]. by destruct (Hlive j lj Hj Hcj) as [_ ->].
  - intros k Hk w' x' Hq. apply (quiet_rtc_drained _ _ Hq). apply Forall_lookup_2. intros i l Hl.
    eapply Hstop; [done..|]. by eapply lookup_lt_Some.
  - intros k m Hk Ha. destruct (return_all w x) as (ls & He & Hq).
    { apply Forall_lookup_2. intros i l Hl. apply not_false_is_true. intros Hc. by destruct (Hlive i l Hl Hc); congruence. }
    exists (stop_clean k m (set_loops w ls)). split_and!; [|cbn; apply list_lookup_insert_eq; by eapply lookup_lt_Some|done].
    eapply rtc_r; [done|]. by apply quiet_stopped.
  - intros Hs i j li lj Hi Hj Hni Hnj.
    assert (Hun : ∀ i, ¬ unsure w i). { intros n (k & m & [Hk|Hk] & _); by destruct (Hs _ _ Hk) as [? [=]]. }
    destruct (Hrun i li Hi Hni) as [[Ha ->]|Hu]; [|by destruct (Hun _ Hu)].
    destruct (Hrun j lj Hj Hnj) as [[_ ->]|Hu]; [done|by destruct (Hun _ Hu)].
Qed.
End steps.
End worker.

(** * The workers *)

Definition Poller_Start : nat → worker → worker * option string := Start "outbox poller".
Definition Poller_Stop : worker → worker := Stop.
Definition Poller_run {X} (work : X → X → Prop) := quiet false work.

Definition Watchdog_Start : nat → worker → worker * option string := Start "saga watchdog".
Definition Watchdog_Stop : worker → worker := Stop.
Definition Watchdog_run {X} (work : X → X → Prop) := quiet false work.

(** The consumer owns its client when it was made from a configuration. *)
Definition FranzConsumer_Start (has_handler : bool) (ctx : nat) (w : worker) : worker * option string :=
  if active w then (w, Some "kafka consumer is already running") else
  if negb has_handler then (w, Some "kafka consumer handler cannot be nil") else
  Start "kafka consumer" ctx w.
Definition FranzConsumer_Stop : worker → worker := Stop.
Definition consumeLoop {X} (work : X → X → Prop) := quiet true work.

(** ** The inbox processor, which keeps a flag of its own *)

(** [stopping_] is the call of the consumer's Stop that a Stop of the processor waits for,
    with the mutex locked. *)
Record processor := MkProcessor { p_active : bool; stopping_ : option nat; consumer : worker }.

Definition new_processor : processor := MkProcessor false None new_worker.

Definition Processor_Start (ctx : nat) (p : processor) : processor * option string :=
  if p_active p then (p, Some "inbox processor is already running") else
  match FranzConsumer_Start true ctx (consumer p) with
  | (c, Some e) => (MkProcessor false None c, Some ("inbox processor: start consumer: " ++ e)%string)
  | (c, None) => (MkProcessor true None c, None)
  end.

(** Stop up to the wait of the consumer's Stop, which does not wait for an inactive one. *)
Definition Processor_Stop (p : processor) : processor :=
  if negb (p_active p) then p else
  if negb (active (consumer p)) then MkProcessor false None (consumer p) else
  MkProcessor true (Some (length (stops (consumer p)))) (FranzConsumer_Stop (consumer p)).

(** The end of a Stop, when the consumer's has returned: without or with an error. *)
Definition Processor_stopped (k : nat) (p : processor) : option processor :=
  match stops (consumer p) !! k with
  | Some (Stopped _) => Some (MkProcessor false None (consumer p))
  | Some (TimedOut _) => Some (MkProcessor (p_active p) None (consumer p))
  | _ => None
  end.

Section processor.
Context {X : Type} (work : X → X → Prop).

(** Nobody else starts or stops the consumer. *)
Inductive pstep : processor * X → processor * X → Prop :=
| pstep_start p x ctx : stopping_ p = None → pstep (p, x) ((Processor_Start ctx p).1, x)
| pstep_stop p x : stopping_ p = None → pstep (p, x) (Processor_Stop p, x)
| pstep_stopped p x k p' : stopping_ p = Some k → Processor_stopped k p = Some p' → pstep (p, x) (p', x)
| pstep_consumer p x c x' : consumeLoop work (consumer p, x) (c, x') → active c = active (consumer p) →
    pstep (p, x) (MkProcessor (p_active p) (stopping_ p) c, x').

(** A Stop of the consumer has given up. *)
Definition gave_up (c : worker) : Prop := ∃ k m, stops c !! k = Some (TimedOut m).

Record processing (p : processor) : Prop := {
  pr_lifecycle : lifecycle (consumer p);
  pr_stopping k : stopping_ p = Some k → p_active p = true ∧ active (consumer p) = false ∧
    ∃ s, stops (consumer p) !! k = Some s ∧
      ∀ m, s = Waiting m ∨ s = Stopped m ∨ s = TimedOut m → m = length (loops (consumer p));
  pr_inactive : p_active p = false → stopping_ p = None ∧ active (consumer p) = false;
  pr_rest : active (consumer p) = false → stopping_ p = None → drained (consumer p) ∨ gave_up (consumer p);
}.

Lemma new_processing : processing new_processor.
Proof. split; try done; [apply new_lifecycle|]. intros _ _. left. by constructor. Qed.

(** What the steps of the consumer keep. *)
Lemma consumer_keeps c x c' x' : consumeLoop work (c, x) (c', x') → active c' = active c →
  length (loops c') = length (loops c) ∧ (gave_up c → gave_up c') ∧
  ∀ k s, stops c !! k = Some s → ∃ s', stops c' !! k = Some s' ∧
    ∀ m, s' = Waiting m ∨ s' = Stopped m ∨ s' = TimedOut m → s = Waiting m ∨ s = Stopped m ∨ s = TimedOut m.
Proof.
  intros H Ha. assert (Hup : ∀ k m s', stops c !! k = Some (Waiting m) → s' = Stopped m ∨ s' = TimedOut m →
    (gave_up c → ∃ k' m', <[k := s']> (stops c) !! k' = Some (TimedOut m')) ∧
    ∀ k0 s0, stops c !! k0 = Some s0 → ∃ s1, <[k := s']> (stops c) !! k0 = Some s1 ∧
      ∀ m, s1 = Waiting m ∨ s1 = Stopped m ∨ s1 = TimedOut m → s0 = Waiting m ∨ s0 = Stopped m ∨ s0 = TimedOut m).
  { intros k m s' Hk Hs'. split.
    - intros (k' & m' & Hk'). exists k', m'. rewrite list_lookup_insert_ne; [done|]. intros ->. congruence.
    - intros k0 s0 Hk0. destruct (decide (k = k0)) as [->|Hne].
      + exists s'. rewrite list_lookup_insert_eq by (by eapply lookup_lt_Some). split; [done|].
        rewrite Hk in Hk0. injection Hk0 as <-. intros m0. naive_solver.
      + exists s0. by rewrite list_lookup_insert_ne. }
  unfold consumeLoop in H. inversion H; subst; cbn [set_loops set_stops stop_clean stop_timeout cancel_context loops stops] in *;
    rewrite ?length_insert, ?length_fmap; try (split_and!; [done|done|by eauto]).
  - unfold Stop in *. destruct (active c) eqn:E; [done|]. cbn. split_and!; [done|done|by eauto].
  - destruct (Hup k m (Stopped m)) as [? ?]; [done|by left|]. done.
  - destruct (Hup k m (TimedOut m)) as [? ?]; [done|by right|]. done.
Qed.

Lemma pstep_processing p x p' x' : pstep (p, x) (p', x') → processing p → processing p'.
Proof.
  intros H Hpr. pose proof Hpr as [Hlc Hst Hin Hre]. inversion H as [? ? ctx Hs|? ? Hs|? ? k ? Hs Hp|? ? c ? Hq Ha]; subst.
  - unfold Processor_Start. destruct (p_active p) eqn:Hpa; [done|].
    destruct (Hin eq_refl) as [_ Hca]. unfold FranzConsumer_Start. rewrite Hca. cbn [negb].
    pose proof (Start_lifecycle "kafka consumer" ctx _ Hlc) as Hlc'. unfold Start in *. rewrite Hca in *. by split.
  - unfold Processor_Stop. destruct (p_active p) eqn:Hpa; [|done]. cbn [negb].
    destruct (active (consumer p)) eqn:Hca; cbn [negb].
    + pose proof (Stop_lifecycle _ Hlc) as Hlc'. unfold FranzConsumer_Stop, Stop in *. rewrite Hca in *. cbn [negb] in *.
      split; cbn [consumer p_active stopping_ stops active loops]; [done| |done|done].
      intros k [= <-]. split_and!; [done..|]. eexists. rewrite lookup_app_r, Nat.sub_diag by done. split; [done|].
      intros m. rewrite length_alter. naive_solver.
    + split; cbn; [done|done|done|]. intros _ _. by apply Hre.
  - destruct (Hst k Hs) as (Hpa & Hca & s & Hk & Hm). unfold Processor_stopped in Hp. rewrite Hk in Hp.
    destruct s as [m|m|m]; [done| |]; injection Hp as <-; split; cbn; try done; intros _ _.
    + left. apply Forall_lookup_2. intros i l Hl. eapply lc_stopped; [done..|].
      rewrite (Hm m) by auto. by eapply lookup_lt_Some.
    + right. by exists k, m.
  - destruct (consumer_keeps _ _ _ _ Hq Ha) as (Hlen & Hgu & Hks).
    split; cbn [consumer p_active stopping_]; rewrite ?Ha; [| |done|].
    + eapply (step_lifecycle "kafka consumer" true work); [|done]. by apply step_quiet.
    + intros k Hk. destruct (Hst k Hk) as (? & ? & s & Hs & Hm). split_and!; [done..|].
      destruct (Hks k s Hs) as (s' & Hs' & Hm'). exists s'. split; [done|]. intros m ?. rewrite Hlen. auto.
    + intros Hca Hno. destruct (Hre Hca Hno) as [Hd|Hg]; [left|right; auto]. by apply quiet_drained in Hq as [_ ?].
Qed.

(** A Stop of the inbox processor can be trusted unless an earlier one has given up.
    As long as no Stop of the consumer has timed out, a processor that is inactive does
    nothing more until it is started.  After a Stop that has timed out the next one reports
    success at once, and the loop it was to wait for goes on handling messages. *)
Theorem processor_stop x0 :
  (∀ p x, rtc pstep (new_processor, x0) (p, x) → p_active p = false → ¬ gave_up (consumer p) →
     drained (consumer p) ∧
     ∀ p' x', pstep (p, x) (p', x') → x' = x ∧ (drained (consumer p') ∨ p_active p' = true)) ∧
  ∀ x1, work x0 x1 → ∃ p, rtc pstep (new_processor, x0) (p, x0) ∧
    p_active p = true ∧ stopping_ p = None ∧ p_active (Processor_Stop p) = false ∧
    stopping_ (Processor_Stop p) = None ∧ pstep (Processor_Stop p, x0) (Processor_Stop p, x1).
Proof.
  split.
  - intros p x Hr Hpa Hg.
    assert (Hpr : processing p).
    { remember (new_processor, x0) as c0 eqn:E0. remember (p, x) as c eqn:E. cut (processing c.1); [by subst|].
      assert (H0 : processing c0.1) by (subst; apply new_processing). clear E0 E.
      induction Hr as [|[p1 x1] [p2 x2] c Hs _ IH]; [done|]. by eapply IH, pstep_processing. }
    destruct (pr_inactive _ Hpr Hpa) as [Hs Hca]. destruct (pr_rest _ Hpr Hca Hs) as [Hd|]; [|done].
    split; [done|]. intros p' x' H. inversion H as [? ? ctx|? ?|? ? k ? Hk|? ? c ? Hq Ha]; subst.
    + split; [done|]. unfold Processor_Start. rewrite Hpa. unfold FranzConsumer_Start. rewrite Hca. cbn [negb].
      unfold Start. rewrite Hca. by right.
    + split; [done|]. unfold Processor_Stop. rewrite Hpa. by left.
    + congruence.
    + apply quiet_drained in Hq as [-> ?]; [|done]. auto.
  - intros x1 Hw. eexists (MkProcessor true None (MkWorker false 0 [MkLoop 0 true Working] [TimedOut 1] ∅ false)).
    split_and!; [|done..|].
    + eapply rtc_l; [by apply (pstep_start _ _ 0)|].
      eapply rtc_l; [eapply pstep_consumer; [by eapply (quiet_tick _ _ _ _ 0)|done]|].
      eapply rtc_l; [by apply pstep_stop|].
      eapply rtc_l; [eapply pstep_consumer; [by eapply (quiet_timeout _ _ _ _ 0)|done]|].
      eapply rtc_l; [by eapply (pstep_stopped _ _ 0)|apply rtc_refl].
    + refine (pstep_consumer (MkProcessor false None _) x0 _ x1 _ eq_refl).
      by eapply (quiet_work _ _ _ _ _ 0).
Qed.
End processor.

(** A poller that is stopped in the middle of a cycle, which it ends before it returns. *)
Definition ex_work (x x' : Z) : Prop := x' = x + 1.

Lemma worker_lifecycle_witness :
  ∃ w, rtc (step "outbox poller" false ex_work) (new_worker, 0) (w, 1) ∧ length (loops w) = 1%nat ∧
    ∀ w' x', rtc (quiet false ex_work) (w, 1) (w', x') → x' = 1 ∧ drained w'.
Proof.
  eexists (MkWorker false 0 [MkLoop 0 true Ended] [Stopped 1] ∅ false).
  eassert (Hr : rtc (step "outbox poller" false ex_work) (new_worker, 0) _); cycle 1.
  { split; [exact Hr|]. split; [done|].
    destruct (worker_lifecycle "outbox poller" false ex_work _ _ _ Hr) as (_ & H & _). by apply (H 0%nat). }
  eapply rtc_l; [by apply (step_start _ _ _ _ _ 0)|].
  eapply rtc_l; [apply step_quiet; by eapply (quiet_tick _ _ _ _ 0)|].
  eapply rtc_l; [apply step_quiet, quiet_stop|].
  eapply rtc_l; [apply step_quiet; by eapply (quiet_work _ _ _ _ _ 0)|].
  eapply rtc_l; [apply step_quiet; eapply (quiet_return _ _ _ _ 0); [done|by left]|].
  eapply rtc_l; [apply step_quiet; eapply (quiet_stopped _ _ _ _ 0); [done|by repeat constructor]|].
  apply rtc_refl.
Defined.

Lemma processor_stop_witness :
  ∃ p, rtc (pstep ex_work) (new_processor, 0) (p, 0) ∧ p_active (Processor_Stop p) = false ∧
    pstep ex_work (Processor_Stop p, 0) (Processor_Stop p, 1).
Proof.
  destruct (processor_stop ex_work 0) as [_ H]. destruct (H 1) as (p & Hr & _ & _ & Ha & _ & Hs); [done|]. eauto.
Defined.
