(* ===== verification/Kafka.v ===== *)
(** internal/platform/kafka: messages as they travel, the publisher, and the loop of a
    consumer.

    A record of the client library (kgo.Record) is its plain fields, with the headers
    in a list; a message keeps them in a map, whose iteration order is Go's to choose.
    What the loop fetches and commits is the library's and the broker's. *)

From S2P Require Import Prelude.

(** * Messages (message.go) *)

Record Message := MkMessage {
  Topic : string;
  Key : string;
  Value : string;
  Headers : gmap string string;
  Timestamp : Z;
  Partition : Z;
  Offset : Z;
}.

(** [kgo.Record], as far as the code uses it. *)
Record Record_ := MkRecord {
  Rec_Topic : string;
  Rec_Key : string;
  Rec_Value : string;
  Rec_Headers : list (string * string);
  Rec_Timestamp : Z;
  Rec_Partition : Z;
  Rec_Offset : Z;
}.

(** [ToRecord]: [order] is the order in which the map of headers is visited, [now]
    the reading of the clock for a message without a timestamp. *)
Definition ToRecord (order : gmap string string → list (string * string)) (now : Z)
    (m : Message) : Record_ :=
  MkRecord (Topic m) (Key m) (Value m) (order (Headers m))
    (if Timestamp m =? time_Zero then now else Timestamp m) (Partition m) (Offset m).

(** [FromRecord]: a later header replaces an earlier one of the same key. *)
Definition FromRecord (r : Record_) : Message :=
  MkMessage (Rec_Topic r) (Rec_Key r) (Rec_Value r)
    (foldl (λ acc h, <[h.1 := h.2]> acc) ∅ (Rec_Headers r))
    (Rec_Timestamp r) (Rec_Partition r) (Rec_Offset r).

Lemma headers_from_pairs (l : list (string * string)) (acc : gmap string string) :
  NoDup l.*1 → (∀ k, k ∈ l.*1 → acc !! k = None) →
  foldl (λ acc h, <[h.1 := h.2]> acc) acc l = list_to_map l ∪ acc.
Proof.
  revert acc. induction l as [|[k v] l IH]; intros acc Hnd Hacc; csimpl in *.
  - symmetry. apply (left_id_L ∅ (∪)).
  - inversion_clear Hnd as [|? ? Hk Hnd']. rewrite IH; [|done|].
    + symmetry. rewrite <-insert_union_l. by apply insert_union_r, not_elem_of_list_to_map_1.
    + intros k' Hk'. rewrite lookup_insert_ne by (intros ->; done). apply Hacc. set_solver.
Qed.

(** A message survives the trip, whatever the order of its headers. *)
Lemma FromRecord_ToRecord order now m :
  order (Headers m) ≡ₚ map_to_list (Headers m) → Timestamp m ≠ time_Zero →
  FromRecord (ToRecord order now m) = m.
Proof.
  intros Ho Ht. destruct m as [t k v h ts p o]. unfold FromRecord, ToRecord. simpl in *.
  apply Z.eqb_neq in Ht. rewrite Ht. f_equal.
  assert (Hnd : NoDup (order h).*1) by (rewrite Ho; apply NoDup_fst_map_to_list).
  rewrite headers_from_pairs; [|done|intros; apply lookup_empty].
  rewrite (right_id_L ∅ (∪)). etrans; [|apply list_to_map_to_list]. by apply list_to_map_proper.
Qed.

(** * The publisher (publisher.go) *)

(** The client of the library, over what it knows of the cluster: its answer for each of the
    records, [nil] or an error, and the end of its work.  [%q] is Go's to write. *)
Class KgoClient (S : Type) := {
  ProduceSync : list Record_ → S → S * list (option string);
  FirstErr : list (option string) → option string;
  client_Flush : S → S;
  client_Close : S → S;
}.
Class Quoted := percent_q : string → string.

(** What the library documents of it: an answer for each record, in their order, of which
    [FirstErr] passes over no error; a record without an error is in the log of its topic, and
    nothing takes it away again. *)
Class KgoLaws (S : Type) `{KgoClient S} := {
  in_log : Record_ → S → Prop;
  first_error results err : Some err ∈ results → FirstErr results ≠ None;
  produced rs s : length (ProduceSync rs s).2 = length rs;
  acknowledged rs s i r : rs !! i = Some r → (ProduceSync rs s).2 !! i = Some None → in_log r (ProduceSync rs s).1;
  flushed r s : in_log r s → in_log r (client_Flush s);
  shut r s : in_log r s → in_log r (client_Close s);
}.

Record FranzPublisher := MkFranzPublisher { has_client : bool; ownsClient : bool }.

Section publisher.
Context {S : Type} `{KC : KgoClient S} `{QT : Quoted}.

Definition NewFranzPublisher : FranzPublisher := MkFranzPublisher true false.

(** [err] is the error of [kgo.NewClient]. *)
Definition NewFranzPublisherFromConfig (brokers : list string) (err : option string) : result string FranzPublisher :=
  match brokers with
  | [] => Err "kafka publisher: at least one broker is required"
  | _ => match err with
         | Some err => Err ("kafka publisher: initialize client: " ++ err)
         | None => Ok (MkFranzPublisher true true)
         end
  end%string.

Definition Publish order (now : Z) (msg : Message) (s : S) : S * option string :=
  let '(s, results) := ProduceSync [ToRecord order now msg] s in
  match FirstErr results with
  | Some err => (s, Some ("kafka publish to topic " ++ percent_q (Topic msg) ++ ": " ++ err)%string)
  | None => (s, None)
  end.

(** [now i] is the clock when the [i]th message is converted. *)
Definition PublishBatch order (now : nat → Z) (msgs : list Message) (s : S) : S * option string :=
  match msgs with
  | [] => (s, None)
  | _ =>
      let records := imap (λ i m, ToRecord order (now i) m) msgs in
      let '(s, results) := ProduceSync records s in
      match FirstErr results with
      | Some err => (s, Some ("kafka publish batch: " ++ err)%string)
      | None => (s, None)
      end
  end.

Definition FranzPublisher_Close (p : FranzPublisher) (s : S) : S :=
  if has_client p then (let s := client_Flush s in if ownsClient p then client_Close s else s) else s.

Context `{KL : !KgoLaws S}.

Lemma FirstErr_None results i : FirstErr results = None → is_Some (results !! i) → results !! i = Some None.
Proof.
  intros Hf [[err|] Hi]; [|done]. by destruct (first_error results err (list_elem_of_lookup_2 _ _ _ Hi)).
Qed.

(** A batch that is reported as published is in the log to its last message, and stays there
    when the publisher closes. *)
Lemma PublishBatch_acknowledged order now msgs s s' p i m :
  PublishBatch order now msgs s = (s', None) → msgs !! i = Some m →
  in_log (ToRecord order (now i) m) (FranzPublisher_Close p s').
Proof.
  intros Hp Hm.
  assert (H : in_log (ToRecord order (now i) m) s').
  { unfold PublishBatch in Hp. destruct msgs as [|m0 msgs]; [done|].
    set (records := imap _ (m0 :: msgs)) in *.
    assert (Hr : records !! i = Some (ToRecord order (now i) m)) by (unfold records; by rewrite list_lookup_imap, Hm).
    pose proof (produced records s) as Hlen. pose proof (acknowledged records s i _ Hr) as Hack.
    destruct (ProduceSync records s) as [s1 results]. cbn in *.
    destruct (FirstErr results) eqn:Hf; [done|]. injection Hp as <-. apply Hack, (FirstErr_None _ _ Hf).
    apply lookup_lt_is_Some. rewrite Hlen. by apply lookup_lt_Some in Hr. }
  unfold FranzPublisher_Close. destruct (has_client p), (ownsClient p); auto using flushed, shut.
Qed.

Lemma Publish_acknowledged order now msg s s' :
  Publish order now msg s = (s', None) → in_log (ToRecord order now msg) s'.
Proof.
  unfold Publish. set (records := [_]). intros Hp.
  pose proof (produced records s) as Hlen. pose proof (acknowledged records s 0 _ eq_refl) as Hack.
  destruct (ProduceSync records s) as [s1 results]. cbn in *.
  destruct (FirstErr results) eqn:Hf; [done|]. injection Hp as <-. apply Hack, (FirstErr_None _ _ Hf).
  apply lookup_lt_is_Some. lia.
Qed.
End publisher.

(** A client for which this holds: whatever it is given is in the log. *)
#[local] Instance ex_client : KgoClient (list Record_) := {|
  ProduceSync rs log := (log ++ rs, replicate (length rs) None);
  FirstErr results := head (omap id results);
  client_Flush log := log;
  client_Close log := log;
|}.
#[local] Instance ex_laws : KgoLaws (list Record_).
Proof.
  refine {| in_log r log := r ∈ log |}; cbn; try done.
  - intros results err H. induction results as [|[x|] l IH]; [by apply elem_of_nil in H|done|].
    apply elem_of_cons in H as [?|H]; [done|]. by apply IH.
  - intros rs log. apply length_replicate.
  - intros rs log i r Hr _. apply elem_of_app. right. by eapply list_elem_of_lookup_2.
Qed.

(** * The consumer and its loop (consumer.go) *)

(** What a consumer is made of; that it runs is Worker.v's. *)
Record FranzConsumer := MkFranzConsumer {
  consumer_topics : list string;
  consumer_group : string;
  consumer_ownsClient : bool;
}.

Definition NewFranzConsumer (topics : list string) (group : string) : FranzConsumer :=
  MkFranzConsumer topics group false.

(** [kgo_NewClient] gives its error, if any; an empty group is none. *)
Definition NewFranzConsumerFromConfig (brokers topics : list string) (group : string)
    (kgo_NewClient : list string → list string → option string → option string) : result string FranzConsumer :=
  if bool_decide (brokers = []) then Err "kafka consumer: at least one broker is required"%string else
  if bool_decide (topics = []) then Err "kafka consumer: at least one topic is required"%string else
  match kgo_NewClient brokers topics (if String.eqb group "" then None else Some group) with
  | Some err => Err ("kafka consumer: initialize client: " ++ err)%string
  | None => Ok (MkFranzConsumer topics group true)
  end.

Section consumer.
Context {W E : Type} `{!GoError E}.
Local Open Scope go_scope.

(** A position in a partition of a topic, as a commit names it. *)
Definition position := (string * Z * Z)%type.
Definition position_of (m : Message) : position := (Topic m, Partition m, Offset m).

(** The handler's world, and the positions the group has committed. *)
Record Consumed := MkConsumed { world : W; committed : list position }.

Definition CommitRecords (m : Message) : M Consumed E unit :=
  sql "" (λ _ c, Ok (MkConsumed (world c) (committed c ++ [position_of m]), tt)).

(** The inner loop of [consumeLoop], over the records of one fetch; [ctx_Err i] is
    whether the context is over before the [i]th.  Errors are logged and dropped. *)
Fixpoint consume (handler : Message → M W E unit) (ctx_Err : nat → bool) (i : nat)
    (records : list Message) : M Consumed E unit :=
  match records with
  | [] => ret tt
  | msg :: rest =>
      if ctx_Err i then ret tt else
      let* _ := try (zoom world (λ w c, MkConsumed w (committed c)) (handler msg)) in
      let* _ := try (CommitRecords msg) in
      consume handler ctx_Err (S i) rest
  end.

(** The loop moves past every record it hands out, whatever its handler answers. *)
Lemma consume_committed handler ctx records env n c :
  no_faults env → (∀ i, ctx i = false) →
  ∀ i, let run := consume handler ctx i records env n c in
  outcome run = Ok tt ∧ committed (final run) = committed c ++ (position_of <$> records).
Proof.
  intros Hf Hctx. revert n c. induction records as [|m rest IH]; intros n c i.
  - simpl. unfold ret. cbn. by rewrite app_nil_r.
  - cbn [consume]. rewrite Hctx. unfold bind, try, zoom, CommitRecords, sql.
    destruct (handler m env n (world c)) as [[n1 w1] r1]. rewrite Hf. cbn.
    destruct (IH (S n1) (MkConsumed w1 (committed c ++ [position_of m])) (S i)) as [H1 H2].
    cbv zeta in H1, H2. rewrite H1, H2. simpl. by rewrite <-app_assoc.
Qed.
End consumer.
Arguments Consumed : clear implicits.
