(* ===== verification/KafkaDouble.v ===== *)
(** internal/platform/kafka/mock.go: the broker, the publisher and the consumer that the tests
    use in the place of Kafka.

    A channel is a number, and its buffer part of the broker.  What the code does under a mutex
    is one step; the sends of a publication, which come after the mutex is released, and the
    loops of the consumers are steps of their own. *)

From S2P Require Import Prelude Kafka.

(** * The broker *)

Definition error := string.

Record Broker := MkBroker {
  messages : gmap string (list Message);
  subscribers : gmap string (gmap string (list nat));
  offsets : gmap string Z;
  publishError : option error;
  consumeDelay : Z;
  buffers : gmap nat (list Message);
  next_channel : nat;
}.

Definition NewMockBroker : Broker := MkBroker ∅ ∅ ∅ None 0 ∅ 0.

Definition channel_capacity : nat := 1000.

Definition with_subscribers (b : Broker) (subs : gmap string (gmap string (list nat))) : Broker :=
  MkBroker (messages b) subs (offsets b) (publishError b) (consumeDelay b) (buffers b) (next_channel b).
Definition with_buffer (b : Broker) (ch : nat) (l : list Message) : Broker :=
  MkBroker (messages b) (subscribers b) (offsets b) (publishError b) (consumeDelay b)
    (<[ch := l]> (buffers b)) (next_channel b).

Definition buffer (b : Broker) (ch : nat) : list Message := default [] (buffers b !! ch).
Definition topic_log (b : Broker) (topic : string) : list Message := default [] (messages b !! topic).

Definition SetPublishError (err : option error) (b : Broker) : Broker :=
  MkBroker (messages b) (subscribers b) (offsets b) err (consumeDelay b) (buffers b) (next_channel b).
Definition SetConsumeDelay (d : Z) (b : Broker) : Broker :=
  MkBroker (messages b) (subscribers b) (offsets b) (publishError b) d (buffers b) (next_channel b).

(** [Clear] keeps the subscriptions. *)
Definition Clear (b : Broker) : Broker :=
  MkBroker ∅ (subscribers b) ∅ None (consumeDelay b) (buffers b) (next_channel b).

(** The record as it is stored: the next offset of its topic, counted from 1. *)
Definition stamped (b : Broker) (now : Z) (msg : Message) : Message :=
  MkMessage (Topic msg) (Key msg) (Value msg) (Headers msg)
    (if Timestamp msg =? time_Zero then now else Timestamp msg) (Partition msg)
    (add64 (default 0 (offsets b !! Topic msg)) 1).

(** The channels that a publication goes to: the first of each group.  [order] is the order in
    which the map of groups is visited. *)
Definition targets (order : gmap string (list nat) → list (string * list nat)) (b : Broker) (topic : string) : list nat :=
  match subscribers b !! topic with
  | Some groups => omap (λ g, head g.2) (order groups)
  | None => []
  end.

(** [Publish], under the mutex. *)
Definition publish_locked order (now : Z) (msg : Message) (b : Broker) :
    result error (Broker * (Message * list nat)) :=
  match publishError b with
  | Some err => Err err
  | None =>
      let msg := stamped b now msg in
      Ok (MkBroker (<[Topic msg := topic_log b (Topic msg) ++ [msg]]> (messages b)) (subscribers b)
            (<[Topic msg := Offset msg]> (offsets b)) None (consumeDelay b) (buffers b) (next_channel b),
          (msg, targets order b (Topic msg)))
  end.

(** [select]: the send if there is room, the context if it is over, and [pick] where both are
    ready; with neither the record is dropped. *)
Definition send (ctx_Err : option error) (pick : bool) (ch : nat) (msg : Message) (b : Broker) :
    result error Broker :=
  let room := (length (buffer b ch) <? channel_capacity)%nat in
  let sent := with_buffer b ch (buffer b ch ++ [msg]) in
  match ctx_Err with
  | Some err => if room && pick then Ok sent else Err err
  | None => Ok (if room then sent else b)
  end.

Fixpoint send_all (ctx_Err : nat → option error) (pick : nat → bool) (i : nat) (chs : list nat) (msg : Message)
    (b : Broker) : Broker * result error unit :=
  match chs with
  | [] => (b, Ok tt)
  | ch :: chs =>
      match send (ctx_Err i) (pick i) ch msg b with
      | Ok b => send_all ctx_Err pick (S i) chs msg b
      | Err err => (b, Err err)
      end
  end.

Definition Publish order ctx_Err pick (now : Z) (msg : Message) (b : Broker) : Broker * result error unit :=
  match publish_locked order now msg b with
  | Err err => (b, Err err)
  | Ok (b, (msg, chs)) => send_all ctx_Err pick 0 chs msg b
  end.

Definition subscribe (topic group : string) (b : Broker) : Broker * nat :=
  let ch := next_channel b in
  let groups := default ∅ (subscribers b !! topic) in
  let groups := <[group := default [] (groups !! group) ++ [ch]]> groups in
  (MkBroker (messages b) (<[topic := groups]> (subscribers b)) (offsets b) (publishError b) (consumeDelay b)
     (<[ch := []]> (buffers b)) (S ch), ch).

Definition unsubscribe (topic group : string) (ch : nat) (b : Broker) : Broker :=
  match subscribers b !! topic with
  | None => b
  | Some groups =>
      match groups !! group with
      | None => b
      | Some chans =>
          with_subscribers b (<[topic := <[group := filter (λ c, c ≠ ch) chans]> groups]> (subscribers b))
      end
  end.

Definition MessagesByTopic (topic : string) (b : Broker) : list Message := topic_log b topic.

(** [visit] is the order in which the map of topics is visited. *)
Definition PublishedMessages (visit : gmap string (list Message) → list (string * list Message)) (b : Broker) :
    list Message := concat (visit (messages b)).*2.

(** * The publisher *)

Record MockPublisher := MkPublisher { published : list Message; closed : bool }.

Definition NewMockPublisher : MockPublisher := MkPublisher [] false.

(** [ctx] is the error of the context when the call begins. *)
Definition publisher_Publish order (ctx : option error) ctx_Err pick now (msg : Message) (p : MockPublisher) (b : Broker) :
    MockPublisher * Broker * result error unit :=
  match ctx with
  | Some err => (p, b, Err err)
  | None =>
      if closed p then (p, b, Err "mock publisher is closed"%string) else
      let '(b, r) := Publish order ctx_Err pick now msg b in
      (MkPublisher (published p ++ [msg]) (closed p), b, r)
  end.

Fixpoint publisher_PublishBatch order (ctx : nat → option error) ctx_Err pick now (i : nat) (msgs : list Message)
    (p : MockPublisher) (b : Broker) : MockPublisher * Broker * result error unit :=
  match msgs with
  | [] => (p, b, Ok tt)
  | msg :: msgs =>
      match publisher_Publish order (ctx i) (ctx_Err i) (pick i) now msg p b with
      | (p, b, Ok _) => publisher_PublishBatch order ctx ctx_Err pick now (S i) msgs p b
      | (p, b, Err err) => (p, b, Err err)
      end
  end.

Definition publisher_Close (p : MockPublisher) : MockPublisher := MkPublisher (published p) true.

(** * The consumer *)

Record MockConsumer := MkConsumer {
  topics : list string;
  group : string;
  active : bool;
  channels : list nat;
}.

Definition NewMockConsumer (topics : list string) (group : string) : MockConsumer :=
  MkConsumer topics group false [].

Fixpoint subscribe_all (group : string) (topics : list string) (b : Broker) : Broker * list nat :=
  match topics with
  | [] => (b, [])
  | t :: ts =>
      let '(b, ch) := subscribe t group b in
      let '(b, chs) := subscribe_all group ts b in (b, ch :: chs)
  end.

(** [Start]; a loop runs for each of the channels from then on. *)
Definition consumer_Start (handler_nil : bool) (c : MockConsumer) (b : Broker) :
    MockConsumer * Broker * result error unit :=
  if active c then (c, b, Err "mock consumer is already running"%string) else
  if handler_nil then (c, b, Err "mock consumer handler cannot be nil"%string) else
  let '(b, chs) := subscribe_all (group c) (topics c) b in
  (MkConsumer (topics c) (group c) true chs, b, Ok tt).

(** [Stop], up to its wait for the loops, which leave when they see their context over. *)
Definition consumer_Stop (c : MockConsumer) (b : Broker) : MockConsumer * Broker :=
  if active c then
    (MkConsumer (topics c) (group c) false (channels c),
     foldl (λ b tc, unsubscribe tc.1 (group c) tc.2 b) b (zip (topics c) (channels c)))
  else (c, b).

(** One turn of [consumeChannel]: what it takes from its channel goes to the handler. *)
Definition receive (ch : nat) (b : Broker) : option (Message * Broker) :=
  match buffer b ch with
  | [] => None
  | msg :: rest => Some (msg, with_buffer b ch rest)
  end.

(** * Publishers and consumers at once *)

(** The broker; the sends that publishers still have before them; the loops that run; what each
    loop has handed to its handler; and, for the statements, everything ever published and the
    topic and the group each channel was made for. *)
Record World := MkWorld {
  broker : Broker;
  pending : list (nat * Message);
  loops : gset nat;
  handled : gmap nat (list Message);
  history : gmap string (list Message);
  owner : gmap nat (string * string);
}.

Definition start : World := MkWorld NewMockBroker [] ∅ ∅ ∅ ∅.

Definition set_broker (w : World) (b : Broker) : World :=
  MkWorld b (pending w) (loops w) (handled w) (history w) (owner w).

Definition handled_by (w : World) (ch : nat) : list Message := default [] (handled w !! ch).
Definition past (w : World) (topic : string) : list Message := default [] (history w !! topic).

Inductive step (w : World) : World → Prop :=
| step_publish order now msg b msg' chs :
    (∀ groups, order groups ≡ₚ map_to_list groups) →
    publish_locked order now msg (broker w) = Ok (b, (msg', chs)) →
    step w (MkWorld b (pending w ++ ((., msg') <$> chs)) (loops w) (handled w)
              (<[Topic msg' := past w (Topic msg') ++ [msg']]> (history w)) (owner w))
| step_send ctx_Err pick ch msg l1 l2 b :
    pending w = l1 ++ (ch, msg) :: l2 →
    send ctx_Err pick ch msg (broker w) = Ok b →
    step w (MkWorld b (l1 ++ l2) (loops w) (handled w) (history w) (owner w))
| step_give_up ch msg l1 l2 :
    pending w = l1 ++ (ch, msg) :: l2 →
    step w (MkWorld (broker w) (l1 ++ l2) (loops w) (handled w) (history w) (owner w))
| step_subscribe topic group b ch :
    subscribe topic group (broker w) = (b, ch) →
    step w (MkWorld b (pending w) ({[ch]} ∪ loops w) (handled w) (history w) (<[ch := (topic, group)]> (owner w)))
| step_unsubscribe topic group ch :
    step w (set_broker w (unsubscribe topic group ch (broker w)))
| step_receive ch msg b :
    ch ∈ loops w → receive ch (broker w) = Some (msg, b) →
    step w (MkWorld b (pending w) (loops w) (<[ch := handled_by w ch ++ [msg]]> (handled w)) (history w) (owner w))
| step_leave ch :
    step w (MkWorld (broker w) (pending w) (loops w ∖ {[ch]}) (handled w) (history w) (owner w))
| step_fail err : step w (set_broker w (SetPublishError err (broker w)))
| step_clear : step w (set_broker w (Clear (broker w))).

(** A publication that has not let go of its channels yet counts for them. *)
Definition pending_of (w : World) (ch : nat) : list Message :=
  (filter (λ p, p.1 = ch) (pending w)).*2.
Definition trace (w : World) (ch : nat) : list Message :=
  handled_by w ch ++ buffer (broker w) ch ++ pending_of w ch.

Definition owned (w : World) (ch : nat) : list Message :=
  match owner w !! ch with Some (topic, _) => past w topic | None => [] end.

Record inv (w : World) : Prop := {
  inv_offsets t : default 0 (offsets (broker w) !! t) = wrap64 (Z.of_nat (length (topic_log (broker w) t)));
  inv_log t i m : topic_log (broker w) t !! i = Some m → Topic m = t ∧ Offset m = wrap64 (Z.of_nat (S i));
  inv_past t : Forall (λ m, Topic m = t) (past w t);
  inv_trace ch : trace w ch ⊆+ owned w ch;
  inv_subs t g chs ch groups : subscribers (broker w) !! t = Some groups → groups !! g = Some chs → ch ∈ chs →
    owner w !! ch = Some (t, g);
  inv_fresh ch : is_Some (owner w !! ch) → (ch < next_channel (broker w))%nat;
  inv_room ch : (length (buffer (broker w) ch) <= channel_capacity)%nat;
}.

Lemma buffer_with b ch l ch' : buffer (with_buffer b ch l) ch' = if decide (ch' = ch) then l else buffer b ch'.
Proof.
  unfold buffer, with_buffer. cbn. destruct (decide (ch' = ch)) as [->|Hne].
  - by rewrite lookup_insert_eq.
  - by rewrite lookup_insert_ne.
Qed.

Lemma targets_owned w order t ch :
  inv w → (∀ groups, order groups ≡ₚ map_to_list groups) → ch ∈ targets order (broker w) t →
  ∃ g, owner w !! ch = Some (t, g).
Proof.
  intros H Ho. unfold targets. destruct (subscribers (broker w) !! t) as [groups|] eqn:Ht; [|by intros ?%elem_of_nil].
  rewrite list_elem_of_omap. intros ([g chs] & Hin & Hhd). cbn in Hhd. exists g.
  rewrite Ho in Hin. apply elem_of_map_to_list in Hin. eapply inv_subs; [done..|].
  destruct chs; [done|]. injection Hhd as ->. by left.
Qed.

(** One channel of each group, hence none twice. *)
Lemma targets_nodup w order t :
  inv w → (∀ groups, order groups ≡ₚ map_to_list groups) → NoDup (targets order (broker w) t).
Proof.
  intros H Ho. unfold targets. destruct (subscribers (broker w) !! t) as [groups|] eqn:Ht; [|constructor].
  assert (Hin : ∀ g chs ch, (g, chs) ∈ order groups → head chs = Some ch → owner w !! ch = Some (t, g)).
  { intros g chs ch Hin Hhd. rewrite Ho in Hin. apply elem_of_map_to_list in Hin. eapply inv_subs; [done..|].
    destruct chs; [done|]. injection Hhd as ->. by left. }
  assert (Hnd : NoDup (order groups).*1) by (rewrite Ho; apply NoDup_fst_map_to_list).
  revert Hin Hnd. generalize (order groups). induction l as [|[g chs] l IH]; intros Hin Hnd; [constructor|].
  inversion Hnd as [|? ? Hg Hnd']; subst. cbn. destruct (head chs) as [ch|] eqn:Hhd.
  - constructor; [|apply IH; [|done]; intros; eapply Hin; [by right|done]].
    rewrite list_elem_of_omap. intros ([g' chs'] & Hin' & Hhd'). cbn in Hhd'.
    pose proof (Hin g chs ch (list_elem_of_here _ _) Hhd) as E1.
    pose proof (Hin g' chs' ch (list_elem_of_further _ _ _ Hin') Hhd') as E2.
    assert (g' = g) as -> by congruence. apply Hg. by apply (list_elem_of_fmap_2 fst) in Hin'.
  - apply IH; [|done]. intros. eapply Hin; [by right|done].
Qed.

Lemma add64_wrap n : add64 (wrap64 (Z.of_nat n)) 1 = wrap64 (Z.of_nat (S n)).
Proof.
  unfold add64, wrap64, MinInt64. f_equal.
  rewrite Nat2Z.inj_succ. set (k := Z.of_nat n).
  replace ((k - -9223372036854775808) mod 2 ^ 64 + -9223372036854775808 + 1 - -9223372036854775808)
    with ((k - -9223372036854775808) mod 2 ^ 64 + 1) by lia.
  rewrite Zplus_mod_idemp_l. f_equal. lia.
Qed.

Lemma sent_to ch (chs : list nat) (m : Message) :
  NoDup chs → (filter (λ p : nat * Message, p.1 = ch) ((., m) <$> chs)).*2 = if decide (ch ∈ chs) then [m] else [].
Proof.
  induction chs as [|c chs IH]; intros Hnd; [done|]. inversion Hnd as [|? ? Hc Hnd']; subst.
  cbn [fmap list_fmap]. destruct (decide (c = ch)) as [->|Hne].
  - rewrite filter_cons_True by done. cbn [fmap list_fmap]. rewrite IH by done.
    rewrite decide_False by done. by rewrite decide_True by by left.
  - rewrite filter_cons_False by done. rewrite IH by done. destruct (decide (ch ∈ chs)).
    + by rewrite decide_True by by right.
    + rewrite decide_False; [done|]. by intros [?|?]%elem_of_cons.
Qed.

Lemma publish_inv w order now msg b msg' chs :
  inv w → (∀ groups, order groups ≡ₚ map_to_list groups) →
  publish_locked order now msg (broker w) = Ok (b, (msg', chs)) →
  inv (MkWorld b (pending w ++ ((., msg') <$> chs)) (loops w) (handled w)
         (<[Topic msg' := past w (Topic msg') ++ [msg']]> (history w)) (owner w)).
Proof.
  intros H Ho Hp. unfold publish_locked in Hp. destruct (publishError (broker w)); [done|].
  cbv zeta in Hp. set (m := stamped (broker w) now msg) in *.
  assert (Hm : Offset m = wrap64 (Z.of_nat (S (length (topic_log (broker w) (Topic m)))))).
  { unfold m. cbn. rewrite (inv_offsets _ H). apply add64_wrap. }
  clearbody m. injection Hp as <- <- <-. split; cbn.
  - intros t. unfold topic_log. cbn. destruct (decide (t = Topic m)) as [->|Hne].
    + rewrite !lookup_insert_eq. cbn [default from_option id]. rewrite length_app, Hm. unfold topic_log. cbn [length].
      f_equal. lia.
    + rewrite !lookup_insert_ne by done. apply (inv_offsets _ H).
  - intros t i x. unfold topic_log at 1. cbn. destruct (decide (t = Topic m)) as [->|Hne].
    + rewrite lookup_insert_eq. cbn. intros [Hx|[Hi Hx]]%lookup_app_Some; [by apply (inv_log _ H)|].
      apply list_lookup_singleton_Some in Hx as [Hi' <-]. split; [done|]. rewrite Hm. f_equal. unfold topic_log in *. lia.
    + rewrite lookup_insert_ne by done. apply (inv_log _ H).
  - intros t. unfold past. cbn. destruct (decide (t = Topic m)) as [->|Hne].
    + rewrite lookup_insert_eq. cbn. apply Forall_app_2; [apply (inv_past _ H)|by repeat constructor].
    + rewrite lookup_insert_ne by done. apply (inv_past _ H).
  - intros ch. unfold trace, pending_of. cbn. rewrite filter_app, fmap_app, sent_to by by apply targets_nodup.
    pose proof (inv_trace _ H ch) as Ht. unfold trace, pending_of, owned in Ht. rewrite !app_assoc in *.
    unfold owned. cbn. destruct (decide (ch ∈ targets order (broker w) (Topic m))) as [Hin|Hout].
    + destruct (targets_owned _ _ _ _ H Ho Hin) as [g Hg]. rewrite Hg in *. unfold past. cbn. rewrite lookup_insert_eq. cbn.
      by apply submseteq_app.
    + rewrite app_nil_r. etrans; [exact Ht|]. destruct (owner w !! ch) as [[t g]|]; [|done]. unfold past. cbn.
      destruct (decide (t = Topic m)) as [->|Hne].
      * rewrite lookup_insert_eq. cbn. apply submseteq_inserts_r. done.
      * by rewrite lookup_insert_ne.
  - apply (inv_subs _ H).
  - apply (inv_fresh _ H).
  - apply (inv_room _ H).
Qed.

Lemma pending_of_middle w b l1 l2 ch msg ch' :
  pending w = l1 ++ (ch, msg) :: l2 →
  pending_of w ch' ≡ₚ (if decide (ch' = ch) then [msg] else []) ++
    pending_of (MkWorld b (l1 ++ l2) (loops w) (handled w) (history w) (owner w)) ch'.
Proof.
  intros Hp. unfold pending_of. rewrite Hp. cbn. rewrite !filter_app, !fmap_app.
  destruct (decide (ch' = ch)) as [->|Hne].
  - rewrite filter_cons_True by done. cbn. by rewrite Permutation_middle.
  - by rewrite filter_cons_False by (cbn; congruence).
Qed.

(** A send is a record that was pending and is now in the buffer, or is dropped. *)
Lemma send_buffer ctx_Err pick ch msg b b' :
  send ctx_Err pick ch msg b = Ok b' →
  b' = b ∨ (b' = with_buffer b ch (buffer b ch ++ [msg]) ∧ (length (buffer b ch) < channel_capacity)%nat).
Proof.
  unfold send. destruct (Nat.ltb_spec (length (buffer b ch)) channel_capacity) as [Hlt|Hge]; cbn;
    destruct ctx_Err; [destruct pick|..]; intros [= <-]; auto.
Qed.

Lemma give_up_inv w ch msg l1 l2 :
  inv w → pending w = l1 ++ (ch, msg) :: l2 →
  inv (MkWorld (broker w) (l1 ++ l2) (loops w) (handled w) (history w) (owner w)).
Proof.
  intros H Hp. destruct H as [H1 H2 H3 Ht H4 H5 H6]. split; cbn; [done..| |done|done|done].
  intros ch'. etrans; [|apply (Ht ch')]. unfold trace. cbn.
  apply submseteq_app; [done|]. apply submseteq_app; [done|]. rewrite (pending_of_middle w (broker w) _ _ _ _ ch' Hp).
  by apply submseteq_inserts_l.
Qed.

Lemma send_step_inv w ctx_Err pick ch msg l1 l2 b :
  inv w → pending w = l1 ++ (ch, msg) :: l2 → send ctx_Err pick ch msg (broker w) = Ok b →
  inv (MkWorld b (l1 ++ l2) (loops w) (handled w) (history w) (owner w)).
Proof.
  intros H Hp [->|[-> Hroom]]%send_buffer; [by eapply give_up_inv|].
  destruct H as [H1 H2 H3 Ht H4 H5 H6]. split; cbn; [done..| |done|done|].
  - intros ch'. etrans; [|apply (Ht ch')]. unfold trace. cbn. rewrite buffer_with.
    rewrite (pending_of_middle w (with_buffer (broker w) ch (buffer (broker w) ch ++ [msg])) _ _ _ _ ch' Hp).
    destruct (decide (ch' = ch)) as [->|Hne]; [|done]. by rewrite <-!app_assoc.
  - intros ch'. rewrite buffer_with. destruct (decide (ch' = ch)) as [->|Hne]; [|done].
    rewrite length_app. cbn. lia.
Qed.

Lemma subscribe_inv w topic group b ch :
  inv w → subscribe topic group (broker w) = (b, ch) →
  inv (MkWorld b (pending w) ({[ch]} ∪ loops w) (handled w) (history w) (<[ch := (topic, group)]> (owner w))).
Proof.
  intros H [= <- <-]. set (ch := next_channel (broker w)).
  assert (Hnew : owner w !! ch = None).
  { destruct (owner w !! ch) eqn:E; [|done]. pose proof (inv_fresh _ H ch (mk_is_Some _ _ E)). unfold ch in *. lia. }
  assert (Hempty : trace w ch = []).
  { pose proof (inv_trace _ H ch) as Ht. unfold owned in Ht. rewrite Hnew in Ht. by apply submseteq_nil_r in Ht. }
  destruct H as [H1 H2 H3 Ht H4 H5 H6]. split; cbn; [done..| | | |].
  - intros ch'. unfold owned. cbn. destruct (decide (ch' = ch)) as [->|Hne].
    + unfold trace in *. apply app_nil in Hempty as [Hh [Hb Hp]%app_nil]. unfold handled_by, pending_of in *. cbn.
      rewrite Hh, Hp. unfold buffer. cbn. rewrite lookup_insert_eq. apply submseteq_nil_l.
    + rewrite lookup_insert_ne by done. specialize (Ht ch'). unfold trace, buffer in *. cbn.
      by rewrite lookup_insert_ne.
  - intros t g chs ch' groups Hs Hg Hin.
    destruct (decide (ch' = ch)) as [->|Hne].
    + rewrite lookup_insert_eq. f_equal. revert Hs Hg. intros [[<- <-]|[Hne Hs]]%lookup_insert_Some Hg.
      * apply lookup_insert_Some in Hg as [[<- <-]|[Hne Hg]]; [done|].
        destruct (subscribers (broker w) !! topic) as [gs|] eqn:E; [|cbn in Hg; by rewrite lookup_empty in Hg].
        rewrite (H4 _ _ _ _ _ E Hg Hin) in Hnew. done.
      * rewrite (H4 _ _ _ _ _ Hs Hg Hin) in Hnew. done.
    + rewrite lookup_insert_ne by done. revert Hs Hg. intros [[<- <-]|[Hne' Hs]]%lookup_insert_Some Hg; [|by eapply H4].
      destruct (subscribers (broker w) !! topic) as [gs|] eqn:E; cbn in Hg.
      * apply lookup_insert_Some in Hg as [[<- <-]|[Hne' Hg]]; [|by eapply H4].
        apply elem_of_app in Hin as [Hin|Hin%list_elem_of_singleton]; [|done].
        destruct (gs !! group) eqn:Eg; [by eapply H4|by apply elem_of_nil in Hin].
      * apply lookup_insert_Some in Hg as [[<- <-]|[Hne' Hg]]; [|by rewrite lookup_empty in Hg].
        rewrite lookup_empty in Hin. by apply list_elem_of_singleton in Hin.
  - intros ch' [x Hx]. apply lookup_insert_Some in Hx as [[<- _]|[_ Hx]]; [unfold ch; lia|].
    specialize (H5 ch' (mk_is_Some _ _ Hx)). lia.
  - intros ch'. unfold buffer. cbn. destruct (decide (ch' = ch)) as [->|Hne].
    + rewrite lookup_insert_eq. cbn. lia.
    + rewrite lookup_insert_ne by done. apply H6.
Qed.

Lemma unsubscribe_inv w topic group ch : inv w → inv (set_broker w (unsubscribe topic group ch (broker w))).
Proof.
  intros H. unfold unsubscribe. destruct (subscribers (broker w) !! topic) as [gs|] eqn:E; [|by destruct w].
  destruct (gs !! group) as [chans|] eqn:Eg; [|by destruct w].
  destruct H as [H1 H2 H3 Ht H4 H5 H6]. split; cbn; [done..| |done|done].
  intros t g chs ch' groups [[<- <-]|[_ Hs]]%lookup_insert_Some; [|by apply H4].
  intros [[<- <-]|[_ Hg]]%lookup_insert_Some Hin; [|by eapply H4].
  apply list_elem_of_filter in Hin as [_ Hin]. by eapply H4.
Qed.

Lemma receive_inv w ch msg b :
  inv w → receive ch (broker w) = Some (msg, b) →
  inv (MkWorld b (pending w) (loops w) (<[ch := handled_by w ch ++ [msg]]> (handled w)) (history w) (owner w)).
Proof.
  intros H Hr. unfold receive in Hr. destruct (buffer (broker w) ch) as [|m rest] eqn:Hb; [done|].
  injection Hr as <- <-. destruct H as [H1 H2 H3 Ht H4 H5 H6]. split; cbn; [done..| |done|done|].
  - intros ch'. etrans; [|apply (Ht ch')]. unfold trace, handled_by. cbn. rewrite buffer_with.
    destruct (decide (ch' = ch)) as [->|Hne].
    + rewrite lookup_insert_eq, Hb. cbn. by rewrite <-app_assoc.
    + by rewrite lookup_insert_ne.
  - intros ch'. rewrite buffer_with. destruct (decide (ch' = ch)) as [->|Hne]; [|done].
    specialize (H6 ch). rewrite Hb in H6. cbn in H6. lia.
Qed.

Lemma clear_inv w : inv w → inv (set_broker w (Clear (broker w))).
Proof.
  intros [H1 H2 H3 Ht H4 H5 H6]. split; cbn; try done.
Qed.

Lemma step_inv w w' : step w w' → inv w → inv w'.
Proof.
  intros Hs H; destruct Hs; eauto using publish_inv, send_step_inv, give_up_inv, subscribe_inv, unsubscribe_inv,
    receive_inv, clear_inv; by destruct H; split.
Qed.

Lemma start_inv : inv start.
Proof.
  split.
  - intros t. by vm_compute.
  - intros t i m. by unfold topic_log; cbn; rewrite lookup_empty.
  - intros t. unfold past. cbn. rewrite lookup_empty. constructor.
  - intros ch. unfold trace, handled_by, buffer, pending_of. cbn. rewrite !lookup_empty. apply submseteq_nil_l.
  - intros t g chs ch groups. cbn. by rewrite lookup_empty.
  - intros ch. cbn. rewrite lookup_empty. by intros [? ?].
  - intros ch. unfold buffer. cbn. rewrite lookup_empty. cbn. lia.
Qed.

(** The broker of the tests hands each consumer at most what was published.  Whatever
    publishers, consumers and tests do at once, subscribing, leaving, clearing the broker and
    failing it included, the log of a topic numbers its records from 1 in the order of their
    publication, and what the loop of a channel has handed to its handler, with what waits for
    it, are publications of the topic it was opened for, each at most as often as it was
    published; no more than the capacity of a channel waits. *)
Theorem broker_hands_out_once w :
  rtc step start w →
  (∀ t i m, topic_log (broker w) t !! i = Some m → Topic m = t ∧ Offset m = wrap64 (Z.of_nat (S i))) ∧
  (∀ ch, (length (buffer (broker w) ch) <= channel_capacity)%nat ∧
     match owner w !! ch with
     | Some (t, _) => handled_by w ch ++ buffer (broker w) ch ⊆+ past w t ∧ Forall (λ m, Topic m = t) (past w t)
     | None => handled_by w ch = []
     end).
Proof.
  intros Hr. assert (H : inv w).
  { revert Hr. apply (rtc_ind_r (λ w, inv w)); [apply start_inv|]. intros x y _ Hs Hx. by eapply step_inv. }
  split; [apply (inv_log _ H)|]. intros ch. split; [apply (inv_room _ H)|].
  pose proof (inv_trace _ H ch) as Ht. unfold owned in Ht. unfold trace in Ht. rewrite app_assoc in Ht.
  destruct (owner w !! ch) as [[t g]|].
  - split; [|apply (inv_past _ H)]. etrans; [|exact Ht]. by apply submseteq_inserts_r.
  - apply submseteq_nil_r in Ht. apply app_nil in Ht as [Ht _]. by apply app_nil in Ht as [Ht _].
Qed.

(** ** A publication by itself *)

Lemma send_all_steps ctx_Err pick chs : ∀ i l msg w b' r,
  pending w = l ++ ((., msg) <$> chs) → send_all ctx_Err pick i chs msg (broker w) = (b', r) →
  rtc step w (MkWorld b' l (loops w) (handled w) (history w) (owner w)).
Proof.
  induction chs as [|ch chs IH]; intros i l msg w b' r Hp Hs; cbn in Hs.
  - injection Hs as <- <-. cbn in Hp. rewrite app_nil_r in Hp. subst l. by destruct w.
  - destruct (send (ctx_Err i) (pick i) ch msg (broker w)) as [b1|err] eqn:E.
    + eapply rtc_l; [eapply step_send; [exact Hp|exact E]|].
      exact (IH (S i) l msg (MkWorld b1 (l ++ ((., msg) <$> chs)) (loops w) (handled w) (history w) (owner w)) b' r eq_refl Hs).
    + injection Hs as <- <-. clear E IH. revert w Hp. generalize (ch :: chs). clear.
      induction l0 as [|c cs IH]; intros w Hp.
      * cbn in Hp. rewrite app_nil_r in Hp. subst l. by destruct w.
      * eapply rtc_l; [eapply step_give_up; exact Hp|].
        exact (IH (MkWorld (broker w) (l ++ ((., msg) <$> cs)) (loops w) (handled w) (history w) (owner w)) eq_refl).
Qed.

(** [Publish] is the publication and its sends, whether it ends with an error or not. *)
Lemma Publish_steps order ctx_Err pick now msg w b' r :
  (∀ groups, order groups ≡ₚ map_to_list groups) →
  Publish order ctx_Err pick now msg (broker w) = (b', r) →
  ∃ w', rtc step w w' ∧ broker w' = b' ∧ pending w' = pending w ∧ handled w' = handled w.
Proof.
  intros Ho. unfold Publish. destruct (publish_locked order now msg (broker w)) as [[b [m chs]]|err] eqn:E.
  - intros Hs. eexists. split.
    + eapply rtc_l; [eapply step_publish; [done|exact E]|].
      refine (send_all_steps _ _ _ _ (pending w) _ (MkWorld b (pending w ++ ((., m) <$> chs)) (loops w) (handled w)
              (<[Topic m := past w (Topic m) ++ [m]]> (history w)) (owner w)) _ _ eq_refl Hs).
    + done.
  - intros [= <- <-]. by exists w.
Qed.

(** With a context that lasts, the channel that is first in its group gets the record, and no
    other; it gets it unless it is full. *)
Lemma send_all_buffers pick chs : ∀ i msg b, NoDup chs →
  (send_all (λ _, None) pick i chs msg b).2 = Ok tt ∧
  ∀ ch, buffer (send_all (λ _, None) pick i chs msg b).1 ch =
    buffer b ch ++ (if decide (ch ∈ chs ∧ (length (buffer b ch) < channel_capacity)%nat) then [msg] else []).
Proof.
  induction chs as [|c chs IH]; intros i msg b Hnd.
  - split; [done|]. intros ch. cbn. rewrite decide_False by (intros [?%elem_of_nil _]; done). by rewrite app_nil_r.
  - inversion Hnd as [|? ? Hc Hnd']; subst. cbn [send_all send].
    set (b1 := if (length (buffer b c) <? channel_capacity)%nat then _ else b).
    destruct (IH (S i) msg b1 Hnd') as [Hr Hb]. split; [done|]. intros ch. rewrite Hb.
    assert (Hb1 : buffer b1 ch = if decide (ch = c) then
      (if decide (length (buffer b c) < channel_capacity)%nat then buffer b c ++ [msg] else buffer b c) else buffer b ch).
    { unfold b1. destruct (Nat.ltb_spec (length (buffer b c)) channel_capacity).
      - rewrite buffer_with. by destruct (decide (ch = c)); [rewrite decide_True by done|].
      - destruct (decide (ch = c)) as [->|]; [rewrite decide_False by lia|]; done. }
    rewrite Hb1. destruct (decide (ch = c)) as [->|Hne].
    + rewrite (decide_False (P := c ∈ chs ∧ _)) by by intros [? _]. rewrite app_nil_r.
      destruct (decide (length (buffer b c) < channel_capacity)%nat) as [Hlt|Hge].
      * by rewrite decide_True by (split; [by left|done]).
      * rewrite decide_False by by intros [_ ?]. by rewrite app_nil_r.
    + f_equal. apply decide_ext. rewrite elem_of_cons. naive_solver.
Qed.

Lemma Publish_delivers w order pick now msg :
  inv w → (∀ groups, order groups ≡ₚ map_to_list groups) → publishError (broker w) = None →
  let run := Publish order (λ _, None) pick now msg (broker w) in
  run.2 = Ok tt ∧
  topic_log run.1 (Topic msg) = topic_log (broker w) (Topic msg) ++ [stamped (broker w) now msg] ∧
  ∀ ch, buffer run.1 ch = buffer (broker w) ch ++
    (if decide (ch ∈ targets order (broker w) (Topic msg) ∧ (length (buffer (broker w) ch) < channel_capacity)%nat)
     then [stamped (broker w) now msg] else []).
Proof.
  intros H Ho He. unfold Publish, publish_locked. rewrite He. cbv zeta.
  set (m := stamped (broker w) now msg). set (b := MkBroker _ _ _ _ _ _ _).
  destruct (send_all_buffers pick (targets order (broker w) (Topic m)) 0 m b) as [Hr Hb].
  { by apply targets_nodup. }
  split; [done|]. split; [|exact Hb].
  assert (Hlog : ∀ chs (i : nat) b0, messages (send_all (λ _, None) pick i chs m b0).1 = messages b0).
  { induction chs as [|c chs IH]; intros i b0; [done|]. cbn [send_all send]. rewrite IH. by case_match. }
  unfold topic_log. rewrite Hlog. unfold b. cbn. by rewrite lookup_insert_eq.
Qed.

(** ** A consumer by itself *)

Definition members (b : Broker) (topic group : string) : list nat :=
  default [] (subscribers b !! topic ≫= λ groups, groups !! group).

Lemma unsubscribe_members t g ch b t' g' :
  members (unsubscribe t g ch b) t' g' =
    if decide (t' = t ∧ g' = g) then filter (λ c, c ≠ ch) (members b t g) else members b t' g'.
Proof.
  unfold members, unsubscribe. destruct (subscribers b !! t) as [gs|] eqn:E; cbn.
  - destruct (gs !! g) as [chans|] eqn:Eg; cbn.
    + destruct (decide (t' = t ∧ g' = g)) as [[-> ->]|Hne].
      * by rewrite lookup_insert_eq; cbn; rewrite lookup_insert_eq.
      * destruct (decide (t' = t)) as [->|Ht]; [|by rewrite lookup_insert_ne].
        rewrite lookup_insert_eq, E. cbn. rewrite lookup_insert_ne by naive_solver. done.
    + destruct (decide (t' = t ∧ g' = g)) as [[-> ->]|Hne]; [|done]. by rewrite E; cbn; rewrite Eg.
  - destruct (decide (t' = t ∧ g' = g)) as [[-> ->]|Hne]; [|done]. by rewrite E.
Qed.

Lemma subscribe_members t g b t' g' :
  members (subscribe t g b).1 t' g' =
    members b t' g' ++ (if decide (t' = t ∧ g' = g) then [next_channel b] else []).
Proof.
  unfold members, subscribe. cbn. destruct (decide (t' = t)) as [->|Ht].
  - rewrite lookup_insert_eq. cbn. destruct (decide (g' = g)) as [->|Hg].
    + rewrite lookup_insert_eq. cbn. rewrite decide_True by done. f_equal.
      destruct (subscribers b !! t); [done|]. cbn. by rewrite lookup_empty.
    + rewrite lookup_insert_ne by done. rewrite decide_False by naive_solver. rewrite app_nil_r.
      destruct (subscribers b !! t); [done|]. cbn. by rewrite lookup_empty.
  - rewrite lookup_insert_ne by done. rewrite decide_False by naive_solver. by rewrite app_nil_r.
Qed.

(** A stopped consumer is given nothing more: none of its channels is a member of its group,
    and the groups are otherwise as they were. *)
Lemma consumer_Stop_members c b t :
  active c = true → ∀ ch, ch ∈ members (consumer_Stop c b).2 t (group c) ↔
    ch ∈ members b t (group c) ∧ (t, ch) ∉ zip (topics c) (channels c).
Proof.
  intros Ha. unfold consumer_Stop. rewrite Ha. cbn [snd]. generalize (zip (topics c) (channels c)).
  intros l. revert b. induction l as [|[t0 ch0] l IH]; intros b ch; cbn [foldl fst snd].
  - split; [|by intros []]. intros H. split; [done|]. apply not_elem_of_nil.
  - rewrite IH, unsubscribe_members, not_elem_of_cons. destruct (decide (t = t0 ∧ group c = group c)) as [[-> _]|Hne].
    + rewrite list_elem_of_filter. naive_solver.
    + assert (t ≠ t0) by naive_solver. naive_solver.
Qed.

(** A consumer starts once, with a channel of its own for each of its topics. *)
Lemma consumer_Start_channels c b c' b' :
  consumer_Start false c b = (c', b', Ok tt) →
  active c = false ∧ active c' = true ∧ channels c' = seq (next_channel b) (length (topics c)) ∧
  consumer_Start false c' b' = (c', b', Err "mock consumer is already running"%string).
Proof.
  unfold consumer_Start. destruct (active c) eqn:Ha; [done|].
  assert (H : ∀ ts b, (subscribe_all (group c) ts b).2 = seq (next_channel b) (length ts)).
  { induction ts as [|t ts IH]; intros b0; [done|]. cbn [subscribe_all].
    specialize (IH (subscribe t (group c) b0).1). cbn in IH |- *. destruct (subscribe_all _ _ _). cbn in *. by rewrite IH. }
  specialize (H (topics c) b). destruct (subscribe_all (group c) (topics c) b) as [b1 chs]. intros [= <- <-]. done.
Qed.

(** ** Examples *)

Definition ex_msg (v : string) : Message := MkMessage "orders" "k" v ∅ 5 0 0.
Definition ex_broker : Broker := (subscribe_all "billing" ["orders"; "orders"] NewMockBroker).1.

(** The second consumer of a group gets nothing, however much is published. *)
Example first_only :
  let publish v b := (Publish (map_to_list) (λ _, None) (λ _, true) 9 (ex_msg v) b).1 in
  let b := publish "3" (publish "2" (publish "1" ex_broker)) in
  (Value <$> buffer b 0, Offset <$> buffer b 0, buffer b 1) = (["1"; "2"; "3"], [1; 2; 3], []).
Proof. by vm_compute. Qed.

(** One record is subscribed to, published, sent and handled. *)
Definition ex_b1 : Broker := (subscribe "orders" "billing" NewMockBroker).1.
Definition ex_record : Message := stamped ex_b1 9 (ex_msg "1").
Definition ex_b2 : Broker := match publish_locked map_to_list 9 (ex_msg "1") ex_b1 with Ok (b, _) => b | Err _ => ex_b1 end.
Definition ex_b3 : Broker := match send None true 0 ex_record ex_b2 with Ok b => b | Err _ => ex_b2 end.
Definition ex_owner : gmap nat (string * string) := <[0%nat := ("orders", "billing")]> ∅.
Definition ex_history : gmap string (list Message) := <["orders" := [] ++ [ex_record]]> ∅.

Definition ex_world1 : World := MkWorld ex_b1 [] ({[0%nat]} ∪ ∅) ∅ ∅ ex_owner.
Definition ex_world2 : World := MkWorld ex_b2 ([] ++ ((., ex_record) <$> [0%nat])) ({[0%nat]} ∪ ∅) ∅ ex_history ex_owner.
Definition ex_world3 : World := MkWorld ex_b3 ([] ++ []) ({[0%nat]} ∪ ∅) ∅ ex_history ex_owner.
Definition ex_world4 : World :=
  MkWorld (with_buffer ex_b3 0 []) ([] ++ []) ({[0%nat]} ∪ ∅) (<[0%nat := [] ++ [ex_record]]> ∅) ex_history ex_owner.

Lemma broker_hands_out_once_witness :
  handled_by ex_world4 0 = [ex_record] ∧ rtc step start ex_world4 ∧
  handled_by ex_world4 0 ++ buffer (broker ex_world4) 0 ⊆+ past ex_world4 "orders".
Proof.
  assert (Hr : rtc step start ex_world4).
  { apply (rtc_l _ _ ex_world1); [by apply (step_subscribe start "orders" "billing")|].
    apply (rtc_l _ _ ex_world2); [by apply (step_publish ex_world1 map_to_list 9 (ex_msg "1") ex_b2 ex_record [0%nat])|].
    apply (rtc_l _ _ ex_world3); [by apply (step_send ex_world2 None true 0 ex_record [] [])|].
    apply (rtc_l _ _ ex_world4); [|apply rtc_refl].
    apply (step_receive ex_world3 0 ex_record (with_buffer ex_b3 0 [])); [set_solver|done]. }
  split; [by vm_compute|]. split; [exact Hr|].
  destruct (proj2 (broker_hands_out_once _ Hr) 0%nat) as [_ H]. exact (proj1 H).
Defined.
