(* ===== verification/Inbox.v ===== *)
(** internal/domain/inbox: the idempotent consumption of messages.

    The tables are inbox_messages and dead_letter_messages of
    migrations/00006_create_messaging_tables.sql.  The processor runs outside any
    transaction: each repository call is one or several statements.  The domain handler
    it calls is a parameter ([MessageHandler]) over a world of its own. *)

From S2P Require Import Prelude Json Kafka.

(** * Data (models.go, errors.go) *)

(** [ErrWrap] is an error wrapped with %w, [ErrOther] an error of the handler. *)
Inductive error : Type :=
| ErrDuplicateMessage
| ErrTerminalStateIgnored
| ErrPoisonPill
| ErrMessageNotFound
| ErrWrap (prefix : string) (e : error)
| ErrOther (msg : string)
| ErrDriver (msg : string).

Fixpoint Error (e : error) : string :=
  match e with
  | ErrDuplicateMessage => "inbox message already processed or currently processing"
  | ErrTerminalStateIgnored => "aggregate in terminal state; event ignored idempotently"
  | ErrPoisonPill => "poison pill message cannot be processed"
  | ErrMessageNotFound => "inbox message not found"
  | ErrWrap prefix e => prefix ++ Error e
  | ErrOther msg => msg
  | ErrDriver msg => msg
  end%string.

#[export] Instance error_GoError : GoError error :=
  {| error_text := Error; driver_error := ErrDriver; driver_error_text := λ _, eq_refl |}.

#[export] Instance error_eq_dec : EqDecision error.
Proof. solve_decision. Defined.

(** [errors.Is(e, target)] for a sentinel target. *)
Fixpoint Is (e target : error) : bool :=
  bool_decide (e = target) || match e with ErrWrap _ e => Is e target | _ => false end.

Inductive InboxStatus := StatusProcessing | StatusCompleted | StatusFailed.

#[export] Instance InboxStatus_eq_dec : EqDecision InboxStatus.
Proof. solve_decision. Defined.

Record InboxMessage := MkInboxMessage {
  MessageID : string;
  ConsumerGroup : string;
  EventType : string;
  Payload : string;
  Status : InboxStatus;
  ProcessedAt : Z;
}.

Record DeadLetterMessage := MkDeadLetterMessage {
  DLQ_ID : uuid;
  DLQ_SourceType : string;
  DLQ_SourceID : string;
  DLQ_Topic : string;
  DLQ_Partition : Z;
  DLQ_OffsetVal : Z;
  DLQ_ErrorReason : string;
  DLQ_Payload : string;
  DLQ_Headers : gmap string string;
  DLQ_RetryCount : Z;
  DLQ_CreatedAt : Z;
}.

(** * Tables *)

(** The texts a JSONB column takes; PostgreSQL's to say. *)
Class Jsonb := jsonb_in : string → bool.

Record State := MkState {
  inbox_messages : gmap (string * string) InboxMessage;
  dead_letter_messages : list DeadLetterMessage;
}.

Definition empty_state : State := MkState ∅ [].

Definition set_inbox (s : State) (m : gmap (string * string) InboxMessage) : State :=
  MkState m (dead_letter_messages s).

Definition pg_check : string := "value not accepted by the column".
Definition pg_unique : string := "duplicate key value violates unique constraint".

Definition op := M State error.

(** * Repository (repository.go) *)

Section repository.
Context `{JB : Jsonb}.
Local Open Scope go_scope.

(** The columns of a row of [inbox_messages]. *)
Definition message_ok (m : InboxMessage) : bool :=
  varchar_ok 255 (MessageID m) && varchar_ok 100 (ConsumerGroup m) &&
  varchar_ok 100 (EventType m) && jsonb_in (Payload m).

Definition set_status (st : InboxStatus) (now : Z) (m : InboxMessage) : InboxMessage :=
  MkInboxMessage (MessageID m) (ConsumerGroup m) (EventType m) (Payload m) st now.

(** [UPDATE inbox_messages SET status = st, processed_at = NOW() WHERE ...] *)
Definition update_status (what : string) (messageID consumerGroup : string) (st : InboxStatus) :
    op unit :=
  sql what (λ now s,
    Ok (set_inbox s (alter (set_status st now) (messageID, consumerGroup) (inbox_messages s)), tt)).

(** [TryStartProcessing]: INSERT ... ON CONFLICT DO NOTHING; on a conflict the status
    decides. *)
Definition TryStartProcessing (msg : InboxMessage) : op bool :=
  let key := (MessageID msg, ConsumerGroup msg) in
  let* inserted := sql "inbox: try start processing insert: " (λ now s,
    if negb (message_ok msg)
    then Err (ErrDriver ("inbox: try start processing insert: " ++ pg_check)%string) else
    match inbox_messages s !! key with
    | Some _ => Ok (s, false)
    | None => Ok (set_inbox s (<[key := set_status (Status msg) now msg]> (inbox_messages s)), true)
    end) in
  if (inserted : bool) then ret true else
  let* currentStatus := sql "inbox: query conflict status: " (λ _ s,
    match inbox_messages s !! key with
    | Some m => Ok (s, Status m)
    | None => Err (ErrDriver "inbox: query conflict status: no rows in result set")
    end) in
  match currentStatus with
  | StatusCompleted => ret false
  | StatusFailed =>
      update_status "inbox: update failed status to processing: " (MessageID msg)
        (ConsumerGroup msg) StatusProcessing ;;;
      ret true
  | StatusProcessing => fail ErrDuplicateMessage
  end.

Definition MarkCompleted (messageID consumerGroup : string) : op unit :=
  update_status "inbox: mark completed: " messageID consumerGroup StatusCompleted.

Definition MarkFailed (messageID consumerGroup : string) : op unit :=
  update_status "inbox: mark failed: " messageID consumerGroup StatusFailed.

Definition dead_letter_ok (d : DeadLetterMessage) : bool :=
  varchar_ok 255 (DLQ_SourceID d) && varchar_ok 128 (DLQ_Topic d) && int4_ok (DLQ_Partition d) &&
  int8_ok (DLQ_OffsetVal d) && jsonb_in (DLQ_Payload d) && int4_ok (DLQ_RetryCount d).

Definition fill_dead_letter (d : DeadLetterMessage) : op DeadLetterMessage :=
  let* id := if (DLQ_ID d =? uuid_Nil)%N then uuid_New else ret (DLQ_ID d) in
  let* at_ := if DLQ_CreatedAt d =? time_Zero then time_now else ret (DLQ_CreatedAt d) in
  ret (MkDeadLetterMessage id (DLQ_SourceType d) (DLQ_SourceID d) (DLQ_Topic d) (DLQ_Partition d)
         (DLQ_OffsetVal d) (DLQ_ErrorReason d) (DLQ_Payload d) (DLQ_Headers d) (DLQ_RetryCount d) at_).

Definition SaveDeadLetter (dlq : DeadLetterMessage) : op unit :=
  let* dlq := fill_dead_letter dlq in
  sql "inbox: save dead letter: " (λ _ s,
    if negb (dead_letter_ok dlq)
    then Err (ErrDriver ("inbox: save dead letter: " ++ pg_check)%string) else
    if existsb (λ d, (DLQ_ID d =? DLQ_ID dlq)%N) (dead_letter_messages s)
    then Err (ErrDriver ("inbox: save dead letter: " ++ pg_unique)%string)
    else Ok (MkState (inbox_messages s) (dead_letter_messages s ++ [dlq]), tt)).

Definition GetMessage (messageID consumerGroup : string) : op InboxMessage :=
  sql "inbox: get message: " (λ _ s,
    match inbox_messages s !! (messageID, consumerGroup) with
    | Some m => Ok (s, m)
    | None => Err ErrMessageNotFound
    end).

Definition dlq_ge (x y : DeadLetterMessage) : Prop := DLQ_CreatedAt y <= DLQ_CreatedAt x.
#[export] Instance dlq_ge_dec : RelDecision dlq_ge.
Proof. intros x y. unfold dlq_ge. apply _. Defined.

(** WHERE source_type = 'INBOX' ORDER BY created_at DESC LIMIT $1 *)
Definition GetDeadLetterMessages (limit : Z) : op (list DeadLetterMessage) :=
  let limit := if limit <=? 0 then 50 else limit in
  sql "inbox: get dlq messages: " (λ _ s,
    Ok (s, take (Z.to_nat limit)
             (merge_sort dlq_ge (filter (λ d, DLQ_SourceType d = "INBOX") (dead_letter_messages s))))).
End repository.

(** * Processor (processor.go) *)

Record ProcessorConfig := MkProcessorConfig { Cfg_ConsumerGroup : string; DLQTopic : string }.

(** [NewProcessor]: the configuration it works with. *)
Definition NewProcessor_cfg (cfg : ProcessorConfig) : ProcessorConfig :=
  if String.eqb (Cfg_ConsumerGroup cfg) "" then MkProcessorConfig "default-inbox-group" (DLQTopic cfg)
  else cfg.

(** The processor sees the tables and the world of the domain handler. *)
Record World (X : Type) := MkWorld { tables : State; domain : X }.
Arguments MkWorld {X}.
Arguments tables {X} w : rename.
Arguments domain {X} w : rename.

Section processor.
Context `{JB : Jsonb} `{UT : UuidText} {X : Type}.
Local Open Scope go_scope.

Definition prog := M (World X) error.
Definition MessageHandler := Message → M X error unit.

Definition on_tables {A} (m : op A) : prog A := zoom tables (λ s w, MkWorld s (domain w)) m.
Definition on_domain {A} (m : M X error A) : prog A := zoom domain (λ x w, MkWorld (tables w) x) m.

(** [msg.Headers["message_id"]], or else the key. *)
Definition message_id (msg : Message) : string :=
  let id := default "" (Headers msg !! "message_id") in
  if String.eqb id "" then Key msg else id.

Definition routeToDLQ (msg : Message) (reason : string) : op unit :=
  let* sourceID :=
    if String.eqb (message_id msg) ""
    then (let* u := uuid_New in ret ("unknown-" ++ uuid_String u)%string)
    else ret (message_id msg) in
  let* id := uuid_New in
  let* now := time_now in
  SaveDeadLetter (MkDeadLetterMessage id "INBOX" sourceID (Topic msg) (Partition msg) (Offset msg)
                    reason (Value msg) (Headers msg) 1 now).

(** What the processor does with the error of the handler. *)
Definition handle_failure (group : string) (msg : Message) (messageID : string) (handlerErr : error) :
    prog unit :=
  if Is handlerErr ErrTerminalStateIgnored then
    let* _ := try (on_tables (MarkCompleted messageID group)) in
    ret tt
  else if Is handlerErr ErrPoisonPill then
    let* _ := try (on_tables (routeToDLQ msg (Error handlerErr))) in
    let* _ := try (on_tables (MarkCompleted messageID group)) in
    ret tt
  else
    let* _ := try (on_tables (MarkFailed messageID group)) in
    fail handlerErr.

Definition inbox_message (group : string) (msg : Message) (now : Z) : InboxMessage :=
  MkInboxMessage (message_id msg) group (default "" (Headers msg !! "event_type")) (Value msg)
    StatusProcessing now.

Definition ProcessMessage (cfg : ProcessorConfig) (handler : MessageHandler) (msg : Message) :
    prog unit :=
  let messageID := message_id msg in
  let group := Cfg_ConsumerGroup cfg in
  if String.eqb messageID "" then on_tables (routeToDLQ msg "missing message_id or key") else
  if (0 <? String.length (Value msg))%nat && negb (Valid (Value msg)) then
    let* _ := try (on_tables (routeToDLQ msg "malformed JSON payload")) in
    ret tt
  else
  let* now := time_now in
  let* started := try (on_tables (TryStartProcessing (inbox_message group msg now))) in
  match started with
  | Err e => if Is e ErrDuplicateMessage then ret tt else fail (ErrWrap "inbox: try start processing: " e)
  | Ok false => ret tt
  | Ok true =>
      let* handled := try (on_domain (handler msg)) in
      match handled with
      | Err handlerErr => handle_failure group msg messageID handlerErr
      | Ok _ =>
          map_err (ErrWrap "inbox: mark completed: ") (on_tables (MarkCompleted messageID group))
      end
  end.
End processor.

(** * Rows and their changes *)

Definition status_of (s : State) (key : string * string) : option InboxStatus :=
  Status <$> inbox_messages s !! key.

(** [s'] is [s] but for the row under [key], which now has status [st]. *)
Definition marked (key : string * string) (st : InboxStatus) (s s' : State) : Prop :=
  status_of s' key = Some st ∧ (∀ k, k ≠ key → inbox_messages s' !! k = inbox_messages s !! k) ∧
  dead_letter_messages s' = dead_letter_messages s.

Lemma marked_other key st s s' k : marked key st s s' → k ≠ key → status_of s' k = status_of s k.
Proof. intros (_ & H & _) Hk. unfold status_of. by rewrite H. Qed.

Lemma update_status_marks what id group st env n s n' s' r :
  update_status what id group st env n s = (n', s', r) →
  match r with
  | Ok _ => status_of s (id, group) ≠ None → marked (id, group) st s s'
  | Err e => s' = s ∧ ∃ m, e = ErrDriver m
  end.
Proof.
  unfold update_status, sql. destruct (env_fault env n); intros [= <- <- <-]; [by eauto|].
  unfold marked, status_of. simpl. intros H.
  destruct (inbox_messages s !! (id, group)) as [m|] eqn:Hm; [|done].
  split_and!; [by rewrite lookup_alter_eq, Hm| |done].
  intros k Hk. by rewrite lookup_alter_ne.
Qed.

Lemma update_status_run what id group st env n s :
  no_faults env → status_of s (id, group) ≠ None →
  ∃ s', update_status what id group st env n s = (S n, s', Ok tt) ∧ marked (id, group) st s s'.
Proof.
  intros Hf Hs. destruct (update_status what id group st env n s) as [[n' s'] r] eqn:Hrun.
  pose proof (update_status_marks _ _ _ _ _ _ _ _ _ _ Hrun) as H. revert Hrun.
  unfold update_status. rewrite sql_run by apply Hf. intros [= <- <- <-]. eauto.
Qed.

Section specs.
Context `{JB : Jsonb} `{UT : UuidText}.

(** [TryStartProcessing] starts a message that is new or has failed, and only that. *)
Lemma TryStartProcessing_spec msg env n s n' s' r :
  Status msg = StatusProcessing →
  TryStartProcessing msg env n s = (n', s', r) →
  let key := (MessageID msg, ConsumerGroup msg) in
  match r with
  | Ok true => (status_of s key = None ∨ status_of s key = Some StatusFailed) ∧
               marked key StatusProcessing s s'
  | Ok false => s' = s ∧ status_of s key = Some StatusCompleted
  | Err e => s' = s ∧
      ((e = ErrDuplicateMessage ∧ status_of s key = Some StatusProcessing) ∨ ∃ m, e = ErrDriver m)
  end.
Proof.
  intros Hst Hrun key. unfold TryStartProcessing in Hrun. fold key in Hrun.
  apply bind_inv in Hrun as [(e & H & ->)|(n1 & s1 & ins & H & Hrun)].
  { split; [by apply sql_err_inv in H|]. right. revert H. unfold sql.
    destruct (env_fault env n); [intros [= _ _ <-]; by eexists|].
    destruct (negb _); [intros [= _ _ <-]; by eexists|].
    by destruct (inbox_messages s !! key). }
  apply sql_ok_inv in H as (_ & H & ->). destruct (negb _); [done|].
  destruct (inbox_messages s !! key) as [m|] eqn:Hm; simplify_eq.
  2: { unfold ret in Hrun. simplify_eq. unfold marked, status_of. simpl. rewrite Hm.
       split; [by left|]. split_and!; [rewrite lookup_insert_eq; simpl; by rewrite Hst| |done].
       intros k Hk. by rewrite lookup_insert_ne. }
  apply bind_inv in Hrun as [(e & H & ->)|(n2 & s2 & st & H & Hrun)].
  { split; [by apply sql_err_inv in H|]. right. revert H. unfold sql.
    destruct (env_fault env _); [intros [= _ _ <-]; by eexists|]. by rewrite Hm. }
  apply sql_ok_inv in H as (_ & H & ->). rewrite Hm in H. simplify_eq.
  assert (Hs : status_of s2 key = Some (Status m)) by (unfold status_of; by rewrite Hm).
  destruct (Status m) eqn:Hm'.
  - unfold fail in Hrun. simplify_eq. split; [done|by left].
  - unfold ret in Hrun. by simplify_eq.
  - apply bind_inv in Hrun as [(e & H & ->)|(n3 & s3 & [] & H & Hrun)];
      apply update_status_marks in H; [destruct H; split; [done|by right]|].
    unfold ret in Hrun. simplify_eq. split; [by right|]. apply H. change (status_of s2 key ≠ None). by rewrite Hs.
Qed.

(** The dead letter of a message. *)
Definition letter_of (msg : Message) (reason : string) (d : DeadLetterMessage) : Prop :=
  DLQ_SourceType d = "INBOX" ∧ (message_id msg ≠ "" → DLQ_SourceID d = message_id msg) ∧
  DLQ_Topic d = Topic msg ∧ DLQ_Partition d = Partition msg ∧ DLQ_OffsetVal d = Offset msg ∧
  DLQ_ErrorReason d = reason ∧ DLQ_Payload d = Value msg ∧ DLQ_Headers d = Headers msg ∧
  DLQ_RetryCount d = 1.

(** The same letter, but for its identifier and its instant. *)
Definition with_stamp (d : DeadLetterMessage) (id : uuid) (at_ : Z) : DeadLetterMessage :=
  MkDeadLetterMessage id (DLQ_SourceType d) (DLQ_SourceID d) (DLQ_Topic d) (DLQ_Partition d)
    (DLQ_OffsetVal d) (DLQ_ErrorReason d) (DLQ_Payload d) (DLQ_Headers d) (DLQ_RetryCount d) at_.

Lemma fill_dead_letter_run d env n s :
  ∃ n1 id at_, fill_dead_letter d env n s = (n1, s, Ok (with_stamp d id at_)).
Proof.
  unfold fill_dead_letter, bind, uuid_New, time_now, ret.
  destruct (DLQ_ID d =? uuid_Nil)%N, (DLQ_CreatedAt d =? time_Zero); by do 3 eexists.
Qed.

Lemma SaveDeadLetter_spec d env n s n' s' r :
  SaveDeadLetter d env n s = (n', s', r) →
  match r with
  | Ok _ => jsonb_in (DLQ_Payload d) = true ∧ inbox_messages s' = inbox_messages s ∧
            ∃ id at_, dead_letter_messages s' = dead_letter_messages s ++ [with_stamp d id at_]
  | Err _ => s' = s
  end.
Proof.
  unfold SaveDeadLetter. destruct (fill_dead_letter_run d env n s) as (n1 & id & at_ & Hfill).
  rewrite (bind_ok _ _ _ _ _ _ _ _ Hfill). unfold sql.
  destruct (env_fault env n1); [by intros [= <- <- <-]|].
  destruct (dead_letter_ok (with_stamp d id at_)) eqn:Hok; [|by intros [= <- <- <-]].
  destruct (existsb _ _); intros [= <- <- <-]; [done|].
  unfold dead_letter_ok in Hok. rewrite !andb_true_iff in Hok. split; [apply Hok|]. eauto.
Qed.

Lemma routeToDLQ_spec msg reason env n s n' s' r :
  routeToDLQ msg reason env n s = (n', s', r) →
  match r with
  | Ok _ => jsonb_in (Value msg) = true ∧ inbox_messages s' = inbox_messages s ∧
            ∃ d, dead_letter_messages s' = dead_letter_messages s ++ [d] ∧ letter_of msg reason d
  | Err _ => s' = s
  end.
Proof.
  unfold routeToDLQ. intros Hrun.
  assert (∃ n1 sid, (message_id msg ≠ "" → sid = message_id msg) ∧
    SaveDeadLetter (MkDeadLetterMessage (env_uuid env n1) "INBOX" sid (Topic msg) (Partition msg)
      (Offset msg) reason (Value msg) (Headers msg) 1 (env_now env (S n1))) env (S (S n1)) s
    = (n', s', r)) as (n1 & sid & Hsid & Hsave).
  { destruct (String.eqb_spec (message_id msg) "") as [Hid|Hid];
      [exists (S n)|exists n]; eexists; split; try exact Hrun; [by rewrite Hid|done]. }
  apply SaveDeadLetter_spec in Hsave. destruct r as [[]|e]; [|done]. simpl in Hsave.
  destruct Hsave as (Hj & Hin & id & at_ & Hd). split_and!; [done..|].
  eexists. split; [exact Hd|]. by split_and!.
Qed.
End specs.

(** * What becomes of a message *)

(** The status a handled message ends in, and what the consumer is told. *)
Definition ignored (e : error) : bool := Is e ErrTerminalStateIgnored || Is e ErrPoisonPill.
Definition status_after (h : result error unit) : InboxStatus :=
  match h with Err e => if ignored e then StatusCompleted else StatusFailed | Ok _ => StatusCompleted end.
Definition reply_after (h : result error unit) : result error unit :=
  match h with Err e => if ignored e then Ok tt else Err e | Ok _ => Ok tt end.
(** The reason under which a message the handler calls poisonous is set aside. *)
Definition poison (h : result error unit) : option string :=
  match h with
  | Err e => if Is e ErrTerminalStateIgnored then None
             else if Is e ErrPoisonPill then Some (Error e) else None
  | Ok _ => None
  end.

(** The dead letters after setting a message aside, if at all: the letter is kept if
    its table takes it. *)
Definition set_aside (msg : Message) (why : option string) (s s' : State) : Prop :=
  dead_letter_messages s' = dead_letter_messages s ∨
  ∃ reason d, why = Some reason ∧ letter_of msg reason d ∧
    dead_letter_messages s' = dead_letter_messages s ++ [d].

Section processing.
Context `{JB : Jsonb} `{UT : UuidText} {X : Type} (cfg : ProcessorConfig).
Notation group := (Cfg_ConsumerGroup cfg).
Notation key msg := (message_id msg, group).

(** The work that follows the handler. *)
Definition finish (msg : Message) (h : result error unit) : M (World X) error unit :=
  match h with
  | Err e => handle_failure group msg (message_id msg) e
  | Ok _ => map_err (ErrWrap "inbox: mark completed: ") (on_tables (MarkCompleted (message_id msg) group))
  end.

(** [s'] is [s] but for the row under [k] and the dead letters. *)
Definition only_row (k : string * string) (s s' : State) : Prop :=
  ∀ k', k' ≠ k → inbox_messages s' !! k' = inbox_messages s !! k'.

Lemma mark_try what st env n s k (x : X) :
  status_of s k = Some StatusProcessing →
  ∃ s' r, try (on_tables (update_status what k.1 k.2 st)) env n (MkWorld s x)
          = (S n, MkWorld s' x, Ok r) ∧
    only_row k s s' ∧ dead_letter_messages s' = dead_letter_messages s ∧
    (status_of s' k = Some StatusProcessing ∨ status_of s' k = Some st) ∧
    (no_faults env → status_of s' k = Some st).
Proof.
  intros Hs. destruct k as [id g]. unfold try, on_tables, zoom. simpl.
  destruct (update_status what id g st env n s) as [[n1 s1] r1] eqn:H.
  pose proof (update_status_marks _ _ _ _ _ _ _ _ _ _ H) as Hm.
  assert (n1 = S n) as ->.
  { revert H. unfold update_status, sql. destruct (env_fault env n); by intros [= <- _ _]. }
  exists s1, r1. split; [done|]. destruct r1 as [[]|e].
  - destruct Hm as (H1 & H2 & H3); [by rewrite Hs|]. split_and!; try done. by right.
  - destruct Hm as [-> _]. split_and!; [done|done|by left|]. intros Hf.
    revert H. unfold update_status. by rewrite sql_run by apply Hf.
Qed.

Lemma finish_spec msg h env n s x n' w r :
  status_of s (key msg) = Some StatusProcessing →
  finish msg h env n (MkWorld s x) = (n', w, r) →
  domain w = x ∧ only_row (key msg) s (tables w) ∧ set_aside msg (poison h) s (tables w) ∧
  (status_of (tables w) (key msg) = Some StatusProcessing ∨
   status_of (tables w) (key msg) = Some (status_after h)) ∧
  (no_faults env → status_of (tables w) (key msg) = Some (status_after h) ∧ r = reply_after h).
Proof.
  intros Hs. destruct h as [[]|e]; simpl.
  { destruct (mark_try "inbox: mark completed: " StatusCompleted env n s (key msg) x Hs)
      as (s' & r1 & Hrun & H1 & H2 & H3 & H4). revert Hrun.
    unfold try, map_err, MarkCompleted. simpl.
    destruct (on_tables _ env n (MkWorld s x)) as [[n1 w1] [[]|e1]] eqn:Hon; intros [= -> -> <-] [= <- <- <-];
      simpl; (split_and!; [done|done|by left|done|]); intros Hf; (split; [by auto|]); [done|].
    revert Hon. unfold on_tables, zoom, update_status. simpl. by rewrite sql_run by apply Hf. }
  unfold handle_failure, ignored, status_after, reply_after, poison, ignored.
  destruct (Is e ErrTerminalStateIgnored) eqn:Ht; [|destruct (Is e ErrPoisonPill) eqn:Hp]; simpl.
  - destruct (mark_try "inbox: mark completed: " StatusCompleted env n s (key msg) x Hs)
      as (s' & r1 & Hrun & H1 & H2 & H3 & H4).
    rewrite (bind_ok _ _ _ _ _ _ _ _ Hrun). intros [= <- <- <-]. simpl. split_and!; try done; [by left|].
    by auto.
  - unfold bind at 1. unfold try at 1, on_tables at 1, zoom at 1. simpl.
    destruct (routeToDLQ msg (Error e) env n s) as [[n1 s1] r1] eqn:Hdlq.
    apply routeToDLQ_spec in Hdlq.
    assert (Hs1 : inbox_messages s1 = inbox_messages s ∧ set_aside msg (Some (Error e)) s s1).
    { destruct r1; [destruct Hdlq as (_ & H1 & d & H2 & H3); split; [done|right; by exists (Error e), d]|].
      subst s1. split; [done|by left]. }
    destruct Hs1 as [Hin Ha].
    assert (Hs1 : status_of s1 (key msg) = Some StatusProcessing) by (unfold status_of; by rewrite Hin).
    destruct (mark_try "inbox: mark completed: " StatusCompleted env n1 s1 (key msg) x Hs1)
      as (s' & r2 & Hrun & H1 & H2 & H3 & H4).
    rewrite (bind_ok _ _ _ _ _ _ _ _ Hrun). intros [= <- <- <-]. simpl.
    split_and!; try done; [intros k Hk; rewrite <-Hin; by apply H1|unfold set_aside; by rewrite H2|by auto].
  - destruct (mark_try "inbox: mark failed: " StatusFailed env n s (key msg) x Hs)
      as (s' & r1 & Hrun & H1 & H2 & H3 & H4).
    rewrite (bind_ok _ _ _ _ _ _ _ _ Hrun). intros [= <- <- <-]. simpl. split_and!; try done; [by left|].
    by auto.
Qed.

(** The message carries an identifier, and a value that is empty or JSON. *)
Definition readable (msg : Message) : bool :=
  negb (String.eqb (message_id msg) "") &&
  negb ((0 <? String.length (Value msg))%nat && negb (Valid (Value msg))).

(** A readable message, call by call. *)
Lemma ProcessMessage_run (handler : MessageHandler) msg env n s (x : X) :
  readable msg = true →
  ProcessMessage cfg handler msg env n (MkWorld s x) =
    match TryStartProcessing (inbox_message group msg (env_now env n)) env (S n) s with
    | (n1, s1, Ok true) =>
        let '(n2, x2, h) := handler msg env n1 x in finish msg h env n2 (MkWorld s1 x2)
    | (n1, s1, Ok false) => (n1, MkWorld s1 x, Ok tt)
    | (n1, s1, Err e) =>
        (n1, MkWorld s1 x, if Is e ErrDuplicateMessage then Ok tt
                           else Err (ErrWrap "inbox: try start processing: " e))
    end.
Proof.
  unfold readable, ProcessMessage. intros [H1 H2]%andb_true_iff.
  apply negb_true_iff in H1, H2. rewrite H1, H2.
  rewrite (bind_ok _ _ _ _ _ (S n) (MkWorld s x) (env_now env n) eq_refl).
  unfold bind at 1, try at 1, on_tables at 1, zoom at 1. simpl.
  destruct (TryStartProcessing _ env (S n) s) as [[n1 s1] [[|]|e]]; [|done|].
  - unfold bind, try, on_domain, zoom. simpl.
    by destruct (handler msg env n1 x) as [[n2 x2] [[]|e]].
  - by destruct (Is e ErrDuplicateMessage).
Qed.

(** One that is not goes to the dead letters, if they take it. *)
Lemma ProcessMessage_unreadable (handler : MessageHandler) msg env n s (x : X) n' w r :
  readable msg = false → ProcessMessage cfg handler msg env n (MkWorld s x) = (n', w, r) →
  domain w = x ∧ inbox_messages (tables w) = inbox_messages s ∧
  (message_id msg ≠ "" → r = Ok tt ∧ set_aside msg (Some "malformed JSON payload") s (tables w) ∧
     (jsonb_in (Value msg) = false → tables w = s)).
Proof.
  unfold readable, ProcessMessage. intros Hr Hrun.
  destruct (String.eqb_spec (message_id msg) "") as [Hid|Hid].
  { revert Hrun. unfold on_tables, zoom. simpl.
    destruct (routeToDLQ _ _ env n s) as [[n1 s1] r1] eqn:H. intros [= <- <- <-].
    apply routeToDLQ_spec in H. split; [done|]. split; [|done].
    destruct r1; [by destruct H as (_ & H & _)|by subst]. }
  destruct ((0 <? String.length (Value msg))%nat && negb (Valid (Value msg))); [|done].
  revert Hrun. unfold bind, try, on_tables, zoom, ret. simpl.
  destruct (routeToDLQ _ _ env n s) as [[n1 s1] r1] eqn:H. intros [= <- <- <-].
  apply routeToDLQ_spec in H. simpl. split; [done|].
  destruct r1 as [[]|e]; [|subst; split; [done|]; intros _; split_and!; [done|by left|done]].
  destruct H as (Hj & H & d & Hd & Hl). split; [done|]. intros _.
  split_and!; [done|right; by eexists _, d|by rewrite Hj].
Qed.

(** One delivery, whatever fails: the handler is called once if the message can be
    started, and not at all if it cannot. *)
Lemma ProcessMessage_cases (handler : MessageHandler) msg env n s (x : X) n' w r :
  readable msg = true → ProcessMessage cfg handler msg env n (MkWorld s x) = (n', w, r) →
  (w = MkWorld s x ∧
   ((r = Ok tt ∧ (status_of s (key msg) = Some StatusCompleted ∨
                  status_of s (key msg) = Some StatusProcessing)) ∨
    ∃ e, r = Err e)) ∨
  ((status_of s (key msg) = None ∨ status_of s (key msg) = Some StatusFailed) ∧
   ∃ n1 s1 n2 x2 h, handler msg env n1 x = (n2, x2, h) ∧
     marked (key msg) StatusProcessing s s1 ∧
     finish msg h env n2 (MkWorld s1 x2) = (n', w, r)).
Proof.
  intros Hread. rewrite (ProcessMessage_run handler msg env n s x Hread).
  destruct (TryStartProcessing _ env (S n) s) as [[n1 s1] r1] eqn:Hstart.
  apply TryStartProcessing_spec in Hstart; [|done]. destruct r1 as [[|]|e].
  - destruct Hstart as [Hst Hm]. destruct (handler msg env n1 x) as [[n2 x2] h] eqn:Hh.
    intros Hfin. right. split; [done|]. by exists n1, s1, n2, x2, h.
  - destruct Hstart as [-> Hst]. intros [= <- <- <-]. left. by auto.
  - destruct Hstart as [-> [[-> Hst]|[m ->]]]; simpl; intros [= <- <- <-]; left; [by auto|by eauto].
Qed.
End processing.

Section theorems.
Context `{JB : Jsonb} `{UT : UuidText}.

Lemma TryStartProcessing_run msg env n s :
  no_faults env → message_ok msg = true →
  ∃ n' s', TryStartProcessing msg env n s =
    (n', s', match status_of s (MessageID msg, ConsumerGroup msg) with
             | Some StatusCompleted => Ok false
             | Some StatusProcessing => Err ErrDuplicateMessage
             | Some StatusFailed | None => Ok true
             end).
Proof.
  intros Hf Hok. unfold TryStartProcessing, status_of.
  unfold bind at 1. rewrite sql_run by apply Hf. rewrite Hok. simpl negb. cbv iota.
  destruct (inbox_messages s !! _) as [m|] eqn:Hm; cbv iota beta; [|by eexists _, _].
  unfold bind at 1. rewrite sql_run by apply Hf. rewrite Hm. simpl.
  destruct (Status m); [by eexists _, _..|].
  unfold bind, update_status. rewrite sql_run by apply Hf. by eexists _, _.
Qed.

(** A delivery, when the driver works and the tables take the message. *)
Lemma ProcessMessage_delivers {X : Type} cfg (handler : MessageHandler) msg env n s (x : X) :
  no_faults env → readable msg = true →
  message_ok (inbox_message (Cfg_ConsumerGroup cfg) msg 0) = true →
  let key := (message_id msg, Cfg_ConsumerGroup cfg) in
  let run := ProcessMessage cfg handler msg env n (MkWorld s x) in
  match status_of s key with
  | Some StatusCompleted | Some StatusProcessing => outcome run = Ok tt ∧ final run = MkWorld s x
  | Some StatusFailed | None =>
      ∃ n1, let h := handler msg env n1 x in
      domain (final run) = final h ∧ outcome run = reply_after (outcome h) ∧
      status_of (tables (final run)) key = Some (status_after (outcome h)) ∧
      only_row key s (tables (final run)) ∧
      set_aside msg (poison (outcome h)) s (tables (final run))
  end.
Proof.
  intros Hf Hread Hok. cbv zeta. set (key := (message_id msg, Cfg_ConsumerGroup cfg)).
  rewrite (ProcessMessage_run cfg handler msg env n s x Hread).
  destruct (TryStartProcessing_run (inbox_message (Cfg_ConsumerGroup cfg) msg (env_now env n))
              env (S n) s Hf Hok) as (n1 & s1 & Hstart).
  rewrite Hstart. apply TryStartProcessing_spec in Hstart; [|done].
  change (MessageID _, ConsumerGroup _) with key in Hstart |- *.
  destruct (status_of s key) as [[]|]; cbn [final outcome fst snd];
    try (destruct Hstart as [-> _]; done);
    exists n1; destruct (handler msg env n1 x) as [[n2 x2] h] eqn:Hh;
    destruct Hstart as (_ & Hs1 & Hrows & Hdl);
    destruct (finish cfg msg h env n2 (MkWorld s1 x2)) as [[n' w] r] eqn:Hfin;
    destruct (finish_spec cfg msg h env n2 s1 x2 n' w r Hs1 Hfin) as (H1 & H2 & H3 & _ & H4);
    destruct (H4 Hf) as [H5 ->]; cbn [final outcome fst snd];
    (split_and!; [done..|intros k Hk; rewrite H2 by done; by apply Hrows|]);
    unfold set_aside in *; by rewrite Hdl in H3.
Qed.

(** One delivery of a message.  When the driver works and the tables take the message:
    one already COMPLETED or in flight is acknowledged and nothing happens; one that is
    new or has FAILED is handed to the domain handler exactly once, its effect is the
    handler's, and its row ends as the handler's answer says: COMPLETED on success, when
    the aggregate was final and for a poison pill, which also goes to the dead letters,
    and FAILED on any other error, the only case that is reported. *)
Theorem ProcessMessage_spec {X : Type} cfg (handler : MessageHandler) msg env n s (x : X) :
  no_faults env → readable msg = true →
  message_ok (inbox_message (Cfg_ConsumerGroup cfg) msg 0) = true →
  let key := (message_id msg, Cfg_ConsumerGroup cfg) in
  let run := ProcessMessage cfg handler msg env n (MkWorld s x) in
  match status_of s key with
  | Some StatusCompleted | Some StatusProcessing => outcome run = Ok tt ∧ final run = MkWorld s x
  | Some StatusFailed | None =>
      ∃ n1, let h := handler msg env n1 x in
      domain (final run) = final h ∧ outcome run = reply_after (outcome h) ∧
      status_of (tables (final run)) key = Some (status_after (outcome h)) ∧
      only_row key s (tables (final run)) ∧
      set_aside msg (poison (outcome h)) s (tables (final run))
  end.
Proof. intros Hf Hread Hok. exact (ProcessMessage_delivers cfg handler msg env n s x Hf Hread Hok). Qed.

(** ** Histories of a consumer group *)

Section history.
Context {X : Type} (cfg : ProcessorConfig) (handler : @MessageHandler X).
Notation group := (Cfg_ConsumerGroup cfg).

(** The domain handler, with the list of the messages it has handled successfully. *)
Definition counted : @MessageHandler (X * list string) := λ msg env n xs,
  match handler msg env n xs.1 with
  | (n1, x1, Ok _) => (n1, (x1, xs.2 ++ [message_id msg]), Ok tt)
  | (n1, x1, Err e) => (n1, (x1, xs.2), Err e)
  end.

Definition handled (w : World (X * list string)) : list string := (domain w).2.

(** What can happen to the inbox of a group whose consumer works on one message at a
    time: a delivery, complete or cut short by a crash after the start of the message
    or after its handling; and anything the other groups do. *)
Inductive delivery (w w' : World (X * list string)) : Prop :=
| Delivered env n msg : w' = final (ProcessMessage cfg counted msg env n w) → delivery w w'
| CrashedStarted env n msg : readable msg = true →
    w' = final (on_tables (TryStartProcessing (inbox_message group msg 0)) env n w) → delivery w w'
| CrashedHandled env n msg n1 s1 : readable msg = true →
    TryStartProcessing (inbox_message group msg 0) env n (tables w) = (n1, s1, Ok true) →
    w' = MkWorld s1 (final (counted msg env n1 (domain w))) → delivery w w'
| OtherGroups : (∀ id, inbox_messages (tables w') !! (id, group) =
                       inbox_messages (tables w) !! (id, group)) →
    handled w' = handled w → delivery w w'.

(** The rows of a message that is in flight or done. *)
Definition taken (w : World (X * list string)) (id : string) : Prop :=
  status_of (tables w) (id, group) = Some StatusProcessing ∨
  status_of (tables w) (id, group) = Some StatusCompleted.

Definition once (w : World (X * list string)) : Prop :=
  NoDup (handled w) ∧ ∀ id, id ∈ handled w → taken w id.

Lemma once_grows w w' id :
  once w → ¬ taken w id → only_row (id, group) (tables w) (tables w') →
  handled w' = handled w ∨ (handled w' = handled w ++ [id] ∧ taken w' id) → once w'.
Proof.
  intros [Hnd Ht] Hid Hrows Hh.
  assert (Hn : id ∉ handled w) by (intros H; by apply Hid, Ht).
  assert (Hother : ∀ id', id' ∈ handled w → taken w' id').
  { intros id' Hin. unfold taken, status_of. rewrite Hrows by (intros [= ->]; done).
    by apply Ht. }
  unfold once. destruct Hh as [->|[-> Hnew]]; (split; [|]); [done|done| |].
  - apply NoDup_app. split_and!; [done| |apply NoDup_singleton]. set_solver.
  - intros id' [?|Hin]%elem_of_app; [by apply Hother|].
    apply list_elem_of_singleton in Hin as ->. done.
Qed.

Lemma once_same w w' :
  once w → handled w' = handled w →
  (∀ id, inbox_messages (tables w') !! (id, group) = inbox_messages (tables w) !! (id, group)) →
  once w'.
Proof.
  intros [Hnd Ht] Hh Hrows. split; rewrite Hh; [done|]. intros id Hid.
  unfold taken, status_of. rewrite Hrows. by apply Ht.
Qed.

(** A message that can be started is not one of those that are taken. *)
Lemma startable_not_taken (w : World (X * list string)) id :
  status_of (tables w) (id, group) = None ∨ status_of (tables w) (id, group) = Some StatusFailed →
  ¬ taken w id.
Proof. unfold taken. intros [-> | ->] [?|?]; done. Qed.

Lemma counted_handled msg env n xs :
  let run := counted msg env n xs in
  (final run).2 = xs.2 ++ match outcome run with Ok _ => [message_id msg] | Err _ => [] end.
Proof.
  unfold counted. destruct (handler msg env n xs.1) as [[n1 x1] [[]|e]]; simpl; [done|].
  by rewrite app_nil_r.
Qed.

Lemma delivery_once w w' : delivery w w' → once w → once w'.
Proof.
  destruct w as [s x]. intros [env n msg ->|env n msg Hread ->|env n msg n1 s1 Hread Hstart ->|Hrows Hh] Ho.
  - destruct (ProcessMessage cfg counted msg env n (MkWorld s x)) as [[n' w] r] eqn:Hrun.
    cbn [final fst snd]. destruct (readable msg) eqn:Hread.
    2: { destruct (ProcessMessage_unreadable cfg counted _ _ _ _ _ _ _ _ Hread Hrun) as (H1 & H2 & _).
         eapply once_same; [exact Ho|unfold handled; simpl; by rewrite H1|].
         intros id. simpl. by rewrite H2. }
    destruct (ProcessMessage_cases cfg counted _ _ _ _ _ _ _ _ Hread Hrun)
      as [[-> _]|(Hst & n1 & s1 & n2 & x2 & h & Hc & (Hs1 & Hrows & _) & Hfin)]; [done|].
    destruct (finish_spec cfg msg h env n2 s1 x2 n' w r Hs1 Hfin) as (H1 & H2 & _ & H3 & _).
    pose proof (counted_handled msg env n1 x) as Hh. rewrite Hc in Hh. cbn [final outcome fst snd] in Hh.
    apply (once_grows (MkWorld s x) w (message_id msg) Ho); [by apply startable_not_taken|..].
    { intros k Hk. rewrite H2 by done. by apply Hrows. }
    unfold handled. rewrite H1. simpl. destruct h as [[]|e]; [right|left; by rewrite app_nil_r in Hh].
    split; [done|exact H3].
  - unfold on_tables, zoom. simpl.
    destruct (TryStartProcessing _ env n s) as [[n1 s1] r1] eqn:Hstart.
    apply TryStartProcessing_spec in Hstart; [|done]. cbn [final fst snd]. simpl in Hstart.
    destruct r1 as [[|]|e]; [|by destruct Hstart as [-> _]..].
    destruct Hstart as [Hst (Hs1 & Hrows & _)].
    apply (once_grows (MkWorld s x) _ (message_id msg) Ho); [by apply startable_not_taken|done|by left].
  - apply TryStartProcessing_spec in Hstart; [|done]. destruct Hstart as [Hst (Hs1 & Hrows & _)].
    apply (once_grows (MkWorld s x) _ (message_id msg) Ho); [by apply startable_not_taken|done|].
    pose proof (counted_handled msg env n1 x) as Hh. unfold handled. simpl in *. rewrite Hh.
    destruct (outcome _) as [[]|e]; [right; split; [done|by left]|left; by rewrite app_nil_r].
  - eapply once_same; eauto.
Qed.

(** A row in flight stays in flight. *)
Lemma delivery_in_flight w w' id :
  delivery w w' → status_of (tables w) (id, group) = Some StatusProcessing →
  status_of (tables w') (id, group) = Some StatusProcessing ∧
  (id ∈ handled w' → id ∈ handled w).
Proof.
  destruct w as [s x]. simpl. intros Hd Hp.
  assert (Hkeep : ∀ w2 msg, only_row (message_id msg, group) s (tables w2) →
    (handled w2 = x.2 ∨ handled w2 = x.2 ++ [message_id msg]) →
    status_of s (message_id msg, group) = None ∨ status_of s (message_id msg, group) = Some StatusFailed →
    status_of (tables w2) (id, group) = Some StatusProcessing ∧ (id ∈ handled w2 → id ∈ x.2)).
  { intros w2 msg Hrows Hh Hst.
    assert (Hne : id ≠ message_id msg) by (intros ->; rewrite Hp in Hst; by destruct Hst).
    unfold status_of. rewrite Hrows by (intros [= ?]; done). split; [done|].
    destruct Hh as [->| ->]; set_solver. }
  destruct Hd as [env n msg ->|env n msg Hread ->|env n msg n1 s1 Hread Hstart ->|Hrows Hh].
  - destruct (ProcessMessage cfg counted msg env n (MkWorld s x)) as [[n' w] r] eqn:Hrun.
    cbn [final fst snd]. destruct (readable msg) eqn:Hread.
    2: { destruct (ProcessMessage_unreadable cfg counted _ _ _ _ _ _ _ _ Hread Hrun) as (H1 & H2 & _).
         unfold status_of, handled. simpl. by rewrite H1, H2. }
    destruct (ProcessMessage_cases cfg counted _ _ _ _ _ _ _ _ Hread Hrun)
      as [[-> _]|(Hst & n1 & s1 & n2 & x2 & h & Hc & (Hs1 & Hrows & _) & Hfin)]; [done|].
    destruct (finish_spec cfg msg h env n2 s1 x2 n' w r Hs1 Hfin) as (H1 & H2 & _).
    pose proof (counted_handled msg env n1 x) as Hh. rewrite Hc in Hh. cbn [final outcome fst snd] in Hh.
    apply (Hkeep w msg); [intros k Hk; rewrite H2 by done; by apply Hrows| |done].
    unfold handled. rewrite H1, Hh. destruct h; [by right|left; by rewrite app_nil_r].
  - unfold on_tables, zoom. simpl.
    destruct (TryStartProcessing _ env n s) as [[n1 s1] r1] eqn:Hstart.
    apply TryStartProcessing_spec in Hstart; [|done]. cbn [final fst snd]. simpl in Hstart.
    destruct r1 as [[|]|e]; [|by destruct Hstart as [-> _]..].
    destruct Hstart as [Hst (_ & Hrows & _)].
    apply (Hkeep (MkWorld s1 x) msg); [done|by left|done].
  - apply TryStartProcessing_spec in Hstart; [|done]. destruct Hstart as [Hst (_ & Hrows & _)].
    apply (Hkeep _ msg); [done| |done]. unfold handled. simpl.
    rewrite counted_handled. destruct (outcome _); [by right|left; by rewrite app_nil_r].
  - simpl in *. unfold handled in *. unfold status_of in *. by rewrite Hrows, Hh.
Qed.

(** C8: idempotent consumption.  However often and in whatever order messages are
    delivered to a group, with crashes of its consumer between any two steps, failures of
    the driver, any answers of the domain handler and any activity of other groups: no
    message is handled successfully twice. *)
Theorem handled_once w w' :
  handled w = [] → rtc delivery w w' → NoDup (handled w').
Proof.
  intros Hw Hrtc. assert (Ho : once w) by (split; rewrite Hw; [constructor|set_solver]).
  clear Hw. induction Hrtc as [w|w1 w2 w3 H12 _ IH]; [by apply Ho|].
  apply IH. by eapply delivery_once.
Qed.

(** A message in flight is lost when its consumer dies.  Its row says PROCESSING, and
    nothing ever changes that: every redelivery is acknowledged as a duplicate, so a
    message not yet handled never is. *)
Theorem inflight_message_lost w w' id :
  rtc delivery w w' → status_of (tables w) (id, group) = Some StatusProcessing → id ∉ handled w →
  status_of (tables w') (id, group) = Some StatusProcessing ∧ id ∉ handled w'.
Proof.
  induction 1 as [w|w1 w2 w3 H12 _ IH]; [done|]. intros Hp Hn.
  destruct (delivery_in_flight _ _ id H12 Hp) as [Hp2 Hn2]. apply IH; [done|]. by auto.
Qed.
End history.

(** A malformed message leaves no trace.  A message with an identifier whose value is
    not JSON is acknowledged; the dead letter that should keep it is refused by its JSONB
    column, and the error dropped. *)
Theorem malformed_not_recorded {X : Type} cfg (handler : @MessageHandler X) msg env n w :
  message_id msg ≠ "" → Value msg ≠ "" → Valid (Value msg) = false → jsonb_in (Value msg) = false →
  let run := ProcessMessage cfg handler msg env n w in
  outcome run = Ok tt ∧ final run = w.
Proof.
  intros Hid Hne Hv Hj. destruct w as [s x]. cbv zeta.
  assert (Hread : readable msg = false).
  { unfold readable. rewrite Hv. destruct (String.eqb_spec (message_id msg) ""); [done|].
    by destruct (Value msg). }
  destruct (ProcessMessage cfg handler msg env n (MkWorld s x)) as [[n' [s' x']] r] eqn:Hrun.
  destruct (ProcessMessage_unreadable cfg handler _ _ _ _ _ _ _ _ Hread Hrun) as (H1 & _ & H2).
  destruct (H2 Hid) as (-> & _ & H3). simpl in *. cbn. by rewrite H1, H3.
Qed.

(** The loop of the consumer goes on after a transient failure: the offset is committed
    and the row waits as FAILED for a redelivery that the group has just declined. *)
Lemma transient_failure_committed {X : Type} cfg (handler : @MessageHandler X) msg env n s (x : X) c e :
  no_faults env → readable msg = true →
  message_ok (inbox_message (Cfg_ConsumerGroup cfg) msg 0) = true →
  status_of s (message_id msg, Cfg_ConsumerGroup cfg) = None →
  (∀ n1, outcome (handler msg env n1 x) = Err e) → ignored e = false →
  let run := consume (ProcessMessage cfg handler) (λ _, false) 0 [msg] env n
               (MkConsumed (MkWorld s x) c) in
  outcome run = Ok tt ∧ committed (final run) = c ++ [position_of msg] ∧
  status_of (tables (world (final run))) (message_id msg, Cfg_ConsumerGroup cfg) = Some StatusFailed.
Proof.
  intros Hf Hread Hok Hst Hh He. cbv zeta.
  pose proof (ProcessMessage_delivers cfg handler msg env n s x Hf Hread Hok) as H.
  cbv zeta in H. rewrite Hst in H. destruct H as (n1 & _ & _ & H & _).
  rewrite Hh in H. unfold status_after in H. rewrite He in H.
  destruct (consume_committed (ProcessMessage cfg handler) (λ _, false) [msg] env n
              (MkConsumed (MkWorld s x) c) Hf (λ _, eq_refl) 0) as [H1 H2].
  cbv zeta in H1, H2. split_and!; [done|done|].
  cbn [consume]. unfold bind, try, zoom, CommitRecords, sql. simpl world.
  destruct (ProcessMessage cfg handler msg env n (MkWorld s x)) as [[n2 w] r].
  rewrite Hf. exact H.
Qed.
End theorems.

(** ** Witnesses *)

Section witnesses.
#[local] Existing Instance ex_uuid_text.
#[local] Instance ex_jsonb : Jsonb := Valid.

Definition ex_cfg : ProcessorConfig := MkProcessorConfig "notification-service" "shopflow.deadletter".
Definition ex_message (id value : string) : Message :=
  MkMessage "shopflow.orders" "k" value {["message_id" := id]} 5 0 41.
(** A handler that counts, and refuses the values that are JSON strings. *)
Definition ex_handler : @MessageHandler Z := λ msg _ n x,
  if String.prefix (String quote "") (Value msg) then (n, x, Err ErrPoisonPill) else (n, x + 1, Ok tt).

Lemma ProcessMessage_spec_witness :
  let run := ProcessMessage ex_cfg ex_handler (ex_message "m1" (quoted "x")) (calm_env 9 70) 0%nat
               (MkWorld empty_state 0) in
  outcome run = Ok tt ∧
  status_of (tables (final run)) ("m1", "notification-service") = Some StatusCompleted ∧
  length (dead_letter_messages (tables (final run))) = 1%nat.
Proof.
  pose proof (ProcessMessage_spec ex_cfg ex_handler (ex_message "m1" (quoted "x")) (calm_env 9 70) 0%nat
    empty_state 0 (calm_env_no_faults 9 70) eq_refl eq_refl) as H. cbv zeta in H.
  change (status_of empty_state _) with (@None InboxStatus) in H.
  destruct H as (n1 & _ & H1 & H2 & _). split_and!; [exact H1|exact H2|vm_compute; reflexivity].
Defined.

Definition ex_delivered (msg : Message) (w : World (Z * list string)) : World (Z * list string) :=
  final (ProcessMessage ex_cfg (counted ex_handler) msg (calm_env 9 70) 0%nat w).

Lemma handled_once_witness :
  let w0 := MkWorld empty_state (0, []) in
  let w := ex_delivered (ex_message "m1" "{}") (ex_delivered (ex_message "m1" "{}") w0) in
  handled w = ["m1"] ∧ NoDup (handled w).
Proof.
  intros w0 w. split; [vm_compute; reflexivity|].
  apply (handled_once ex_cfg ex_handler w0 w eq_refl).
  eapply rtc_l; [by eapply Delivered|]. eapply rtc_l; [by eapply Delivered|]. apply rtc_refl.
Defined.

(** The consumer dies after it has started the message; the message comes back. *)
Definition ex_crashed : World (Z * list string) :=
  final (on_tables (TryStartProcessing (inbox_message "notification-service" (ex_message "m1" "{}") 0))
           (calm_env 9 70) 0%nat (MkWorld empty_state (0, []))).

Lemma inflight_message_lost_witness :
  status_of (tables (ex_delivered (ex_message "m1" "{}") ex_crashed)) ("m1", "notification-service")
    = Some StatusProcessing ∧ "m1" ∉ handled (ex_delivered (ex_message "m1" "{}") ex_crashed).
Proof.
  apply (inflight_message_lost ex_cfg ex_handler ex_crashed).
  - apply rtc_once. by eapply Delivered.
  - vm_compute. reflexivity.
  - vm_compute. apply not_elem_of_nil.
Defined.

Lemma malformed_not_recorded_witness :
  let run := ProcessMessage ex_cfg ex_handler (ex_message "m1" "{oops") (calm_env 9 70) 0%nat
               (MkWorld empty_state 0) in
  outcome run = Ok tt ∧ final run = MkWorld empty_state 0.
Proof. apply malformed_not_recorded; [vm_compute; discriminate|discriminate|reflexivity|reflexivity]. Defined.
End witnesses.
