(* ===== verification/InboxDouble.v ===== *)
(** internal/domain/inbox/mock_repository.go: the inbox kept in memory for the tests, and that
    it stands for the tables of Inbox.v as long as one group of consumers uses it.

    The double finds a message by the text "id::group".  Its mutex makes each call one step. *)

From S2P Require Import Prelude Json Kafka Inbox Simulation.

(** * The double *)

Record Double := MkDouble {
  d_messages : gmap string InboxMessage;
  d_deadLetters : list DeadLetterMessage;
}.

Definition NewMockRepository : Double := MkDouble ∅ [].

Definition dop := M Double error.

Definition makeKey (messageID consumerGroup : string) : string := (messageID ++ "::" ++ consumerGroup)%string.

Definition put_message (key : string) (m : InboxMessage) (d : Double) : Double :=
  MkDouble (<[key := m]> (d_messages d)) (d_deadLetters d).

Section double.
Local Open Scope go_scope.

(** The answer, and the caller's message, which a second attempt changes. *)
Definition mock_TryStartProcessing (msg : InboxMessage) : dop (bool * InboxMessage) :=
  let key := makeKey (MessageID msg) (ConsumerGroup msg) in
  let* now := time_now in
  locked (λ d,
    match d_messages d !! key with
    | Some existing =>
        match Status existing with
        | StatusCompleted => Ok (d, (false, msg))
        | StatusFailed =>
            Ok (put_message key (set_status StatusProcessing now existing) d,
                (true, set_status StatusProcessing now msg))
        | StatusProcessing => Err ErrDuplicateMessage
        end
    | None => Ok (put_message key (set_status (Status msg) now msg) d, (true, msg))
    end).

(** [MarkCompleted] and [MarkFailed] *)
Definition mock_mark (st : InboxStatus) (messageID consumerGroup : string) : dop unit :=
  let key := makeKey messageID consumerGroup in
  let* now := time_now in
  locked (λ d,
    match d_messages d !! key with
    | None => Err ErrMessageNotFound
    | Some msg => Ok (put_message key (set_status st now msg) d, tt)
    end).
Definition mock_MarkCompleted : string → string → dop unit := mock_mark StatusCompleted.
Definition mock_MarkFailed : string → string → dop unit := mock_mark StatusFailed.

Definition mock_SaveDeadLetter (dlq : DeadLetterMessage) : dop unit :=
  let* id := if (DLQ_ID dlq =? uuid_Nil)%N then uuid_New else ret (DLQ_ID dlq) in
  let* at_ := if DLQ_CreatedAt dlq =? time_Zero then time_now else ret (DLQ_CreatedAt dlq) in
  let cp := MkDeadLetterMessage id (DLQ_SourceType dlq) (DLQ_SourceID dlq) (DLQ_Topic dlq) (DLQ_Partition dlq)
              (DLQ_OffsetVal dlq) (DLQ_ErrorReason dlq) (DLQ_Payload dlq) (DLQ_Headers dlq) (DLQ_RetryCount dlq) at_ in
  locked (λ d, Ok (MkDouble (d_messages d) (d_deadLetters d ++ [cp]), tt)).

Definition mock_GetMessage (messageID consumerGroup : string) : dop InboxMessage :=
  locked (λ d, match d_messages d !! makeKey messageID consumerGroup with
               | Some m => Ok (d, m)
               | None => Err ErrMessageNotFound
               end).

(** In the order in which they were stored, whatever their source. *)
Definition mock_GetDeadLetterMessages (limit : Z) : dop (list DeadLetterMessage) :=
  locked (λ d,
    let len := Z.of_nat (length (d_deadLetters d)) in
    let limit := if (limit <=? 0) || (len <? limit) then len else limit in
    Ok (d, take (Z.to_nat limit) (d_deadLetters d))).
End double.

(** * Requests of a group to either *)

Inductive request :=
| ReqStart (msg : InboxMessage)
| ReqCompleted (messageID : string)
| ReqFailed (messageID : string)
| ReqDeadLetter (dlq : DeadLetterMessage)
| ReqGet (messageID : string).

Inductive answer := Done | Started (b : bool) | Found (m : InboxMessage).

Section serving.
Context `{JB : Jsonb} (group : string).
Local Open Scope go_scope.

Definition serve (r : request) : op answer :=
  match r with
  | ReqStart msg => let* b := TryStartProcessing msg in ret (Started b)
  | ReqCompleted id => MarkCompleted id group ;;; ret Done
  | ReqFailed id => MarkFailed id group ;;; ret Done
  | ReqDeadLetter d => SaveDeadLetter d ;;; ret Done
  | ReqGet id => let* m := GetMessage id group in ret (Found m)
  end.

Definition mock_serve (r : request) : dop answer :=
  match r with
  | ReqStart msg => let* b := (let* x := mock_TryStartProcessing msg in ret x.1) in ret (Started b)
  | ReqCompleted id => mock_MarkCompleted id group ;;; ret Done
  | ReqFailed id => mock_MarkFailed id group ;;; ret Done
  | ReqDeadLetter d => mock_SaveDeadLetter d ;;; ret Done
  | ReqGet id => let* m := mock_GetMessage id group in ret (Found m)
  end.

(** * The double stands for the tables *)

Record represents (s : State) (d : Double) : Prop := {
  rep_messages id : d_messages d !! makeKey id group = inbox_messages s !! (id, group);
  rep_dead : d_deadLetters d = dead_letter_messages s;
}.

(** A request of this group that the tables take as it is. *)
Definition fits (s : State) (r : request) : Prop :=
  match r with
  | ReqStart msg => ConsumerGroup msg = group ∧ message_ok msg = true
  | ReqCompleted id | ReqFailed id => is_Some (inbox_messages s !! (id, group))
  | ReqDeadLetter d =>
      DLQ_ID d ≠ uuid_Nil ∧ DLQ_CreatedAt d ≠ time_Zero ∧ dead_letter_ok d = true ∧
      Forall (λ x, DLQ_ID x ≠ DLQ_ID d) (dead_letter_messages s)
  | ReqGet _ => True
  end.

#[export] Instance fits_dec s r : Decision (fits s r).
Proof. destruct r; simpl; apply _. Defined.

Lemma append_suffix a b t : (a ++ t)%string = (b ++ t)%string → a = b.
Proof.
  revert b. induction a as [|x a IH]; intros [|y b] H; [done|..].
  - apply (f_equal String.length) in H. rewrite !length_append in H. cbn in H. lia.
  - apply (f_equal String.length) in H. rewrite !length_append in H. cbn in H. lia.
  - injection H as -> H. f_equal. by apply IH.
Qed.

Lemma makeKey_group a b : makeKey a group = makeKey b group → a = b.
Proof. apply append_suffix. Qed.

Lemma represents_put s d id m :
  represents s d →
  represents (set_inbox s (<[(id, group) := m]> (inbox_messages s))) (put_message (makeKey id group) m d).
Proof.
  intros [Hm Hd]. split; cbn; [|done]. intros id'. destruct (decide (id' = id)) as [->|Hne].
  - by rewrite !lookup_insert_eq.
  - rewrite !lookup_insert_ne; [done|congruence|]. intros ?%makeKey_group. congruence.
Qed.

Context (env : Env) (Hstill : still env).

Notation stands m1 m2 s d := (sim represents env m1 m2 s d).

Lemma start_stands msg s d :
  represents s d → fits s (ReqStart msg) →
  sim represents env (TryStartProcessing msg) (let* x := mock_TryStartProcessing msg in ret x.1) s d.
Proof.
  intros H [Hg Hok] n1 n2. unfold TryStartProcessing, mock_TryStartProcessing, update_status, bind, locked, time_now, fail, ret.
  rewrite still_sql, Hok, Hg, (rep_messages _ _ H), (proj2 Hstill n2) by done. cbn.
  destruct (inbox_messages s !! (MessageID msg, group)) as [m|] eqn:Hm; cbn.
  - rewrite still_sql, Hm by done. destruct (Status m); cbn; [done|done|].
    rewrite still_sql by done. split; [done|]. cbn. rewrite (alter_at _ _ _ m Hm). by apply represents_put.
  - split; [done|]. by apply represents_put.
Qed.

Lemma mark_stands st what id s d :
  represents s d → is_Some (inbox_messages s !! (id, group)) →
  stands (update_status what id group st) (mock_mark st id group) s d.
Proof.
  intros H [m Hm] n1 n2. unfold update_status, mock_mark, bind, locked, time_now.
  rewrite still_sql, (rep_messages _ _ H), (proj2 Hstill n2), Hm by done. cbn. split; [done|].
  rewrite (alter_at _ _ _ m Hm). by apply represents_put.
Qed.

Lemma dead_letter_stands l s d :
  represents s d → fits s (ReqDeadLetter l) → stands (SaveDeadLetter l) (mock_SaveDeadLetter l) s d.
Proof.
  intros H (Hid & Hc & Hok & Hnew) n1 n2. unfold SaveDeadLetter, fill_dead_letter, mock_SaveDeadLetter.
  apply N.eqb_neq in Hid. apply Z.eqb_neq in Hc. rewrite Hid, Hc. unfold bind, ret, locked. rewrite still_sql by done.
  assert (MkDeadLetterMessage (DLQ_ID l) (DLQ_SourceType l) (DLQ_SourceID l) (DLQ_Topic l) (DLQ_Partition l)
         (DLQ_OffsetVal l) (DLQ_ErrorReason l) (DLQ_Payload l) (DLQ_Headers l) (DLQ_RetryCount l) (DLQ_CreatedAt l) = l)
    as -> by by destruct l.
  rewrite Hok. cbn. destruct (existsb _ _) eqn:He.
  { apply existsb_exists in He as (x & Hx & Heq%N.eqb_eq). rewrite Forall_forall in Hnew.
    by destruct (Hnew x); [apply list_elem_of_In|]. }
  split; [done|]. destruct H as [Hm Hd]. split; cbn; [done|]. by rewrite Hd.
Qed.

Lemma get_message_stands id s d : represents s d → stands (GetMessage id group) (mock_GetMessage id group) s d.
Proof.
  intros H n1 n2. unfold GetMessage, mock_GetMessage, locked. rewrite still_sql, (rep_messages _ _ H) by done.
  by destruct (inbox_messages s !! (id, group)).
Qed.

Lemma serve_group_stands r s d : represents s d → fits s r → stands (serve r) (mock_serve r) s d.
Proof.
  intros H Hr. destruct r; cbn [serve mock_serve]; apply sim_then;
    eauto using start_stands, mark_stands, dead_letter_stands, get_message_stands.
Qed.
End serving.

(** While one group of consumers uses it, the double refines the repository: the same requests
    are given the same answers, first deliveries, repetitions, second attempts after a failure
    and deliveries that are still under way included, and what is kept afterwards belongs
    together again. *)
Theorem inbox_double_refines `{JB : Jsonb} group env rs n1 n2 s d :
  still env → represents group s d → all_fit (serve group) env (fits group) rs n1 s →
  (serve_all (serve group) env rs n1 s).2 = (serve_all (mock_serve group) env rs n2 d).2 ∧
  represents group (serve_all (serve group) env rs n1 s).1 (serve_all (mock_serve group) env rs n2 d).1.
Proof.
  intros Hstill H Hfit. apply (sim_all (represents group) env (serve group) (mock_serve group) (fits group)); [|done..].
  intros. by apply serve_group_stands.
Qed.

Lemma represents_nothing group : represents group empty_state NewMockRepository.
Proof. by split. Qed.

#[local] Instance ex_jsonb : Jsonb := λ _, true.
Definition ex_message (id : string) : InboxMessage := MkInboxMessage id "billing" "order.created" "{}" StatusProcessing 0.
Definition ex_requests : list request :=
  [ReqStart (ex_message "m1"); ReqStart (ex_message "m1"); ReqFailed "m1"; ReqStart (ex_message "m1");
   ReqCompleted "m1"; ReqStart (ex_message "m1"); ReqGet "m2"; ReqGet "m1"].

Lemma inbox_double_refines_witness :
  (serve_all (mock_serve "billing") (calm_env 50 1) ex_requests 0 NewMockRepository).2 =
    [Ok (Started true); Err ErrDuplicateMessage; Ok Done; Ok (Started true); Ok Done; Ok (Started false);
     Err ErrMessageNotFound; Ok (Found (set_status StatusCompleted 50 (ex_message "m1")))] ∧
  (serve_all (serve "billing") (calm_env 50 1) ex_requests 0 empty_state).2 =
    (serve_all (mock_serve "billing") (calm_env 50 1) ex_requests 0 NewMockRepository).2.
Proof.
  split; [by vm_compute|].
  refine (proj1 (inbox_double_refines "billing" (calm_env 50 1) ex_requests 0 0 empty_state NewMockRepository _ _ _)).
  - apply calm_env_still.
  - apply represents_nothing.
  - apply (bool_decide_unpack _). vm_compute. exact I.
Defined.

(** ** Where it does not stand for them *)

(** Messages of two groups can have one key: the second is taken for a repetition of the
    first, where the tables keep both. *)
Lemma keys_collide `{JB : Jsonb} a b c m1 m2 env n1 n2 :
  no_faults env → message_ok m1 = true → message_ok m2 = true →
  MessageID m1 = (a ++ "::" ++ b)%string → ConsumerGroup m1 = c →
  MessageID m2 = a → ConsumerGroup m2 = (b ++ "::" ++ c)%string → Status m1 = StatusProcessing →
  (∀ x y, mock_TryStartProcessing m1 env n1 NewMockRepository = (x, y, Ok (true, m1)) →
    outcome (mock_TryStartProcessing m2 env n2 y) = Err ErrDuplicateMessage) ∧
  (∀ x y, TryStartProcessing m1 env n1 empty_state = (x, y, Ok true) →
    outcome (TryStartProcessing m2 env n2 y) = Ok true).
Proof.
  intros Hf Hok1 Hok2 I1 G1 I2 G2 Hst. split; intros x y.
  - unfold mock_TryStartProcessing, bind, time_now, locked. cbn. rewrite lookup_empty. intros [= <- <-]. cbn.
    rewrite I1, G1, I2, G2.
    assert (makeKey a (b ++ "::" ++ c) = makeKey (a ++ "::" ++ b) c) as ->.
    { unfold makeKey. by rewrite !append_assoc. }
    rewrite lookup_insert_eq. cbn. by rewrite Hst.
  - unfold TryStartProcessing, bind, ret. rewrite sql_run, Hok1 by apply Hf. cbn. rewrite lookup_empty.
    intros [= <- <-]. rewrite sql_run, Hok2 by apply Hf. cbn. rewrite lookup_insert_ne, lookup_empty; [done|].
    rewrite I1, G1, I2, G2. intros [= H _]. apply (f_equal String.length) in H. rewrite !length_append in H. cbn in H. lia.
Qed.

(** An outcome for a message that is not there is an answer of the double alone. *)
Lemma mark_unknown_differs id group env n s d :
  no_faults env → inbox_messages s !! (id, group) = None → d_messages d !! makeKey id group = None →
  outcome (MarkCompleted id group env n s) = Ok tt ∧
  outcome (mock_MarkCompleted id group env n d) = Err ErrMessageNotFound.
Proof.
  intros Hf Hs Hd. unfold MarkCompleted, update_status, mock_MarkCompleted, mock_mark, bind, time_now, locked.
  rewrite sql_run, Hd by apply Hf. done.
Qed.
