(* ===== verification/Notification.v ===== *)
(** internal/domain/notification: the e-mails that follow the events of orders.

    The consumer is the processor of Inbox.v around [HandleMessage], with the sender of
    Email.v for its world.  The templates are lists of nodes, executed as text/template and
    html/template do; in the text of a template here a backquote stands for a double
    quote.  How an instant is written in the local zone is the parameter [TimeText]. *)

From S2P Require Import Prelude Money Strconv Json Decode Timestamp Kafka Inbox Email.

(** * Events (events.go) *)

Record LineItemPayload := MkLineItemPayload {
  Line_SKU : string;
  Line_Title : string;
  Line_UnitPriceMinor : Z;
  Line_Quantity : Z;
  Line_SubtotalMinor : Z;
}.

Record OrderConfirmedPayload := MkOrderConfirmedPayload {
  Conf_OrderID : uuid;
  Conf_CustomerID : string;
  Conf_CustomerEmail : string;
  Conf_TotalAmountMinor : Z;
  Conf_Currency : string;
  Conf_LineItems : list LineItemPayload;
  Conf_ConfirmedAt : Z;
}.

Record OrderCancelledPayload := MkOrderCancelledPayload {
  Can_OrderID : uuid;
  Can_CustomerID : string;
  Can_CustomerEmail : string;
  Can_TotalAmountMinor : Z;
  Can_Currency : string;
  Can_Reason : string;
  Can_LineItems : list LineItemPayload;
  Can_CancelledAt : Z;
}.

Definition no_line : LineItemPayload := MkLineItemPayload "" "" 0 0 0.
Definition no_confirmed : OrderConfirmedPayload := MkOrderConfirmedPayload uuid_Nil "" "" 0 "" [] time_Zero.
Definition no_cancelled : OrderCancelledPayload := MkOrderCancelledPayload uuid_Nil "" "" 0 "" "" [] time_Zero.

Section fields.
Context `{UP : UuidParse}.

Definition LineItemPayload_fields : list (string * setter LineItemPayload) :=
  [("sku", into_string (λ x q, MkLineItemPayload x (Line_Title q) (Line_UnitPriceMinor q) (Line_Quantity q) (Line_SubtotalMinor q)));
   ("title", into_string (λ x q, MkLineItemPayload (Line_SKU q) x (Line_UnitPriceMinor q) (Line_Quantity q) (Line_SubtotalMinor q)));
   ("unit_price_minor", into_int (λ z q, MkLineItemPayload (Line_SKU q) (Line_Title q) z (Line_Quantity q) (Line_SubtotalMinor q)));
   ("quantity", into_int (λ z q, MkLineItemPayload (Line_SKU q) (Line_Title q) (Line_UnitPriceMinor q) z (Line_SubtotalMinor q)));
   ("subtotal_minor", into_int (λ z q, MkLineItemPayload (Line_SKU q) (Line_Title q) (Line_UnitPriceMinor q) (Line_Quantity q) z))].

Definition line_items : setter (list LineItemPayload) := slice no_line (object false LineItemPayload_fields).

Definition OrderConfirmedPayload_fields : list (string * setter OrderConfirmedPayload) :=
  [("order_id", into_uuid (λ u q, MkOrderConfirmedPayload u (Conf_CustomerID q) (Conf_CustomerEmail q)
      (Conf_TotalAmountMinor q) (Conf_Currency q) (Conf_LineItems q) (Conf_ConfirmedAt q)));
   ("customer_id", into_string (λ x q, MkOrderConfirmedPayload (Conf_OrderID q) x (Conf_CustomerEmail q)
      (Conf_TotalAmountMinor q) (Conf_Currency q) (Conf_LineItems q) (Conf_ConfirmedAt q)));
   ("customer_email", into_string (λ x q, MkOrderConfirmedPayload (Conf_OrderID q) (Conf_CustomerID q) x
      (Conf_TotalAmountMinor q) (Conf_Currency q) (Conf_LineItems q) (Conf_ConfirmedAt q)));
   ("total_amount_minor", into_int (λ z q, MkOrderConfirmedPayload (Conf_OrderID q) (Conf_CustomerID q)
      (Conf_CustomerEmail q) z (Conf_Currency q) (Conf_LineItems q) (Conf_ConfirmedAt q)));
   ("currency", into_string (λ x q, MkOrderConfirmedPayload (Conf_OrderID q) (Conf_CustomerID q)
      (Conf_CustomerEmail q) (Conf_TotalAmountMinor q) x (Conf_LineItems q) (Conf_ConfirmedAt q)));
   ("line_items", in_field Conf_LineItems (λ l q, MkOrderConfirmedPayload (Conf_OrderID q) (Conf_CustomerID q)
      (Conf_CustomerEmail q) (Conf_TotalAmountMinor q) (Conf_Currency q) l (Conf_ConfirmedAt q)) line_items);
   ("confirmed_at", into_time (λ t q, MkOrderConfirmedPayload (Conf_OrderID q) (Conf_CustomerID q)
      (Conf_CustomerEmail q) (Conf_TotalAmountMinor q) (Conf_Currency q) (Conf_LineItems q) t))].

Definition OrderCancelledPayload_fields : list (string * setter OrderCancelledPayload) :=
  [("order_id", into_uuid (λ u q, MkOrderCancelledPayload u (Can_CustomerID q) (Can_CustomerEmail q)
      (Can_TotalAmountMinor q) (Can_Currency q) (Can_Reason q) (Can_LineItems q) (Can_CancelledAt q)));
   ("customer_id", into_string (λ x q, MkOrderCancelledPayload (Can_OrderID q) x (Can_CustomerEmail q)
      (Can_TotalAmountMinor q) (Can_Currency q) (Can_Reason q) (Can_LineItems q) (Can_CancelledAt q)));
   ("customer_email", into_string (λ x q, MkOrderCancelledPayload (Can_OrderID q) (Can_CustomerID q) x
      (Can_TotalAmountMinor q) (Can_Currency q) (Can_Reason q) (Can_LineItems q) (Can_CancelledAt q)));
   ("total_amount_minor", into_int (λ z q, MkOrderCancelledPayload (Can_OrderID q) (Can_CustomerID q)
      (Can_CustomerEmail q) z (Can_Currency q) (Can_Reason q) (Can_LineItems q) (Can_CancelledAt q)));
   ("currency", into_string (λ x q, MkOrderCancelledPayload (Can_OrderID q) (Can_CustomerID q)
      (Can_CustomerEmail q) (Can_TotalAmountMinor q) x (Can_Reason q) (Can_LineItems q) (Can_CancelledAt q)));
   ("reason", into_string (λ x q, MkOrderCancelledPayload (Can_OrderID q) (Can_CustomerID q)
      (Can_CustomerEmail q) (Can_TotalAmountMinor q) (Can_Currency q) x (Can_LineItems q) (Can_CancelledAt q)));
   ("line_items", in_field Can_LineItems (λ l q, MkOrderCancelledPayload (Can_OrderID q) (Can_CustomerID q)
      (Can_CustomerEmail q) (Can_TotalAmountMinor q) (Can_Currency q) (Can_Reason q) l (Can_CancelledAt q)) line_items);
   ("cancelled_at", into_time (λ t q, MkOrderCancelledPayload (Can_OrderID q) (Can_CustomerID q)
      (Can_CustomerEmail q) (Can_TotalAmountMinor q) (Can_Currency q) (Can_Reason q) (Can_LineItems q) t))].

(** [peek]: event_type and type. *)
Definition peek_fields : list (string * setter (string * string)) :=
  [("event_type", into_string (λ x q, (x, q.2))); ("type", into_string (λ x q, (q.1, x)))].
End fields.

(** * Templates (templates.go) *)

(** [strings.ToUpper], exact for ASCII strings, as the codes of currencies are. *)
Definition upper (a : ascii) : ascii :=
  let n := nat_of_ascii a in
  if ((97 <=? n) && (n <=? 122))%nat then ascii_of_nat (n - 32) else a.
Fixpoint ToUpper (s : string) : string :=
  match s with String a r => String (upper a) (ToUpper r) | EmptyString => EmptyString end.

Definition FormatMinorMoney (amountMinor : Z) (currency : string) : string :=
  let amountMinor := if amountMinor =? MinInt64 then MaxInt64 else amountMinor in
  let sign := if amountMinor <? 0 then "-" else "" in
  let amountMinor := if amountMinor <? 0 then wrap64 (- amountMinor) else amountMinor in
  let units := Z.quot amountMinor 100 in
  let cents := Z.rem amountMinor 100 in
  let curr := TrimSpace (ToUpper currency) in
  if String.eqb curr "USD" || String.eqb curr ""
  then (sign ++ "$" ++ fmt_d units ++ "." ++ fmt_02d cents)%string
  else (sign ++ fmt_d units ++ "." ++ fmt_02d cents ++ " " ++ curr)%string.

(** [t.Format(layout)] with the layout of the templates, zone name included. *)
Class TimeText := time_text : Z → string.

(** Text, an action on the payload, a range over its lines, and a part that is there only
    with lines; the body of a range is made of text and of actions on the line. *)
Inductive cell (P : Type) :=
| Column (s : string)
| Cell (f : P → LineItemPayload → string).
Arguments Column {P} s.
Arguments Cell {P} f.

Inductive node (P : Type) :=
| Text (s : string)
| Action (f : P → string)
| Each (body : list (cell P))
| When (body : list (node P)).
Arguments Text {P} s.
Arguments Action {P} f.
Arguments Each {P} body.
Arguments When {P} body.

Definition concat (l : list string) : string := foldr String.append "" l.

(** [Execute], where the values of the actions go through [esc]. *)
Section execute.
Context {P : Type} (lines : P → list LineItemPayload) (esc : string → string).

Definition execute_cell (p : P) (it : LineItemPayload) (c : cell P) : string :=
  match c with Column s => ticks s | Cell f => esc (f p it) end.

Fixpoint execute_node (p : P) (t : node P) : string :=
  match t with
  | Text s => ticks s
  | Action f => esc (f p)
  | Each body => concat ((λ it, concat (execute_cell p it <$> body)) <$> lines p)
  | When body => match lines p with [] => "" | _ => concat (map (execute_node p) body) end
  end.

Definition Execute (t : list (node P)) (p : P) : string := concat (execute_node p <$> t).
End execute.

(** The escaping of html/template in the text of an element. *)
Fixpoint html_escape (s : string) : string :=
  match s with
  | EmptyString => EmptyString
  | String a r =>
      (if ascii_dec a "000" then String "239" (String "191" (String "189" ""))
       else if ascii_dec a "034" then "&#34;"
       else if ascii_dec a "&" then "&amp;"
       else if ascii_dec a "'" then "&#39;"
       else if ascii_dec a "+" then "&#43;"
       else if ascii_dec a "<" then "&lt;"
       else if ascii_dec a ">" then "&gt;"
       else String a "") ++ html_escape r
  end%string.

Section templates.
Context `{UT : UuidText} `{TT : TimeText}.

Definition OrderConfirmedTextTemplate : list (node OrderConfirmedPayload) := [
Text "Thank you for your order!
Order ID: ";
Action (λ p, uuid_String (Conf_OrderID p));
Text "
Confirmed At: ";
Action (λ p, time_text (Conf_ConfirmedAt p));
Text "

Items Ordered:
";
Each [
Column "- ";
Cell (λ _ it, Line_Title it);
Column " (SKU: ";
Cell (λ _ it, Line_SKU it);
Column ") x";
Cell (λ _ it, fmt_d (Line_Quantity it));
Column " @ ";
Cell (λ p it, FormatMinorMoney (Line_UnitPriceMinor it) (Conf_Currency p));
Column " = ";
Cell (λ p it, FormatMinorMoney (Line_SubtotalMinor it) (Conf_Currency p));
Column "
"];
Text "
Total Amount: ";
Action (λ p, FormatMinorMoney (Conf_TotalAmountMinor p) (Conf_Currency p));
Text "

We are preparing your package for shipment.
"].

Definition OrderConfirmedHTMLTemplate : list (node OrderConfirmedPayload) := [
Text "<!DOCTYPE html>
<html>
<head><meta charset=`UTF-8`><title>Order Confirmed</title></head>
<body style=`font-family: Arial, sans-serif; color: #333; line-height: 1.6;`>
  <h2 style=`color: #2e7d32;`>Order Confirmed!</h2>
  <p>Thank you for shopping with ShopFlow.</p>
  <p><strong>Order ID:</strong> ";
Action (λ p, uuid_String (Conf_OrderID p));
Text "</p>
  <p><strong>Date:</strong> ";
Action (λ p, time_text (Conf_ConfirmedAt p));
Text "</p>
  <table style=`width: 100%; border-collapse: collapse; margin-top: 20px;`>
    <thead>
      <tr style=`background: #f5f5f5; text-align: left;`>
        <th style=`padding: 8px; border: 1px solid #ddd;`>Item</th>
        <th style=`padding: 8px; border: 1px solid #ddd;`>SKU</th>
        <th style=`padding: 8px; border: 1px solid #ddd;`>Qty</th>
        <th style=`padding: 8px; border: 1px solid #ddd;`>Price</th>
        <th style=`padding: 8px; border: 1px solid #ddd;`>Subtotal</th>
      </tr>
    </thead>
    <tbody>
      ";
Each [
Column "
      <tr>
        <td style=`padding: 8px; border: 1px solid #ddd;`>";
Cell (λ _ it, Line_Title it);
Column "</td>
        <td style=`padding: 8px; border: 1px solid #ddd;`>";
Cell (λ _ it, Line_SKU it);
Column "</td>
        <td style=`padding: 8px; border: 1px solid #ddd;`>";
Cell (λ _ it, fmt_d (Line_Quantity it));
Column "</td>
        <td style=`padding: 8px; border: 1px solid #ddd;`>";
Cell (λ p it, FormatMinorMoney (Line_UnitPriceMinor it) (Conf_Currency p));
Column "</td>
        <td style=`padding: 8px; border: 1px solid #ddd;`>";
Cell (λ p it, FormatMinorMoney (Line_SubtotalMinor it) (Conf_Currency p));
Column "</td>
      </tr>
      "];
Text "
    </tbody>
    <tfoot>
      <tr>
        <td colspan=`4` style=`padding: 8px; text-align: right; font-weight: bold; border: 1px solid #ddd;`>Total:</td>
        <td style=`padding: 8px; font-weight: bold; border: 1px solid #ddd;`>";
Action (λ p, FormatMinorMoney (Conf_TotalAmountMinor p) (Conf_Currency p));
Text "</td>
      </tr>
    </tfoot>
  </table>
</body>
</html>"].

Definition OrderCancelledTextTemplate : list (node OrderCancelledPayload) := [
Text "Your order has been cancelled.
Order ID: ";
Action (λ p, uuid_String (Can_OrderID p));
Text "
Reason: ";
Action Can_Reason;
Text "
Total Amount: ";
Action (λ p, FormatMinorMoney (Can_TotalAmountMinor p) (Can_Currency p));
Text "
";
When [
Text "
Cancelled Items:
";
Each [
Column "- ";
Cell (λ _ it, Line_Title it);
Column " (SKU: ";
Cell (λ _ it, Line_SKU it);
Column ") x";
Cell (λ _ it, fmt_d (Line_Quantity it));
Column " @ ";
Cell (λ p it, FormatMinorMoney (Line_UnitPriceMinor it) (Can_Currency p));
Column " = ";
Cell (λ p it, FormatMinorMoney (Line_SubtotalMinor it) (Can_Currency p));
Column "
"]];
Text "
Any authorizations or charges will be released. If you have questions, please contact support.
"].

Definition OrderCancelledHTMLTemplate : list (node OrderCancelledPayload) := [
Text "<!DOCTYPE html>
<html>
<head><meta charset=`UTF-8`><title>Order Cancelled</title></head>
<body style=`font-family: Arial, sans-serif; color: #333; line-height: 1.6;`>
  <h2 style=`color: #c62828;`>Order Cancelled</h2>
  <p>Your order has been cancelled.</p>
  <p><strong>Order ID:</strong> ";
Action (λ p, uuid_String (Can_OrderID p));
Text "</p>
  <p><strong>Reason:</strong> ";
Action Can_Reason;
Text "</p>
  <p><strong>Total:</strong> ";
Action (λ p, FormatMinorMoney (Can_TotalAmountMinor p) (Can_Currency p));
Text "</p>
  ";
When [
Text "
  <table style=`width: 100%; border-collapse: collapse; margin-top: 20px;`>
    <thead>
      <tr style=`background: #f5f5f5; text-align: left;`>
        <th style=`padding: 8px; border: 1px solid #ddd;`>Item</th>
        <th style=`padding: 8px; border: 1px solid #ddd;`>SKU</th>
        <th style=`padding: 8px; border: 1px solid #ddd;`>Qty</th>
        <th style=`padding: 8px; border: 1px solid #ddd;`>Price</th>
        <th style=`padding: 8px; border: 1px solid #ddd;`>Subtotal</th>
      </tr>
    </thead>
    <tbody>
      ";
Each [
Column "
      <tr>
        <td style=`padding: 8px; border: 1px solid #ddd;`>";
Cell (λ _ it, Line_Title it);
Column "</td>
        <td style=`padding: 8px; border: 1px solid #ddd;`>";
Cell (λ _ it, Line_SKU it);
Column "</td>
        <td style=`padding: 8px; border: 1px solid #ddd;`>";
Cell (λ _ it, fmt_d (Line_Quantity it));
Column "</td>
        <td style=`padding: 8px; border: 1px solid #ddd;`>";
Cell (λ p it, FormatMinorMoney (Line_UnitPriceMinor it) (Can_Currency p));
Column "</td>
        <td style=`padding: 8px; border: 1px solid #ddd;`>";
Cell (λ p it, FormatMinorMoney (Line_SubtotalMinor it) (Can_Currency p));
Column "</td>
      </tr>
      "];
Text "
    </tbody>
  </table>
  "];
Text "
  <p>Any pre-authorizations or payments have been released or refunded.</p>
</body>
</html>"].

(** The text body and the HTML body. *)
Definition RenderOrderConfirmed (p : OrderConfirmedPayload) : string * string :=
  (Execute Conf_LineItems id OrderConfirmedTextTemplate p,
   Execute Conf_LineItems html_escape OrderConfirmedHTMLTemplate p).

Definition RenderOrderCancelled (p : OrderCancelledPayload) : string * string :=
  (Execute Can_LineItems id OrderCancelledTextTemplate p,
   Execute Can_LineItems html_escape OrderCancelledHTMLTemplate p).
End templates.

(** * Service (service.go) *)

Section service.
Context {St : Type} `{SD : !Sender St} `{UT : UuidText} `{UP : UuidParse} `{TT : TimeText}.
Local Open Scope go_scope.

Definition on_sender {A} (m : M St Email.error A) : M St Inbox.error A :=
  map_err (λ e, ErrOther (Email.Error e)) m.

(** The address of a payload that names none. *)
Definition recipient (customerEmail customerID : string) (orderID : uuid) : string :=
  if negb (String.eqb customerEmail "") then customerEmail
  else if negb (String.eqb customerID "") then ("user-" ++ customerID ++ "@shopflow.io")%string
  else ("customer-" ++ substring 0 8 (uuid_String orderID) ++ "@shopflow.io")%string.

Definition handleOrderConfirmed (data : string) : M St Inbox.error unit :=
  let d := Unmarshal (object false OrderConfirmedPayload_fields) data no_confirmed in
  match saved d with
  | Some _ => fail ErrPoisonPill
  | None =>
      let q := target d in
      let to := recipient (Conf_CustomerEmail q) (Conf_CustomerID q) (Conf_OrderID q) in
      let payload := MkOrderConfirmedPayload (Conf_OrderID q) (Conf_CustomerID q) to
                       (Conf_TotalAmountMinor q) (Conf_Currency q) (Conf_LineItems q) (Conf_ConfirmedAt q) in
      let '(textBody, htmlBody) := RenderOrderConfirmed payload in
      on_sender (Send (MkEmailMessage "" [to] ("Order Confirmed: " ++ uuid_String (Conf_OrderID q))%string
                         textBody htmlBody))
  end.

Definition handleOrderCancelled (data : string) : M St Inbox.error unit :=
  let d := Unmarshal (object false OrderCancelledPayload_fields) data no_cancelled in
  match saved d with
  | Some _ => fail ErrPoisonPill
  | None =>
      let q := target d in
      let to := recipient (Can_CustomerEmail q) (Can_CustomerID q) (Can_OrderID q) in
      let payload := MkOrderCancelledPayload (Can_OrderID q) (Can_CustomerID q) to
                       (Can_TotalAmountMinor q) (Can_Currency q) (Can_Reason q) (Can_LineItems q) (Can_CancelledAt q) in
      let '(textBody, htmlBody) := RenderOrderCancelled payload in
      on_sender (Send (MkEmailMessage "" [to] ("Order Cancelled: " ++ uuid_String (Can_OrderID q))%string
                         textBody htmlBody))
  end.

(** The event of a message: its header, or else a member of its value. *)
Definition event_of (msg : Message) : string :=
  let h := TrimSpace (default "" (Headers msg !! "event_type")) in
  if negb (String.eqb h "") then h else
  let d := Unmarshal (object false peek_fields) (Value msg) ("", "") in
  match saved d with
  | Some _ => ""
  | None => if negb (String.eqb (target d).1 "") then (target d).1 else (target d).2
  end.

Definition HandleMessage : @MessageHandler St := λ msg,
  let eventType := event_of msg in
  if String.eqb eventType "OrderConfirmed" then handleOrderConfirmed (Value msg)
  else if String.eqb eventType "OrderCancelled" then handleOrderCancelled (Value msg)
  else ret tt.
End service.

(** * Consumer (consumer.go) *)

Definition consumer_cfg : ProcessorConfig := MkProcessorConfig "notification-service" "shopflow.deadletter".

Section consumer.
Context {St : Type} `{SD : !Sender St} `{UT : UuidText} `{UP : UuidParse} `{TT : TimeText} `{JB : Jsonb}.

Definition consume_message (msg : Message) : M (World St) Inbox.error unit :=
  ProcessMessage (NewProcessor_cfg consumer_cfg) HandleMessage msg.
End consumer.

(** * Properties *)

Fixpoint occurrences (c : ascii) (s : string) : nat :=
  match s with
  | String a r => (if ascii_dec a c then 1 else 0) + occurrences c r
  | EmptyString => 0
  end%nat.

Lemma occurrences_append c s t : occurrences c (s ++ t)%string = (occurrences c s + occurrences c t)%nat.
Proof.
  induction s as [|a s IH]; [done|].
  change (String a s ++ t)%string with (String a (s ++ t)). cbn [occurrences]. rewrite IH. lia.
Qed.

(** The characters that mark up HTML, but the ampersand of the escapes. *)
Definition markup : list ascii := ["<"; ">"; "034"; "'"]%char.

Lemma html_escape_plain c s : c ∈ markup → occurrences c (html_escape s) = 0%nat.
Proof.
  intros Hc. induction s as [|a s IH]; [done|]. cbn [html_escape]. rewrite occurrences_append, IH, Nat.add_0_r.
  unfold markup in Hc. set_unfold in Hc.
  repeat match goal with |- context [if ascii_dec a ?x then _ else _] => destruct (ascii_dec a x) end;
    try by destruct Hc as [->|[->|[->|[->|[]]]]].
  cbn [occurrences]. destruct (ascii_dec a c) as [->|]; [|done]. by destruct Hc as [?|[?|[?|[?|[]]]]].
Qed.

Section injection.
Context {P : Type} (lines : P → list LineItemPayload) (c : ascii).
Context (esc : string → string) (Hesc : ∀ s, occurrences c (esc s) = 0%nat).

Lemma occurrences_concat (l : list string) : occurrences c (concat l) = sum_list (occurrences c <$> l).
Proof. induction l as [|s l IH]; [done|]. cbn [concat foldr]. rewrite occurrences_append. csimpl. by rewrite <- IH. Qed.

Lemma occurrences_concat_map {X} (f g : X → string) (l : list X) :
  (∀ x, occurrences c (f x) = occurrences c (g x)) →
  occurrences c (concat (f <$> l)) = occurrences c (concat (g <$> l)).
Proof.
  intros H. induction l as [|x l IH]; [done|]. csimpl. unfold concat in *. cbn [foldr].
  by rewrite !occurrences_append, H, IH.
Qed.

Lemma execute_node_markup p t :
  occurrences c (execute_node lines esc p t) = occurrences c (execute_node lines (λ _, "") p t).
Proof.
  revert t. fix IH 1. intros [s|f|body|body]; cbn [execute_node]; [done|by rewrite Hesc| |].
  - apply occurrences_concat_map. intros it. apply occurrences_concat_map.
    intros [s|f]; [done|]. cbn. by rewrite Hesc.
  - destruct (lines p); [done|]. induction body as [|t body IHb]; [done|]. cbn [map]. unfold concat in *. cbn [foldr].
    by rewrite !occurrences_append, IH, IHb.
Qed.

Lemma Execute_markup t p :
  occurrences c (Execute lines esc t p) = occurrences c (Execute lines (λ _, "") t p).
Proof. apply occurrences_concat_map. intros x. apply execute_node_markup. Qed.
End injection.

Section safety.
Context `{UT : UuidText} `{TT : TimeText}.

(** C37: no markup in the mails comes from data.  Whatever the titles, SKUs, reasons and
    currencies of an event are, the HTML of its mail has exactly the angle brackets and
    the quotes of the template: as many as when every value is empty. *)
Theorem html_markup_fixed c p q :
  c ∈ markup →
  occurrences c (RenderOrderConfirmed p).2
    = occurrences c (Execute Conf_LineItems (λ _, "") OrderConfirmedHTMLTemplate p) ∧
  occurrences c (RenderOrderCancelled q).2
    = occurrences c (Execute Can_LineItems (λ _, "") OrderCancelledHTMLTemplate q).
Proof.
  intros Hc. split; apply Execute_markup; intros s; by apply html_escape_plain.
Qed.
End safety.

(** ** Amounts *)

Lemma append_cancel_r (a b c : string) : (a ++ c = b ++ c)%string → a = b.
Proof.
  intros H. assert (String.length a = String.length b) as Hl.
  { apply (f_equal String.length) in H. rewrite !length_append in H. lia. }
  revert b H Hl. induction a as [|d a IH]; intros [|e b] H Hl; try done.
  change (String d (a ++ c) = String e (b ++ c)) in H. injection H as -> H. f_equal. apply IH; [done|].
  cbn in Hl. lia.
Qed.

(** The digits of an amount, before a suffix. *)
Definition digits_of (n : Z) (tail : string) : string :=
  (fmt_d (n / 100) ++ "." ++ fmt_02d (n mod 100) ++ tail)%string.

Lemma digits_of_inj m n tail : 0 <= m → 0 <= n → digits_of m tail = digits_of n tail → m = n.
Proof.
  intros Hm Hn H. assert (0 <= m / 100 ∧ 0 <= n / 100) as [? ?] by (split; apply Z.div_pos; lia).
  apply Money.split_at_dot in H as [Hq Hr]; [|by apply Money.fmt_d_digits..].
  unfold fmt_d in Hq. apply (inj pretty) in Hq. apply append_cancel_r in Hr.
  apply Money.fmt_02d_inj in Hr; [|apply Z.mod_pos_bound; lia..].
  rewrite (Z.div_mod m 100), (Z.div_mod n 100) by lia. lia.
Qed.

Lemma digits_of_no_minus n tail r : 0 <= n → digits_of n tail ≠ String "-" r.
Proof.
  intros Hn. assert (0 <= n / 100) as Hq by (apply Z.div_pos; lia). apply Money.fmt_d_digits in Hq.
  unfold digits_of. destruct (fmt_d (n / 100)) as [|a s]; [done|].
  cbn [Money.all_digits] in Hq. apply andb_true_iff in Hq as [Ha _].
  intros H. change (String a (s ++ "." ++ fmt_02d (n mod 100) ++ tail)%string = String "-" r) in H.
  injection H as -> _. done.
Qed.

(** What stands before and after the digits. *)
Definition affixes (currency : string) : string * string :=
  let curr := TrimSpace (ToUpper currency) in
  if String.eqb curr "USD" || String.eqb curr "" then ("$", "")%string else ("", " " ++ curr)%string.

Lemma FormatMinorMoney_shape z currency :
  in64 z → z ≠ MinInt64 →
  FormatMinorMoney z currency =
    ((if (z <? 0)%Z then "-" else "") ++ (affixes currency).1 ++ digits_of (Z.abs z) (affixes currency).2)%string.
Proof.
  intros Hz Hmin. unfold FormatMinorMoney, affixes, digits_of.
  rewrite (proj2 (Z.eqb_neq _ _) Hmin). cbv zeta.
  assert ((if z <? 0 then wrap64 (- z) else z) = Z.abs z) as ->.
  { destruct (Z.ltb_spec z 0); [rewrite wrap64_id; unfold in64, MinInt64, MaxInt64 in *; lia|lia]. }
  rewrite Z.quot_div_nonneg, Z.rem_mod_nonneg by lia.
  destruct (_ || _); cbn [fst snd]; [by rewrite append_nil_r|done].
Qed.

(** Amounts are shown exactly.  Of one currency, two amounts of int64 that are shown
    alike are the same amount, the least value of the type excepted, which is shown as the
    greatest. *)
Theorem FormatMinorMoney_exact a b currency :
  in64 a → in64 b → FormatMinorMoney a currency = FormatMinorMoney b currency →
  a = b ∨ (a = MinInt64 ∧ b = MaxInt64) ∨ (a = MaxInt64 ∧ b = MinInt64).
Proof.
  assert (∀ x y, in64 x → in64 y → x ≠ MinInt64 → y ≠ MinInt64 →
    FormatMinorMoney x currency = FormatMinorMoney y currency → x = y) as Hgen.
  { intros x y Hx Hy Hx' Hy'. rewrite !FormatMinorMoney_shape by done.
    destruct (affixes currency) as [pre tail] eqn:Haff. cbn [fst snd].
    assert (pre = "$" ∨ pre = "")%string as Hpre.
    { unfold affixes in Haff. destruct (_ || _); injection Haff as <- _; auto. }
    pose proof (digits_of_no_minus (Z.abs x) tail) as Nx. pose proof (digits_of_no_minus (Z.abs y) tail) as Ny.
    pose proof (digits_of_inj (Z.abs x) (Z.abs y) tail ltac:(lia) ltac:(lia)) as Hinj.
    destruct (Z.ltb_spec x 0), (Z.ltb_spec y 0), Hpre as [-> | ->]; intros Heq.
    all: try solve [injection Heq as Heq; apply Hinj in Heq; lia | discriminate Heq].
    - symmetry in Heq. by destruct (Ny (digits_of (Z.abs x) tail) ltac:(lia)).
    - by destruct (Nx (digits_of (Z.abs y) tail) ltac:(lia)).
    - apply Hinj in Heq. lia. }
  intros Ha Hb H. destruct (decide (a = MinInt64)) as [->|Ha'], (decide (b = MinInt64)) as [->|Hb']; [by left|..].
  - right. left. split; [done|]. symmetry. by apply (Hgen MaxInt64 b).
  - right. right. split; [|done]. by apply (Hgen a MaxInt64).
  - left. by apply Hgen.
Qed.

Lemma FormatMinorMoney_exact_witness :
  FormatMinorMoney (-150) " usd " = "-$1.50" ∧ FormatMinorMoney MinInt64 "EUR" = "92233720368547758.07 EUR" ∧
  (MinInt64 = MaxInt64 ∨ (MinInt64 = MinInt64 ∧ MaxInt64 = MaxInt64) ∨ (MinInt64 = MaxInt64 ∧ MaxInt64 = MinInt64)).
Proof.
  split; [vm_compute; reflexivity|]. split; [vm_compute; reflexivity|].
  apply (FormatMinorMoney_exact MinInt64 MaxInt64 "EUR"); [split; discriminate..|]. vm_compute. reflexivity.
Defined.

(** A title that is markup is shown as text. *)
Lemma html_markup_fixed_witness :
  occurrences "<" (@RenderOrderConfirmed ex_uuid_text (λ _, "now")
    (MkOrderConfirmedPayload 1 "" "" 100 "USD" [MkLineItemPayload "S" "<b>x</b>" 100 1 100] 0)).2 = 60%nat.
Proof.
  rewrite (proj1 (@html_markup_fixed ex_uuid_text (λ _, "now") "<"%char _ no_cancelled ltac:(left))).
  vm_compute. reflexivity.
Defined.
