(* ===== verification/Redis.v ===== *)
(** The key-value store the rate limiter and the catalogue cache talk to: the
    commands the code issues (GET, SET with a time to live, DEL, and the atomic
    HMGET, HMSET and EXPIRE of a script), as Redis documents them.

    A store maps a key to a value and the instant at which it expires; a key whose
    instant has passed is as good as absent.  Every command reads the server's clock
    and may fail ([Env]); a command that fails has done nothing. *)

From S2P Require Import Prelude.

(** What the client returns when a command fails; [redis.Nil] is an answer, not an
    error of this type. *)
Inductive error : Type := ErrRedis (msg : string).

#[export] Instance error_GoError : GoError error :=
  {| error_text := λ '(ErrRedis m), m; driver_error := ErrRedis; driver_error_text := λ _, eq_refl |}.

#[export] Instance error_eq_dec : EqDecision error.
Proof. solve_decision. Defined.

Record entry (V : Type) := MkEntry { value : V; expires_at : Z }.
Arguments MkEntry {V} value expires_at.
Arguments value {V} e : rename.
Arguments expires_at {V} e : rename.

Notation Store V := (gmap string (entry V)).

Section store.
Context {V : Type}.

(** A key is expired once the clock is past its instant. *)
Definition live (now : Z) (e : entry V) : bool := now <=? expires_at e.

Definition read (now : Z) (s : Store V) (key : string) : option V :=
  match s !! key with
  | Some e => if live now e then Some (value e) else None
  | None => None
  end.

Definition write (now ttl : Z) (key : string) (v : V) (s : Store V) : Store V :=
  <[key := MkEntry v (now + ttl)]> s.

Definition GET (key : string) : M (Store V) error (option V) :=
  sql "" (λ now s, Ok (s, read now s key)).

(** SET with an expiry, in nanoseconds. *)
Definition SET (key : string) (v : V) (ttl : Z) : M (Store V) error unit :=
  sql "" (λ now s, Ok (write now ttl key v s, tt)).

Definition DEL (keys : list string) : M (Store V) error unit :=
  sql "" (λ _ s, Ok (foldr delete s keys, tt)).

(** A script run atomically on one key: it reads the key's value and writes it back
    with a time to live. *)
Definition EVAL {A} (key : string) (ttl : Z) (f : option V → V * A) : M (Store V) error A :=
  sql "" (λ now s, let '(v, a) := f (read now s key) in Ok (write now ttl key v s, a)).

Lemma read_write_eq t ttl now s key v :
  read now (write t ttl key v s) key = if now <=? t + ttl then Some v else None.
Proof. unfold read, write, live. by rewrite lookup_insert_eq. Qed.

Lemma read_write_ne t ttl now s key key' v :
  key ≠ key' → read now (write t ttl key v s) key' = read now s key'.
Proof. intros H. unfold read, write. by rewrite lookup_insert_ne. Qed.

Lemma lookup_foldr_delete (s : Store V) keys key :
  foldr delete s keys !! key = if decide (key ∈ keys) then None else s !! key.
Proof.
  induction keys as [|k keys IH]; simpl; [done|].
  destruct (decide (k = key)) as [->|Hk].
  - rewrite lookup_delete_eq, decide_True by set_solver. done.
  - rewrite lookup_delete_ne by done. rewrite IH. apply decide_ext. set_solver.
Qed.
End store.
