(* ===== verification/RateLimit.v ===== *)
(** internal/platform/ratelimit: the token bucket of the Redis script and the HTTP
    middleware around it.

    A Lua number is a double; the model computes on integers, which is the same while
    elapsed * capacity stays below 2^53, and divides by the window, which is positive
    (the program's windows are one minute, its capacities 100 and 10).  How a request
    is turned into a key ([KeyFunc]) is a field of the configuration, as in the code. *)

From S2P Require Import Prelude Redis Json.

(** * The script *)

(** The hash kept under a key: its fields [tokens] and [last_refill]. *)
Record bucket := MkBucket { tokens : Z; last_refill : Z }.

(** What the script returns: {allowed, remaining, reset_after_seconds}. *)
Record reply := MkReply { allowed : Z; remaining : Z; reset_after : Z }.

(** [tokenBucketScript], from the values of HMGET to those of HMSET. *)
Definition tokenBucketScript (capacity window now : Z) (data : option bucket) : bucket * reply :=
  let tokens0 := match data with Some b => tokens b | None => capacity end in
  let last := match data with Some b => last_refill b | None => now end in
  let elapsed := Z.max 0 (now - last) in
  let refill := elapsed * capacity / window in
  let tokens1 := Z.min capacity (tokens0 + refill) in
  if 0 <? tokens1
  then (MkBucket (tokens1 - 1) now, MkReply 1 (tokens1 - 1) 0)
  else (MkBucket tokens1 now, MkReply 0 0 (window - elapsed)).

(** * The middleware *)

Inductive FailurePolicy := FailOpen | FailClosed.

Record Config (request : Type) := MkConfig {
  Requests : Z;
  Window : Z;
  Policy : FailurePolicy;
  KeyFunc : request → string;
}.
Arguments MkConfig {request}.
Arguments Requests {request} c : rename.
Arguments Window {request} c : rename.
Arguments Policy {request} c : rename.
Arguments KeyFunc {request} c r : rename.

(** What the middleware does with a request: hand it to the next handler, or answer;
    and the headers it has set. *)
Inductive verdict :=
| Next (headers : list (string * string))
| Refuse (status : Z) (headers : list (string * string)) (body : string).

Definition StatusTooManyRequests : Z := 429.

Definition op := M (Store bucket) Redis.error.

Section middleware.
Context {request : Type}.
Local Open Scope go_scope.

(** [fmt.Sprintf("ratelimit:%s:%s", prefix, cfg.KeyFunc(r))] *)
Definition bucket_key (prefix k : string) : string := ("ratelimit:" ++ prefix ++ ":" ++ k)%string.
Definition key_of (prefix : string) (cfg : Config request) (r : request) : string :=
  bucket_key prefix (KeyFunc cfg r).

(** [int64(cfg.Window.Seconds())] and [time.Now().Unix()] *)
Definition window_sec (cfg : Config request) : Z := Z.quot (Window cfg) Second.
Definition unix (t : Z) : Z := t / Second.

(** The script under its key; EXPIRE key window * 2. *)
Definition run_script (cfg : Config request) (key : string) (now : Z) : op reply :=
  EVAL key (window_sec cfg * 2 * Second)
    (tokenBucketScript (Requests cfg) (window_sec cfg) now).

Definition Middleware (prefix : string) (cfg : Config request) (r : request) : op verdict :=
  let key := key_of prefix cfg r in
  let* now := time_now in
  let now := unix now in
  let* result := try (run_script cfg key now) in
  ret match result with
  | Err _ =>
      match Policy cfg with
      | FailClosed =>
          Refuse StatusTooManyRequests []
            ("{" ++ quoted "error" ++ ":" ++ quoted "rate limit service unavailable" ++ "}")%string
      | FailOpen => Next []
      end
  | Ok rep =>
      let headers :=
        [("X-RateLimit-Limit", fmt_d (Requests cfg));
         ("X-RateLimit-Remaining", fmt_d (remaining rep));
         ("X-RateLimit-Reset", fmt_d (now + reset_after rep))] in
      if allowed rep =? 1 then Next headers
      else Refuse StatusTooManyRequests (headers ++ [("Retry-After", fmt_d (reset_after rep))])
             ("{" ++ quoted "error" ++ ":" ++ quoted "rate limit exceeded" ++ ","
              ++ quoted "retry_after" ++ ":" ++ fmt_d (reset_after rep) ++ "}")%string
  end.

(** Requests that reach the middleware one after the other. *)
Fixpoint serve_all (prefix : string) (cfg : Config request) (rs : list request) :
    op (list verdict) :=
  match rs with
  | [] => ret []
  | r :: rest =>
      let* v := Middleware prefix cfg r in
      let* vs := serve_all prefix cfg rest in
      ret (v :: vs)
  end.
End middleware.

Definition passed (v : verdict) : bool := match v with Next _ => true | Refuse _ _ _ => false end.

(** How many of the requests with this key were let through. *)
Fixpoint admitted {request} (cfg : Config request) (k : string) (rs : list request)
    (vs : list verdict) : Z :=
  match rs, vs with
  | r :: rs, v :: vs =>
      (if String.eqb (KeyFunc cfg r) k && passed v then 1 else 0) + admitted cfg k rs vs
  | _, _ => 0
  end.

(** * The bucket *)

Section bucket.
Variables (capacity window : Z).
Hypothesis Hcap : 0 <= capacity.
Hypothesis Hwin : 0 < window.

(** The tokens there are once the refill is credited. *)
Definition credited (now : Z) (data : option bucket) : Z :=
  match data with
  | Some b => Z.min capacity (tokens b + Z.max 0 (now - last_refill b) * capacity / window)
  | None => capacity
  end.

Definition spends (now : Z) (data : option bucket) : Z := if 0 <? credited now data then 1 else 0.

Lemma script_spec now data :
  tokenBucketScript capacity window now data =
    (MkBucket (credited now data - spends now data) now,
     if 0 <? credited now data then MkReply 1 (credited now data - 1) 0
     else MkReply 0 0 (match data with
                       | Some b => window - Z.max 0 (now - last_refill b)
                       | None => window
                       end)).
Proof.
  unfold tokenBucketScript, spends, credited. destruct data as [b|].
  - destruct (0 <? _); [done|]. by rewrite Z.sub_0_r.
  - rewrite Z.sub_diag. change (Z.max 0 0) with 0.
    rewrite Z.mul_0_l, Z.div_0_l, Z.add_0_r, Z.min_id by lia.
    destruct (0 <? capacity); [done|]. by rewrite !Z.sub_0_r.
Qed.

Lemma refill_nonneg now last : 0 <= Z.max 0 (now - last) * capacity / window.
Proof. apply Z.div_pos; nia. Qed.

Lemma credited_nonneg now data :
  (∀ b, data = Some b → 0 <= tokens b) → 0 <= credited now data.
Proof.
  intros H. unfold credited. destruct data as [b|]; [|done].
  pose proof (refill_nonneg now (last_refill b)). specialize (H b eq_refl). lia.
Qed.

Lemma credited_capacity now data : credited now data <= capacity.
Proof. unfold credited. destruct data; lia. Qed.

(** A refill gives at most its share of the window. *)
Lemma credited_share now b :
  last_refill b <= now →
  window * credited now (Some b) <= window * tokens b + (now - last_refill b) * capacity.
Proof.
  intros H. unfold credited. rewrite Z.max_r by lia.
  pose proof (Z.mul_div_le ((now - last_refill b) * capacity) window Hwin).
  nia.
Qed.

Lemma spends_range now data : 0 <= spends now data <= 1.
Proof. unfold spends. destruct (0 <? _); lia. Qed.

Lemma spends_credited now data : 0 <= credited now data → spends now data <= credited now data.
Proof. unfold spends. destruct (Z.ltb_spec 0 (credited now data)); lia. Qed.
End bucket.

(** * The middleware, request by request *)

Section limits.
Context {request : Type}.
Variables (prefix : string) (cfg : Config request).
Hypothesis Hcap : 0 <= Requests cfg.
Hypothesis Hwin : 0 < window_sec cfg.

(** The store after the script has run for a request: its bucket is replaced, to
    live for two windows. *)
Definition after_script (env : Env) (n : nat) (key : string) (s : Store bucket) : Store bucket :=
  let now := unix (env_now env n) in
  let data := read (env_now env (S n)) s key in
  write (env_now env (S n)) (window_sec cfg * 2 * Second) key
    (MkBucket (credited (Requests cfg) (window_sec cfg) now data
               - spends (Requests cfg) (window_sec cfg) now data) now) s.

Lemma Middleware_run r env n s :
  ∃ v, Middleware prefix cfg r env n s =
    (S (S n), match env_fault env (S n) with
              | Some _ => s
              | None => after_script env n (key_of prefix cfg r) s
              end, Ok v) ∧
    passed v = match env_fault env (S n) with
               | Some _ => match Policy cfg with FailOpen => true | FailClosed => false end
               | None =>
                   0 <? credited (Requests cfg) (window_sec cfg) (unix (env_now env n))
                          (read (env_now env (S n)) s (key_of prefix cfg r))
               end.
Proof.
  unfold Middleware, bind, time_now, try, run_script, EVAL, sql, ret, after_script.
  destruct (env_fault env (S n)).
  - eexists. split; [reflexivity|]. by destruct (Policy cfg).
  - rewrite script_spec by done. eexists. split; [reflexivity|].
    by destruct (0 <? _).
Qed.

Lemma serve_all_cons r rs env n s :
  ∃ v, passed v = match env_fault env (S n) with
                  | Some _ => match Policy cfg with FailOpen => true | FailClosed => false end
                  | None =>
                      0 <? credited (Requests cfg) (window_sec cfg) (unix (env_now env n))
                             (read (env_now env (S n)) s (key_of prefix cfg r))
                  end ∧
    serve_all prefix cfg (r :: rs) env n s =
    match serve_all prefix cfg rs env (S (S n))
            (match env_fault env (S n) with
             | Some _ => s | None => after_script env n (key_of prefix cfg r) s end) with
    | (n', s', Ok vs) => (n', s', Ok (v :: vs))
    | (n', s', Err e) => (n', s', Err e)
    end.
Proof.
  destruct (Middleware_run r env n s) as (v & Hrun & Hv). exists v. split; [done|].
  simpl. unfold bind at 1. rewrite Hrun. unfold bind.
  by destruct (serve_all prefix cfg rs env (S (S n)) _) as [[n' s'] [vs|e]].
Qed.

(** Serving requests ends with a verdict for each, after two readings each. *)
Lemma serve_all_total rs env n s :
  ∃ s' vs, serve_all prefix cfg rs env n s = ((n + 2 * length rs)%nat, s', Ok vs) ∧
    length vs = length rs.
Proof.
  revert n s. induction rs as [|r rs IH]; intros n s.
  - exists s, []. by rewrite Nat.add_0_r.
  - destruct (serve_all_cons r rs env n s) as (v & _ & ->).
    destruct (IH (S (S n)) (match env_fault env (S n) with
      | Some _ => s | None => after_script env n (key_of prefix cfg r) s end)) as (s' & vs & -> & Hl).
    exists s', (v :: vs). cbn [length]. rewrite Hl. split; [|done].
    by replace (n + 2 * S (length rs))%nat with (S (S n) + 2 * length rs)%nat by lia.
Qed.

(** The limit of a key over a period. *)
Section bound.
Variables (env : Env) (k : string).
Notation key := (bucket_key prefix k).
Notation W := (window_sec cfg).

(** The clock never goes back, and a script that runs does so within a window of
    the reading of the clock it is given. *)
Variable n0 : nat.
Hypothesis Hmono : ∀ i j, (i <= j)%nat → env_now env i <= env_now env j.
Hypothesis Hlag : ∀ j, let i := (n0 + 2 * j)%nat in
  env_fault env (S i) = None → env_now env (S i) <= env_now env i + W * Second.
Hypothesis Hclosed : Policy cfg = FailClosed.
Variable from : Z.
Hypothesis Hfrom : from <= unix (env_now env n0).

(** What [A] admissions since [from] leave in the bucket. *)
Definition paid (A : Z) (n : nat) (s : Store bucket) : Prop :=
  (A = 0 ∧ ∀ e, s !! key = Some e → 0 <= tokens (value e)) ∨
  ∃ e, s !! key = Some e ∧ 0 <= tokens (value e) ∧
    W * (A + tokens (value e)) <= W * Requests cfg + (last_refill (value e) - from) * Requests cfg ∧
    from <= last_refill (value e) <= unix (env_now env n) ∧
    (last_refill (value e) + 2 * W) * Second <= expires_at e.

Lemma unix_mono i j : (i <= j)%nat → unix (env_now env i) <= unix (env_now env j).
Proof. intros H. apply Z.div_le_mono; [done|]. by apply Hmono. Qed.

Lemma unix_le t : unix t * Second <= t.
Proof. unfold unix. pose proof (Z.mul_div_le t Second). unfold Second in *. lia. Qed.

Lemma paid_later A n n' s : (n <= n')%nat → paid A n s → paid A n' s.
Proof.
  intros Hn [H|(e & H1 & H2 & H3 & H4 & H5)]; [by left|]. right. exists e.
  pose proof (unix_mono _ _ Hn). split_and!; try done; lia.
Qed.

(** The bucket the script reads is either still alive or was last used more than a
    window ago, so what it credits is paid for. *)
Lemma paid_credit A j s :
  let n := (n0 + 2 * j)%nat in
  let now := unix (env_now env n) in
  let c := credited (Requests cfg) W now (read (env_now env (S n)) s key) in
  env_fault env (S n) = None → paid A n s →
  0 <= c ∧ W * (A + c) <= W * Requests cfg + (now - from) * Requests cfg.
Proof.
  intros n now c Hf Hp.
  assert (Hnow : from <= now) by (unfold now; pose proof (unix_mono n0 n); lia).
  assert (Hc : c <= Requests cfg) by apply credited_capacity.
  assert (Hc0 : 0 <= c).
  { apply credited_nonneg; [done..|]. intros b. unfold read. destruct (s !! key) as [e|] eqn:He; [|done].
    destruct (live _ e); [|done]. intros [= <-].
    destruct Hp as [[_ H]|(e' & H & H' & _)]; [by apply H|by simplify_eq]. }
  split; [done|].
  destruct Hp as [[-> _]|(e & He & Ht & HA & Hl & Hx)]; [nia|].
  unfold c, read in *. rewrite He in *. unfold live in *.
  destruct (Z.leb_spec (env_now env (S n)) (expires_at e)) as [Hlive|Hdead].
  - pose proof (credited_share (Requests cfg) W Hwin now (value e)) as Hs.
    destruct Hl as [Hl1 Hl2]. specialize (Hs Hl2). cbv iota. subst now. clear -Hs HA. lia.
  - assert (Hgap : last_refill (value e) + W <= now).
    { unfold now, unix. apply Z.div_le_lower_bound; [done|].
      specialize (Hlag j Hf). change (n0 + 2 * j)%nat with n in Hlag. unfold Second in *. lia. }
    cbn in *. nia.
Qed.

Lemma paid_script A j s :
  let n := (n0 + 2 * j)%nat in
  let data := read (env_now env (S n)) s key in
  env_fault env (S n) = None → paid A n s →
  paid (A + spends (Requests cfg) W (unix (env_now env n)) data) (S (S n)) (after_script env n key s).
Proof.
  intros n data Hf Hp. pose proof (paid_credit A j s Hf Hp) as [Hc HA].
  change (n0 + 2 * j)%nat with n in Hc, HA. fold data in Hc, HA.
  pose proof (spends_credited (Requests cfg) W (unix (env_now env n)) data Hc).
  right. unfold after_script, write. fold data.
  eexists. split; [apply lookup_insert_eq|]. simpl. split_and!; [lia|lia| | |].
  - pose proof (unix_mono n0 n). lia.
  - apply unix_mono. lia.
  - pose proof (unix_le (env_now env n)). pose proof (Hmono n (S n)). lia.
Qed.

Lemma key_inj k1 k2 :
  bucket_key prefix k1 = bucket_key prefix k2 → k1 = k2.
Proof. unfold bucket_key. intros H. by do 3 apply (inj (String.app _)) in H. Qed.

Lemma paid_other A n r s :
  KeyFunc cfg r ≠ k → paid A n s → paid A n (after_script env n (key_of prefix cfg r) s).
Proof.
  intros Hne Hp. assert (Hl : after_script env n (key_of prefix cfg r) s !! key = s !! key).
  { unfold after_script, write. apply lookup_insert_ne. intros H. apply Hne. by apply key_inj. }
  unfold paid. by rewrite Hl.
Qed.

Lemma serve_all_paid rs j s A n' s' vs :
  paid A (n0 + 2 * j) s →
  serve_all prefix cfg rs env (n0 + 2 * j)%nat s = (n', s', Ok vs) →
  paid (A + admitted cfg k rs vs) n' s'.
Proof.
  revert j s A n' s' vs. induction rs as [|r rs IH]; intros j s A n' s' vs Hp.
  { simpl. unfold ret. intros [= <- <- <-]. by rewrite Z.add_0_r. }
  destruct (serve_all_cons r rs env (n0 + 2 * j) s) as (v & Hv & ->). rewrite Hclosed in Hv.
  set (s1 := match env_fault env (S (n0 + 2 * j)) with Some _ => s | None => _ end).
  replace (S (S (n0 + 2 * j))) with (n0 + 2 * S j)%nat by lia.
  assert (Hp1 : paid (A + (if String.eqb (KeyFunc cfg r) k && passed v then 1 else 0)) (n0 + 2 * S j) s1).
  { replace (n0 + 2 * S j)%nat with (S (S (n0 + 2 * j))) by lia.
    unfold s1. clear s1. destruct (env_fault env (S (n0 + 2 * j))) eqn:Hf.
    - rewrite Hv, andb_false_r, Z.add_0_r. eapply paid_later; [|exact Hp]. lia.
    - destruct (String.eqb_spec (KeyFunc cfg r) k) as [Hk|Hk]; simpl.
      + rewrite Hv. unfold key_of. rewrite Hk. by apply paid_script.
      + rewrite Z.add_0_r. eapply paid_later; [|by apply paid_other]. lia. }
  destruct (serve_all prefix cfg rs env (n0 + 2 * S j)%nat s1) as [[n2 s2] [vs2|e]] eqn:Hrun; [|done].
  intros [= <- <- <-]. specialize (IH (S j) s1 _ _ _ _ Hp1 Hrun).
  simpl. by rewrite Z.add_assoc.
Qed.
End bound.
End limits.

(** Any requests, a limiter that fails closed, a key: how often it is let through. *)
Lemma admitted_within {request} (prefix : string) (cfg : Config request) env n s rs k till :
  0 <= Requests cfg → 0 < window_sec cfg → Policy cfg = FailClosed →
  (∀ i j, (i <= j)%nat → env_now env i <= env_now env j) →
  (∀ j, let i := (n + 2 * j)%nat in
     env_fault env (S i) = None → env_now env (S i) <= env_now env i + window_sec cfg * Second) →
  (∀ e, s !! bucket_key prefix k = Some e → 0 <= tokens (value e)) →
  env_now env (n + 2 * length rs) <= till →
  ∃ n' s' vs, serve_all prefix cfg rs env n s = (n', s', Ok vs) ∧ length vs = length rs ∧
    window_sec cfg * admitted cfg k rs vs <=
      Requests cfg * (window_sec cfg + (unix till - unix (env_now env n))).
Proof.
  intros Hcap Hwin Hclosed Hmono Hlag Hs Htill.
  destruct (serve_all_total prefix cfg Hwin rs env n s) as (s' & vs & Hrun & Hl).
  exists (n + 2 * length rs)%nat, s', vs. split_and!; [done..|].
  assert (Hp0 : paid prefix cfg env k (unix (env_now env n)) 0 n s) by (left; by split).
  replace n with (n + 2 * 0)%nat in Hrun, Hp0 at 2 by lia.
  pose proof (serve_all_paid prefix cfg Hcap Hwin env k n Hmono Hlag Hclosed _
                (Z.le_refl _) rs 0 s 0 _ _ _ Hp0 Hrun) as Hp.
  assert (Hend : unix (env_now env (n + 2 * length rs)) <= unix till)
    by (apply Z.div_le_mono; [done|lia]).
  replace (n + 2 * 0 + 2 * length rs)%nat with (n + 2 * length rs)%nat in Hp by lia.
  destruct Hp as [[HA _]|(e & _ & Ht & HA & [_ Hlast] & _)]; [|rewrite Z.add_0_l in HA; nia].
  assert (unix (env_now env n) <= unix till).
  { apply Z.div_le_mono; [done|]. pose proof (Hmono n (n + 2 * length rs)%nat). lia. }
  rewrite Z.add_0_l in HA. rewrite HA. nia.
Qed.

(** ** A client that comes back too soon *)

Section starving.
Context {request : Type}.
Variables (prefix : string) (cfg : Config request) (env : Env) (k : string) (n0 : nat).
Notation key := (bucket_key prefix k).
Notation W := (window_sec cfg).
Hypothesis Hcap : 0 < Requests cfg.
Hypothesis Hwin : 0 < W.
Hypothesis Hfault : no_faults env.
Hypothesis Hmono : ∀ i j, (i <= j)%nat → env_now env i <= env_now env j.
Hypothesis Hlag : ∀ j, let i := (n0 + 2 * j)%nat in
  env_now env (S i) <= env_now env i + W * Second.

(** An empty bucket, and less than one token's worth of time since its last use. *)
Definition starving (n : nat) (s : Store bucket) : Prop :=
  ∃ e, s !! key = Some e ∧ tokens (value e) = 0 ∧
    last_refill (value e) <= unix (env_now env n) ∧
    (unix (env_now env n) - last_refill (value e)) * Requests cfg < W ∧
    (last_refill (value e) + 2 * W) * Second <= expires_at e.

Hypothesis Hgap : ∀ j,
  (unix (env_now env (n0 + 2 * S j)) - unix (env_now env (n0 + 2 * j))) * Requests cfg < W.

Lemma starving_credit j s :
  let n := (n0 + 2 * j)%nat in
  starving n s →
  credited (Requests cfg) W (unix (env_now env n)) (read (env_now env (S n)) s key) = 0.
Proof.
  intros n (e & He & Ht & Hl & Hg & Hx). unfold read. rewrite He. unfold live.
  set (now := unix (env_now env n)) in *.
  assert (Hlive : env_now env (S n) <= expires_at e).
  { specialize (Hlag j). change (n0 + 2 * j)%nat with n in Hlag.
    assert (env_now env n < (now + 1) * Second).
    { unfold now, unix. pose proof (Z.mul_succ_div_gt (env_now env n) Second). unfold Second in *. lia. }
    assert (now - last_refill (value e) + 1 <= W) by nia. unfold Second in *. nia. }
  apply Z.leb_le in Hlive. rewrite Hlive. cbn.
  rewrite Ht, Z.max_r, Z.div_small by nia. lia.
Qed.

Lemma starving_next j s :
  starving (n0 + 2 * j) s → starving (n0 + 2 * S j) (after_script cfg env (n0 + 2 * j) key s).
Proof.
  intros Hs. pose proof (starving_credit j s Hs) as Hc.
  unfold after_script, write. eexists. split; [apply lookup_insert_eq|]. unfold spends. rewrite Hc.
  cbn [value tokens last_refill expires_at]. split_and!; [done| |by apply Hgap|].
  - apply Z.div_le_mono; [done|]. apply Hmono. lia.
  - pose proof (unix_le (env_now env (n0 + 2 * j))).
    pose proof (Hmono (n0 + 2 * j) (S (n0 + 2 * j))). lia.
Qed.

Lemma starving_refused rs j s :
  (∀ r, r ∈ rs → KeyFunc cfg r = k) → starving (n0 + 2 * j) s →
  ∃ n' s' vs, serve_all prefix cfg rs env (n0 + 2 * j)%nat s = (n', s', Ok vs) ∧
    length vs = length rs ∧ Forall (λ v, passed v = false) vs.
Proof.
  revert j s. induction rs as [|r rs IH]; intros j s Hk Hs; [by exists (n0 + 2 * j)%nat, s, []|].
  destruct (serve_all_cons prefix cfg Hwin r rs env (n0 + 2 * j) s) as (v & Hv & ->).
  rewrite Hfault in Hv |- *. unfold key_of in *. rewrite (Hk r) in * by set_solver.
  rewrite starving_credit in Hv by done.
  destruct (IH (S j) (after_script cfg env (n0 + 2 * j) key s)) as (n' & s' & vs & Hrun & Hl & Hvs);
    [set_solver|by apply starving_next|].
  replace (S (S (n0 + 2 * j))) with (n0 + 2 * S j)%nat by lia. rewrite Hrun.
  exists n', s', (v :: vs). simpl. rewrite Hl. split_and!; [done..|]. by constructor.
Qed.
End starving.

(** * Properties *)

(** C19: the limit holds.  Whatever requests reach a limiter that fails closed, one after
    the other, with whatever failures of Redis, and whatever its store held before:
    between two instants a key is let through at most once per token of the bucket and
    once per token the elapsed time is worth. *)
Theorem admitted_bounded {request} (prefix : string) (cfg : Config request) env n s rs k till :
  0 <= Requests cfg → 0 < window_sec cfg → Policy cfg = FailClosed →
  (∀ i j, (i <= j)%nat → env_now env i <= env_now env j) →
  (∀ j, let i := (n + 2 * j)%nat in
     env_fault env (S i) = None → env_now env (S i) <= env_now env i + window_sec cfg * Second) →
  (∀ e, s !! bucket_key prefix k = Some e → 0 <= tokens (value e)) →
  env_now env (n + 2 * length rs) <= till →
  ∃ n' s' vs, serve_all prefix cfg rs env n s = (n', s', Ok vs) ∧ length vs = length rs ∧
    window_sec cfg * admitted cfg k rs vs <=
      Requests cfg * (window_sec cfg + (unix till - unix (env_now env n))).
Proof. apply admitted_within. Qed.

(** The witness: ten requests per minute, eleven requests in the same second. *)
Definition ex_cfg : Config string := MkConfig 10 (60 * Second) FailClosed (λ k, k).

Lemma admitted_bounded_witness :
  ∃ n' s' vs, serve_all "order" ex_cfg (repeat "u1" 11) (calm_env 0 0) 0%nat ∅ = (n', s', Ok vs) ∧
    length vs = 11%nat ∧ 60 * admitted ex_cfg "u1" (repeat "u1" 11) vs <= 10 * (60 + (0 - 0)).
Proof.
  apply (admitted_bounded "order" ex_cfg (calm_env 0 0) 0%nat ∅ (repeat "u1" 11) "u1" 0);
    [by vm_compute|done|done|done|done|done|done].
Defined.

Example eleventh_refused :
  let vs := outcome (serve_all "order" ex_cfg (repeat "u1" 11) (calm_env 0 0) 0%nat ∅) in
  match vs with Ok l => passed <$> l | Err _ => [] end = repeat true 10 ++ [false].
Proof. vm_compute. reflexivity. Qed.

(** A bucket that is emptied is not refilled for a client that keeps trying.  The
    script rounds the refill of each call down and moves [last_refill] on, so once a
    client's bucket is empty, a client whose every wait is shorter than one token's worth
    (window / capacity seconds) is refused for ever, although every window that passes is
    worth a full bucket. *)
Theorem poller_starves {request} (prefix : string) (cfg : Config request) env n s rs k :
  0 < Requests cfg → 0 < window_sec cfg → no_faults env →
  (∀ i j, (i <= j)%nat → env_now env i <= env_now env j) →
  (∀ j, let i := (n + 2 * j)%nat in env_now env (S i) <= env_now env i + window_sec cfg * Second) →
  (∀ j, (unix (env_now env (n + 2 * S j)) - unix (env_now env (n + 2 * j))) * Requests cfg
        < window_sec cfg) →
  (∀ r, r ∈ rs → KeyFunc cfg r = k) → starving prefix cfg env k n s →
  ∃ n' s' vs, serve_all prefix cfg rs env n s = (n', s', Ok vs) ∧
    length vs = length rs ∧ Forall (λ v, passed v = false) vs.
Proof.
  intros Hcap Hwin Hf Hmono Hlag Hgap Hk Hs.
  replace n with (n + 2 * 0)%nat in Hs |- * by lia.
  by apply (starving_refused prefix cfg env k n Hcap Hwin Hf Hmono Hlag Hgap rs 0 s).
Qed.

(** The witness: the order limit of the program, ten per minute.  The client has used
    its ten tokens and then tries every five seconds, for ten minutes. *)
Definition ex_every (d : Z) : Env :=
  {| env_now := λ n, Z.of_nat (Nat.div2 n) * d * Second; env_uuid := λ _, 0%N; env_fault := λ _, None |}.

Definition ex_empty : Store bucket :=
  {[bucket_key "order" "u1" := MkEntry (MkBucket 0 0) (120 * Second)]}.

Lemma unix_every d n : unix (env_now (ex_every d) n) = Z.of_nat (Nat.div2 n) * d.
Proof. unfold unix. simpl. by rewrite Z.div_mul by done. Qed.

Lemma poller_starves_witness :
  ∃ n' s' vs, serve_all "order" ex_cfg (repeat "u1" 120) (ex_every 5) 0%nat ex_empty = (n', s', Ok vs) ∧
    length vs = 120%nat ∧ Forall (λ v, passed v = false) vs.
Proof.
  apply (poller_starves "order" ex_cfg (ex_every 5) 0 ex_empty (repeat "u1" 120) "u1").
  - done.
  - by vm_compute.
  - done.
  - intros i j Hij. simpl. assert (Nat.div2 i <= Nat.div2 j)%nat by (rewrite !Nat.div2_div; apply Nat.Div0.div_le_mono; lia).
    unfold Second. lia.
  - intros j. cbv zeta. rewrite Nat.add_0_l. unfold ex_every. cbn [env_now].
    rewrite Nat.div2_succ_double, Nat.div2_double. change (window_sec ex_cfg) with 60. unfold Second. lia.
  - intros j. rewrite !unix_every, !Nat.add_0_l, !Nat.div2_double. change (window_sec ex_cfg) with 60.
    change (Requests ex_cfg) with 10. lia.
  - intros r Hr. apply list_elem_of_In in Hr. by apply (repeat_spec 120 "u1") in Hr.
  - eexists. split; [by vm_compute|]. split_and!; by vm_compute.
Defined.
