(* ===== verification/ClientKey.v ===== *)
(** internal/platform/ratelimit, the keys of the limiter: whose bucket a request is charged
    to.  The functions of package net that it uses, on texts of addresses, are modelled
    here; [RealIP] of chi, which the program puts before the limiter, is a parameter. *)

From S2P Require Import Prelude Strconv Decode Web Redis RateLimit.

(** * Package net *)

(** An IP address: 32 or 128 bits. *)
Inductive IP := V4 (n : N) | V6 (n : N).

(** One decimal number of an IPv4 address. *)
Fixpoint octet_from (val : N) (digLen : nat) (s : string) : option N :=
  match s with
  | EmptyString => match digLen with O => None | _ => Some val end
  | String a r =>
      d ← digit_of a;
      if (digLen =? 1)%nat && (val =? 0)%N then None else
      let val := (val * 10 + Z.to_N d)%N in
      if (255 <? val)%N then None else octet_from val (S digLen) r
  end.

Definition parseIPv4Fields (s : string) : option N :=
  match Split "." s with
  | [a; b; c; d] =>
      a ← octet_from 0 0 a; b ← octet_from 0 0 b; c ← octet_from 0 0 c; d ← octet_from 0 0 d;
      Some (((a * 256 + b) * 256 + c) * 256 + d)%N
  | _ => None
  end.

(** The hexadecimal digits at the head of a text, four at most: their value, how many
    they are, and the rest. *)
Fixpoint hex_run (off : nat) (acc : N) (s : string) : option (N * nat * string) :=
  match s with
  | String a r =>
      match hex_value a with
      | Some d => if (3 <? off)%nat then None else hex_run (S off) (acc * 16 + d)%N r
      | None => Some (acc, off, s)
      end
  | EmptyString => Some (acc, off, "")
  end.

(** The loop of [parseIPv6]: [room] groups of 16 bits are still to be filled after [acc];
    [ellipsis] is where the double colon was. *)
Fixpoint groups (room : nat) (acc : list N) (ellipsis : option nat) (s : string) :
    option (list N * option nat * string) :=
  match room with
  | O => Some (acc, ellipsis, s)
  | S room' =>
      '(g, off, r) ← hex_run 0 0 s;
      if (off =? 0)%nat then None else
      match r with
      | String "." _ =>
          if (match ellipsis with None => negb (room =? 2)%nat | Some _ => false end) || (room <? 2)%nat
          then None else
          n ← parseIPv4Fields s;
          Some (acc ++ [(n / 65536)%N; (n mod 65536)%N], ellipsis, "")
      | EmptyString => Some (acc ++ [g], ellipsis, "")
      | String ":" EmptyString => None
      | String ":" (String ":" r) =>
          match ellipsis with
          | Some _ => None
          | None =>
              let ellipsis := Some (S (length acc)) in
              if String.eqb r "" then Some (acc ++ [g], ellipsis, "")
              else groups room' (acc ++ [g]) ellipsis r
          end
      | String ":" r => groups room' (acc ++ [g]) ellipsis r
      | String _ _ => None
      end
  end.

(** The zeros that the double colon stands for. *)
Definition expand (gs : list N) (ellipsis : option nat) : option (list N) :=
  if (length gs <? 8)%nat
  then e ← ellipsis; Some (take e gs ++ repeat 0%N (8 - length gs) ++ drop e gs)
  else match ellipsis with None => Some gs | Some _ => None end.

Definition bits128 (gs : list N) : N := foldl (λ n g, (n * 65536 + g)%N) 0%N gs.

(** A zone is refused, by [net.ParseIP]. *)
Definition parseIPv6 (s : string) : option IP :=
  let '(ellipsis, s) := match drop_prefix "::" s with Some r => (Some O, r) | None => (None, s) end in
  match ellipsis, s with
  | Some _, EmptyString => Some (V6 0)
  | _, _ =>
      '(gs, ellipsis, rest) ← groups 8 [] ellipsis s;
      if String.eqb rest "" then gs ← expand gs ellipsis; Some (V6 (bits128 gs)) else None
  end.

(** [netip.ParseAddr]: the first mark tells the family. *)
Fixpoint first_mark (s : string) : option ascii :=
  match s with
  | EmptyString => None
  | String a r => if bool_decide (a ∈ ["."; ":"; "%"]%char) then Some a else first_mark r
  end.

Definition ParseIP (s : string) : option IP :=
  match first_mark s with
  | Some "."%char => V4 <$> parseIPv4Fields s
  | Some ":"%char => parseIPv6 s
  | _ => None
  end.

(** [net.ParseCIDR]: an address, and how many of its first bits name the network. *)
Record IPNet := MkIPNet { Net_IP : IP; Net_Ones : N }.

Definition BitLen (ip : IP) : N := match ip with V4 _ => 32 | V6 _ => 128 end.

Definition ParseCIDR (s : string) : option IPNet :=
  match Split "/" s with
  | addr :: mask :: rest =>
      ip ← ParseIP addr;
      n ← unsigned (strings_join (mask :: rest) "/");
      if (Z.of_N (BitLen ip) <? n) then None else Some (MkIPNet ip (Z.to_N n))
  | _ => None
  end.

(** [IP.To4], of an IPv4 address written as IPv6. *)
Definition unmap (ip : IP) : IP :=
  match ip with
  | V6 n => if (n / 2 ^ 32 =? 65535)%N then V4 (n mod 2 ^ 32) else ip
  | V4 _ => ip
  end.

Definition Contains (net : IPNet) (ip : IP) : bool :=
  match Net_IP net, unmap ip with
  | V4 a, V4 b => (N.shiftr a (32 - Net_Ones net) =? N.shiftr b (32 - Net_Ones net))%N
  | V6 a, V6 b => (N.shiftr a (128 - Net_Ones net) =? N.shiftr b (128 - Net_Ones net))%N
  | _, _ => false
  end.

(** The text before the last [c], and after it. *)
Fixpoint cut_last (c : ascii) (s : string) : option (string * string) :=
  match s with
  | EmptyString => None
  | String a r =>
      match cut_last c r with
      | Some (x, y) => Some (String a x, y)
      | None => if ascii_dec a c then Some ("", r) else None
      end
  end.

(** The text up to the first [c], and after it. *)
Fixpoint cut_first (c : ascii) (s : string) : option (string * string) :=
  match s with
  | EmptyString => None
  | String a r =>
      if ascii_dec a c then Some ("", r)
      else '(x, y) ← cut_first c r; Some (String a x, y)
  end.

(** [net.SplitHostPort]; [None] for an error, with which it returns empty texts. *)
Definition SplitHostPort (hostport : string) : option (string * string) :=
  match cut_last ":" hostport with
  | None => None
  | Some (before, port) =>
      match hostport with
      | String "[" r =>
          match cut_first "]" r with
          | None => None
          | Some (host, after) =>
              if negb (String.eqb after (String ":" port)) then None
              else if has "[" r || has "]" after then None
              else Some (host, port)
          end
      | _ => if has ":" before || has "[" hostport || has "]" hostport then None
             else Some (before, port)
      end
  end.

(** * The keys (ratelimit.go) *)

(** A request: what its handler reads of it, its peer, and the value its context has under
    [UserIDContextKey]. *)
Record Incoming := MkIncoming {
  RemoteAddr : string;
  Req : Web.Request;
  UserIDContextKey : option string;
}.

Definition privateRanges : list string :=
  ["10.0.0.0/8"; "172.16.0.0/12"; "192.168.0.0/16"; "127.0.0.0/8"; "::1/128"; "fc00::/7"].

Definition isPrivateIP (ip : string) : bool :=
  match ParseIP ip with
  | None => false
  | Some parsed =>
      existsb (λ cidr, match ParseCIDR cidr with Some network => Contains network parsed | None => false end)
        privateRanges
  end.

Definition IPKeyFunc (r : Incoming) : string :=
  let remoteIP := match SplitHostPort (RemoteAddr r) with Some (h, _) => h | None => "" end in
  let xff := Header_Get (Req r) "X-Forwarded-For" in
  if isPrivateIP remoteIP && negb (String.eqb xff "")
  then TrimSpace (default "" (head (Split "," xff)))
  else remoteIP.

Definition UserIDKeyFunc (r : Incoming) : string :=
  match UserIDContextKey r with
  | Some uid => if String.eqb uid "" then IPKeyFunc r else uid
  | None => IPKeyFunc r
  end.

(** * As the program is wired (main.go)

    chi's [RealIP] stands before the limiter.  As its documentation says it sets the
    remote address of a request to the address that the first of three headers names. *)

Definition named_address (r : Web.Request) : string :=
  let tcip := Header_Get r "True-Client-IP" in
  let xrip := Header_Get r "X-Real-IP" in
  if negb (String.eqb tcip "") then tcip
  else if negb (String.eqb xrip "") then xrip
  else default "" (head (Split "," (Header_Get r "X-Forwarded-For"))).

Class RealIP := real_ip : Incoming → Incoming.

Class RealIPLaws `{RealIP} := {
  real_ip_named r : is_Some (ParseIP (named_address (Req r))) →
    RemoteAddr (real_ip r) = named_address (Req r);
  real_ip_unnamed r : ParseIP (named_address (Req r)) = None → RemoteAddr (real_ip r) = RemoteAddr r;
  real_ip_rest r : Req (real_ip r) = Req r ∧ UserIDContextKey (real_ip r) = UserIDContextKey r;
}.

Definition publicReadLimit : Config Incoming := MkConfig 100 (60 * Second) FailOpen IPKeyFunc.
Definition orderWriteLimit : Config Incoming := MkConfig 10 (60 * Second) FailClosed UserIDKeyFunc.

(** * Texts of addresses *)

(** The first element of a list with separators. *)
Lemma Split_head c s t : has c s = false → head (Split c (s ++ String c t)) = Some s.
Proof. intros Hs. by rewrite Split_first. Qed.

Lemma cut_last_none c s : has c s = false → cut_last c s = None.
Proof.
  induction s as [|a s IH]; [done|]. cbn [has cut_last]. intros [Ha Hs]%orb_false_iff. rewrite IH by done.
  destruct (ascii_dec a c) as [->|]; [by rewrite bool_decide_true in Ha|done].
Qed.

Lemma cut_last_some c s t : has c t = false → cut_last c (s ++ String c t) = Some (s, t).
Proof.
  intros Ht. induction s as [|a s IH].
  - change ("" ++ String c t)%string with (String c t). cbn [cut_last]. rewrite cut_last_none by done.
    by destruct (ascii_dec c c).
  - change (String a s ++ String c t)%string with (String a (s ++ String c t)). cbn [cut_last]. by rewrite IH.
Qed.

(** A host and a port, as net/http gives the address of a peer. *)
Lemma SplitHostPort_plain host port :
  has ":" host = false → has "[" (host ++ port) = false → has "]" (host ++ port) = false →
  has ":" port = false →
  SplitHostPort (host ++ ":" ++ port) = Some (host, port).
Proof.
  intros H1 H2 H3 H4. unfold SplitHostPort. change (":" ++ port)%string with (String ":" port).
  rewrite cut_last_some by done. rewrite has_append in H2, H3.
  apply orb_false_iff in H2 as [H2 H2'], H3 as [H3 H3'].
  assert (has "[" (host ++ String ":" port) = false) as Hl by (rewrite has_append; cbn [has]; by rewrite H2, H2').
  assert (has "]" (host ++ String ":" port) = false) as Hr by (rewrite has_append; cbn [has]; by rewrite H3, H3').
  rewrite H1, Hl, Hr. destruct (host ++ String ":" port)%string as [|a s] eqn:Heq; [done|].
  destruct a as [[] [] [] [] [] [] [] []]; done.
Qed.

Fixpoint count (c : ascii) (s : string) : nat :=
  match s with EmptyString => 0 | String a r => (if ascii_dec a c then 1 else 0) + count c r end.

Lemma has_count c s : has c s = negb (count c s =? 0)%nat.
Proof.
  induction s as [|a s IH]; [done|]. cbn [has count]. rewrite IH.
  destruct (ascii_dec a c) as [->|Hne]; [by rewrite bool_decide_true|]. by rewrite bool_decide_false.
Qed.

Lemma cut_last_count c s b p : cut_last c s = Some (b, p) → count c s = S (count c b).
Proof.
  revert b. induction s as [|a s IH]; intros b; [done|]. cbn [cut_last count].
  destruct (cut_last c s) as [[x y]|] eqn:H; cbn.
  - intros [= <- <-]. cbn [count]. rewrite (IH x eq_refl). by destruct (ascii_dec a c).
  - destruct (ascii_dec a c) as [->|]; [|done]. intros [= <- <-]. cbn.
    enough (count c s = 0%nat) by lia. clear -H. induction s as [|a s IH]; [done|]. cbn [cut_last count] in *.
    destruct (cut_last c s) as [[??]|]; [done|]. destruct (ascii_dec a c); [done|]. by apply IH.
Qed.

Lemma hex_run_count s off acc g n r : hex_run off acc s = Some (g, n, r) → count ":" r = count ":" s.
Proof.
  revert off acc. induction s as [|a s IH]; intros off acc; [by intros [= _ _ <-]|]. cbn [hex_run].
  destruct (hex_value a) as [d|] eqn:Ha; [|by intros [= _ _ <-]].
  destruct (3 <? off)%nat; [done|]. intros H. rewrite (IH _ _ H). cbn [count].
  by destruct (ascii_dec a ":") as [->|].
Qed.

(** A group that is not the last is followed by a colon. *)
Lemma groups_count room acc e s gs e' rest :
  groups room acc e s = Some (gs, e', rest) →
  (length gs <= length acc + count ":" s + 2)%nat ∧ (e' = e ∨ (2 <= count ":" s)%nat).
Proof.
  revert acc e s. induction room as [|room IH]; intros acc e s; [intros [= <- <- <-]; split; [lia|by left]|].
  cbn [groups]. destruct (hex_run 0 0 s) as [[[g off] r]|] eqn:Hr; [|done].
  apply hex_run_count in Hr. cbn [mbind option_bind]. rewrite <- Hr.
  destruct (off =? 0)%nat; [done|].
  assert (∀ n, (length (acc ++ [(n / 65536)%N; (n mod 65536)%N]) = length acc + 2)%nat) as Hv4
    by (intros; by rewrite length_app).
  assert (length (acc ++ [g]) = S (length acc)) as Hg by (rewrite length_app; cbn; lia).
  destruct r as [|a r]; [intros [= <- <- <-]; split; [lia|by left]|].
  destruct (decide (a = ".")%char) as [->|H1].
  { destruct (_ || _); [done|]. destruct (parseIPv4Fields s) as [n|]; [|done].
    intros [= <- <- <-]. split; [rewrite Hv4; lia|by left]. }
  destruct (decide (a = ":")%char) as [->|H2]; [|by destruct a as [[] [] [] [] [] [] [] []]].
  destruct r as [|b r]; [done|].
  destruct (decide (b = ":")%char) as [->|H3].
  - destruct e; [done|]. destruct (String.eqb r "").
    + intros [= <- <- <-]. cbn. split; [lia|right; lia].
    + intros H. apply IH in H as [H1' H2']. cbn. split; [lia|right; lia].
  - assert (groups room (acc ++ [g]) e (String b r) = Some (gs, e', rest) →
      (length gs <= length acc + count ":" (String ":" (String b r)) + 2)%nat ∧
      (e' = e ∨ (2 <= count ":" (String ":" (String b r)))%nat)) as Hgo.
    { intros H. apply IH in H as [H1' H2']. cbn [count] in *. destruct (ascii_dec ":" ":"); [|done].
      split; [lia|]. destruct H2'; [by left|right; lia]. }
    destruct b as [[] [] [] [] [] [] [] []]; done.
Qed.

Lemma octet_from_digits s val n x : octet_from val n s = Some x → has ":" s = false.
Proof.
  revert val n. induction s as [|a s IH]; intros val n; [done|]. cbn [octet_from has].
  destruct (digit_of a) as [d|] eqn:Ha; [|done]. cbn [mbind option_bind].
  destruct (_ && _); [done|]. destruct (_ <? _)%N; [done|]. intros H. rewrite (IH _ _ H), orb_false_r.
  apply bool_decide_eq_false. by intros ->.
Qed.

Lemma Split_nonempty sep s : Split sep s ≠ [].
Proof. induction s as [|a s IH]; [done|]. cbn [Split]. destruct (ascii_dec a sep); [done|]. by destruct (Split sep s). Qed.

Lemma has_Split c sep s : c ≠ sep → has c s = existsb (has c) (Split sep s).
Proof.
  intros Hne. induction s as [|a s IH]; [done|]. cbn [has Split]. rewrite IH. clear IH.
  destruct (ascii_dec a sep) as [->|]; [by rewrite bool_decide_false|].
  destruct (Split sep s) eqn:Hs; cbn [existsb has]; [|rewrite !orb_assoc; reflexivity].
  by destruct (Split_nonempty sep s).
Qed.

Lemma parseIPv4Fields_plain s n : parseIPv4Fields s = Some n → has ":" s = false.
Proof.
  unfold parseIPv4Fields. rewrite (has_Split ":" ".") by done. intros H.
  destruct (Split "." s) as [|a [|b [|c [|d [|]]]]]; try done.
  repeat match type of H with
  | mbind _ (octet_from ?v ?k ?x) = _ =>
      let E := fresh in destruct (octet_from v k x) eqn:E; [cbn [mbind option_bind] in H; apply octet_from_digits in E|done]
  end.
  cbn [existsb]. repeat match goal with E : has ":" ?x = false |- _ => rewrite E; clear E end. done.
Qed.

(** An address without a port is not split: it has no colon, or more than one. *)
Lemma SplitHostPort_address s : is_Some (ParseIP s) → SplitHostPort s = None.
Proof.
  intros [ip H]. unfold SplitHostPort. destruct (cut_last ":" s) as [[b p]|] eqn:Hc; [|done].
  apply cut_last_count in Hc.
  assert (has ":" b = true ∧ ∀ r, s ≠ String "[" r) as [Hb Hs].
  { unfold ParseIP in H. destruct (first_mark s) as [m|] eqn:Hm; [|done].
    destruct (decide (m = ".")%char) as [->|H1].
    { destruct (parseIPv4Fields s) as [n|] eqn:Hn; [|done]. apply parseIPv4Fields_plain in Hn.
      rewrite has_count, Hc in Hn. done. }
    destruct (decide (m = ":")%char) as [->|H2]; [|by destruct m as [[] [] [] [] [] [] [] []]].
    assert ((2 <= count ":" s)%nat ∧ ∀ r, s ≠ String "[" r) as [Hn Hs].
    2:{ split; [|done]. rewrite has_count. destruct (count ":" b); [lia|done]. }
    unfold parseIPv6 in H. destruct (drop_prefix "::" s) as [r|] eqn:Hd.
    - destruct s as [|a [|a' s]]; try done; cbn [drop_prefix] in Hd; [by destruct (ascii_dec _ _)|].
      destruct (ascii_dec ":" a) as [<-|]; [|done]. destruct (ascii_dec ":" a') as [<-|]; [|done].
      cbn. split; [lia|done].
    - split; [|by intros r ->]. destruct (groups 8 [] None s) as [[[gs e] rest]|] eqn:Hg; [|done].
      apply groups_count in Hg as [Hl He]. destruct He as [->|]; [|done].
      cbn [mbind option_bind] in H. destruct (String.eqb rest ""); [|done].
      unfold expand in H. destruct (Nat.ltb_spec (length gs) 8); [done|]. cbn in Hl. lia. }
  destruct s as [|a s]; [by rewrite Hb|].
  destruct a as [[] [] [] [] [] [] [] []]; cbn iota; try (by rewrite Hb). by destruct (Hs s).
Qed.

(** * Properties *)

(** The private addresses, as numbers. *)
Definition private (ip : IP) : Prop :=
  (match unmap ip with
   | V4 n => n / 2 ^ 24 = 10 ∨ n / 2 ^ 20 = 172 * 16 + 1 ∨ n / 2 ^ 16 = 192 * 256 + 168 ∨ n / 2 ^ 24 = 127
   | V6 n => n = 1 ∨ n / 2 ^ 121 = 126
   end)%N.

Lemma isPrivateIP_spec s : isPrivateIP s = true ↔ ∃ ip, ParseIP s = Some ip ∧ private ip.
Proof.
  unfold isPrivateIP. destruct (ParseIP s) as [ip|]; [|split; [done|by intros (? & ? & _)]].
  transitivity (private ip); [|split; [by exists ip|by intros (? & [= ->] & ?)]].
  let l := eval vm_compute in (omap ParseCIDR privateRanges) in
    assert (omap ParseCIDR privateRanges = l) as Hl by (vm_compute; reflexivity).
  assert (∀ f l, existsb (λ c, match ParseCIDR c with Some n => f n | None => false end) l
                 = existsb f (omap ParseCIDR l)) as Hom.
  { intros f l. induction l as [|c l IH]; [done|]. cbn. rewrite IH. by destruct (ParseCIDR c). }
  rewrite (Hom (λ n, Contains n ip)), Hl. unfold private, Contains. cbn [existsb Net_IP Net_Ones].
  destruct (unmap ip) as [n|n]; rewrite ?N.shiftr_div_pow2, ?orb_false_r, ?orb_false_l, ?orb_true_iff, ?N.eqb_eq;
    cbn -[N.div N.pow]; change (128 - 128)%N with 0%N; rewrite ?N.div_1_r;
    repeat match goal with |- context [N.div (Npos ?p) ?q] => let v := eval vm_compute in (N.div (Npos p) q) in change (N.div (Npos p) q) with v end;
    repeat match goal with |- context [(?a - ?b)%N] => let v := eval vm_compute in (a - b)%N in change (a - b)%N with v end;
    [change (172 * 16 + 1)%N with 2753%N; change (192 * 256 + 168)%N with 49320%N|];
    intuition (by auto).
Qed.

(** Whose bucket a request is charged to that comes straight from its peer: its own,
    whatever headers it sends, unless the peer's address is private; then the first
    element of X-Forwarded-For, if there is one. *)
Theorem IPKeyFunc_peer r host port :
  RemoteAddr r = (host ++ ":" ++ port)%string →
  has ":" host = false → has "[" (host ++ port) = false → has "]" (host ++ port) = false → has ":" port = false →
  IPKeyFunc r =
    if isPrivateIP host && negb (String.eqb (Header_Get (Req r) "X-Forwarded-For") "")
    then TrimSpace (default "" (head (Split "," (Header_Get (Req r) "X-Forwarded-For"))))
    else host.
Proof. intros Hr H1 H2 H3 H4. unfold IPKeyFunc. by rewrite Hr, SplitHostPort_plain. Qed.

Section wired.
Context `{RI : RealIP} `{RL : !RealIPLaws}.

(** A request that some proxy, or the client itself, has given an address. *)
Definition proxied (r : Incoming) : Prop := is_Some (ParseIP (named_address (Req r))).

(** Its address has no port any more, so its key is empty. *)
Lemma IPKeyFunc_proxied r : proxied r → IPKeyFunc (real_ip r) = "".
Proof.
  intros H. unfold IPKeyFunc. rewrite (real_ip_named r H), SplitHostPort_address by done. done.
Qed.

Lemma admitted_all {request} (cfg : Config request) k rs vs :
  (∀ r, r ∈ rs → KeyFunc cfg r = k) → length vs = length rs →
  admitted cfg k rs vs = Z.of_nat (length (filter (λ v, passed v = true) vs)).
Proof.
  revert vs. induction rs as [|r rs IH]; intros [|v vs] Hk Hl; try done.
  cbn [admitted]. injection Hl as Hl. rewrite (IH vs (λ r Hr, Hk r ltac:(by right)) Hl).
  rewrite (Hk r) by set_solver. rewrite String.eqb_refl, filter_cons. cbn [andb].
  destruct (passed v); case_decide; try done; cbn [length]; lia.
Qed.

(** C38: all the customers behind a proxy share one limit of orders.  Whatever clients'
    requests reach the order routes with an address in X-Real-IP, True-Client-IP or
    X-Forwarded-For, and no user in their context, of which no middleware puts one there:
    they are charged to one bucket, so that between two instants no more of them are let
    through, all together, than one client is meant to have. *)
Theorem proxied_orders_share_limit env n s rs till :
  (∀ r, r ∈ rs → proxied r ∧ UserIDContextKey r = None) →
  (∀ i j, (i <= j)%nat → env_now env i <= env_now env j) →
  (∀ j, let i := (n + 2 * j)%nat in
     env_fault env (S i) = None → env_now env (S i) <= env_now env i + 60 * Second) →
  (∀ e, s !! bucket_key "order" "" = Some e → 0 <= tokens (value e)) →
  env_now env (n + 2 * length rs) <= till →
  ∃ n' s' vs, serve_all "order" orderWriteLimit (real_ip <$> rs) env n s = (n', s', Ok vs) ∧
    length vs = length rs ∧
    60 * Z.of_nat (length (filter (λ v, passed v = true) vs)) <= 10 * (60 + (unix till - unix (env_now env n))).
Proof.
  intros Hrs Hmono Hlag Hs Htill.
  rewrite <- (length_fmap real_ip rs) in Htill |- *.
  destruct (admitted_within "order" orderWriteLimit env n s (real_ip <$> rs) "" till)
    as (n' & s' & vs & Hrun & Hl & Hb); try done.
  exists n', s', vs. split_and!; [done..|]. rewrite <- (admitted_all orderWriteLimit "" (real_ip <$> rs) vs); [done| |done].
  intros ? (r & -> & Hr)%list_elem_of_fmap. cbn [orderWriteLimit KeyFunc]. destruct (Hrs r Hr) as [Hp Hu].
  unfold UserIDKeyFunc. rewrite (proj2 (real_ip_rest r)), Hu. by apply IPKeyFunc_proxied.
Qed.
End wired.

(** * Examples *)

#[local] Instance ex_real_ip : RealIP := λ r,
  if ParseIP (named_address (Req r))
  then MkIncoming (named_address (Req r)) (Req r) (UserIDContextKey r) else r.

#[local] Instance ex_real_ip_laws : RealIPLaws.
Proof.
  split; intros r; unfold real_ip, ex_real_ip.
  - by intros [? ->].
  - by intros ->.
  - by destruct (ParseIP _).
Qed.

(** An order of the client with the last octet [k], through a proxy on 10.0.0.2. *)
Definition ex_order (k : nat) : Incoming :=
  MkIncoming "10.0.0.2:40001"
    (Web.MkRequest {["X-Real-Ip" := ("203.0.113." ++ fmt_d (Z.of_nat k))%string]} ∅ ∅ "/api/v1/orders" NilBody 0) None.

(** Twelve customers order in one second, one order each: two are refused. *)
Lemma proxied_orders_share_limit_witness :
  ∃ n' s' vs, serve_all "order" orderWriteLimit (real_ip <$> (ex_order <$> seq 1 12)) (calm_env 0 0) 0%nat ∅ = (n', s', Ok vs) ∧
    length vs = 12%nat ∧ 60 * Z.of_nat (length (filter (λ v, passed v = true) vs)) <= 10 * (60 + (0 - 0)).
Proof.
  refine (proxied_orders_share_limit (calm_env 0 0) 0%nat ∅ (ex_order <$> seq 1 12) 0 _ _ _ _ _); [|done..].
  intros r (k & -> & Hk)%list_elem_of_fmap. split; [|done]. apply elem_of_seq in Hk.
  do 13 (destruct k as [|k]; [try lia; vm_compute; by eexists|]). lia.
Defined.

Example own_buckets :
  IPKeyFunc (MkIncoming "203.0.113.7:5000" (Req (ex_order 1)) None) = "203.0.113.7" ∧
  IPKeyFunc (MkIncoming "[2001:db8::1]:5000" (Req (ex_order 1)) None) = "2001:db8::1" ∧
  isPrivateIP "172.31.255.255" = true ∧ isPrivateIP "172.32.0.0" = false ∧
  isPrivateIP "::ffff:10.1.2.3" = true ∧ isPrivateIP "fd00::1" = true ∧ isPrivateIP "::1" = true ∧
  isPrivateIP "01.2.3.4" = false ∧ isPrivateIP "1:2:3:4:5:6:7:8:9" = false.
Proof. vm_compute. done. Qed.
