(* ===== verification/Search.v ===== *)
(** internal/platform/search: the documents, queries and results of the product search,
    and its in-memory client.

    The interface [Client] is a class over the state of a client; [MemoryClient] is its
    instance here, the other client of the package being a remote service.  Scores are
    sums of 3, 2 and 1, exact in the floats of the code, and kept as integers.  A map of
    Go is visited in an order that is not specified: the order is an argument
    ([visit]).  [strings.ToLower] needs the tables of Unicode, so it is a parameter, of
    which nothing is assumed. *)

From S2P Require Import Prelude.

(** * Data (types.go) *)

Record ProductDocument := MkProductDocument {
  Doc_ID : string;
  Doc_SKU : string;
  Doc_Title : string;
  Doc_Description : string;
  Doc_CategoryID : option string;
  Doc_CategoryName : string;
  Doc_PriceMinor : Z;
  Doc_Currency : string;
  Doc_InStock : bool;
}.

#[export] Instance ProductDocument_eq_dec : EqDecision ProductDocument.
Proof. solve_decision. Defined.

Record Query := MkQuery {
  Text : string;
  CategoryID : option string;
  MinPriceMinor : option Z;
  MaxPriceMinor : option Z;
  InStockOnly : option bool;
  Page : Z;
  PageSize : Z;
}.

Record FacetBucket := MkFacetBucket { Facet_Key : string; Facet_Count : Z }.

Record SearchResult := MkSearchResult {
  TotalHits : Z;
  Result_Page : Z;
  Result_PageSize : Z;
  TotalPages : Z;
  Products : list ProductDocument;
  Categories : list FacetBucket;
}.

(** The context's error, or a panic of the run time. *)
Inductive error : Type :=
| ErrContext (msg : string)
| Panic (msg : string)
| ErrDriver (msg : string).

Definition Error (e : error) : string :=
  match e with ErrContext m | Panic m | ErrDriver m => m end.

#[export] Instance error_GoError : GoError error :=
  {| error_text := Error; driver_error := ErrDriver; driver_error_text := λ _, eq_refl |}.

(** * Strings *)

(** [strings.Contains] *)
Fixpoint Contains (s substr : string) : bool :=
  String.prefix substr s || match s with EmptyString => false | String _ r => Contains r substr end.

(** [strings.Fields]: the maximal runs of bytes that are not white space. *)
Definition push_field (cur : string) (acc : list string) : list string :=
  if String.eqb cur "" then acc else cur :: acc.

Fixpoint fields_from (cur : string) (s : string) : list string :=
  match s with
  | EmptyString => push_field cur []
  | String a r1 =>
      if space1 a then push_field cur (fields_from "" r1) else
      match r1 with
      | EmptyString => fields_from (cur ++ String a "") r1
      | String b r2 =>
          if space2 a b then push_field cur (fields_from "" r2) else
          match r2 with
          | EmptyString => fields_from (cur ++ String a "") r1
          | String c r3 =>
              if space3 a b c then push_field cur (fields_from "" r3)
              else fields_from (cur ++ String a "") r1
          end
      end
  end%string.
Definition Fields (s : string) : list string := fields_from "" s.

(** * The in-memory client (memory.go) *)

(** [MemoryClient.docs] *)
Definition Index := gmap string ProductDocument.

Section memory.
Context (ToLower : string → string).

(** A method looks at its context first. *)
Definition with_ctx {A} (ctx_Err : option string) (r : result error A) : result error A :=
  match ctx_Err with Some m => Err (ErrContext m) | None => r end.

Definition IndexProduct (ctx_Err : option string) (doc : ProductDocument) (docs : Index) :
    result error Index :=
  with_ctx ctx_Err (Ok (<[Doc_ID doc := doc]> docs)).

Definition DeleteProduct (ctx_Err : option string) (id : string) (docs : Index) : result error Index :=
  with_ctx ctx_Err (Ok (delete id docs)).

Definition BulkIndex (ctx_Err : option string) (l : list ProductDocument) (docs : Index) :
    result error Index :=
  with_ctx ctx_Err (Ok (foldl (λ m d, <[Doc_ID d := d]> m) docs l)).

Record scoredDoc := MkScoredDoc { doc : ProductDocument; score : Z }.

(** The filters 1 to 4. *)
Definition passes (q : Query) (d : ProductDocument) : bool :=
  match CategoryID q with
  | Some c => match Doc_CategoryID d with Some c' => String.eqb c' c | None => false end
  | None => true
  end &&
  match MinPriceMinor q with Some m => negb (Doc_PriceMinor d <? m) | None => true end &&
  match MaxPriceMinor q with Some m => negb (m <? Doc_PriceMinor d) | None => true end &&
  match InStockOnly q with Some true => Doc_InStock d | _ => true end.

(** What one token adds to the score; zero when it matches nothing. *)
Definition token_score (d : ProductDocument) (token : string) : Z :=
  (if Contains (ToLower (Doc_Title d)) token then 3 else 0) +
  (if Contains (ToLower (Doc_SKU d)) token then 2 else 0) +
  (if Contains (ToLower (Doc_Description d)) token then 1 else 0).

(** Step 5: the score of a document, or [None] if no token matches it. *)
Definition score_of (tokens : list string) (d : ProductDocument) : option Z :=
  match tokens with
  | [] => Some 1
  | _ => if existsb (λ t, 0 <? token_score d t) tokens then Some (sumZ (token_score d) tokens) else None
  end.

Definition tokens_of (q : Query) : list string := Fields (TrimSpace (ToLower (Text q))).

(** The loop over the documents in the order they are visited. *)
Definition matched (q : Query) (visit : list ProductDocument) : list scoredDoc :=
  omap (λ d, if passes q d then MkScoredDoc d <$> score_of (tokens_of q) d else None) visit.

(** [sort.Slice] by score, the highest first, then by ID. *)
Definition ranked_before (x y : scoredDoc) : Prop :=
  score y < score x ∨ (score x = score y ∧ String.le (Doc_ID (doc x)) (Doc_ID (doc y))).
#[export] Instance ranked_before_dec : RelDecision ranked_before.
Proof. intros x y. unfold ranked_before. apply _. Defined.

Definition categoryCounts (l : list scoredDoc) : gmap string Z :=
  foldl (λ m x, let c := Doc_CategoryName (doc x) in
                if String.eqb c "" then m else <[c := default 0 (m !! c) + 1]> m) ∅ l.

Definition facet_before (x y : FacetBucket) : Prop :=
  Facet_Count y < Facet_Count x ∨ (Facet_Count x = Facet_Count y ∧ String.le (Facet_Key x) (Facet_Key y)).
#[export] Instance facet_before_dec : RelDecision facet_before.
Proof. intros x y. unfold facet_before. apply _. Defined.

Definition facetBuckets (counts : gmap string Z) : list FacetBucket :=
  merge_sort facet_before ((λ p, MkFacetBucket p.1 p.2) <$> map_to_list counts).

Definition page_number (q : Query) : Z := if Page q <? 1 then 1 else Page q.
Definition page_size (q : Query) : Z :=
  if PageSize q <? 1 then 20 else if 100 <? PageSize q then 100 else PageSize q.

(** [offset := (page - 1) * pageSize], in int. *)
Definition page_offset (q : Query) : Z := mul64 (sub64 (page_number q) 1) (page_size q).

(** The documents from [offset] to [end]: an index below zero panics. *)
Definition pagedDocs (q : Query) (l : list scoredDoc) : result error (list ProductDocument) :=
  let len := Z.of_nat (length l) in
  let offset := page_offset q in
  if offset <? len then
    let end_ := add64 offset (page_size q) in
    let end_ := if len <? end_ then len else end_ in
    if end_ - offset <? 0 then Err (Panic "makeslice: len out of range") else
    if (offset <? end_) && (offset <? 0) then Err (Panic "index out of range") else
    Ok (doc <$> take (Z.to_nat (end_ - offset)) (drop (Z.to_nat offset) l))
  else Ok [].

Definition Search (ctx_Err : option string) (q : Query) (visit : list ProductDocument) :
    result error SearchResult :=
  with_ctx ctx_Err (
    let found := matched q visit in
    let ranked := merge_sort ranked_before found in
    let totalHits := Z.of_nat (length found) in
    let totalPages := if 0 <? totalHits
      then Z.quot (sub64 (add64 totalHits (page_size q)) 1) (page_size q) else 0 in
    match pagedDocs q ranked with
    | Err e => Err e
    | Ok products =>
        Ok (MkSearchResult totalHits (page_number q) (page_size q) totalPages products
              (facetBuckets (categoryCounts found)))
    end).
End memory.

(** * Ranking *)

#[export] Instance ranked_before_trans : Transitive ranked_before.
Proof.
  intros x y z Hxy Hyz. unfold ranked_before in *.
  destruct Hxy as [Hxy|[Hxy Hi]], Hyz as [Hyz|[Hyz Hj]]; try (left; lia).
  right. split; [lia|]. by etrans.
Qed.

#[export] Instance ranked_before_total : Total ranked_before.
Proof.
  intros x y. unfold ranked_before.
  destruct (total String.le (Doc_ID (doc x)) (Doc_ID (doc y)));
    destruct (Z.lt_trichotomy (score x) (score y)) as [|[|]]; auto.
Qed.

Lemma ranked_before_tie x y :
  ranked_before x y → ranked_before y x → score x = score y ∧ Doc_ID (doc x) = Doc_ID (doc y).
Proof.
  unfold ranked_before. intros [?|[? H1]] [?|[? H2]]; try lia. split; [done|].
  by apply (anti_symm String.le).
Qed.

#[export] Instance facet_before_total : Total facet_before.
Proof.
  intros x y. unfold facet_before.
  destruct (total String.le (Facet_Key x) (Facet_Key y));
    destruct (Z.lt_trichotomy (Facet_Count x) (Facet_Count y)) as [|[|]]; auto.
Qed.

Section ranking.
Context (ToLower : string → string).
Implicit Types (q : Query) (visit : list ProductDocument).

Lemma matched_doc q visit x :
  x ∈ matched ToLower q visit →
  doc x ∈ visit ∧ passes q (doc x) = true ∧
  score_of ToLower (tokens_of ToLower q) (doc x) = Some (score x).
Proof.
  unfold matched. rewrite list_elem_of_omap. intros (d & Hd & H).
  destruct (passes q d) eqn:Hp; [|done].
  destruct (score_of ToLower (tokens_of ToLower q) d) eqn:Hs; simplify_eq/=. done.
Qed.

Lemma matched_elem q visit d :
  d ∈ doc <$> matched ToLower q visit ↔
  d ∈ visit ∧ passes q d = true ∧ is_Some (score_of ToLower (tokens_of ToLower q) d).
Proof.
  rewrite list_elem_of_fmap. split.
  - intros (x & -> & (Hv & Hp & Hs)%matched_doc). eauto.
  - intros (Hv & Hp & [s Hs]). exists (MkScoredDoc d s). split; [done|].
    unfold matched. apply list_elem_of_omap. exists d. by rewrite Hp, Hs.
Qed.

#[export] Instance matched_proper q : Proper ((≡ₚ) ==> (≡ₚ)) (matched ToLower q).
Proof. intros l l' H. unfold matched. by rewrite H. Qed.

Lemma matched_length q visit : (length (matched ToLower q visit) <= length visit)%nat.
Proof.
  unfold matched. induction visit as [|d l IH]; [done|]. csimpl.
  destruct (if passes q d then _ else _); simpl; lia.
Qed.

(** Two matches of the same rank are the same match. *)
Lemma matched_strict q visit x y :
  NoDup (Doc_ID <$> visit) → x ∈ matched ToLower q visit → y ∈ matched ToLower q visit →
  ranked_before x y → ranked_before y x → x = y.
Proof.
  intros Hnd (Hx & _ & Hsx)%matched_doc (Hy & _ & Hsy)%matched_doc H1 H2.
  destruct (ranked_before_tie x y H1 H2) as [Hs Hid].
  destruct x as [dx sx], y as [dy sy]; simpl in *. subst sy. f_equal.
  apply list_elem_of_lookup in Hx as [i Hi], Hy as [j Hj].
  assert (i = j) as ->; [|congruence].
  eapply (NoDup_lookup _ i j (Doc_ID dx) Hnd); rewrite list_lookup_fmap.
  - by rewrite Hi.
  - by rewrite Hj, Hid.
Qed.

(** What [sort.Slice] may answer: a sorted permutation.  There is one. *)
Lemma ranking_unique q visit visit' l :
  NoDup (Doc_ID <$> visit) → visit ≡ₚ visit' →
  l ≡ₚ matched ToLower q visit' → Sorted ranked_before l →
  l = merge_sort ranked_before (matched ToLower q visit).
Proof.
  intros Hnd Hp Hl Hs. rewrite <-Hp in Hl.
  eapply (Sorted_unique_strong ranked_before); [| done | | ].
  - intros x y Hx Hy. rewrite Hl in Hx. rewrite (merge_sort_Permutation _) in Hy.
    eapply matched_strict; eauto.
  - apply Sorted_merge_sort, _.
  - by rewrite Hl, (merge_sort_Permutation _).
Qed.
End ranking.

(** The facets do not depend on the order either: the counts are sums. *)
Definition bump (m : gmap string Z) (x : scoredDoc) : gmap string Z :=
  let c := Doc_CategoryName (doc x) in
  if String.eqb c "" then m else <[c := default 0 (m !! c) + 1]> m.

Lemma bump_comm m x y : bump (bump m x) y = bump (bump m y) x.
Proof.
  unfold bump. set (a := Doc_CategoryName (doc x)). set (b := Doc_CategoryName (doc y)).
  destruct (String.eqb a ""), (String.eqb b ""); try done.
  destruct (decide (a = b)) as [->|Hne]; [done|].
  rewrite !lookup_insert_ne by done. by rewrite insert_insert_ne by done.
Qed.

#[export] Instance categoryCounts_proper : Proper ((≡ₚ) ==> eq) categoryCounts.
Proof.
  intros l l' H. change categoryCounts with (λ l, foldl bump ∅ l). cbv beta.
  generalize (∅ : gmap string Z). induction H as [|x l l' _ IH|x y l|l1 l2 l3 _ IH1 _ IH2]; intros m; simpl.
  - done.
  - apply IH.
  - by rewrite bump_comm.
  - by rewrite IH1.
Qed.

Section theorems.
Context (ToLower : string → string).

(** The answer of a search does not depend on the order in which the map of documents
    is visited, nor on how equal elements fall in an unstable sort: two visits of the
    same documents, whose identifiers are distinct as the keys of the map are, give the
    same result, and the ranking is the only sorted permutation of the matches. *)
Theorem Search_deterministic ctx_Err q visit visit' :
  visit ≡ₚ visit' → NoDup (Doc_ID <$> visit) →
  Search ToLower ctx_Err q visit = Search ToLower ctx_Err q visit' ∧
  ∀ l, l ≡ₚ matched ToLower q visit' → Sorted ranked_before l →
       l = merge_sort ranked_before (matched ToLower q visit).
Proof.
  intros Hp Hnd. split; [|intros l; by apply ranking_unique]. unfold Search; cbv zeta.
  rewrite <-(ranking_unique ToLower q visit visit' (merge_sort ranked_before (matched ToLower q visit')) Hnd Hp).
  - by rewrite (categoryCounts_proper _ _ (matched_proper ToLower q _ _ Hp)), (Permutation_length (matched_proper ToLower q _ _ Hp)).
  - apply merge_sort_Permutation.
  - apply Sorted_merge_sort, _.
Qed.
End theorems.

(** * Pages *)

Definition with_page (q : Query) (p : Z) : Query :=
  MkQuery (Text q) (CategoryID q) (MinPriceMinor q) (MaxPriceMinor q) (InStockOnly q) p (PageSize q).

Lemma page_size_bounds q : 1 <= page_size q <= 100.
Proof. unfold page_size. destruct (Z.ltb_spec (PageSize q) 1), (Z.ltb_spec 100 (PageSize q)); lia. Qed.

(** The [k]-th slice of the ranking, counted from zero. *)
Definition slice (q : Query) (k : nat) (l : list scoredDoc) : list scoredDoc :=
  take (Z.to_nat (page_size q)) (drop (k * Z.to_nat (page_size q)) l).

Lemma offset_exact k ps :
  0 <= k → 1 <= ps → (k + 1) * ps <= MaxInt64 → mul64 (sub64 (k + 1) 1) ps = k * ps.
Proof.
  intros Hk Hp H. assert (0 <= k * ps) by (apply Z.mul_nonneg_nonneg; lia).
  assert (k * 1 <= k * ps) by (apply Z.mul_le_mono_nonneg_l; lia).
  assert (sub64 (k + 1) 1 = k) as ->.
  { rewrite sub64_id; [lia|]. unfold in64, MinInt64, MaxInt64 in *. lia. }
  apply mul64_id. unfold in64, MinInt64, MaxInt64 in *. lia.
Qed.

Lemma pagedDocs_slice q k l :
  (Z.of_nat k + 1) * page_size q <= MaxInt64 →
  pagedDocs (with_page q (Z.of_nat k + 1)) l = Ok (doc <$> slice q k l).
Proof.
  intros Hk. pose proof (page_size_bounds q) as Hs. unfold pagedDocs, slice.
  change (page_size (with_page q (Z.of_nat k + 1))) with (page_size q).
  set (ps := page_size q) in *. unfold MaxInt64 in Hk.
  rewrite Z.mul_add_distr_r, Z.mul_1_l in Hk.
  assert (0 <= Z.of_nat k * ps) as Hoff0 by (apply Z.mul_nonneg_nonneg; lia).
  assert (Z.of_nat k * 1 <= Z.of_nat k * ps) as Hk1 by (apply Z.mul_le_mono_nonneg_l; lia).
  assert (page_offset (with_page q (Z.of_nat k + 1)) = Z.of_nat k * ps) as ->.
  { unfold page_offset, page_number. change (page_size (with_page q (Z.of_nat k + 1))) with ps.
    change (Page (with_page q (Z.of_nat k + 1))) with (Z.of_nat k + 1).
    destruct (Z.ltb_spec (Z.of_nat k + 1) 1); [lia|].
    apply offset_exact; unfold MaxInt64; lia. }
  assert (Z.to_nat (Z.of_nat k * ps) = (k * Z.to_nat ps)%nat) as Hoff by lia.
  destruct (Z.ltb_spec (Z.of_nat k * ps) (Z.of_nat (length l))) as [Hlt|Hge].
  - rewrite add64_id by (unfold in64, MinInt64, MaxInt64; lia).
    set (e := if Z.of_nat (length l) <? Z.of_nat k * ps + ps then Z.of_nat (length l) else Z.of_nat k * ps + ps).
    assert (e = Z.min (Z.of_nat k * ps + ps) (Z.of_nat (length l))) as ->.
    { subst e. destruct (Z.ltb_spec (Z.of_nat (length l)) (Z.of_nat k * ps + ps)); lia. }
    destruct (Z.ltb_spec (Z.min (Z.of_nat k * ps + ps) (Z.of_nat (length l)) - Z.of_nat k * ps) 0); [lia|].
    destruct (Z.ltb_spec (Z.of_nat k * ps) 0); [lia|]. rewrite andb_false_r, Hoff. do 2 f_equal.
    destruct (Z.le_gt_cases (Z.of_nat k * ps + ps) (Z.of_nat (length l))).
    + f_equal. lia.
    + rewrite !take_ge; [done| |]; rewrite length_drop; lia.
  - rewrite drop_ge by lia. by destruct (Z.to_nat ps).
Qed.

(** Consecutive slices put the list back together. *)
Lemma concat_slices {A} (l : list A) ps n :
  concat ((λ k, take ps (drop (k * ps) l)) <$> seq 0 n) = take (n * ps) l.
Proof.
  induction n as [|n IH]; [done|].
  rewrite seq_S, fmap_app, concat_app, IH. simpl. rewrite app_nil_r.
  rewrite (Nat.add_comm ps), <-(take_take_drop l (n * ps) ps). done.
Qed.

Definition total_pages (q : Query) (n : Z) : Z := (n + page_size q - 1) / page_size q.

Lemma total_pages_spec q n :
  0 <= n → (total_pages q n - 1) * page_size q < n + (if n =? 0 then 1 else 0) ∧ n <= total_pages q n * page_size q.
Proof.
  intros Hn. unfold total_pages. pose proof (page_size_bounds q).
  pose proof (Z.div_mod (n + page_size q - 1) (page_size q)).
  pose proof (Z.mod_pos_bound (n + page_size q - 1) (page_size q)).
  destruct (Z.eqb_spec n 0); nia.
Qed.

Section pages.
Context (ToLower : string → string).

Lemma Search_page q visit k :
  let ranked := merge_sort ranked_before (matched ToLower q visit) in
  let n := Z.of_nat (length (matched ToLower q visit)) in
  (Z.of_nat k + 1) * page_size q <= MaxInt64 → n + 100 <= MaxInt64 →
  Search ToLower None (with_page q (Z.of_nat k + 1)) visit =
    Ok (MkSearchResult n (Z.of_nat k + 1) (page_size q) (total_pages q n)
          (doc <$> slice q k ranked) (facetBuckets (categoryCounts (matched ToLower q visit)))).
Proof.
  cbv zeta. intros Hk Hn. unfold Search, with_ctx; cbv zeta.
  change (matched ToLower (with_page q (Z.of_nat k + 1)) visit) with (matched ToLower q visit).
  set (n := Z.of_nat (length (matched ToLower q visit))) in *.
  rewrite pagedDocs_slice by done.
  change (page_size (with_page q (Z.of_nat k + 1))) with (page_size q).
  pose proof (page_size_bounds q). unfold MaxInt64 in Hn.
  assert (page_number (with_page q (Z.of_nat k + 1)) = Z.of_nat k + 1) as ->.
  { unfold page_number. simpl. destruct (Z.ltb_spec (Z.of_nat k + 1) 1); lia. }
  do 2 f_equal. unfold total_pages. destruct (Z.ltb_spec 0 n).
  - rewrite (add64_id n (page_size q)) by (unfold in64, MinInt64, MaxInt64; lia).
    rewrite (sub64_id (n + page_size q) 1) by (unfold in64, MinInt64, MaxInt64; lia).
    apply Z.quot_div_nonneg; lia.
  - assert (n = 0) as -> by lia. rewrite Z.div_small; lia.
Qed.


(** The offset of a page is computed in int without a check.  A page so far that
    [(page - 1) * pageSize] passes the largest int gives a negative offset, which is less
    than any number of matches, and the search panics, whatever is indexed, instead of
    answering with an empty page. *)
Theorem Search_far_page_panics q visit :
  MaxInt64 < (page_number q - 1) * page_size q <= MaxInt64 - MinInt64 →
  Page q <= MaxInt64 →
  Search ToLower None q visit = Err (Panic "index out of range").
Proof.
  intros [Hlo Hhi] Hp. pose proof (page_size_bounds q).
  assert (1 <= page_number q <= MaxInt64) as Hpn
    by (unfold page_number, MaxInt64 in *; destruct (Z.ltb_spec (Page q) 1); lia).
  unfold Search, with_ctx; cbv zeta. unfold pagedDocs. unfold MaxInt64, MinInt64 in *.
  assert (page_offset q = (page_number q - 1) * page_size q - 2 ^ 64) as ->.
  { unfold page_offset. rewrite (sub64_id (page_number q) 1) by (unfold in64, MinInt64, MaxInt64; lia).
    unfold mul64, wrap64, MinInt64. rewrite <-(Z.mod_unique _ (2 ^ 64) 1
      ((page_number q - 1) * page_size q - 2 ^ 64 + 9223372036854775808)); lia. }
  set (off := (page_number q - 1) * page_size q - 2 ^ 64) in *.
  assert (-9223372036854775808 <= off < 0) by lia.
  set (len := Z.of_nat _). assert (0 <= len) by lia.
  destruct (Z.ltb_spec off len); [|lia].
  rewrite (add64_id off (page_size q)) by (unfold in64, MinInt64, MaxInt64; lia).
  set (e := if len <? off + page_size q then len else off + page_size q).
  assert (off < e) by (subst e; destruct (Z.ltb_spec len (off + page_size q)); lia).
  destruct (Z.ltb_spec (e - off) 0); [lia|].
  destruct (Z.ltb_spec off e); [|lia]. by destruct (Z.ltb_spec off 0); [|lia].
Qed.
End pages.

(** ** Examples *)

Definition ex_doc (id title cat : string) (price : Z) : ProductDocument :=
  MkProductDocument id ("SKU-" ++ id)%string title "" None cat price "USD" true.

Definition ex_docs : list ProductDocument :=
  [ex_doc "b" "red shirt" "clothes" 300; ex_doc "a" "red red hat" "clothes" 100;
   ex_doc "c" "blue mug" "kitchen" 200].

Definition ex_query (text : string) (page size : Z) : Query := MkQuery text None None None None page size.

Example search_red :
  Search ToLower None (ex_query " RED shirt " 1 2) ex_docs =
  Ok (MkSearchResult 2 1 2 1 [ex_doc "b" "red shirt" "clothes" 300; ex_doc "a" "red red hat" "clothes" 100]
        [MkFacetBucket "clothes" 2]).
Proof. vm_compute. reflexivity. Qed.

Lemma Search_deterministic_witness :
  NoDup (Doc_ID <$> ex_docs) ∧
  Search ToLower None (ex_query "" 1 20) ex_docs = Search ToLower None (ex_query "" 1 20) (reverse ex_docs).
Proof.
  assert (NoDup (Doc_ID <$> ex_docs)) as Hnd by (apply (bool_decide_unpack _); vm_compute; exact I).
  split; [exact Hnd|].
  refine (proj1 (Search_deterministic ToLower None (ex_query "" 1 20) ex_docs (reverse ex_docs) _ Hnd)).
  symmetry. apply reverse_Permutation.
Defined.


Lemma Search_far_page_panics_witness :
  Search ToLower None (ex_query "" 92233720368547760 100) ex_docs = Err (Panic "index out of range").
Proof. apply Search_far_page_panics; vm_compute; [split; [reflexivity|discriminate]|discriminate]. Defined.

(** * The interface (types.go) *)

(** A client of the search engine, over its state; a call may fail ([Env]). *)
Class Client (St : Type) := {
  client_IndexProduct : ProductDocument → M St error unit;
  client_DeleteProduct : string → M St error unit;
  client_BulkIndex : list ProductDocument → M St error unit;
  client_Search : Query → M St error SearchResult;
}.

(** What a client promises of its writes: a document that was indexed is the one found
    under its identifier, a deleted one is not found, the others stay, and a call that
    fails has done nothing. *)
Class ClientLaws (St : Type) `{!Client St} := {
  indexed : St → Index;
  index_law : ∀ env d, ∀ n s n' s' r, client_IndexProduct d env n s = (n', s', r) →
    indexed s' = match r with Ok _ => <[Doc_ID d := d]> (indexed s) | Err _ => indexed s end;
  delete_law : ∀ env id, ∀ n s n' s' r, client_DeleteProduct id env n s = (n', s', r) →
    indexed s' = match r with Ok _ => delete id (indexed s) | Err _ => indexed s end;
  bulk_law : ∀ env l, ∀ n s n' s' r, client_BulkIndex l env n s = (n', s', r) →
    indexed s' = match r with
                 | Ok _ => foldl (λ m d, <[Doc_ID d := d]> m) (indexed s) l
                 | Err _ => indexed s
                 end;
}.

(** The in-memory client: the context of a call is done when the environment says so. *)
Definition memory_call {A} (f : option string → Index → result error (Index * A)) : M Index error A :=
  λ env n s,
    match f (env_fault env n) s with
    | Ok (s', a) => (Datatypes.S n, s', Ok a)
    | Err e => (Datatypes.S n, s, Err e)
    end.

Definition no_value (r : result error Index) : result error (Index * unit) :=
  match r with Ok s => Ok (s, tt) | Err e => Err e end.

Section client.
Context (lowercase : string → string).

#[export] Instance MemoryClient : Client Index := {|
  client_IndexProduct := λ d, memory_call (λ c s, no_value (IndexProduct c d s));
  client_DeleteProduct := λ id, memory_call (λ c s, no_value (DeleteProduct c id s));
  client_BulkIndex := λ l, memory_call (λ c s, no_value (BulkIndex c l s));
  client_Search := λ q, memory_call (λ c s,
    match Search lowercase c q (map_to_list s).*2 with Ok r => Ok (s, r) | Err e => Err e end);
|}.

#[export] Program Instance MemoryClient_laws : ClientLaws Index := {| indexed := λ s, s |}.
Next Obligation.
  intros env d n s n' s' r. simpl. unfold memory_call, no_value, IndexProduct, with_ctx.
  destruct (env_fault env n); by intros [= <- <- <-].
Qed.
Next Obligation.
  intros env id n s n' s' r. simpl. unfold memory_call, no_value, DeleteProduct, with_ctx.
  destruct (env_fault env n); by intros [= <- <- <-].
Qed.
Next Obligation.
  intros env l n s n' s' r. simpl. unfold memory_call, no_value, BulkIndex, with_ctx.
  destruct (env_fault env n); by intros [= <- <- <-].
Qed.
End client.
