(* ===== verification/RemoteSearch.v ===== *)
(** internal/platform/search/opensearch.go: the client of a remote search engine over
    HTTP.

    The engine and the transport are a parameter ([HttpClient]); what the client relies on
    of the engine, as its REST API documents it, is [ClusterLaws].  The parsing of URLs
    is a parameter too ([url_error]).  A conversion of a float that int64 cannot hold is
    that of amd64. *)

From S2P Require Import Prelude Json Strconv Timestamp Decode Wire JsonText Web Search.

(** * HTTP, from the client's side *)

Record HttpRequest := MkHttpRequest {
  Method : string;
  URL : string;
  ContentType : string;                        (** empty when it is not set *)
  BasicAuth : option (string * string);
  ReqBody : string;
}.

Record HttpResponse := MkHttpResponse { Status : Z; RespBody : body_reader }.

(** What is wrong with a URL ([url.Parse]). *)
Class UrlError := url_error : string → option string.

Class HttpClient (St : Type) := http_Do : HttpRequest → M St error HttpResponse.
#[global] Hint Mode HttpClient + : typeclass_instances.

Definition ok_status (status : Z) : bool := negb ((status <? 200) || (300 <=? status)).

(** What [io.ReadAll] returns of a body, also with an error. *)
Definition read_all (b : body_reader) : string :=
  match b with NilBody => "" | Bytes text | Failing text _ => text end.

(** [json.NewDecoder(resp.Body).Decode] *)
Definition decode_stream {A} (f : setter A) (b : body_reader) (zero : A) : decoded A :=
  match b with
  | NilBody => hard_error ErrEOF zero
  | Bytes text => Decode f text zero
  | Failing text msg =>
      match parse text with
      | Some (v, rest) => if ends_itself v rest then f v zero else hard_error (ErrRead msg) zero
      | None => hard_error (ErrRead msg) zero
      end
  end.

(** * Floats

    [int64(f)] of the float64 that a JSON number denotes: the decimal is rounded to 53
    bits, ties to even, and truncated; [None] is a number beyond the floats. *)

Fixpoint split_mantissa (s : string) (m e : Z) (after_dot : bool) : Z * Z * string :=
  match s with
  | EmptyString => (m, e, "")
  | String a r =>
      match digit_of a with
      | Some d => split_mantissa r (10 * m + d) (if after_dot then e - 1 else e) after_dot
      | None => if ascii_dec a "." then split_mantissa r m e true else (m, e, r)
      end
  end.

Definition exponent_value (s : string) : Z :=
  match s with
  | String "-" r => - default 0 (unsigned r)
  | String "+" r => default 0 (unsigned r)
  | _ => default 0 (unsigned s)
  end.

(** The quotient of [p] by [q], rounded. *)
Definition round_even (p q : Z) : Z :=
  let m := p / q in
  let r := p mod q in
  if (q <? 2 * r) || ((2 * r =? q) && Z.odd m) then m + 1 else m.

(** p / q, both positive, in floating point, truncated. *)
Definition float_trunc (p q : Z) : option Z :=
  let k0 := Z.log2 p - Z.log2 q in
  let k := if (if 0 <=? k0 then q * 2 ^ k0 <=? p else q <=? p * 2 ^ (- k0)) then k0 else k0 - 1 in
  let s := k - 52 in
  if 0 <=? s
  then let v := round_even p (q * 2 ^ s) * 2 ^ s in if 2 ^ 1024 <=? v then None else Some v
  else Some (round_even (p * 2 ^ (- s)) q / 2 ^ (- s)).

Definition float_int64 (literal : string) : option Z :=
  let '(negative, s) := match literal with String "-" r => (true, r) | _ => (false, literal) end in
  let '(m, e, power) := split_mantissa s 0 0 false in
  let e := e + exponent_value power in
  if m =? 0 then Some 0 else
  z ← (if 0 <=? e then float_trunc (m * 10 ^ e) 1 else float_trunc m (10 ^ (- e)));
  let z := if negative then - z else z in
  Some (if int8_ok z then z else MinInt64).

Example floats :
  float_int64 "10000" = Some 10000 ∧ float_int64 "-2.5e+3" = Some (-2500) ∧
  float_int64 "9007199254740993" = Some 9007199254740992 ∧
  float_int64 "0.99999999999999999" = Some 1 ∧ float_int64 "1e19" = Some MinInt64 ∧ float_int64 "1e400" = None.
Proof. vm_compute. done. Qed.

(** * Documents *)

Definition document_to_json (d : ProductDocument) : json :=
  JObject ([("id", JString (Doc_ID d)); ("sku", JString (Doc_SKU d)); ("title", JString (Doc_Title d));
            ("description", JString (Doc_Description d))] ++
           match Doc_CategoryID d with Some c => [("category_id", JString c)] | None => [] end ++
           [("category_name", JString (Doc_CategoryName d)); ("price_minor", JInt (Doc_PriceMinor d));
            ("currency", JString (Doc_Currency d)); ("in_stock", JBool (Doc_InStock d))]).

Definition zero_document : ProductDocument := MkProductDocument "" "" "" "" None "" 0 "" false.

Definition document_fields : list (string * setter ProductDocument) :=
  [("id", into_string (λ x d, MkProductDocument x (Doc_SKU d) (Doc_Title d) (Doc_Description d) (Doc_CategoryID d)
      (Doc_CategoryName d) (Doc_PriceMinor d) (Doc_Currency d) (Doc_InStock d)));
   ("sku", into_string (λ x d, MkProductDocument (Doc_ID d) x (Doc_Title d) (Doc_Description d) (Doc_CategoryID d)
      (Doc_CategoryName d) (Doc_PriceMinor d) (Doc_Currency d) (Doc_InStock d)));
   ("title", into_string (λ x d, MkProductDocument (Doc_ID d) (Doc_SKU d) x (Doc_Description d) (Doc_CategoryID d)
      (Doc_CategoryName d) (Doc_PriceMinor d) (Doc_Currency d) (Doc_InStock d)));
   ("description", into_string (λ x d, MkProductDocument (Doc_ID d) (Doc_SKU d) (Doc_Title d) x (Doc_CategoryID d)
      (Doc_CategoryName d) (Doc_PriceMinor d) (Doc_Currency d) (Doc_InStock d)));
   ("category_id", in_field Doc_CategoryID (λ c d, MkProductDocument (Doc_ID d) (Doc_SKU d) (Doc_Title d) (Doc_Description d) c
      (Doc_CategoryName d) (Doc_PriceMinor d) (Doc_Currency d) (Doc_InStock d)) (pointer "" (into_string (λ x _, x))));
   ("category_name", into_string (λ x d, MkProductDocument (Doc_ID d) (Doc_SKU d) (Doc_Title d) (Doc_Description d) (Doc_CategoryID d)
      x (Doc_PriceMinor d) (Doc_Currency d) (Doc_InStock d)));
   ("price_minor", into_int (λ z d, MkProductDocument (Doc_ID d) (Doc_SKU d) (Doc_Title d) (Doc_Description d) (Doc_CategoryID d)
      (Doc_CategoryName d) z (Doc_Currency d) (Doc_InStock d)));
   ("currency", into_string (λ x d, MkProductDocument (Doc_ID d) (Doc_SKU d) (Doc_Title d) (Doc_Description d) (Doc_CategoryID d)
      (Doc_CategoryName d) (Doc_PriceMinor d) x (Doc_InStock d)));
   ("in_stock", into_bool (λ b d, MkProductDocument (Doc_ID d) (Doc_SKU d) (Doc_Title d) (Doc_Description d) (Doc_CategoryID d)
      (Doc_CategoryName d) (Doc_PriceMinor d) (Doc_Currency d) b))].

(** * The body of a search *)

Definition mustClauses (q : Query) : list json :=
  let queryText := TrimSpace (Text q) in
  if String.eqb queryText "" then [JObject [("match_all", JObject [])]]
  else [JObject [("multi_match",
          JObject [("fields", JArray [JString "title^3"; JString "sku^2"; JString "description"]);
                   ("query", JString queryText); ("type", JString "best_fields")])]].

Definition term (field : string) (j : json) : json := JObject [("term", JObject [(field, j)])].

Definition filterClauses (q : Query) : list json :=
  match CategoryID q with Some c => [term "category_id" (JString c)] | None => [] end ++
  (match MinPriceMinor q, MaxPriceMinor q with
   | None, None => []
   | lo, hi =>
       [JObject [("range", JObject [("price_minor",
          JObject (match lo with Some m => [("gte", JInt m)] | None => [] end ++
                   match hi with Some m => [("lte", JInt m)] | None => [] end))])]]
   end) ++
  match InStockOnly q with Some b => [term "in_stock" (JBool b)] | None => [] end.

(** The maps of Go, whose keys [json.Marshal] sorts. *)
Definition searchBody (q : Query) : json :=
  JObject
    [("aggs", JObject [("categories", JObject [("terms", JObject [("field", JString "category_name"); ("size", JInt 50)])])]);
     ("from", JInt (page_offset q));
     ("query", JObject [("bool", JObject [("filter", JArray (filterClauses q)); ("must", JArray (mustClauses q))])]);
     ("size", JInt (page_size q))].

(** * The answer of a search *)

(** The struct [osResp]; [Total] is of any type. *)
Record os_response := MkOsResponse {
  Total : value;
  Hits : list ProductDocument;
  Buckets : list FacetBucket;
}.

Definition no_response : os_response := MkOsResponse VNull [] [].

(** A value of any type: its numbers are floats, and must be in their range. *)
Fixpoint floats_ok (v : value) : bool :=
  match v with
  | VNumber x => match float_int64 x with Some _ => true | None => false end
  | VArray l => forallb floats_ok l
  | VObject ms => forallb (λ m, floats_ok m.2) ms
  | _ => true
  end.

Definition into_any {A} (set : value → A → A) : setter A := λ v a,
  if floats_ok v then stored (set v a) else kept_error (ErrUnmarshalType v) a.

Definition hit_fields : list (string * setter ProductDocument) := [("_source", object false document_fields)].

Definition bucket_fields : list (string * setter FacetBucket) :=
  [("key", into_string (λ k b, MkFacetBucket k (Facet_Count b)));
   ("doc_count", into_int (λ n b, MkFacetBucket (Facet_Key b) n))].

Definition response_fields : list (string * setter os_response) :=
  [("hits", object false
      [("total", into_any (λ v r, MkOsResponse v (Hits r) (Buckets r)));
       ("hits", in_field Hits (λ l r, MkOsResponse (Total r) l (Buckets r))
                  (Decode.slice zero_document (object false hit_fields)))]);
   ("aggregations", object false
      [("categories", object false
          [("buckets", in_field Buckets (λ l r, MkOsResponse (Total r) (Hits r) l)
                         (Decode.slice (MkFacetBucket "" 0) (object false bucket_fields)))])])].

(** The last member of a name, as a Go map has it. *)
Definition member_of (k : string) (ms : list (string * value)) : option value :=
  foldl (λ o m, if String.eqb m.1 k then Some m.2 else o) None ms.

(** The type switch on [osResp.Hits.Total]. *)
Definition totalHits (total : value) : Z :=
  match total with
  | VNumber x => default 0 (float_int64 x)
  | VObject ms =>
      match member_of "value" ms with
      | Some (VNumber x) => default 0 (float_int64 x)
      | _ => 0
      end
  | _ => 0
  end.

Definition result_of (q : Query) (r : os_response) : SearchResult :=
  let total := totalHits (Total r) in
  let totalPages := if 0 <? total
    then Z.quot (sub64 (add64 total (page_size q)) 1) (page_size q) else 0 in
  MkSearchResult total (page_number q) (page_size q) totalPages (Hits r) (Buckets r).

(** * The client *)

Record OpenSearchConfig := MkOpenSearchConfig {
  Cfg_URL : string;
  Cfg_Index : string;
  Cfg_Username : string;
  Cfg_Password : string;
  Cfg_Timeout : Z;
}.

Record OpenSearchClient := MkOpenSearchClient {
  baseURL : string;
  indexName : string;
  username : string;
  password : string;
  timeout : Z;                                  (** of its http.Client *)
}.

(** [strings.TrimRight(s, c)] for one character. *)
Definition TrimRight (s : string) (c : ascii) : string := String.rev (trim_left c (String.rev s)).

Definition NewOpenSearchClient (cfg : OpenSearchConfig) : result error OpenSearchClient :=
  let baseURL := TrimRight (Cfg_URL cfg) "/" in
  if String.eqb baseURL "" then Err (ErrDriver "opensearch url is required") else
  Ok (MkOpenSearchClient baseURL
        (if String.eqb (Cfg_Index cfg) "" then "shopflow_products" else Cfg_Index cfg)
        (Cfg_Username cfg) (Cfg_Password cfg)
        (if Cfg_Timeout cfg <=? 0 then 5 * Second else Cfg_Timeout cfg)).

Definition json_text (j : json) : string := @Marshal (λ _, "") UTC j.

Definition actionLine (index id : string) : json :=
  JObject [("index", JObject [("_id", JString id); ("_index", JString index)])].

Definition line (s : string) : string := (s ++ String newline "")%string.

(** The body of a bulk: two lines for each document. *)
Definition bulkBody (index : string) (docs : list ProductDocument) : string :=
  foldr (λ d rest, (line (json_text (actionLine index (Doc_ID d))) ++ line (json_text (document_to_json d)) ++ rest)%string)
    "" docs.

Definition defaultIndexMapping : string := ticks "{
  `settings`: {
    `number_of_shards`: 1,
    `number_of_replicas`: 0,
    `analysis`: {
      `analyzer`: {
        `shopflow_analyzer`: {
          `type`: `standard`
        }
      }
    }
  },
  `mappings`: {
    `properties`: {
      `id`: { `type`: `keyword` },
      `sku`: { `type`: `keyword` },
      `title`: {
        `type`: `text`,
        `analyzer`: `shopflow_analyzer`,
        `fields`: {
          `keyword`: { `type`: `keyword`, `ignore_above`: 256 }
        }
      },
      `description`: {
        `type`: `text`,
        `analyzer`: `shopflow_analyzer`
      },
      `category_id`: { `type`: `keyword` },
      `category_name`: { `type`: `keyword` },
      `price_minor`: { `type`: `long` },
      `currency`: { `type`: `keyword` },
      `in_stock`: { `type`: `boolean` }
    }
  }
}".

Example mapping_valid : Valid defaultIndexMapping = true.
Proof. vm_compute. reflexivity. Qed.

Section client.
Context {St : Type} `{HC : !HttpClient St} `{UE : UrlError} `{JT : JsonErrorText} (c : OpenSearchClient).
Notation op A := (M St error A).

(** [setAuthAndHeaders], on a new request. *)
Definition request (method url contentType body : string) : HttpRequest :=
  MkHttpRequest method url contentType
    (if negb (String.eqb (username c) "") || negb (String.eqb (password c) "")
     then Some (username c, password c) else None) body.

Local Open Scope go_scope.

(** A request is built and sent; the errors carry what was being done. *)
Definition send (creating sending : string) (r : HttpRequest) : op HttpResponse :=
  match url_error (URL r) with
  | Some e => fail (ErrDriver (creating ++ e)%string)
  | None => map_err (λ e, ErrDriver (sending ++ Error e)%string) (http_Do r)
  end.

(** The answer has to be a success. *)
Definition expect_ok (what : string) (resp : HttpResponse) : op unit :=
  if ok_status (Status resp) then ret tt
  else fail (ErrDriver (what ++ fmt_d (Status resp) ++ ": " ++ read_all (RespBody resp))%string).

Definition remote_Ping : op unit :=
  let* resp := send "failed to create ping request: " "opensearch ping failed: "
    (request "GET" (baseURL c ++ "/_cluster/health") "" "")%string in
  expect_ok "opensearch ping returned status " resp.

Definition index_url : string := (baseURL c ++ "/" ++ indexName c)%string.
Definition doc_url (id : string) : string := (index_url ++ "/_doc/" ++ id)%string.

Definition remote_EnsureIndex : op unit :=
  let* resp := send "failed to create check index request: " "check index failed: "
    (request "HEAD" index_url "" "") in
  if Status resp =? 200 then ret tt else
  if Status resp =? 404 then
    let* resp := send "failed to create put index request: " "create index failed: "
      (request "PUT" index_url "application/json" defaultIndexMapping) in
    expect_ok "create index returned status " resp
  else fail (ErrDriver ("unexpected status " ++ fmt_d (Status resp) ++ " checking index " ++ indexName c)%string).

Definition remote_IndexProduct (d : ProductDocument) : op unit :=
  let* resp := send "failed to create index product request: " "failed to index product: "
    (request "PUT" (doc_url (Doc_ID d)) "application/json" (json_text (document_to_json d))) in
  expect_ok "index product returned status " resp.

Definition remote_DeleteProduct (id : string) : op unit :=
  let* resp := send "failed to create delete product request: " "failed to delete product: "
    (request "DELETE" (doc_url id) "" "") in
  if ok_status (Status resp) || (Status resp =? 404) then ret tt
  else fail (ErrDriver ("delete product returned status " ++ fmt_d (Status resp) ++ ": " ++ read_all (RespBody resp))%string).

Definition bulk_request (docs : list ProductDocument) : HttpRequest :=
  request "POST" (baseURL c ++ "/_bulk")%string "application/x-ndjson" (bulkBody (indexName c) docs).

Definition remote_BulkIndex (docs : list ProductDocument) : op unit :=
  match docs with
  | [] => ret tt
  | _ =>
      let* resp := send "failed to create bulk index request: " "bulk index failed: "
        (bulk_request docs) in
      expect_ok "bulk index returned status " resp
  end.

Definition remote_Search (q : Query) : op SearchResult :=
  let* resp := send "failed to create search request: " "search request failed: "
    (request "POST" (index_url ++ "/_search")%string "application/json" (json_text (searchBody q))) in
  expect_ok "search returned status " resp ;;;
  let d := decode_stream (object false response_fields) (RespBody resp) no_response in
  match saved d with
  | Some e => fail (ErrDriver ("failed to decode search response: " ++ json_error_text e)%string)
  | None => ret (result_of q (target d))
  end.

#[export] Instance RemoteClient : Client St := {|
  client_IndexProduct := remote_IndexProduct;
  client_DeleteProduct := remote_DeleteProduct;
  client_BulkIndex := remote_BulkIndex;
  client_Search := remote_Search;
|}.
End client.

(** * What the client relies on *)

(** The body of a bulk, as its API documents it: two lines for each item, the action with
    the identifier in the index, and the source. *)
Inductive ndjson (index : string) : string → list (string * string) → Prop :=
| ndjson_nil : ndjson index "" []
| ndjson_item action ms id source rest items :
    one_line action = true → one_line source = true →
    parse action = Some (VObject [("index", VObject ms)], "") →
    member_of "_id" ms = Some (VString id) → member_of "_index" ms = Some (VString index) →
    ndjson index rest items →
    ndjson index (line action ++ line source ++ rest) ((id, source) :: items).

(** The one member of that name. *)
Definition sole (k : string) (v : value) (ms : list (string * value)) : Prop :=
  ∃ l1 l2, ms = l1 ++ (k, v) :: l2 ∧ Forall (λ m, fold_name m.1 ≠ k) (l1 ++ l2).

(** A hit of a search carries the source of some document of the index. *)
Definition hit_of (sources : gmap string string) (hit : value) : Prop :=
  ∃ ms v id source, hit = VObject ms ∧ sole "_source" v ms ∧
    sources !! id = Some source ∧ parse source = Some (v, "").

Definition answers (sources : gmap string string) (resp : HttpResponse) : Prop :=
  ∃ text ms rest hs hits, RespBody resp = Bytes text ∧ parse text = Some (VObject ms, rest) ∧
    sole "hits" (VObject hs) ms ∧ sole "hits" (VArray hits) hs ∧ Forall (hit_of sources) hits.

(** A bulk reports with a success that some of its items were refused. *)
Definition item_errors (resp : HttpResponse) : bool :=
  match RespBody resp with
  | Bytes text =>
      match parse text with
      | Some (VObject ms, _) => match member_of "errors" ms with Some (VBool false) => false | _ => true end
      | _ => true
      end
  | _ => true
  end.

Definition put_all (l : list (string * string)) (m : gmap string string) : gmap string string :=
  foldl (λ m i, <[i.1 := i.2]> m) m l.

Class ClusterLaws (St : Type) `{!HttpClient St} (c : OpenSearchClient) := {
  (** the sources of the documents of the index *)
  sources : St → gmap string string;
  (** an identifier that can stand in a path as it is *)
  plain_id : string → Prop;
  put_law : ∀ id r env n s n' s' a, plain_id id → Method r = "PUT" → URL r = doc_url c id →
    http_Do r env n s = (n', s', a) →
    let done := <[id := ReqBody r]> (sources s) in
    match a with
    | Ok resp => if ok_status (Status resp) then sources s' = done else sources s' = sources s ∨ sources s' = done
    | Err _ => sources s' = sources s ∨ sources s' = done
    end;
  remove_law : ∀ id r env n s n' s' a, plain_id id → Method r = "DELETE" → URL r = doc_url c id →
    http_Do r env n s = (n', s', a) →
    let done := delete id (sources s) in
    match a with
    | Ok resp => if ok_status (Status resp) || (Status resp =? 404)
                 then sources s' = done else sources s' = sources s ∨ sources s' = done
    | Err _ => sources s' = sources s ∨ sources s' = done
    end;
  bulk_items_law : ∀ items r env n s n' s' a, Method r = "POST" → URL r = (baseURL c ++ "/_bulk")%string →
    ndjson (indexName c) (ReqBody r) items → http_Do r env n s = (n', s', a) →
    ∃ done, done `sublist_of` items ∧ sources s' = put_all done (sources s) ∧
      match a with
      | Ok resp => ok_status (Status resp) = true → item_errors resp = false → done = items
      | Err _ => True
      end;
  hits_law : ∀ r env n s n' s' a, Method r = "POST" → URL r = (index_url c ++ "/_search")%string →
    http_Do r env n s = (n', s', a) →
    sources s' = sources s ∧
    match a with Ok resp => ok_status (Status resp) = true → answers (sources s) resp | Err _ => True end;
}.

(** * Documents as texts *)

Definition doc_text (d : ProductDocument) : string := json_text (document_to_json d).

(** A document whose texts are UTF-8 and whose price is in range. *)
Definition clean (d : ProductDocument) : Prop :=
  Forall (λ x, utf8 x = true)
    ([Doc_ID d; Doc_SKU d; Doc_Title d; Doc_Description d; Doc_CategoryName d; Doc_Currency d] ++
     match Doc_CategoryID d with Some c => [c] | None => [] end) ∧
  in64 (Doc_PriceMinor d).

Lemma clean_writable d : clean d → @writable (λ _, "") UTC 1 (document_to_json d).
Proof.
  intros [Hs Hp]. unfold document_to_json. destruct (Doc_CategoryID d) as [c|]; cbn [app] in *;
    repeat match goal with H : Forall _ (_ :: _) |- _ => apply Forall_cons in H as [? H] end;
    apply writable_object; repeat apply List.Forall_cons; try apply List.Forall_nil; (split; [reflexivity|]); done.
Qed.

Lemma doc_text_parse d t :
  clean d → ends_number t = true →
  parse (doc_text d ++ t) = Some (@tree (λ _, "") UTC (document_to_json d), t).
Proof. intros Hd Ht. apply (parse_Marshal 1); [by apply clean_writable|vm_compute; discriminate|done]. Qed.

Lemma fold_error_None {A} (d : decoded A) : fold_error None d = d.
Proof. destruct d as [a e []]; [done|by destruct e]. Qed.

Lemma members_step {A} strict (fields : list (string * setter A)) k v ms a f b :
  field_named fields k = Some f → f v a = stored b →
  members strict fields ((k, v) :: ms) a = members strict fields ms b.
Proof. intros Hf Hv. cbn [members]. rewrite Hf, Hv. apply fold_error_None. Qed.

Ltac doc_fields :=
  cbn [zero_document Doc_ID Doc_SKU Doc_Title Doc_Description Doc_CategoryID Doc_CategoryName Doc_PriceMinor
       Doc_Currency Doc_InStock].

Ltac read_member := erewrite members_step; [|reflexivity|reflexivity]; doc_fields.
Ltac read_price p H :=
  erewrite members_step; [|reflexivity|cbn [into_int]; rewrite (ParseInt_fmt p H); reflexivity]; doc_fields.

(** A document is read as what was written of it. *)
Lemma document_read d :
  in64 (Doc_PriceMinor d) →
  object false document_fields (@tree (λ _, "") UTC (document_to_json d)) zero_document = stored d.
Proof.
  intros Hp. destruct d as [id sku title desc cat name price cur stock]. unfold document_to_json.
  cbn [Doc_ID Doc_SKU Doc_Title Doc_Description Doc_CategoryID Doc_CategoryName Doc_PriceMinor Doc_Currency Doc_InStock] in *.
  destruct cat as [c|]; cbn [app tree map fst snd object].
  - do 6 read_member. read_price price Hp. do 2 read_member. reflexivity.
  - do 5 read_member. read_price price Hp. do 2 read_member. reflexivity.
Qed.

Lemma bulkBody_ndjson index l :
  utf8 index = true → Forall clean l →
  ndjson index (bulkBody index l) ((λ d, (Doc_ID d, doc_text d)) <$> l).
Proof.
  intros Hix. induction 1 as [|d l Hd Hl IH]; [constructor|]. cbn [bulkBody foldr]. csimpl.
  assert (@writable (λ _, "") UTC 2 (actionLine index (Doc_ID d))) as Ha.
  { destruct Hd as [Hs _]. apply Forall_cons in Hs as [Hs _]. by split_and!. }
  refine (ndjson_item index (json_text (actionLine index (Doc_ID d)))
    [("_id", VString (Doc_ID d)); ("_index", VString index)] (Doc_ID d) (doc_text d) _ _ _ _ _ eq_refl eq_refl IH).
  - by apply (one_line_Marshal 2).
  - by apply (one_line_Marshal 1), clean_writable.
  - unfold json_text. rewrite <-(append_nil_r (Marshal _)). by rewrite (parse_Marshal 2).
Qed.

(** * Reading an answer *)

(** A setter that ends the reading keeps an error. *)
Definition honest {A} (f : setter A) : Prop := ∀ v a, halted (f v a) = true → saved (f v a) ≠ None.

(** A setter that leaves a projection alone. *)
Definition keeps {A B} (π : A → B) (f : setter A) : Prop :=
  ∀ v a, saved (f v a) = None → π (target (f v a)) = π a.

Section projection.
Context {A B : Type} (fields : list (string * setter A)) (π : A → B) (k : string) (b0 : B) (Q : B → Prop) (v1 : value).
Hypothesis Hhonest : ∀ k' f, field_named fields k' = Some f → honest f.
(** the other members leave the projection alone, and this one sets it *)
Hypothesis Hother : ∀ k' f, field_named fields k' = Some f → fold_name k' ≠ k → keeps π f.
Hypothesis Hset : ∃ f, field_named fields k = Some f ∧
  ∀ a, π a = b0 → saved (f v1 a) = None → Q (π (target (f v1 a))).

Lemma members_none k' v ms a :
  saved (members false fields ((k', v) :: ms) a) = None →
  match field_named fields k' with
  | None => members false fields ((k', v) :: ms) a = members false fields ms a
  | Some f => saved (f v a) = None ∧ members false fields ((k', v) :: ms) a = members false fields ms (target (f v a))
  end.
Proof.
  cbn [members]. destruct (field_named fields k') as [f|] eqn:Hf; [|done].
  destruct (halted (f v a)) eqn:Hh; [by intros H; destruct (Hhonest _ _ Hf v a Hh)|].
  destruct (saved (f v a)) as [e|] eqn:He; [|intros _; split; [done|apply fold_error_None]].
  unfold fold_error. cbn [saved]. destruct (halted (members false fields ms (target (f v a)))) eqn:Hm; [|done].
  intros H. exfalso. revert Hm H. generalize (target (f v a)) as a'. clear -Hhonest. intros a' Hm H.
  revert a' Hm H. induction ms as [|[k2 v2] ms IH]; intros a' Hm H; [done|]. cbn [members] in *.
  destruct (field_named fields k2) as [f2|] eqn:Hf2; [|by eapply IH].
  destruct (halted (f2 v2 a')) eqn:Hh2; [by destruct (Hhonest _ _ Hf2 _ _ Hh2)|].
  unfold fold_error in *. cbn [saved halted] in *. rewrite Hm in H. by eapply IH.
Qed.

Lemma members_keep ms a :
  Forall (λ m, ∀ f, field_named fields m.1 = Some f → keeps π f) ms → saved (members false fields ms a) = None →
  π (target (members false fields ms a)) = π a.
Proof.
  revert a. induction ms as [|[k' v] ms IH]; intros a Hk Hs; [done|]. apply Forall_cons in Hk as [Hk1 Hk].
  apply members_none in Hs as Hm. cbn [fst] in Hk1. destruct (field_named fields k') as [f|] eqn:Hf.
  - destruct Hm as [Hv Hm]. rewrite Hm in Hs |- *. rewrite IH by done. by apply (Hk1 f).
  - rewrite Hm in Hs |- *. by apply IH.
Qed.

(** The member of that name decides. *)
Lemma members_sole ms a :
  sole k v1 ms → π a = b0 → saved (members false fields ms a) = None →
  Q (π (target (members false fields ms a))).
Proof.
  intros (l1 & l2 & -> & Hk) Ha Hs. apply Forall_app in Hk as [Hk1 Hk2].
  revert a Ha Hs. induction l1 as [|[k' v] l1 IH]; intros a Ha Hs; cbn [app] in *.
  - apply members_none in Hs as Hm. destruct Hset as (f & Hf & Hb). rewrite Hf in Hm. destruct Hm as [Hv Hm].
    rewrite Hm in Hs |- *. rewrite members_keep; [by apply Hb| |done].
    eapply Forall_impl; [exact Hk2|]. intros m Hm' f' Hf'. by eapply Hother.
  - apply Forall_cons in Hk1 as [Hk' Hk1]. apply members_none in Hs as Hm.
    destruct (field_named fields k') as [f|] eqn:Hf.
    + destruct Hm as [Hv Hm]. rewrite Hm in Hs |- *. apply IH; [done| |done].
      by rewrite (Hother _ _ Hf Hk' _ _ Hv).
    + rewrite Hm in Hs |- *. by apply IH.
Qed.
End projection.

Lemma field_named_fold {A} (fields : list (string * setter A)) k f :
  field_named fields k = Some f → ∃ name, (name, f) ∈ fields ∧ fold_name k = fold_name name.
Proof.
  unfold field_named. destruct (list_find _ fields) as [[i [name g]]|] eqn:H.
  - intros [= <-]. apply list_find_Some in H as (Hi & Hk & _). apply String.eqb_eq in Hk. cbn in Hk.
    exists name. split; [by eapply list_elem_of_lookup_2|by subst].
  - destruct (list_find (λ p, String.eqb (fold_name k) (fold_name p.1) = true) fields) as [[i [name g]]|] eqn:H'; [|done].
    intros [= <-]. apply list_find_Some in H' as (Hi & Hk & _). apply String.eqb_eq in Hk.
    exists name. split; [by eapply list_elem_of_lookup_2|done].
Qed.

Section setters.
Context {A : Type}.

Lemma honest_total (f : setter A) : (∀ v a, halted (f v a) = false) → honest f.
Proof. intros H v a Hh. by rewrite H in Hh. Qed.

Lemma honest_int (set : Z → A → A) : honest (into_int set).
Proof. apply honest_total. intros [| |x| | |] a; try done. cbn. by destruct (ParseInt x). Qed.
Lemma honest_string (set : string → A → A) : honest (into_string set).
Proof. apply honest_total. by intros []. Qed.
Lemma honest_bool (set : bool → A → A) : honest (into_bool set).
Proof. apply honest_total. by intros []. Qed.
Lemma honest_any (set : value → A → A) : honest (into_any set).
Proof. apply honest_total. intros v a. unfold into_any. by destruct (floats_ok v). Qed.

Lemma honest_in_field {B} (get : A → B) set (f : setter B) : honest f → honest (in_field get set f).
Proof. intros H v a. unfold in_field. cbn. apply H. Qed.

Lemma honest_pointer (zero : A) (f : setter A) : honest f → honest (pointer zero f).
Proof. intros H v p. destruct v; cbn; try done; apply H. Qed.

Lemma honest_object (fields : list (string * setter A)) :
  Forall (λ p, honest p.2) fields → honest (object false fields).
Proof.
  intros Hf v a. destruct v as [| | | | |ms]; try done. cbn [object].
  revert a. induction ms as [|[k v] ms IH]; intros a; [done|]. cbn [members].
  destruct (field_named fields k) as [f|] eqn:Hk; [|apply IH].
  apply field_named_fold in Hk as (name & Hin & _).
  assert (honest f) as H by exact (proj1 (Forall_forall _ _) Hf _ Hin).
  destruct (halted (f v a)) eqn:Hh; [intros _; by apply H|].
  unfold fold_error. cbn [halted saved]. intros Hm. rewrite Hm. by apply IH.
Qed.

Lemma honest_elements (zero : A) (f : setter A) vs old :
  honest f → halted (elements zero f vs old) = true → saved (elements zero f vs old) ≠ None.
Proof.
  intros Hf. revert old. induction vs as [|v vs IH]; intros old; [done|]. cbn [elements].
  destruct (halted (f v (default zero (head old)))) eqn:Hh; [intros _; by apply Hf|].
  cbn [halted saved]. intros Hr. unfold fold_error. cbn [saved]. rewrite Hr. by apply IH.
Qed.

Lemma honest_slice (zero : A) (f : setter A) : honest f → honest (Decode.slice zero f).
Proof. intros Hf v l. destruct v; try done. by apply honest_elements. Qed.

(** The elements of a new slice, when all were read. *)
Lemma elements_read (zero : A) (f : setter A) vs :
  honest f → saved (elements zero f vs []) = None →
  Forall2 (λ v x, saved (f v zero) = None ∧ x = target (f v zero)) vs (target (elements zero f vs [])).
Proof.
  intros Hf. induction vs as [|v vs IH]; [constructor|]. cbn [elements head tail]. change (default zero None) with zero.
  destruct (halted (f v zero)) eqn:Hh; [intros H; by destruct (Hf _ _ Hh)|].
  unfold fold_error. cbn [saved target].
  destruct (halted (elements zero f vs [])) eqn:Hr; [intros H; by destruct (honest_elements _ _ _ _ Hf Hr)|].
  destruct (saved (f v zero)) as [e|] eqn:He; [done|]. intros H. constructor; [done|by apply IH].
Qed.

Lemma keeps_object {B} (π : A → B) (fields : list (string * setter A)) :
  Forall (λ p, honest p.2 ∧ keeps π p.2) fields → keeps π (object false fields).
Proof.
  intros Hf v a. destruct v as [| | | | |ms]; try done. cbn [object].
  assert (∀ k f, field_named fields k = Some f → honest f ∧ keeps π f) as Hall.
  { intros k f (name & Hin & _)%field_named_fold. exact (proj1 (Forall_forall _ _) Hf _ Hin). }
  intros Hs. apply (members_keep fields π); [intros; by eapply Hall| |done].
  apply Forall_forall. intros m _ f Hm. by apply (Hall m.1 f Hm).
Qed.
End setters.

#[local] Hint Resolve honest_int honest_string honest_bool honest_any honest_in_field honest_pointer honest_object
  honest_slice : core.
#[local] Hint Extern 5 (Forall _ (_ :: _)) => apply List.Forall_cons; cbn [snd] : core.
#[local] Hint Extern 5 (Forall _ []) => apply List.Forall_nil : core.

Lemma honest_document : honest (object false document_fields).
Proof. unfold document_fields. auto 20. Qed.

Lemma honest_hit : honest (object false hit_fields).
Proof. unfold hit_fields. pose proof honest_document. auto 20. Qed.

Lemma honest_field {A} (fields : list (string * setter A)) k f :
  Forall (λ p, honest p.2) fields → field_named fields k = Some f → honest f.
Proof. intros H (name & Hin & _)%field_named_fold. exact (proj1 (Forall_forall _ _) H _ Hin). Qed.

(** A hit is read as the document whose source it carries. *)
Lemma hit_read ds hit :
  map_Forall (λ _ d, clean d) ds → hit_of (doc_text <$> ds) hit →
  saved (object false hit_fields hit zero_document) = None →
  ∃ id d, ds !! id = Some d ∧ target (object false hit_fields hit zero_document) = d.
Proof.
  intros Hclean (ms & v & id & source & -> & Hsole & Hsrc & Hparse) Hs.
  rewrite lookup_fmap in Hsrc. destruct (ds !! id) as [d|] eqn:Hd; [|done]. injection Hsrc as <-.
  exists id, d. split; [done|]. pose proof (Hclean id d Hd) as Hc. cbv beta in Hc.
  pose proof (doc_text_parse d "" Hc eq_refl) as Hp. rewrite append_nil_r in Hp.
  assert (v = @tree (λ _, "") UTC (document_to_json d)) as -> by congruence.
  refine (members_sole hit_fields (λ x, x) "_source" zero_document (λ x, x = d) _ _ _ _ ms zero_document Hsole eq_refl Hs).
  - intros k f. apply honest_field. unfold hit_fields. pose proof honest_document. auto.
  - intros k f (name & Hin & Hfold)%field_named_fold Hne. exfalso. apply Hne.
    unfold hit_fields in Hin. apply list_elem_of_singleton in Hin as [= -> _]. done.
  - eexists. split; [reflexivity|]. intros a -> _. by rewrite document_read by apply Hc.
Qed.

Definition total_field : setter os_response := into_any (λ v r, MkOsResponse v (Hits r) (Buckets r)).
Definition hits_field : setter os_response :=
  in_field Hits (λ l r, MkOsResponse (Total r) l (Buckets r)) (Decode.slice zero_document (object false hit_fields)).
Definition hits_fields : list (string * setter os_response) := [("total", total_field); ("hits", hits_field)].

Lemma hits_fields_honest : Forall (λ p, honest p.2) hits_fields.
Proof. unfold hits_fields, total_field, hits_field. pose proof honest_hit. auto 20. Qed.

Lemma hits_fields_keep k f : field_named hits_fields k = Some f → fold_name k ≠ "hits" → keeps Hits f.
Proof.
  intros (name & Hin & Hfold)%field_named_fold Hne.
  apply elem_of_cons in Hin as [[= -> ->]|[[= -> ->]|[]%elem_of_nil]%elem_of_cons]; [|by destruct Hne].
  intros v a. unfold total_field, into_any. by destruct (floats_ok v).
Qed.

(** What is known of the hits that were read: each is a document of the index. *)
Definition from_index (ds : Index) (l : list ProductDocument) : Prop := ∀ p, p ∈ l → ∃ id, ds !! id = Some p.

Lemma hits_array ds hits a :
  map_Forall (λ _ d, clean d) ds → Forall (hit_of (doc_text <$> ds)) hits →
  Hits a = [] → saved (hits_field (VArray hits) a) = None → from_index ds (Hits (target (hits_field (VArray hits) a))).
Proof.
  intros Hclean Hhits Ha. unfold hits_field, in_field. cbn [Decode.slice saved target Hits]. rewrite Ha. intros Hs p Hp.
  pose proof (elements_read zero_document _ hits honest_hit Hs) as Hall.
  apply list_elem_of_lookup in Hp as [i Hi]. destruct (Forall2_lookup_r _ _ _ _ _ Hall Hi) as (hit & Hhit & Hsv & ->).
  destruct (hit_read ds hit Hclean) as (id & d & Hd & ->); [|done|by exists id].
  apply (proj1 (Forall_forall _ _) Hhits). by eapply list_elem_of_lookup_2.
Qed.

Lemma honest_buckets : honest (object false bucket_fields).
Proof. unfold bucket_fields. auto 20. Qed.
#[local] Hint Resolve honest_buckets : core.

Lemma hits_read ds ms hs hits :
  map_Forall (λ _ d, clean d) ds →
  sole "hits" (VObject hs) ms → sole "hits" (VArray hits) hs → Forall (hit_of (doc_text <$> ds)) hits →
  saved (object false response_fields (VObject ms) no_response) = None →
  from_index ds (Hits (target (object false response_fields (VObject ms) no_response))).
Proof.
  intros Hclean Hms Hhs Hhits Hs. pose proof hits_fields_honest as Hin.
  assert (Forall (λ p, honest p.2) response_fields) as Hout.
  { apply List.Forall_cons; [apply (honest_object hits_fields Hin)|]. apply Forall_singleton. cbn [snd]. auto 20. }
  refine (members_sole response_fields Hits "hits" [] (from_index ds) (VObject hs) _ _ _ ms no_response Hms eq_refl Hs).
  - intros k f. by apply honest_field.
  - intros k f (name & Hn & Hfold)%field_named_fold Hne.
    apply elem_of_cons in Hn as [[= -> ->]|[[= -> ->]|[]%elem_of_nil]%elem_of_cons]; [by destruct Hne|].
    apply keeps_object, Forall_singleton. split; [cbn [snd]; auto 20|].
    apply keeps_object, Forall_singleton. split; [cbn [snd]; auto 20|]. by intros v a.
  - eexists. split; [reflexivity|]. intros a Ha Hs'.
    refine (members_sole hits_fields Hits "hits" [] (from_index ds) (VArray hits) _ _ _ hs a Hhs Ha Hs').
    + intros k f. by apply honest_field.
    + apply hits_fields_keep.
    + eexists. split; [reflexivity|]. intros a' Ha' Hs2. by apply hits_array.
Qed.

(** * The client and the index *)

Section refinement.
Context {St : Type} `{HC : !HttpClient St} `{UE : UrlError} `{JT : JsonErrorText} (c : OpenSearchClient)
  `{CL : !ClusterLaws St c}.
Implicit Types (s : St) (ds : gmap string ProductDocument).

(** The engine holds exactly these documents, as the texts that were sent. *)
Record holds s (ds : gmap string ProductDocument) : Prop := {
  holds_sources : sources (c:=c) s = doc_text <$> ds;
  holds_clean : map_Forall (λ _ d, clean d) ds;
}.

(** A document that can be sent. *)
Definition sendable (d : ProductDocument) : Prop := clean d ∧ plain_id (St:=St) (c:=c) (Doc_ID d).

Lemma send_inv creating sending r env n s n' s' a :
  send creating sending r env n s = (n', s', a) →
  (s' = s ∧ ∃ e, a = Err e) ∨
  ∃ b, http_Do r env n s = (n', s', b) ∧ match b with Ok resp => a = Ok resp | Err _ => ∃ e, a = Err e end.
Proof.
  unfold send. destruct (url_error (URL r)); [intros [= <- <- <-]; left; eauto|].
  unfold map_err. destruct (http_Do r env n s) as [[n1 s1] [resp|e]]; intros [= <- <- <-]; right;
    [by exists (Ok resp)|exists (Err e); split; [done|by eexists]].
Qed.

Lemma put_all_docs l ds :
  put_all ((λ d, (Doc_ID d, doc_text d)) <$> l) (doc_text <$> ds) = doc_text <$> foldl (λ m d, <[Doc_ID d := d]> m) ds l.
Proof.
  revert ds. induction l as [|d l IH]; intros ds; [done|]. rewrite fmap_cons. unfold put_all in *. cbn [foldl fst snd].
  by rewrite <-fin_maps.fmap_insert, IH.
Qed.

Lemma clean_foldl l ds :
  map_Forall (λ _ d, clean d) ds → Forall clean l → map_Forall (λ _ d, clean d) (foldl (λ m d, <[Doc_ID d := d]> m) ds l).
Proof.
  revert ds. induction l as [|d l IH]; intros ds Hds Hl; [done|]. apply Forall_cons in Hl as [Hd Hl]. csimpl.
  apply IH; [|done]. by apply map_Forall_insert_2.
Qed.

Lemma sublist_fmap_inv {A B} (f : A → B) k l : k `sublist_of` (f <$> l) → ∃ k', k' `sublist_of` l ∧ k = f <$> k'.
Proof.
  intros H. remember (f <$> l) as m eqn:Hm. revert l Hm.
  induction H as [|y k m H IH|y k m H IH]; intros l Hm.
  - exists []. split; [apply sublist_nil_l|done].
  - destruct l as [|x l]; [done|]. injection Hm as -> ->. destruct (IH l eq_refl) as (k' & Hk & ->).
    exists (x :: k'). split; [by apply sublist_skip|done].
  - destruct l as [|x l]; [done|]. injection Hm as -> ->. destruct (IH l eq_refl) as (k' & Hk & ->).
    exists k'. split; [by apply sublist_cons|done].
Qed.

Lemma sublist_full {A} (k l : list A) : k `sublist_of` l → length k = length l → k = l.
Proof.
  induction 1 as [|x k l H IH|x k l H IH]; cbn; intros Hlen; [done|f_equal; apply IH; lia|].
  apply sublist_length in H. lia.
Qed.

Lemma IndexProduct_holds d env n s n' s' r ds :
  holds s ds → sendable d → remote_IndexProduct c d env n s = (n', s', r) →
  match r with
  | Ok _ => holds s' (<[Doc_ID d := d]> ds)
  | Err _ => holds s' ds ∨ holds s' (<[Doc_ID d := d]> ds)
  end.
Proof.
  intros [Hsrc Hcl] [Hd Hid] Hrun.
  assert (holds s ds) as Hs by done.
  assert (∀ t, sources (c:=c) t = sources (c:=c) s → holds t ds) as Hsame by (intros t Ht; split; [by rewrite Ht|done]).
  assert (∀ t, sources (c:=c) t = <[Doc_ID d := doc_text d]> (sources (c:=c) s) → holds t (<[Doc_ID d := d]> ds)) as Hdone.
  { intros t Ht. split; [by rewrite Ht, Hsrc, fin_maps.fmap_insert|by apply map_Forall_insert_2]. }
  unfold remote_IndexProduct in Hrun.
  apply bind_inv in Hrun as [(e & Hsend & ->)|(n1 & s1 & resp & Hsend & Hrun)];
    apply send_inv in Hsend as [(-> & e' & He)|(b & Hdo & Hb)]; try done; [by left| |];
    (destruct b as [resp'|e']; [|destruct Hb as [? ?]]; try done);
    apply (put_law (c:=c) (Doc_ID d)) in Hdo; try done; cbv zeta in Hdo; cbn [ReqBody request] in Hdo.
  - destruct Hdo; [left|right]; auto.
  - injection Hb as ->. unfold expect_ok in Hrun. destruct (ok_status (Status resp')); injection Hrun as <- <- <-; [auto|].
    destruct Hdo; [left|right]; auto.
Qed.

Lemma DeleteProduct_holds id env n s n' s' r ds :
  holds s ds → plain_id (St:=St) (c:=c) id → remote_DeleteProduct c id env n s = (n', s', r) →
  match r with Ok _ => holds s' (delete id ds) | Err _ => holds s' ds ∨ holds s' (delete id ds) end.
Proof.
  intros [Hsrc Hcl] Hid Hrun.
  assert (holds s ds) as Hs by done.
  assert (∀ t, sources (c:=c) t = sources (c:=c) s → holds t ds) as Hsame by (intros t Ht; split; [by rewrite Ht|done]).
  assert (∀ t, sources (c:=c) t = delete id (sources (c:=c) s) → holds t (delete id ds)) as Hdone.
  { intros t Ht. split; [by rewrite Ht, Hsrc, fin_maps.fmap_delete|by apply map_Forall_delete]. }
  unfold remote_DeleteProduct in Hrun.
  apply bind_inv in Hrun as [(e & Hsend & ->)|(n1 & s1 & resp & Hsend & Hrun)];
    apply send_inv in Hsend as [(-> & e' & He)|(b & Hdo & Hb)]; try done; [by left| |];
    (destruct b as [resp'|e']; [|destruct Hb as [? ?]]; try done);
    apply (remove_law (c:=c) id) in Hdo; try done; cbv zeta in Hdo.
  - destruct Hdo; [left|right]; auto.
  - injection Hb as ->. destruct (_ || _); injection Hrun as <- <- <-; [auto|]. destruct Hdo; [left|right]; auto.
Qed.

Lemma BulkIndex_holds l env n s n' s' r ds :
  utf8 (indexName c) = true → holds s ds → Forall clean l → remote_BulkIndex c l env n s = (n', s', r) →
  ∃ done, done `sublist_of` l ∧ holds s' (foldl (λ m d, <[Doc_ID d := d]> m) ds done) ∧
    (r = Ok tt → done = l ∨ ∃ resp, http_Do (bulk_request c l) env n s = (n', s', Ok resp) ∧ item_errors resp = true).
Proof.
  intros Hix [Hsrc Hcl] Hl Hrun.
  assert (∀ t k, k `sublist_of` l → sources (c:=c) t = put_all ((λ d, (Doc_ID d, doc_text d)) <$> k) (sources (c:=c) s) →
    holds t (foldl (λ m d, <[Doc_ID d := d]> m) ds k)) as Hdone.
  { intros t k Hk Ht. split; [by rewrite Ht, Hsrc, put_all_docs|]. apply clean_foldl; [done|].
    rewrite Forall_forall in Hl |- *. intros d Hd. apply Hl. by eapply sublist_subseteq. }
  unfold remote_BulkIndex in Hrun. destruct l as [|d l].
  { injection Hrun as <- <- <-. exists []. split; [done|]. split; [by split|by left]. }
  pose proof (bulkBody_ndjson (indexName c) (d :: l) Hix Hl) as Hnd. set (docs := d :: l) in *.
  apply bind_inv in Hrun as [(e & Hsend & ->)|(n1 & s1 & resp & Hsend & Hrun)];
    apply send_inv in Hsend as [(-> & e' & He)|(b & Hdo & Hb)]; try done.
  - exists []. split; [apply sublist_nil_l|]. split; [by split|done].
  - pose proof (bulk_items_law (c:=c) _ (bulk_request c docs) _ _ _ _ _ _ eq_refl eq_refl Hnd Hdo) as (k & Hk & Hsrc' & _).
    apply sublist_fmap_inv in Hk as (k' & Hk & ->). exists k'. split; [done|]. split; [by apply Hdone|done].
  - destruct b as [resp'|e']; [|by destruct Hb]. injection Hb as ->.
    pose proof (bulk_items_law (c:=c) _ (bulk_request c docs) _ _ _ _ _ _ eq_refl eq_refl Hnd Hdo) as (k & Hk & Hsrc' & Hall).
    apply sublist_fmap_inv in Hk as (k' & Hk & ->).
    assert (n1 = n' ∧ s1 = s' ∧ (r = Ok tt → ok_status (Status resp') = true)) as (-> & -> & Hr).
    { unfold expect_ok in Hrun. destruct (ok_status _); by injection Hrun as <- <- <-. }
    exists k'. split; [done|]. split; [by apply Hdone|]. intros Hok.
    destruct (item_errors resp') eqn:Hie; [right; by eexists|left]. specialize (Hall (Hr Hok) eq_refl).
    apply sublist_full; [done|]. apply (f_equal length) in Hall. by rewrite !length_fmap in Hall.
Qed.

Lemma Search_holds q env n s n' s' r ds :
  holds s ds → remote_Search c q env n s = (n', s', r) →
  holds s' ds ∧ match r with
                | Ok res => from_index ds (Products res) ∧ ∃ o, res = result_of q o
                | Err _ => True
                end.
Proof.
  intros Hs Hrun. pose proof Hs as [Hsrc Hcl]. unfold remote_Search in Hrun.
  apply bind_inv in Hrun as [(e & Hsend & ->)|(n1 & s1 & resp & Hsend & Hrun)];
    apply send_inv in Hsend as [(-> & e' & He)|(b & Hdo & Hb)]; try done;
    pose proof (hits_law (c:=c) (request c "POST" _ _ _) _ _ _ _ _ _ eq_refl eq_refl Hdo) as [Hs1 Hans].
  - split; [|done]. split; [by rewrite Hs1|done].
  - destruct b as [resp'|e']; [|by destruct Hb]. injection Hb as ->.
    assert (s1 = s') as -> .
    { unfold expect_ok, bind in Hrun. destruct (ok_status _); [|by injection Hrun].
      unfold ret at 1 in Hrun. cbv zeta in Hrun. destruct (saved _); by injection Hrun. }
    split; [split; [by rewrite Hs1|done]|]. unfold expect_ok in Hrun.
    destruct (ok_status (Status resp')); [|by injection Hrun as <- <-].
    rewrite (bind_ok (ret tt) _ _ _ _ _ _ _ eq_refl) in Hrun. cbv zeta in Hrun.
    destruct (Hans eq_refl) as (text & ms & rest & hs & hits & Hbody & Hparse & Hms & Hhs & Hhits).
    rewrite Hbody in Hrun. unfold decode_stream, Decode in Hrun. rewrite Hparse in Hrun.
    destruct (saved (object false response_fields (VObject ms) no_response)) as [e|] eqn:Hsv; injection Hrun as <- <-; [done|].
    split; [|by eexists]. rewrite Hsrc in Hhits. cbn [result_of Products].
    by apply (hits_read ds ms hs hits).
Qed.

Lemma TotalPages_ceiling q o :
  0 <= totalHits (Total o) <= MaxInt64 - 100 →
  TotalPages (result_of q o) = total_pages q (TotalHits (result_of q o)).
Proof.
  intros H. cbn [result_of TotalPages TotalHits]. pose proof (page_size_bounds q). unfold total_pages.
  set (t := totalHits (Total o)) in *. unfold MaxInt64 in *. destruct (Z.ltb_spec 0 t).
  - rewrite (add64_id t (page_size q)) by (unfold in64, MinInt64, MaxInt64; lia).
    rewrite (sub64_id (t + page_size q) 1) by (unfold in64, MinInt64, MaxInt64; lia).
    apply Z.quot_div_nonneg; lia.
  - assert (t = 0) as -> by lia. rewrite Z.div_small; lia.
Qed.

End refinement.

(** * The two clients select the same documents *)

(** Which documents a clause of a query selects, as the query language documents it. *)
Class Selects := selects : json → ProductDocument → bool.

Class SelectsLaws `{Selects} := {
  term_category c d : selects (term "category_id" (JString c)) d = bool_decide (Doc_CategoryID d = Some c);
  term_stock b d : selects (term "in_stock" (JBool b)) d = Bool.eqb (Doc_InStock d) b;
  range_price bounds d :
    selects (JObject [("range", JObject [("price_minor", JObject bounds)])]) d =
    forallb (λ p, match p with
                  | ("gte", JInt m) => m <=? Doc_PriceMinor d
                  | ("lte", JInt m) => Doc_PriceMinor d <=? m
                  | _ => true
                  end) bounds;
}.

(** The filters agree.  A document is selected by the filter clauses of the remote
    client exactly when it passes the filters of the client in memory, unless the query
    asks for products that are out of stock: the one then answers those only, and the
    other, whose interface says "in_stock == true", all. *)
Theorem filters_agree `{SE : Selects, SL : !SelectsLaws} q d :
  forallb (λ j, selects j d) (filterClauses q) =
  passes q d && match InStockOnly q with Some false => negb (Doc_InStock d) | _ => true end.
Proof.
  unfold filterClauses, passes. destruct q as [text cat lo hi stock page size].
  cbn [CategoryID MinPriceMinor MaxPriceMinor InStockOnly]. rewrite !forallb_app.
  assert (forallb (λ j, selects j d) match cat with Some c => [term "category_id" (JString c)] | None => [] end =
    match cat with
    | Some c => match Doc_CategoryID d with Some c' => String.eqb c' c | None => false end
    | None => true
    end) as ->.
  { destruct cat as [c|]; [|done]. cbn [forallb]. rewrite term_category, andb_true_r.
    destruct (Doc_CategoryID d) as [c'|]; [|done]. destruct (String.eqb_spec c' c) as [->|Hne];
      [by apply bool_decide_true|apply bool_decide_false; congruence]. }
  assert (forallb (λ j, selects j d) match stock with Some b => [term "in_stock" (JBool b)] | None => [] end =
    match stock with Some b => Bool.eqb (Doc_InStock d) b | None => true end) as ->.
  { destruct stock as [b|]; [|done]. cbn [forallb]. by rewrite term_stock, andb_true_r. }
  destruct lo as [lo|], hi as [hi|]; cbn [forallb app]; rewrite ?range_price; cbn [forallb];
    rewrite ?Z.leb_antisym, ?andb_true_r; destruct stock as [[]|], (Doc_InStock d); cbn [Bool.eqb negb];
    rewrite ?andb_true_r, ?andb_false_r, ?andb_assoc; done.
Qed.

(** * An engine

    One that keeps documents, refuses what is none, and answers every search with all of
    them. *)

Section engine.
Context (c : OpenSearchClient).

#[local] Instance clean_dec d : Decision (clean d).
Proof. unfold clean, in64. apply _. Defined.

Definition decode_doc (text : string) : option ProductDocument :=
  let d := Unmarshal (object false document_fields) text zero_document in
  match saved d with
  | None => if bool_decide (clean (target d) ∧ doc_text (target d) = text) then Some (target d) else None
  | Some _ => None
  end.

Lemma decode_doc_spec text d : decode_doc text = Some d → clean d ∧ doc_text d = text.
Proof.
  unfold decode_doc. cbv zeta. destruct (saved _); [done|]. destruct (bool_decide _) eqn:H; [|done].
  intros [= <-]. by apply bool_decide_eq_true in H.
Qed.

(** The first line, and what follows it. *)
Fixpoint cut_line (s : string) : option (string * string) :=
  match s with
  | EmptyString => None
  | String a r =>
      if ascii_dec a newline then Some ("", r) else '(x, rest) ← cut_line r; Some (String a x, rest)
  end.

Fixpoint read_items (fuel : nat) (s : string) : option (list (string * string)) :=
  match fuel, s with
  | _, EmptyString => Some []
  | O, _ => None
  | S fuel, _ =>
      '(action, s) ← cut_line s;
      '(source, s) ← cut_line s;
      match parse action with
      | Some (VObject [("index", VObject ms)], "") =>
          match member_of "_id" ms, member_of "_index" ms with
          | Some (VString id), Some (VString index) =>
              if String.eqb index (indexName c) then l ← read_items fuel s; Some ((id, source) :: l) else None
          | _, _ => None
          end
      | _ => None
      end
  end.

Lemma cut_line_line x rest : one_line x = true → cut_line (line x ++ rest) = Some (x, rest).
Proof.
  unfold line. rewrite append_assoc. induction x as [|a x IH]; [done|]. cbn [one_line].
  intros [Ha Hx]%andb_true_iff. change (String a x ++ ?y)%string with (String a (x ++ y)). cbn [cut_line].
  destruct (ascii_dec a newline); [done|]. by rewrite IH.
Qed.

Lemma read_items_ndjson body items fuel :
  ndjson (indexName c) body items → (length items <= fuel)%nat → read_items fuel body = Some items.
Proof.
  intros H. revert fuel. induction H as [|action ms id source rest items Ha Hs Hp Hid Hix H IH]; intros fuel Hf; [by destruct fuel|].
  destruct fuel as [|fuel]; [cbn in Hf; lia|]. cbn [length] in Hf.
  assert (∃ a r, (line action ++ line source ++ rest)%string = String a r) as (a & r & Heq).
  { unfold line. destruct action; by eexists _, _. }
  rewrite Heq. cbn [read_items]. rewrite <-Heq, cut_line_line by done. cbn [mbind option_bind].
  rewrite cut_line_line by done. cbn [mbind option_bind]. rewrite Hp, Hid, Hix, String.eqb_refl.
  by rewrite IH by lia.
Qed.

Definition hits_json (l : list ProductDocument) : json :=
  JObject [("hits", JObject [("total", JObject [("value", JInt (Z.of_nat (length l)))]);
                             ("hits", JArray ((λ d, JObject [("_id", JString (Doc_ID d)); ("_source", document_to_json d)]) <$> l))])].

Definition engine_answer (r : HttpRequest) (s : Index) : Index * HttpResponse :=
  let ok body := MkHttpResponse 200 (Bytes body) in
  let refused := MkHttpResponse 400 (Bytes "") in
  match drop_prefix (doc_url c "") (URL r) with
  | Some id =>
      if String.eqb (Method r) "PUT" then
        match decode_doc (ReqBody r) with Some d => (<[id := d]> s, ok "") | None => (s, refused) end
      else if String.eqb (Method r) "DELETE" then (delete id s, ok "")
      else (s, refused)
  | None =>
      if String.eqb (URL r) (baseURL c ++ "/_bulk") then
        match read_items (String.length (ReqBody r)) (ReqBody r) with
        | Some items =>
            match mapM (λ i, d ← decode_doc i.2; Some (i.1, d)) items with
            | Some docs =>
                (foldl (λ m i, <[i.1 := i.2]> m) s docs, ok (json_text (JObject [("errors", JBool false)])))
            | None => (s, refused)
            end
        | None => (s, refused)
        end
      else if String.eqb (URL r) (index_url c ++ "/_search")
              && bool_decide (map_Forall (λ _ d, clean d) s ∧ Z.of_nat (size s) <= MaxInt64)
      then (s, ok (json_text (hits_json (map_to_list s).*2)))
      else (s, refused)
  end.

Definition engine_Do : HttpClient Index := λ r env n s,
  match env_fault env n with
  | Some m => (S n, s, Err (ErrDriver m))
  | None => (S n, (engine_answer r s).1, Ok (engine_answer r s).2)
  end.
End engine.

Definition ex_client : OpenSearchClient :=
  MkOpenSearchClient "http://search:9200" "shopflow_products" "" "" (5 * Second).

#[local] Instance ex_Do : HttpClient Index := engine_Do ex_client.
#[local] Instance ex_url : UrlError := λ _, None.
#[local] Instance ex_json_error : JsonErrorText := λ _, "malformed".

Lemma drop_prefix_app p s : drop_prefix p (p ++ s) = Some s.
Proof.
  induction p as [|a p IH]; [done|]. change (String a p ++ s)%string with (String a (p ++ s)).
  cbn [drop_prefix]. by destruct (ascii_dec a a).
Qed.

Lemma drop_doc_url id : drop_prefix (doc_url ex_client "") (doc_url ex_client id) = Some id.
Proof. exact (drop_prefix_app (doc_url ex_client "") id). Qed.

Lemma ex_Do_inv r env n s n' s' a :
  http_Do r env n s = (n', s', a) →
  (s' = s ∧ ∃ e, a = Err e) ∨ ∃ resp, a = Ok resp ∧ engine_answer ex_client r s = (s', resp).
Proof.
  unfold http_Do, ex_Do, engine_Do. destruct (env_fault env n); intros [= <- <- <-]; [left; eauto|right].
  eexists. split; [done|]. by destruct (engine_answer ex_client r s).
Qed.

(** What is read of a bulk is stored as it was sent. *)
Lemma stored_items items docs (s : gmap string ProductDocument) :
  mapM (λ i, d ← decode_doc i.2; Some (i.1, d)) items = Some docs →
  doc_text <$> foldl (λ m i, <[i.1 := i.2]> m) s docs = put_all items (doc_text <$> s).
Proof.
  revert docs s. induction items as [|[id source] items IH]; intros docs s; [by intros [= <-]|].
  cbn [mapM]. cbn [fst snd]. destruct (decode_doc source) as [d|] eqn:Hd; [|done]. cbn [mbind option_bind].
  destruct (mapM _ items) as [docs'|] eqn:Hm; [|done]. intros [= <-]. cbn [foldl fst snd].
  apply decode_doc_spec in Hd as [_ <-]. rewrite (IH _ _ eq_refl). unfold put_all. cbn [foldl fst snd].
  by rewrite fin_maps.fmap_insert.
Qed.

Lemma hits_answer (s : gmap string ProductDocument) :
  map_Forall (λ _ d, clean d) s → Z.of_nat (size s) <= MaxInt64 →
  answers (doc_text <$> s) (MkHttpResponse 200 (Bytes (json_text (hits_json (map_to_list s).*2)))).
Proof.
  intros Hs Hsize. set (l := (map_to_list s).*2).
  assert (∀ d, d ∈ l → ∃ id, s !! id = Some d) as Hl.
  { intros d ([id d'] & -> & Hd)%list_elem_of_fmap. exists id. by apply elem_of_map_to_list. }
  assert (Z.of_nat (length l) <= MaxInt64) as Hlen by (subst l; by rewrite length_fmap, length_map_to_list).
  assert (@writable (λ _, "") UTC 5 (hits_json l)) as Hw.
  { apply writable_object, Forall_singleton. split; [done|]. apply writable_object, Forall_cons. split; [split; [done|]|].
    { apply writable_object, Forall_singleton. split; [done|]. cbn. unfold in64, MinInt64. lia. }
    apply Forall_singleton. split; [done|]. apply writable_array. apply Forall_fmap, Forall_forall.
    intros d (id & Hd)%Hl. pose proof (Hs _ _ Hd) as Hc. cbv beta in Hc. apply writable_object, Forall_cons.
    split; [split; [done|]; destruct Hc as [Hc _]; by apply Forall_cons in Hc as [Hc _]|].
    apply Forall_singleton. split; [done|]. by apply clean_writable. }
  pose proof (parse_Marshal 5 (hits_json l) "" Hw ltac:(by vm_compute) eq_refl) as Hp. rewrite append_nil_r in Hp.
  set (source d := @tree (λ _, "") UTC (document_to_json d)).
  eexists _, _, "", _, ((λ d, VObject [("_id", VString (Doc_ID d)); ("_source", source d)]) <$> l).
  split; [reflexivity|]. split; [exact Hp|]. cbn [map fst snd].
  split; [exists [], []; split; [reflexivity|constructor]|].
  split.
  { eexists [_], []. split; [cbn [app tree]; do 2 f_equal; f_equal; by rewrite map_map|].
    apply Forall_singleton. done. }
  apply Forall_fmap, Forall_forall. intros d (id & Hd)%Hl. pose proof (Hs _ _ Hd) as Hc. cbv beta in Hc.
  eexists _, (source d), id, (doc_text d). split; [reflexivity|]. split.
  { exists [("_id", VString (Doc_ID d))], []. split; [done|]. by apply Forall_singleton. }
  split; [by rewrite lookup_fmap, Hd|]. rewrite <-(append_nil_r (doc_text d)). by apply doc_text_parse.
Qed.

Lemma ndjson_length index body items : ndjson index body items → (length items <= String.length body)%nat.
Proof.
  induction 1 as [|action ms id source rest items _ _ _ _ _ _ IH]; [done|].
  unfold line. rewrite !length_append. cbn. lia.
Qed.

#[local] Program Instance ex_cluster : ClusterLaws Index ex_client :=
  {| sources := λ s : gmap string ProductDocument, doc_text <$> s; plain_id := λ _, True |}.
Next Obligation.
  intros id r env n s n' s' a _ Hm Hu Hrun. cbv zeta.
  apply ex_Do_inv in Hrun as [(-> & e & ->)|(resp & -> & Hans)]; [by left|].
  unfold engine_answer in Hans. rewrite Hu, drop_doc_url, Hm in Hans. cbn [String.eqb] in Hans.
  change (String.eqb "PUT" "PUT") with true in Hans. cbn iota in Hans.
  destruct (decode_doc (ReqBody r)) as [d|] eqn:Hd; injection Hans as <- <-; cbn; [|by left].
  apply decode_doc_spec in Hd as [_ <-]. exact (fin_maps.fmap_insert doc_text (s : gmap string _) id d).
Qed.
Next Obligation.
  intros id r env n s n' s' a _ Hm Hu Hrun. cbv zeta.
  apply ex_Do_inv in Hrun as [(-> & e & ->)|(resp & -> & Hans)]; [by left|].
  unfold engine_answer in Hans. rewrite Hu, drop_doc_url, Hm in Hans.
  change (String.eqb "DELETE" "PUT") with false in Hans. change (String.eqb "DELETE" "DELETE") with true in Hans.
  cbn iota in Hans. injection Hans as <- <-. cbn. exact (fin_maps.fmap_delete doc_text (s : gmap string _) id).
Qed.
Next Obligation.
  intros items r env n s n' s' a Hm Hu Hnd Hrun.
  apply ex_Do_inv in Hrun as [(-> & e & ->)|(resp & -> & Hans)]; [exists []; split; [apply sublist_nil_l|done]|].
  unfold engine_answer in Hans. rewrite Hu in Hans.
  change (drop_prefix (doc_url ex_client "") (baseURL ex_client ++ "/_bulk")) with (@None string) in Hans.
  change (String.eqb (baseURL ex_client ++ "/_bulk") (baseURL ex_client ++ "/_bulk")) with true in Hans. cbn iota in Hans.
  rewrite (read_items_ndjson ex_client _ items) in Hans by (done || by eapply ndjson_length).
  destruct (mapM _ items) as [docs|] eqn:Hdocs; injection Hans as <- <-.
  - exists items. split; [done|]. split; [by apply stored_items|done].
  - exists []. split; [apply sublist_nil_l|]. by split.
Qed.
Next Obligation.
  intros r env n s n' s' a Hm Hu Hrun.
  apply ex_Do_inv in Hrun as [(-> & e & ->)|(resp & -> & Hans)]; [done|].
  unfold engine_answer in Hans. rewrite Hu in Hans.
  change (drop_prefix (doc_url ex_client "") (index_url ex_client ++ "/_search")) with (@None string) in Hans.
  change (String.eqb (index_url ex_client ++ "/_search") (baseURL ex_client ++ "/_bulk")) with false in Hans.
  change (String.eqb (index_url ex_client ++ "/_search") (index_url ex_client ++ "/_search")) with true in Hans.
  cbn iota in Hans. cbn [andb] in Hans. destruct (bool_decide _) eqn:Hc; injection Hans as <- <-; [|by split].
  apply bool_decide_eq_true in Hc as [Hc Hsize]. split; [done|]. intros _. by apply hits_answer.
Qed.

(** Two documents are sent in bulk and found again. *)
Definition ex_hat : ProductDocument :=
  MkProductDocument "h1" "SKU-1" ("a <red> hat " ++ byte 195 ++ byte 169) "" (Some "c1") "hats" 1250 "USD" true.
Definition ex_mug : ProductDocument := MkProductDocument "m1" "SKU-2" "mug" "" None "" 900 "USD" false.

Definition ex_indexed : Index := final (remote_BulkIndex ex_client [ex_hat; ex_mug] (calm_env 0 0) 0%nat (∅ : Index)).


(** A query language with the documented clauses; a query that asks for what is out of
    stock is answered differently by the two clients. *)
#[local] Instance ex_selects : Selects := λ j d,
  match j with
  | JObject [("term", JObject [("category_id", JString c)])] => bool_decide (Doc_CategoryID d = Some c)
  | JObject [("term", JObject [("in_stock", JBool b)])] => Bool.eqb (Doc_InStock d) b
  | JObject [("range", JObject [("price_minor", JObject bounds)])] =>
      forallb (λ p, match p with
                    | ("gte", JInt m) => m <=? Doc_PriceMinor d
                    | ("lte", JInt m) => Doc_PriceMinor d <=? m
                    | _ => true
                    end) bounds
  | _ => true
  end.

#[local] Instance ex_selects_laws : SelectsLaws.
Proof. by split. Qed.

Lemma filters_agree_witness :
  let q stock := MkQuery "" None (Some 1000) (Some 2000) stock 1 20 in
  forallb (λ j, selects j ex_hat) (filterClauses (q None)) = true ∧
  passes (q (Some false)) ex_hat = true ∧ forallb (λ j, selects j ex_hat) (filterClauses (q (Some false))) = false.
Proof.
  cbv zeta. rewrite !filters_agree. by vm_compute.
Defined.
