(* ===== verification/Catalog.v ===== *)
(** internal/domain/catalog/models.go: products, and the read interface the order
    and cart components use. *)

From S2P Require Import Prelude Money.

Inductive error : Type :=
| ErrProductNotFound
| ErrCategoryNotFound
| ErrDuplicateSKU
| ErrDuplicateSlug
| ErrOptimisticLockConflict
| ErrInvalidSKU
| ErrInvalidTitle
| ErrInvalidPrice
| ErrInactiveProduct
| ErrProductImageNotFound
| ErrDriver (msg : string)
| Panic (msg : string).   (** not an error: a panic of the search client on its way up *)

Definition Error (e : error) : string :=
  match e with
  | ErrProductNotFound => "product not found"
  | ErrCategoryNotFound => "category not found"
  | ErrDuplicateSKU => "product SKU already exists"
  | ErrDuplicateSlug => "category slug already exists"
  | ErrOptimisticLockConflict => "optimistic lock conflict: entity version mismatch"
  | ErrInvalidSKU => "SKU must be between 3 and 64 alphanumeric characters"
  | ErrInvalidTitle => "title cannot be empty or exceed 255 characters"
  | ErrInvalidPrice => "price must be greater than zero"
  | ErrInactiveProduct => "product is inactive"
  | ErrProductImageNotFound => "product image not found"
  | ErrDriver msg | Panic msg => msg
  end%string.

#[export] Instance error_GoError : GoError error :=
  {| error_text := Error; driver_error := ErrDriver; driver_error_text := λ _, eq_refl |}.

Record Category := MkCategory {
  Category_ID : uuid;
  Category_Slug : string;
  Category_Name : string;
  Category_Description : string;
  Category_CreatedAt : Z;
  Category_UpdatedAt : Z;
}.

Record ProductImage := MkProductImage {
  Image_ID : uuid;
  Image_ProductID : uuid;
  Image_StorageKey : string;
  Image_URL : string;
  Image_ContentType : string;
  Image_SizeBytes : Z;
  Image_IsPrimary : bool;
  Image_SortOrder : Z;
  Image_CreatedAt : Z;
}.

Record Product := MkProduct {
  Product_ID : uuid;
  Product_CategoryID : option uuid;
  Product_SKU : string;
  Product_Title : string;
  Product_Description : string;
  Product_PriceMinor : Z;
  Product_Currency : string;
  Product_Price : Money.Money;
  Product_IsActive : bool;
  Product_Version : Z;
  Product_Images : list ProductImage;
  Product_CreatedAt : Z;
  Product_UpdatedAt : Z;
}.

(** [CatalogReader]: what one call of each method returns.  A client's theorems
    hold for every reader. *)
Class CatalogReader := {
  GetProduct : uuid → result error Product;
  GetProductBySKU : string → result error Product;
  GetProductsBySKUs : list string → result error (list Product);
}.

(** A product for the examples. *)
Definition ex_product (sku : string) (price : Z) : Product :=
  MkProduct 1 None sku ("Title of " ++ sku)%string "" price "USD" (Money.MkMoney price "USD")
    true 1 [] 0 0.

(** A reader that knows the given products. *)
Definition ex_reader (l : list Product) : CatalogReader := {|
  GetProduct := λ id, match list_find (λ p, Product_ID p = id) l with
                      | Some (_, p) => Ok p | None => Err ErrProductNotFound end;
  GetProductBySKU := λ sku, match list_find (λ p, Product_SKU p = sku) l with
                            | Some (_, p) => Ok p | None => Err ErrProductNotFound end;
  GetProductsBySKUs := λ skus, Ok (filter (λ p, Product_SKU p ∈ skus) l);
|}.
