(* ===== verification/CatalogStore.v ===== *)
(** internal/domain/catalog/repository.go: the tables of products, categories and images,
    and the pages of the product list.

    The tables are those of migrations/00001 and 00008.  A TIMESTAMPTZ counts
    microseconds.  The driver hands a time over in the local zone ([Location]), and the
    text of an identifier is read back by the package google/uuid ([UuidParse]). *)

From S2P Require Import Prelude Strconv Database Money Timestamp Catalog.

(** * Tables *)

Record category_row := MkCategoryRow {
  slug : string;
  name : string;
  cat_description : string;
  cat_created_at : Z;
  cat_updated_at : Z;
}.

Record product_row := MkProductRow {
  category_id : option uuid;
  sku : string;
  title : string;
  description : string;
  price_minor : Z;
  currency : string;
  is_active : bool;
  version : Z;
  created_at : Z;
  updated_at : Z;
}.

Record image_row := MkImageRow {
  product_id : uuid;
  storage_key : string;
  url : string;
  content_type : string;
  size_bytes : Z;
  is_primary : bool;
  sort_order : Z;
  img_created_at : Z;
}.

Record State := MkState {
  categories : gmap uuid category_row;
  products : gmap uuid product_row;
  product_images : gmap uuid image_row;
}.

Definition empty_state : State := MkState ∅ ∅ ∅.
Definition set_categories (s : State) m : State := MkState m (products s) (product_images s).
Definition set_products (s : State) m : State := MkState (categories s) m (product_images s).
Definition set_images (s : State) m : State := MkState (categories s) (products s) m.

(** An instant as a column keeps it. *)
Definition timestamptz (t : Z) : Z := t / 1000 * 1000.

(** What the column types accept. *)
Definition category_fits (r : category_row) : bool := varchar_ok 64 (slug r) && varchar_ok 128 (name r).
Definition product_fits (r : product_row) : bool :=
  varchar_ok 64 (sku r) && varchar_ok 255 (title r) && varchar_ok 3 (currency r) &&
  int8_ok (price_minor r) && int8_ok (version r).
Definition image_fits (r : image_row) : bool :=
  varchar_ok 512 (storage_key r) && varchar_ok 1024 (url r) && varchar_ok 64 (content_type r) &&
  int8_ok (size_bytes r) && int4_ok (sort_order r).

Definition pg_type : string := "value too long or out of range for its type".
Definition pg_check : string := "new row violates a check constraint".
Definition pg_unique : string := "duplicate key value violates unique constraint".
Definition pg_fk : string := "insert or update violates foreign key constraint".

(** The unique columns. *)
Definition sku_taken (s : State) (k : string) : bool :=
  existsb (λ p, String.eqb (sku p.2) k) (map_to_list (products s)).
Definition slug_taken (s : State) (k : string) : bool :=
  existsb (λ p, String.eqb (slug p.2) k) (map_to_list (categories s)).
Definition storage_key_taken (s : State) (k : string) : bool :=
  existsb (λ p, String.eqb (storage_key p.2) k) (map_to_list (product_images s)).

(** [category_id] is NULL or references a category. *)
Definition category_known (s : State) (c : option uuid) : bool :=
  match c with Some id => bool_decide (is_Some (categories s !! id)) | None => true end.

Definition op := M State error.

(** * Products *)

Section repository.
Local Open Scope go_scope.

Definition to_product (id : uuid) (r : product_row) : Product :=
  MkProduct id (category_id r) (sku r) (title r) (description r) (price_minor r) (currency r)
    (Money.MkMoney (price_minor r) (currency r)) (is_active r) (version r) [] (created_at r) (updated_at r).

(** [CreateProduct] *)
Definition CreateProduct (p : Product) : op Product :=
  let* id := if (Product_ID p =? uuid_Nil)%N then uuid_New else ret (Product_ID p) in
  let priceMinor := Money.Amount (Product_Price p) in
  let cur := Money.Currency (Product_Price p) in
  sql "create product: " (λ now s,
    let r := MkProductRow (Product_CategoryID p) (Product_SKU p) (Product_Title p)
               (Product_Description p) priceMinor cur (Product_IsActive p) 1
               (timestamptz now) (timestamptz now) in
    if negb (product_fits r) then Err (ErrDriver ("create product: " ++ pg_type)%string) else
    if negb (0 <? price_minor r) then Err (ErrDriver ("create product: " ++ pg_check)%string) else
    if bool_decide (is_Some (products s !! id)) || sku_taken s (sku r) then Err ErrDuplicateSKU else
    if negb (category_known s (category_id r)) then Err ErrCategoryNotFound else
    Ok (set_products s (<[id := r]> (products s)),
        MkProduct id (Product_CategoryID p) (Product_SKU p) (Product_Title p) (Product_Description p)
          priceMinor cur (Product_Price p) (Product_IsActive p) 1 (Product_Images p)
          (created_at r) (updated_at r))).

Definition GetProductByID (id : uuid) : op Product :=
  sql "get product by id: " (λ _ s,
    match products s !! id with
    | Some r => Ok (s, to_product id r)
    | None => Err ErrProductNotFound
    end).

Definition product_of_sku (s : State) (k : string) : option (uuid * product_row) :=
  snd <$> list_find (λ p, sku p.2 = k) (map_to_list (products s)).

Definition GetProductBySKU (k : string) : op Product :=
  sql "get product by sku: " (λ _ s,
    match product_of_sku s k with
    | Some (id, r) => Ok (s, to_product id r)
    | None => Err ErrProductNotFound
    end).

Definition sku_before (x y : uuid * product_row) : Prop := String.le (sku x.2) (sku y.2).
#[export] Instance sku_before_dec : RelDecision sku_before.
Proof. intros x y. unfold sku_before. apply _. Defined.

(** WHERE sku = ANY($1) ORDER BY sku ASC *)
Definition GetProductsBySKUs (skus : list string) : op (list Product) :=
  match skus with
  | [] => ret []
  | _ =>
      sql "get products by skus: " (λ _ s,
        Ok (s, (λ p, to_product p.1 p.2) <$>
               merge_sort sku_before (filter (λ p, sku p.2 ∈ skus) (map_to_list (products s)))))
  end.

(** [SELECT EXISTS(...)], whose error is ignored, after an update that matched no row. *)
Definition why_no_row (id : uuid) : op Product :=
  let* r := try (sql "" (λ _ s, Ok (s, bool_decide (is_Some (products s !! id))))) in
  match r with
  | Ok true => fail ErrOptimisticLockConflict
  | _ => fail ErrProductNotFound
  end.

(** [UPDATE products SET ... WHERE id = $5 AND version = $6 RETURNING ...]; [f] is the
    change of the other columns. *)
Definition update_row (what : string) (id : uuid) (expectedVersion : Z) (f : product_row → product_row) :
    op Product :=
  let* updated := sql what (λ now s,
    match products s !! id with
    | Some r0 =>
        if decide (version r0 = expectedVersion) then
          let r1 := f r0 in
          let r := MkProductRow (category_id r1) (sku r1) (title r1) (description r1) (price_minor r1)
                     (currency r1) (is_active r1) (version r0 + 1) (created_at r0) (timestamptz now) in
          if negb (product_fits r) then Err (ErrDriver (what ++ pg_type)%string) else
          if negb (0 <? price_minor r) then Err (ErrDriver (what ++ pg_check)%string) else
          if negb (bool_decide (category_id r = category_id r0) || category_known s (category_id r))
          then Err ErrCategoryNotFound else
          Ok (set_products s (<[id := r]> (products s)), Some (to_product id r))
        else Ok (s, None)
    | None => Ok (s, None)
    end) in
  match updated with
  | Some p => ret p
  | None => why_no_row id
  end.

Definition UpdateProduct (id : uuid) (t d : string) (categoryID : option uuid) (isActive : bool)
    (expectedVersion : Z) : op Product :=
  update_row "update product: " id expectedVersion (λ r,
    MkProductRow categoryID (sku r) t d (price_minor r) (currency r) isActive (version r)
      (created_at r) (updated_at r)).

Definition UpdateProductPrice (id : uuid) (priceMinor : Z) (cur : string) (expectedVersion : Z) :
    op Product :=
  update_row "update product price: " id expectedVersion (λ r,
    MkProductRow (category_id r) (sku r) (title r) (description r) priceMinor cur (is_active r)
      (version r) (created_at r) (updated_at r)).

(** * Categories *)

Definition to_category (id : uuid) (r : category_row) : Category :=
  MkCategory id (slug r) (name r) (cat_description r) (cat_created_at r) (cat_updated_at r).

Definition CreateCategory (c : Category) : op Category :=
  let* id := if (Category_ID c =? uuid_Nil)%N then uuid_New else ret (Category_ID c) in
  sql "create category: " (λ now s,
    let r := MkCategoryRow (Category_Slug c) (Category_Name c) (Category_Description c)
               (timestamptz now) (timestamptz now) in
    if negb (category_fits r) then Err (ErrDriver ("create category: " ++ pg_type)%string) else
    if bool_decide (is_Some (categories s !! id)) || slug_taken s (slug r) then Err ErrDuplicateSlug else
    Ok (set_categories s (<[id := r]> (categories s)), to_category id r)).

Definition GetCategoryByID (id : uuid) : op Category :=
  sql "get category by id: " (λ _ s,
    match categories s !! id with
    | Some r => Ok (s, to_category id r)
    | None => Err ErrCategoryNotFound
    end).

Definition name_before (x y : uuid * category_row) : Prop := String.le (name x.2) (name y.2).
#[export] Instance name_before_dec : RelDecision name_before.
Proof. intros x y. unfold name_before. apply _. Defined.

Definition ListCategories : op (list Category) :=
  sql "list categories: " (λ _ s,
    Ok (s, (λ p, to_category p.1 p.2) <$> merge_sort name_before (map_to_list (categories s)))).

(** * Images *)

Definition to_image (id : uuid) (r : image_row) : ProductImage :=
  MkProductImage id (product_id r) (storage_key r) (url r) (content_type r) (size_bytes r)
    (is_primary r) (sort_order r) (img_created_at r).

Definition not_primary (r : image_row) : image_row :=
  MkImageRow (product_id r) (storage_key r) (url r) (content_type r) (size_bytes r) false
    (sort_order r) (img_created_at r).

(** [UPDATE product_images SET is_primary = FALSE WHERE product_id = $1] *)
Definition unset_primary (productID : uuid) : op unit :=
  sql "" (λ _ s,
    Ok (set_images s ((λ r, if decide (product_id r = productID) then not_primary r else r)
                        <$> product_images s), tt)).

(** The INSERT. *)
Definition insert_image (id : uuid) (img : ProductImage) : op ProductImage :=
  sql "add product image: " (λ now s,
    let r := MkImageRow (Image_ProductID img) (Image_StorageKey img) (Image_URL img)
               (Image_ContentType img) (Image_SizeBytes img) (Image_IsPrimary img)
               (Image_SortOrder img) (timestamptz now) in
    let refuse why := Err (ErrDriver ("add product image: " ++ why)%string) in
    if negb (image_fits r) then refuse pg_type else
    if negb (0 <? size_bytes r) then refuse pg_check else
    if bool_decide (is_Some (product_images s !! id)) || storage_key_taken s (storage_key r)
    then refuse pg_unique else
    if bool_decide (products s !! product_id r = None) then refuse pg_fk else
    Ok (set_images s (<[id := r]> (product_images s)), to_image id r)).

(** [AddProductImage]: two statements, the first of which may fail unnoticed. *)
Definition AddProductImage (img : ProductImage) : op ProductImage :=
  let* id := if (Image_ID img =? uuid_Nil)%N then uuid_New else ret (Image_ID img) in
  let* _ := if Image_IsPrimary img then try (unset_primary (Image_ProductID img)) else ret (Ok tt) in
  insert_image id img.

Definition image_before (x y : uuid * image_row) : Prop :=
  sort_order x.2 < sort_order y.2 ∨
  (sort_order x.2 = sort_order y.2 ∧ img_created_at x.2 <= img_created_at y.2).
#[export] Instance image_before_dec : RelDecision image_before.
Proof. intros x y. unfold image_before. apply _. Defined.

Definition GetProductImages (productID : uuid) : op (list ProductImage) :=
  sql "get product images: " (λ _ s,
    Ok (s, (λ p, to_image p.1 p.2) <$>
           merge_sort image_before
             (filter (λ p, product_id p.2 = productID) (map_to_list (product_images s))))).

(** The image WHERE id = $1 AND product_id = $2. *)
Definition image_of (s : State) (productID imageID : uuid) : option image_row :=
  match product_images s !! imageID with
  | Some r => if decide (product_id r = productID) then Some r else None
  | None => None
  end.

Definition GetProductImageByID (productID imageID : uuid) : op ProductImage :=
  sql "get product image by id: " (λ _ s,
    match image_of s productID imageID with
    | Some r => Ok (s, to_image imageID r)
    | None => Err ErrProductImageNotFound
    end).

Definition DeleteProductImage (productID imageID : uuid) : op ProductImage :=
  sql "delete product image: " (λ _ s,
    match image_of s productID imageID with
    | Some r => Ok (set_images s (delete imageID (product_images s)), to_image imageID r)
    | None => Err ErrProductImageNotFound
    end).
End repository.

(** * Lists of products *)

Record ListProductsParams := MkListProductsParams {
  Limit : Z;
  Cursor : string;
  Param_CategoryID : option uuid;
  Param_IsActive : option bool;
}.

Definition page_limit (l : Z) : Z := if l <=? 0 then 20 else if 100 <? l then 100 else l.

Section listing.
Context `{UT : UuidText} `{UP : UuidParse} `{LC : Location}.
Local Open Scope go_scope.

(** A cursor that is not one is ignored. *)
Definition read_cursor (c : string) : option (Z * uuid) :=
  if String.eqb c "" then None else
  raw ← DecodeString c;
  match Split "," raw with
  | [a; b] => t ← Parse a; u ← uuid_Parse b; Some (t, u)
  | _ => None
  end.

Definition write_cursor (t : Z) (u : uuid) : string :=
  EncodeToString (Format t ++ String "," (uuid_String u)).

(** ORDER BY created_at DESC, id DESC *)
Definition listed_before (x y : uuid * product_row) : Prop :=
  created_at y.2 < created_at x.2 ∨ (created_at x.2 = created_at y.2 ∧ (y.1 <= x.1)%N).
#[export] Instance listed_before_dec : RelDecision listed_before.
Proof. intros x y. unfold listed_before. apply _. Defined.

(** [created_at < $3 OR (created_at = $3 AND id < $4)] *)
Definition past (cursor : option (Z * uuid)) (x : uuid * product_row) : Prop :=
  match cursor with
  | None => True
  | Some (t, u) => created_at x.2 < timestamptz t ∨ (created_at x.2 = timestamptz t ∧ (x.1 < u)%N)
  end.
#[export] Instance past_dec cursor x : Decision (past cursor x).
Proof. unfold past. destruct cursor as [[]|]; apply _. Defined.

Definition selected (params : ListProductsParams) (x : uuid * product_row) : Prop :=
  match Param_CategoryID params with Some c => category_id x.2 = Some c | None => True end ∧
  match Param_IsActive params with Some b => is_active x.2 = b | None => True end.
#[export] Instance selected_dec params x : Decision (selected params x).
Proof.
  unfold selected. destruct (Param_CategoryID params), (Param_IsActive params); apply _.
Defined.

(** The rows of the query, before its LIMIT. *)
Definition listing (s : State) (params : ListProductsParams) (cursor : option (Z * uuid)) :
    list (uuid * product_row) :=
  merge_sort listed_before
    (filter (λ x, selected params x ∧ past cursor x) (map_to_list (products s))).

Definition ListProducts (params : ListProductsParams) : op (list Product * string * bool) :=
  let limit := Z.to_nat (page_limit (Limit params)) in
  let cursor := read_cursor (Cursor params) in
  let* items := sql "list products: " (λ _ s, Ok (s, take (limit + 1) (listing s params cursor))) in
  let hasMore := (limit <? length items)%nat in
  let page := if hasMore then take limit items else items in
  let nextCursor :=
    if hasMore then
      match last page with
      | Some x => write_cursor (created_at x.2) x.1
      | None => ""
      end
    else "" in
  ret ((λ x, to_product x.1 x.2) <$> page, nextCursor, hasMore).
End listing.

(** * Cursors *)

Lemma no_comma_app a b : no_comma (a ++ b)%string = no_comma a && no_comma b.
Proof. induction a as [|x a IH]; [done|]. change (String x a ++ b)%string with (String x (a ++ b)). simpl. by rewrite IH, andb_assoc. Qed.

Lemma no_comma_has a : no_comma a = negb (has "," a).
Proof. induction a as [|x a IH]; [done|]. cbn [no_comma has]. by rewrite IH, negb_orb. Qed.

Lemma Split_pair a b :
  no_comma a = true → no_comma b = true → Split "," (a ++ String "," b)%string = [a; b].
Proof.
  rewrite !no_comma_has, !negb_true_iff. intros Ha Hb. by rewrite Split_first, Split_none.
Qed.

Lemma digit_no_comma d r : 0 <= d < 10 → no_comma (String (digit d) r) = no_comma r.
Proof.
  intros Hd. cbn [no_comma]. assert (digit d ≠ ","%char) as Hne.
  { intros He. pose proof (digit_value_digit d Hd) as H. by rewrite He in H. }
  by rewrite bool_decide_eq_false_2.
Qed.

Lemma two_no_comma n : 0 <= n < 100 → no_comma (two n) = true.
Proof.
  intros Hn. unfold two. rewrite !digit_no_comma; [done|apply Z.mod_pos_bound; lia|].
  split; [apply Z.div_pos|apply Z.div_lt_upper_bound]; lia.
Qed.

Lemma digits_no_comma l : Forall is_digit l → no_comma (digits l) = true.
Proof.
  induction l as [|d l IH]; [done|]. intros [Hd Hl]%Forall_cons. cbn [digits].
  rewrite digit_no_comma by exact Hd. by apply IH.
Qed.

Lemma fraction_no_comma ns : no_comma (fraction ns) = true.
Proof.
  unfold fraction. pose proof (strip_digits _ (lsd_digits 9 ns)) as Hd.
  destruct (strip (lsd 9 ns)) as [|d l]; [done|].
  change (no_comma (digits (reverse (d :: l))) = true). by apply digits_no_comma, Forall_reverse.
Qed.

Lemma zone_no_comma off : zone_ok off → no_comma (zone_text off) = true.
Proof.
  intros [Hm Hb]. unfold zone_text. destruct (off =? 0); [done|].
  apply Z.mod_divide in Hm as [k ->]; [|lia]. rewrite Z.quot_mul by lia.
  assert (0 <= Z.abs k / 60 < 100) by (split; [apply Z.div_pos|apply Z.div_lt_upper_bound]; lia).
  assert (0 <= Z.abs k mod 60 < 100) by (pose proof (Z.mod_pos_bound (Z.abs k) 60); lia).
  cbn [no_comma]. rewrite no_comma_app, (two_no_comma (Z.abs k / 60)) by done. cbn [no_comma].
  rewrite two_no_comma by done. by destruct (k <? 0).
Qed.

Lemma Format_no_comma `{Location} t : printable t → no_comma (Format t) = true.
Proof.
  intros [Hy Hz]. unfold Format, year_of in *. set (sec := t / Second + zone t) in *.
  destruct (civil_from_days (sec / 86400)) as [[y m] d] eqn:Hdate. simpl in Hy.
  destruct (civil_from_days_spec _ _ _ _ Hdate) as (Hm & Hd & _).
  assert (daysIn m y <= 31) by (unfold daysIn; repeat case_match; lia).
  pose proof (Z.mod_pos_bound sec 86400 ltac:(lia)) as Hs. set (s := sec mod 86400) in *.
  assert (0 <= s / 3600 < 100) by (split; [apply Z.div_pos|apply Z.div_lt_upper_bound]; lia).
  pose proof (Z.mod_pos_bound (s / 60) 60 ltac:(lia)). pose proof (Z.mod_pos_bound s 60 ltac:(lia)).
  assert (no_comma (year_text y) = true) as Hyear.
  { unfold year_text. destruct (Z.ltb_spec y 0); [lia|]. destruct (Z.ltb_spec y 10000); [|lia].
    rewrite no_comma_app, !two_no_comma; [done| |apply two_bounds; lia].
    pose proof (Z.mod_pos_bound y 100). lia. }
  repeat (rewrite no_comma_app; cbn [no_comma]).
  rewrite Hyear, !two_no_comma by lia. unfold clock_text.
  repeat (rewrite no_comma_app; cbn [no_comma]).
  by rewrite !two_no_comma, fraction_no_comma, zone_no_comma by (lia || done).
Qed.

Section cursors.
Context `{UT : UuidText, UP : UuidParse, UL : !UuidLaws} `{LC : Location}.

Lemma read_write_cursor t u : printable t → read_cursor (write_cursor t u) = Some (t, u).
Proof.
  intros Ht. unfold read_cursor, write_cursor.
  set (raw := (Format t ++ String "," (uuid_String u))%string).
  destruct (String.eqb_spec (EncodeToString raw) "") as [He|_].
  - apply (f_equal DecodeString) in He. rewrite DecodeString_EncodeToString in He.
    assert (Split "," raw = [""]) as Hs by (injection He as He; by rewrite He).
    subst raw. by rewrite (Split_pair _ _ (Format_no_comma t Ht) (uuid_no_comma u)) in Hs.
  - rewrite DecodeString_EncodeToString. cbn [mbind option_bind]. subst raw.
    rewrite (Split_pair _ _ (Format_no_comma t Ht) (uuid_no_comma u)).
    rewrite (Parse_Format t Ht). cbn [mbind option_bind]. by rewrite uuid_Parse_String.
Qed.

(** The cursor of a page leads back to the row it was made of: what [ListProducts]
    writes for an instant and an identifier, in base64, is read as that instant and
    identifier, to the nanosecond, in any local zone of whole minutes and for the years
    that have four digits. *)
Theorem cursor_roundtrip t u : printable t → read_cursor (write_cursor t u) = Some (t, u).
Proof. apply read_write_cursor. Qed.
End cursors.

(** * Pages of the list *)

#[export] Instance listed_before_trans : Transitive listed_before.
Proof.
  intros x y z Hxy Hyz. unfold listed_before in *.
  destruct Hxy as [|[? ?]], Hyz as [|[? ?]]; try (left; lia). right. lia.
Qed.

#[export] Instance listed_before_total : Total listed_before.
Proof.
  intros x y. unfold listed_before.
  destruct (Z.lt_trichotomy (created_at x.2) (created_at y.2)) as [|[|]]; [auto| |auto].
  destruct (N.le_ge_cases x.1 y.1); auto.
Qed.

(** A list without two rows of one identifier has one order. *)
Lemma listed_sorted_unique (l1 l2 : list (uuid * product_row)) :
  NoDup l1.*1 → Sorted listed_before l1 → Sorted listed_before l2 → l1 ≡ₚ l2 → l1 = l2.
Proof.
  intros Hnd H1 H2 Hp. apply (Sorted_unique_strong listed_before); [| done..].
  intros x y Hx Hy Hxy Hyx. rewrite <-Hp in Hy. unfold listed_before in *.
  destruct Hxy as [|[? Hi]], Hyx as [|[? Hj]]; try lia.
  assert (x.1 = y.1) as Hid by lia.
  apply list_elem_of_lookup in Hx as [i Hx], Hy as [j Hy].
  assert (i = j) as ->; [|congruence].
  eapply (NoDup_lookup _ i j x.1 Hnd); rewrite list_lookup_fmap; [by rewrite Hx|by rewrite Hy, Hid].
Qed.

Definition all_listed (s : State) (params : ListProductsParams) : list (uuid * product_row) :=
  merge_sort listed_before (filter (selected params) (map_to_list (products s))).

Lemma all_listed_sorted s params : Sorted listed_before (all_listed s params).
Proof. apply Sorted_merge_sort, _. Qed.

Lemma filter_sublist {A} (P : A → Prop) `{!∀ x, Decision (P x)} (l : list A) : filter P l `sublist_of` l.
Proof.
  induction l as [|x l IH]; [constructor|]. rewrite filter_cons.
  case_decide; by constructor.
Qed.

Lemma filter_nodup_fst {A} (P : uuid * A → Prop) `{!∀ x, Decision (P x)} (m : gmap uuid A) :
  NoDup (filter P (map_to_list m)).*1.
Proof.
  eapply sublist_NoDup; [apply (NoDup_fst_map_to_list m)|]. apply fmap_sublist, filter_sublist.
Qed.

Lemma filter_every {A} (P : A → Prop) `{!∀ x, Decision (P x)} (l : list A) : Forall P l → filter P l = l.
Proof. induction 1 as [|x l Hx _ IH]; [done|]. rewrite filter_cons, decide_True by done. by rewrite IH. Qed.

Lemma all_listed_nodup s params : NoDup (all_listed s params).*1.
Proof. unfold all_listed. rewrite (merge_sort_Permutation _). apply filter_nodup_fst. Qed.

(** The condition on the cursor cuts a prefix off. *)
Lemma listing_filter s params c : listing s params c = filter (past c) (all_listed s params).
Proof.
  apply listed_sorted_unique.
  - unfold listing. rewrite (merge_sort_Permutation _). apply filter_nodup_fst.
  - apply Sorted_merge_sort, _.
  - pose proof (Sorted_StronglySorted listed_before _ (all_listed_sorted s params)) as Hs.
    apply StronglySorted_Sorted. induction Hs as [|x l Hl IH Hx]; [constructor|].
    rewrite filter_cons. case_decide; [|done]. constructor; [done|].
    apply Forall_forall. intros y [_ Hy]%list_elem_of_filter. by eapply Forall_forall in Hx.
  - unfold listing, all_listed. rewrite !(merge_sort_Permutation _).
    generalize (map_to_list (products s)). intros l.
    induction l as [|x l IH]; [done|]. rewrite !filter_cons.
    destruct (decide (selected params x)) as [Hs|Hs].
    + rewrite filter_cons. destruct (decide (past c x)).
      * rewrite decide_True by done. by rewrite IH.
      * rewrite decide_False by (by intros [_ ?]). by rewrite IH.
    + rewrite decide_False by (by intros [? _]). by rewrite IH.
Qed.

(** After the row [x], the rows that follow it in the list are left. *)
Lemma listing_after s params l1 x l2 :
  all_listed s params = l1 ++ x :: l2 → timestamptz (created_at x.2) = created_at x.2 →
  listing s params (Some (created_at x.2, x.1)) = l2.
Proof.
  intros Hl Hx. rewrite listing_filter, Hl.
  pose proof (Sorted_StronglySorted listed_before _ (all_listed_sorted s params)) as Hs.
  pose proof (all_listed_nodup s params) as Hnd. rewrite Hl in Hs, Hnd.
  apply StronglySorted_app in Hs as (Hcross & _ & Hs2). apply StronglySorted_cons in Hs2 as [Hx2 _].
  rewrite filter_app. rewrite (filter_none _ l1), app_nil_l.
  - rewrite filter_cons, decide_False.
    2:{ simpl. rewrite Hx. intros [|[_ ?]]; lia. }
    apply filter_every. apply Forall_forall. intros y Hy. simpl. rewrite Hx.
    pose proof (proj1 (Forall_forall _ _) Hx2 y Hy) as Hb. unfold listed_before in Hb.
    destruct Hb as [|[He Hi]]; [by left|]. right. split; [done|].
    rewrite fmap_app, fmap_cons in Hnd. apply NoDup_app in Hnd as (_ & _ & Hnd).
    apply NoDup_cons in Hnd as [Hn _].
    assert (y.1 ≠ x.1); [|lia]. intros Heq. apply Hn. rewrite <-Heq. by apply list_elem_of_fmap_2.
  - intros y Hy. simpl. rewrite Hx. assert (listed_before y x) as Hb.
    { eapply Hcross; [done|by left]. }
    unfold listed_before in Hb. intros [|[? ?]]; [lia|].
    rewrite fmap_app, fmap_cons in Hnd. apply NoDup_app in Hnd as (_ & Hn & _).
    apply (Hn y.1); [by apply list_elem_of_fmap_2|].
    assert (y.1 = x.1) as -> by lia. by left.
Qed.

(** ** Well-formed tables *)

(** No two rows have one value of [f]. *)
Definition distinct {R} (f : R → string) (m : gmap uuid R) : Prop :=
  ∀ id1 id2 r1 r2, m !! id1 = Some r1 → m !! id2 = Some r2 → f r1 = f r2 → id1 = id2.

Lemma distinct_insert {R} (f : R → string) m id r :
  distinct f m → (∀ id' r', m !! id' = Some r' → f r' = f r → id' = id) → distinct f (<[id := r]> m).
Proof.
  intros Hm Hr id1 id2 r1 r2 [[-> ->]|[H1 L1]]%lookup_insert_Some [[-> ->]|[H2 L2]]%lookup_insert_Some Hf;
    [done| | |by eapply Hm]; [symmetry|]; eapply Hr; eauto.
Qed.

(** [existsb] over the rows, as the unique checks use it. *)
Lemma taken_false {R} (f : R → string) (m : gmap uuid R) k :
  existsb (λ p, String.eqb (f p.2) k) (map_to_list m) = false →
  ∀ id r, m !! id = Some r → f r ≠ k.
Proof.
  intros H id r Hr <-. apply not_true_iff_false in H. apply H, existsb_exists. exists (id, r).
  split; [by apply list_elem_of_In, elem_of_map_to_list|]. apply String.eqb_refl.
Qed.

Record wf (s : State) : Prop := {
  wf_product : ∀ id r, products s !! id = Some r →
    product_fits r = true ∧ 0 < price_minor r ∧ 1 <= version r ∧
    timestamptz (created_at r) = created_at r ∧ category_known s (category_id r) = true;
  wf_sku : distinct sku (products s);
  wf_category : ∀ id r, categories s !! id = Some r → category_fits r = true;
  wf_slug : distinct slug (categories s);
  wf_image : ∀ id r, product_images s !! id = Some r →
    image_fits r = true ∧ 0 < size_bytes r ∧ is_Some (products s !! product_id r);
  wf_storage_key : distinct storage_key (product_images s);
}.

Lemma wf_empty : wf empty_state.
Proof. by split; unfold distinct; simpl; intros *; rewrite lookup_empty. Qed.

Section walking.
Context `{UT : UuidText, UP : UuidParse, UL : !UuidLaws} `{LC : Location}.
Local Open Scope go_scope.

Definition with_cursor (params : ListProductsParams) (c : string) : ListProductsParams :=
  MkListProductsParams (Limit params) c (Param_CategoryID params) (Param_IsActive params).

(** The instants of the rows have texts. *)
Definition printable_rows (s : State) : Prop :=
  ∀ id r, products s !! id = Some r → printable (created_at r).

Definition limit_of (params : ListProductsParams) : nat := Z.to_nat (page_limit (Limit params)).

Lemma limit_of_bounds params : (1 <= limit_of params <= 100)%nat.
Proof. unfold limit_of, page_limit. repeat case_match; lia. Qed.

Lemma all_listed_lookup s params x : x ∈ all_listed s params → products s !! x.1 = Some x.2.
Proof.
  unfold all_listed. rewrite (merge_sort_Permutation _). intros [_ Hin]%list_elem_of_filter.
  destruct x. by apply elem_of_map_to_list in Hin.
Qed.

(** The rows [rest] of the list are the ones a cursor leaves. *)
Definition at_rows (s : State) (params : ListProductsParams) (rest : list (uuid * product_row)) : Prop :=
  (∃ front, all_listed s params = front ++ rest) ∧
  listing s params (read_cursor (Cursor params)) = rest.

Lemma at_rows_start s params : at_rows s (with_cursor params "") (all_listed s params).
Proof.
  split; [by exists []|]. rewrite listing_filter. apply filter_every, Forall_forall. done.
Qed.

(** One page: the next rows, and a cursor to the rows after them. *)
Lemma ListProducts_step s params rest env n :
  wf s → printable_rows s → at_rows s params rest → env_fault env n = None →
  ∃ next,
    ListProducts params env n s =
      (S n, s, Ok ((λ x, to_product x.1 x.2) <$> take (limit_of params) rest, next,
                   (limit_of params <? length rest)%nat)) ∧
    ((limit_of params < length rest)%nat →
       next ≠ "" ∧ at_rows s (with_cursor params next) (drop (limit_of params) rest)) ∧
    (next = "" ∨ (limit_of params < length rest)%nat).
Proof.
  intros Hwf Hpr [[front Hfront] Hrest] Hf. unfold ListProducts. fold (limit_of params).
  set (k := limit_of params). pose proof (limit_of_bounds params) as Hk. fold k in Hk.
  rewrite (bind_ok _ _ _ _ _ (S n) s (take (k + 1) rest)); [|by rewrite (sql_run _ _ _ _ _ Hf), Hrest].
  unfold ret. rewrite length_take.
  assert ((k <? (k + 1) `min` length rest)%nat = (k <? length rest)%nat) as ->
    by (destruct (Nat.ltb_spec k ((k + 1) `min` length rest)), (Nat.ltb_spec k (length rest)); lia).
  destruct (Nat.ltb_spec k (length rest)) as [Hlt|Hge].
  - rewrite take_take. replace (k `min` (k + 1))%nat with k by lia.
    destruct (last (take k rest)) as [x|] eqn:Hlast.
    2:{ apply last_None in Hlast. apply (f_equal length) in Hlast. rewrite length_take in Hlast. simpl in Hlast. lia. }
    eexists. split; [done|]. split; [intros _|by right].
    apply last_Some in Hlast as [pre Hpre].
    assert (all_listed s params = (front ++ pre) ++ x :: drop k rest) as Hsplit.
    { rewrite Hfront, <-(take_drop k rest) at 1. rewrite Hpre, <-!app_assoc. done. }
    assert (products s !! x.1 = Some x.2) as Hx.
    { apply (all_listed_lookup s params). rewrite Hsplit. set_solver. }
    pose proof (read_write_cursor (created_at x.2) x.1 (Hpr _ _ Hx)) as Hc. split.
    + intros He. rewrite He in Hc. done.
    + split; [exists (front ++ pre ++ [x]); rewrite Hsplit at 1; by rewrite <-!app_assoc|].
      change (listing s (with_cursor params ?c)) with (listing s params). simpl. rewrite Hc.
      eapply listing_after; [exact Hsplit|]. by apply (wf_product s Hwf _ _ Hx).
  - exists "". split; [|split; [lia|by left]]. rewrite !take_ge by lia. done.
Qed.

(** A client that follows the cursors from page to page, [fuel] pages at most. *)
Fixpoint follow (fuel : nat) (params : ListProductsParams) : op (list Product) :=
  match fuel with
  | O => fail (ErrDriver "more pages")
  | S fuel =>
      let* page := ListProducts params in
      if page.2 then
        let* rest := follow fuel (with_cursor params page.1.2) in
        ret (page.1.1 ++ rest)
      else ret page.1.1
  end.

Lemma follow_rows s params rest env n fuel :
  wf s → printable_rows s → no_faults env → at_rows s params rest → (length rest < fuel)%nat →
  ∃ n', follow fuel params env n s = (n', s, Ok ((λ x, to_product x.1 x.2) <$> rest)).
Proof.
  intros Hwf Hpr Hf. revert params rest n. induction fuel as [|fuel IH]; intros params rest n Hat Hfuel; [lia|].
  destruct (ListProducts_step s params rest env n Hwf Hpr Hat (Hf n)) as (next & Hrun & Hmore & _).
  pose proof (limit_of_bounds params) as Hk. cbn [follow]. rewrite (bind_ok _ _ _ _ _ _ _ _ Hrun). cbn [fst snd].
  destruct (Nat.ltb_spec (limit_of params) (length rest)) as [Hlt|Hge].
  - destruct (Hmore Hlt) as [_ Hat'].
    destruct (IH _ _ (S n) Hat') as (n' & Hn'); [rewrite length_drop; lia|].
    exists n'. rewrite (bind_ok _ _ _ _ _ _ _ _ Hn'). unfold ret. do 2 f_equal.
    by rewrite <-fmap_app, take_drop.
  - exists (S n). unfold ret. by rewrite take_ge.
Qed.

(** C21: the pages of the product list are complete.  A client that starts without a cursor
    and passes each page's cursor on comes to an end, and has then been given every
    product of the requested category and activity exactly once, the newest first,
    whatever the limit. *)
Theorem ListProducts_complete s params env n :
  wf s → printable_rows s → no_faults env →
  ∃ n' l,
    follow (S (size (products s))) (with_cursor params "") env n s = (n', s, Ok (uncurry to_product <$> l)) ∧
    l ≡ₚ filter (selected params) (map_to_list (products s)) ∧ NoDup l.*1 ∧ Sorted listed_before l.
Proof.
  intros Hwf Hpr Hf.
  destruct (follow_rows s (with_cursor params "") (all_listed s params) env n (S (size (products s))) Hwf Hpr Hf)
    as (n' & Hn'); [apply at_rows_start|..].
  { unfold all_listed. rewrite (merge_sort_Permutation _).
    pose proof (length_filter (selected params) (map_to_list (products s))) as Hle.
    rewrite length_map_to_list in Hle. lia. }
  exists n', (all_listed s params). split_and!.
  - rewrite Hn'. do 2 f_equal. by apply list_fmap_ext; intros ? [].
  - apply merge_sort_Permutation.
  - apply all_listed_nodup.
  - apply all_listed_sorted.
Qed.
End walking.

(** ** Every operation keeps the tables well formed *)

Lemma timestamptz_idem t : timestamptz (timestamptz t) = timestamptz t.
Proof. unfold timestamptz. by rewrite Z.div_mul. Qed.

Lemma wf_insert_product s id r :
  wf s → product_fits r = true → 0 < price_minor r → 1 <= version r →
  timestamptz (created_at r) = created_at r → category_known s (category_id r) = true →
  (∀ id' r', products s !! id' = Some r' → sku r' = sku r → id' = id) →
  wf (set_products s (<[id := r]> (products s))).
Proof.
  intros [W1 W2 W3 W4 W5 W6] H1 H2 H3 H4 H5 H6. split; simpl; try done.
  - intros id' r' [[-> ->]|[_ Hl]]%lookup_insert_Some; [done|by eapply W1].
  - by apply distinct_insert.
  - intros id' r' Hl. destruct (W5 _ _ Hl) as (? & ? & ?). split_and!; [done..|].
    rewrite lookup_insert_is_Some'. by right.
Qed.

Lemma CreateProduct_wf p : preserves wf (CreateProduct p).
Proof.
  apply preserves_bind; [case_match; auto with shopflow|]. intros id.
  apply preserves_sql. cbv zeta. intros now s s' p' Hwf.
  destruct (product_fits _) eqn:Hfit; [|done]. destruct (0 <? _) eqn:Hpos; [|done]. cbn [negb].
  destruct (_ || _) eqn:Hdup; [done|]. destruct (category_known _ _) eqn:Hcat; [|done]. cbn [negb].
  intros [= <- <-]. apply orb_false_iff in Hdup as [_ Hsku].
  apply wf_insert_product; simpl in *; try done; [lia|apply timestamptz_idem|].
  intros id' r' Hl Heq. by destruct (taken_false sku _ _ Hsku _ _ Hl).
Qed.

Lemma why_no_row_wf id : preserves wf (why_no_row id).
Proof.
  apply preserves_bind; [apply preserves_try, preserves_sql; by intros now s s' b Hwf [= <- _]|].
  intros [[]|]; auto with shopflow.
Qed.

(** An update that keeps the SKU. *)
Lemma update_row_wf what id v f : (∀ r, sku (f r) = sku r) → preserves wf (update_row what id v f).
Proof.
  intros Hf. apply preserves_bind.
  - apply preserves_sql. cbv zeta. intros now s s' o Hwf.
    destruct (products s !! id) as [r0|] eqn:Hr; [|by intros [= <- _]].
    case_decide as Hv; [|by intros [= <- _]].
    destruct (product_fits _) eqn:Hfit; [|done]. destruct (0 <? _) eqn:Hpos; [|done]. cbn [negb].
    destruct (_ || category_known _ _) eqn:Hcat; [|done]. intros [= <- _].
    destruct (wf_product s Hwf _ _ Hr) as (_ & _ & Hver & Hts & Hold).
    apply wf_insert_product; simpl in *; try done; [lia|lia| |].
    { destruct (bool_decide (category_id (f r0) = category_id r0)) eqn:Hc; [|done].
      apply bool_decide_eq_true in Hc. by rewrite Hc. }
    intros id' r' Hl Heq. rewrite Hf in Heq. by eapply (wf_sku s Hwf).
  - intros [p|]; [auto with shopflow|apply why_no_row_wf].
Qed.

Lemma wf_insert_category s id r :
  wf s → category_fits r = true → slug_taken s (slug r) = false →
  wf (set_categories s (<[id := r]> (categories s))).
Proof.
  intros [W1 W2 W3 W4 W5 W6] Hfit Hslug. split; simpl; try done.
  - intros id' r' Hl. destruct (W1 _ _ Hl) as (? & ? & ? & ? & Hc). split_and!; try done.
    unfold category_known in *. destruct (category_id r') as [cid|]; [|done]. simpl.
    apply bool_decide_eq_true in Hc. apply bool_decide_eq_true, lookup_insert_is_Some'. by right.
  - intros id' r' [[<- <-]|[_ Hl]]%lookup_insert_Some; [done|by eapply W3].
  - apply distinct_insert; [done|]. intros id' r' Hl Heq. by destruct (taken_false slug _ _ Hslug _ _ Hl).
Qed.

Lemma CreateCategory_wf c : preserves wf (CreateCategory c).
Proof.
  apply preserves_bind; [case_match; auto with shopflow|]. intros id.
  apply preserves_sql. cbv zeta. intros now s s' c' Hwf.
  destruct (category_fits _) eqn:Hfit; [|done]. cbn [negb].
  destruct (_ || _) eqn:Hdup; [done|]. intros [= <- <-]. apply orb_false_iff in Hdup as [_ Hslug].
  by apply wf_insert_category.
Qed.

Lemma unset_primary_wf id : preserves wf (unset_primary id).
Proof.
  apply preserves_sql. intros now s s' [] [W1 W2 W3 W4 W5 W6] [= <-].
  split; simpl; try done.
  - intros i r. rewrite lookup_fmap, fmap_Some. intros (r0 & Hl & ->).
    destruct (W5 _ _ Hl) as (? & ? & ?). case_decide; done.
  - intros i j r1 r2. rewrite !lookup_fmap. intros (x & Hx & ->)%fmap_Some (y & Hy & ->)%fmap_Some Heq.
    apply (W6 i j x y Hx Hy). by repeat case_decide.
Qed.

Lemma wf_insert_image s id r :
  wf s → image_fits r = true → 0 < size_bytes r → storage_key_taken s (storage_key r) = false →
  products s !! product_id r ≠ None → wf (set_images s (<[id := r]> (product_images s))).
Proof.
  intros [W1 W2 W3 W4 W5 W6] Hfit Hpos Hkey Hfk. split; simpl; try done.
  - intros id' r' [[<- <-]|[_ Hl]]%lookup_insert_Some; [|by eapply W5].
    split_and!; [done..|]. by apply not_eq_None_Some.
  - apply distinct_insert; [done|]. intros id' r' Hl Heq. by destruct (taken_false storage_key _ _ Hkey _ _ Hl).
Qed.

Lemma insert_image_wf id img : preserves wf (insert_image id img).
Proof.
  apply preserves_sql. cbv zeta beta. intros now s s' i Hwf.
  destruct (image_fits _) eqn:Hfit; [|done]. destruct (0 <? _) eqn:Hpos; [|done]. cbn [negb].
  destruct (_ || _) eqn:Hdup; [done|]. destruct (bool_decide (products s !! _ = None)) eqn:Hfk; [done|].
  apply bool_decide_eq_false in Hfk. intros [= <- <-]. apply Z.ltb_lt in Hpos.
  apply orb_false_iff in Hdup as [_ Hkey]. by apply wf_insert_image.
Qed.

Lemma AddProductImage_wf img : preserves wf (AddProductImage img).
Proof.
  apply preserves_bind; [case_match; auto with shopflow|]. intros id. apply preserves_bind.
  - case_match; [apply preserves_try, unset_primary_wf|auto with shopflow].
  - intros _. apply insert_image_wf.
Qed.

Lemma DeleteProductImage_wf p i : preserves wf (DeleteProductImage p i).
Proof.
  apply preserves_sql. intros now s s' img [W1 W2 W3 W4 W5 W6].
  destruct (image_of s p i); [|done]. intros [= <- _]. split; simpl; try done.
  - intros i' r [_ Hl]%lookup_delete_Some. by eapply W5.
  - intros i1 i2 r1 r2 [_ H1]%lookup_delete_Some [_ H2]%lookup_delete_Some. by eapply W6.
Qed.

(** A write of the repository, by any caller. *)
Inductive write : Type :=
| WProduct (p : Product)
| WUpdate (id : uuid) (t d : string) (c : option uuid) (active : bool) (v : Z)
| WPrice (id : uuid) (price : Z) (cur : string) (v : Z)
| WCategory (c : Category)
| WImage (img : ProductImage)
| WDeleteImage (productID imageID : uuid).

Definition run_write (w : write) : op unit :=
  match w with
  | WProduct p => bind (CreateProduct p) (λ _, ret tt)
  | WUpdate id t d c a v => bind (UpdateProduct id t d c a v) (λ _, ret tt)
  | WPrice id p c v => bind (UpdateProductPrice id p c v) (λ _, ret tt)
  | WCategory c => bind (CreateCategory c) (λ _, ret tt)
  | WImage i => bind (AddProductImage i) (λ _, ret tt)
  | WDeleteImage p i => bind (DeleteProductImage p i) (λ _, ret tt)
  end.

Lemma run_write_wf w : preserves wf (run_write w).
Proof.
  destruct w; (apply preserves_bind; [|intros; apply preserves_ret]).
  - apply CreateProduct_wf.
  - by apply update_row_wf.
  - by apply update_row_wf.
  - apply CreateCategory_wf.
  - apply AddProductImage_wf.
  - apply DeleteProductImage_wf.
Qed.

(** ** Versions *)

(** What an update says: it moves the row from the version it was told to the next one,
    or changes nothing and says why. *)
Lemma update_row_spec what id v f env n s n' s' r :
  update_row what id v f env n s = (n', s', r) →
  match r with
  | Ok p => ∃ r0, products s !! id = Some r0 ∧ version r0 = v ∧
      ∃ r1, products s' !! id = Some r1 ∧ version r1 = v + 1 ∧ p = to_product id r1 ∧
            created_at r1 = created_at r0 ∧ sku r1 = sku (f r0) ∧ price_minor r1 = price_minor (f r0) ∧
            s' = set_products s (<[id := r1]> (products s))
  | Err e => s' = s ∧
      (e = ErrOptimisticLockConflict → ∃ r0, products s !! id = Some r0 ∧ version r0 ≠ v)
  end.
Proof.
  unfold update_row. cbv zeta. destruct r as [p|e].
  - intros (n1 & s1 & o & H1 & H2)%bind_ok_inv. apply sql_ok_inv in H1 as (_ & H1 & ->).
    destruct (products s !! id) as [r0|] eqn:Hr.
    + case_decide as Hv.
      * destruct (product_fits _); [|done]. destruct (0 <? _); [|done]. cbn [negb] in H1.
        destruct (_ || category_known _ _); [|done]. injection H1 as <- <-. unfold ret in H2.
        injection H2 as <- <- <-. exists r0. split_and!; [done..|]. eexists. simpl.
        rewrite lookup_insert_eq. split_and!; [done|simpl; lia|done..].
      * injection H1 as <- <-. exfalso. revert H2. unfold why_no_row, bind, try.
        destruct (sql _ _ _ _ _) as [[? ?] [[]|]]; done.
    + injection H1 as <- <-. exfalso. revert H2. unfold why_no_row, bind, try.
      destruct (sql _ _ _ _ _) as [[? ?] [[]|]]; done.
  - intros [H1|(n1 & s1 & o & H1 & H2)]%bind_err_inv.
    + split; [by eapply sql_err_inv|]. intros ->. exfalso. revert H1. unfold sql.
      destruct (env_fault env n); [done|]. destruct (products s !! id); [|done].
      case_decide; [|done]. destruct (product_fits _); [|done]. destruct (0 <? _); [|done]. cbn [negb].
      by destruct (_ || category_known _ _).
    + destruct o as [p|]; [done|]. apply sql_ok_inv in H1 as (_ & H1 & ->).
      assert (s1 = s ∧ ∀ r0, products s !! id = Some r0 → version r0 ≠ v) as [-> Hne].
      { destruct (products s !! id) as [r0|] eqn:Hr; [|by injection H1 as <-].
        case_decide as Hv; [|injection H1 as <-; split; [done|by intros ? [= <-]]].
        destruct (product_fits _); [|done]. destruct (0 <? _); [|done]. cbn [negb] in H1.
        by destruct (_ || category_known _ _). }
      revert H2. unfold why_no_row, bind, try, sql.
      destruct (env_fault env (S n)); [by intros [= <- <- <-]|].
      case_bool_decide as He; intros [= <- <- <-]; (split; [done|]); [|done].
      intros _. destruct He as [r0 Hr0]. exists r0. split; [done|]. by apply Hne.
Qed.


(** ** Histories *)

(** The statements of the writes, one at a time. *)
Inductive catalog_step : State → State → Prop :=
| step_write w env n s : catalog_step s (final (run_write w env n s))
| step_unset p env n s : catalog_step s (final (unset_primary p env n s))
| step_insert id img env n s : catalog_step s (final (insert_image id img env n s)).

(** A product goes on with its SKU and its creation, and a version stands for one content
    of its row. *)
Definition continues (s s' : State) : Prop :=
  ∀ id r, products s !! id = Some r → ∃ r', products s' !! id = Some r' ∧
    sku r' = sku r ∧ created_at r' = created_at r ∧ version r <= version r' ∧
    (version r' = version r → r' = r).

#[export] Instance continues_preorder : PreOrder continues.
Proof.
  split; [intros s id r Hr; exists r; split_and!; [done..|lia|done]|].
  intros s1 s2 s3 H12 H23 id r Hr. destruct (H12 id r Hr) as (r' & Hr' & ? & ? & ? & Hv).
  destruct (H23 id r' Hr') as (r'' & Hr'' & ? & ? & ? & Hv'). exists r''.
  split_and!; [done|congruence|congruence|lia|]. intros Heq.
  rewrite (Hv' ltac:(lia)). apply Hv. lia.
Qed.

Lemma continues_products s s' : products s' = products s → continues s s'.
Proof. intros He id r Hr. exists r. rewrite He. split_and!; [done..|lia|done]. Qed.

Lemma sql_final {A} what (f : Z → State → result error (State * A)) (R : State → State → Prop) env n s :
  R s s → (∀ now s' a, f now s = Ok (s', a) → R s s') → R s (final (sql what f env n s)).
Proof.
  intros Hrefl Hf. unfold sql, final. destruct (env_fault env n); [done|].
  destruct (f (env_now env n) s) as [[s' a]|] eqn:H; [by eapply Hf|done].
Qed.

Lemma final_bind_ret {A} (m : op A) env n s :
  final (bind m (λ _, ret tt) env n s) = final (m env n s).
Proof. unfold bind, final, ret. by destruct (m env n s) as [[? ?] []]. Qed.

Lemma fresh_id_run (u : uuid) env n s :
  ∃ n' id, (if (u =? uuid_Nil)%N then uuid_New else ret u : op uuid) env n s = (n', s, Ok id).
Proof. destruct (_ =? _)%N; by do 2 eexists. Qed.

Lemma CreateProduct_continues p env n s : continues s (final (CreateProduct p env n s)).
Proof.
  unfold CreateProduct. destruct (fresh_id_run (Product_ID p) env n s) as (n1 & id & Hid).
  rewrite (bind_ok _ _ _ _ _ _ _ _ Hid). apply (sql_final _ _ continues); [done|]. cbv zeta. intros now s' p'.
  destruct (product_fits _); [|done]. destruct (0 <? _); [|done]. cbn [negb].
  destruct (bool_decide (is_Some (products s !! id))) eqn:Hnew; [done|].
  apply bool_decide_eq_false in Hnew. destruct (sku_taken _ _); [done|]. cbn [orb].
  destruct (category_known _ _); [|done]. intros [= <- _] i r Hr. exists r. simpl.
  rewrite lookup_insert_ne by (intros ->; apply Hnew; by eauto). split_and!; [done..|lia|done].
Qed.

Lemma update_row_continues what id v f env n s :
  (∀ r, sku (f r) = sku r) → continues s (final (update_row what id v f env n s)).
Proof.
  intros Hf. destruct (update_row what id v f env n s) as [[n' s'] [p|e]] eqn:H;
    apply update_row_spec in H; unfold final; simpl.
  - destruct H as (r0 & Hr0 & Hv & r1 & Hr1 & Hv1 & _ & Hc & Hs & _ & ->). intros i r Hr.
    destruct (decide (i = id)) as [->|Hne].
    + exists r1. rewrite Hr0 in Hr. injection Hr as <-. split_and!; [done|congruence|done|lia|lia].
    + exists r. simpl. rewrite lookup_insert_ne by done. split_and!; [done..|lia|done].
  - by destruct H as [-> _].
Qed.

Lemma insert_image_continues id img env n s : continues s (final (insert_image id img env n s)).
Proof.
  apply (sql_final _ _ continues); [done|]. cbv zeta beta. intros now s' i.
  destruct (image_fits _); [|done]. destruct (0 <? _); [|done]. cbn [negb].
  destruct (_ || _); [done|]. destruct (bool_decide _); [done|]. intros [= <- _].
  by apply continues_products.
Qed.

Lemma unset_primary_continues p env n s : continues s (final (unset_primary p env n s)).
Proof. apply (sql_final _ _ continues); [done|]. intros now s' [] [= <-]. by apply continues_products. Qed.

Lemma AddProductImage_continues img env n s : continues s (final (AddProductImage img env n s)).
Proof.
  unfold AddProductImage. destruct (fresh_id_run (Image_ID img) env n s) as (n1 & id & Hid).
  rewrite (bind_ok _ _ _ _ _ _ _ _ Hid).
  destruct (Image_IsPrimary img); [|apply insert_image_continues].
  pose proof (unset_primary_continues (Image_ProductID img) env n1 s) as Hu. unfold bind, try.
  destruct (unset_primary (Image_ProductID img) env n1 s) as [[n2 s2] r2]. etrans; [exact Hu|].
  apply insert_image_continues.
Qed.

Lemma run_write_continues w env n s : continues s (final (run_write w env n s)).
Proof.
  destruct w; cbn [run_write]; rewrite final_bind_ret.
  - apply CreateProduct_continues.
  - by apply update_row_continues.
  - by apply update_row_continues.
  - unfold CreateCategory. destruct (fresh_id_run (Category_ID c) env n s) as (n1 & id & Hid).
    rewrite (bind_ok _ _ _ _ _ _ _ _ Hid). apply (sql_final _ _ continues); [done|]. cbv zeta. intros now s' c'.
    destruct (category_fits _); [|done]. cbn [negb]. destruct (_ || _); [done|]. intros [= <- _].
    by apply continues_products.
  - apply AddProductImage_continues.
  - apply (sql_final _ _ continues); [done|]. intros now s' i. destruct (image_of _ _ _); [|done]. intros [= <- _].
    by apply continues_products.
Qed.

Lemma catalog_step_keeps s s' : catalog_step s s' → (wf s → wf s') ∧ continues s s'.
Proof.
  intros Hs. destruct Hs as [w env n s0|p env n s0|id img env n s0]; split.
  - intros Hwf. eapply preserves_run; [apply run_write_wf|apply run_eta|done].
  - apply run_write_continues.
  - intros Hwf. eapply preserves_run; [apply unset_primary_wf|apply run_eta|done].
  - apply unset_primary_continues.
  - intros Hwf. eapply preserves_run; [apply insert_image_wf|apply run_eta|done].
  - apply insert_image_continues.
Qed.

(** C36: whatever writes are made, by whomever and with whatever failures, the rows satisfy
    the constraints of their tables, SKUs, slugs and storage keys are unique, and every
    image and category reference leads somewhere; and from any point on a product keeps its
    SKU and its creation, its version never falls, and while the version stays the row
    stays: two readers that saw one version saw one content. *)
Theorem catalog_history s s' :
  rtc catalog_step empty_state s → rtc catalog_step s s' → wf s ∧ wf s' ∧ continues s s'.
Proof.
  assert (∀ s1 s2, rtc catalog_step s1 s2 → (wf s1 → wf s2) ∧ continues s1 s2) as Hrtc.
  { induction 1 as [s1|s1 s2 s3 H12 _ [IH1 IH2]]; [done|].
    destruct (catalog_step_keeps _ _ H12) as [H1 H2]. split; [auto|by etrans]. }
  intros [H1 _]%Hrtc [H2 H3]%Hrtc. pose proof (H1 wf_empty). auto.
Qed.

(** Adding a primary image is two statements without a transaction.  When the second
    is refused, the first has been done: an image that could not be added as the primary
    one leaves its product without a primary image. *)
Theorem AddProductImage_not_atomic img env n s n' s' e :
  Image_ID img ≠ uuid_Nil → Image_IsPrimary img = true → env_fault env n = None →
  AddProductImage img env n s = (n', s', Err e) →
  ∀ id r, product_images s' !! id = Some r → product_id r = Image_ProductID img → is_primary r = false.
Proof.
  intros Hid Hprim Hf Hrun id r. unfold AddProductImage in Hrun.
  apply N.eqb_neq in Hid. rewrite Hid, Hprim in Hrun.
  rewrite (bind_ok _ _ _ _ _ n s (Image_ID img) eq_refl) in Hrun. unfold bind, try in Hrun.
  unfold unset_primary in Hrun. rewrite (sql_run _ _ _ _ _ Hf) in Hrun.
  apply sql_err_inv in Hrun as ->. simpl. rewrite lookup_fmap, fmap_Some.
  intros (r0 & _ & ->). by case_decide.
Qed.

(** [CreateProduct]: the row of the product, or why there is none. *)
Lemma CreateProduct_run p env n s n' s' r :
  CreateProduct p env n s = (n', s', r) →
  match r with
  | Ok p' => products s !! Product_ID p' = None ∧ sku_taken s (Product_SKU p) = false ∧
      ∃ row, s' = set_products s (<[Product_ID p' := row]> (products s)) ∧
        sku row = Product_SKU p ∧ title row = Product_Title p ∧ category_id row = Product_CategoryID p ∧
        price_minor row = Money.Amount (Product_Price p) ∧ currency row = Money.Currency (Product_Price p) ∧
        version row = 1 ∧ is_active row = Product_IsActive p
  | Err e => s' = s ∧
      ((e = ErrDuplicateSKU ∧ (sku_taken s (Product_SKU p) = true ∨ ∃ id, is_Some (products s !! id))) ∨
       (e = ErrCategoryNotFound ∧ category_known s (Product_CategoryID p) = false) ∨
       ∃ m, e = ErrDriver m)
  end.
Proof.
  unfold CreateProduct. destruct (fresh_id_run (Product_ID p) env n s) as (n1 & id & Hid).
  rewrite (bind_ok _ _ _ _ _ _ _ _ Hid). cbv zeta. unfold sql.
  destruct (env_fault env n1); [intros [= <- <- <-]; eauto 6|].
  destruct (product_fits _); cbn [negb]; [|intros [= <- <- <-]; eauto 6].
  destruct (0 <? _); cbn [negb]; [|intros [= <- <- <-]; eauto 6].
  destruct (bool_decide (is_Some (products s !! id))) eqn:Hnew.
  { apply bool_decide_eq_true in Hnew. intros [= <- <- <-]. eauto 7. }
  cbn [orb sku]. destruct (sku_taken s (Product_SKU p)) eqn:Htaken; [intros [= <- <- <-]; eauto 6|].
  cbn [category_id]. destruct (category_known s (Product_CategoryID p)) eqn:Hcat; cbn [negb]; [|intros [= <- <- <-]; eauto 6].
  intros [= <- <- <-]. apply bool_decide_eq_false in Hnew. split; [by apply eq_None_not_Some|].
  split; [done|]. by eexists.
Qed.

(** ** Reads *)

(** [GetProductsBySKUs]: the products of the SKUs, in the order of the SKUs, whatever the
    order and the repetitions of the request. *)
Lemma GetProductsBySKUs_spec skus env n s n' s' l :
  wf s → GetProductsBySKUs skus env n s = (n', s', Ok l) →
  s' = s ∧ Sorted String.le (Product_SKU <$> l) ∧ NoDup (Product_SKU <$> l) ∧
  ∀ p, p ∈ l ↔ ∃ id r, products s !! id = Some r ∧ sku r ∈ skus ∧ p = to_product id r.
Proof.
  intros Hwf. unfold GetProductsBySKUs. destruct skus as [|k0 skus]; [|set (ks := k0 :: skus)].
  - intros [= <- <- <-]. split_and!; [done|constructor..|]. intros p. set_solver.
  - intros (_ & H & _)%sql_ok_inv. injection H as <- <-.
    set (rows := filter (λ p, sku p.2 ∈ ks) (map_to_list (products s))).
    rewrite <-list_fmap_compose. change (Product_SKU ∘ _) with (λ p : uuid * product_row, sku p.2).
    split; [done|]. split_and!.
    + assert (Sorted sku_before (merge_sort sku_before rows)) as Hs
        by (apply Sorted_merge_sort; intros x y; apply (total String.le)).
      induction Hs as [|x l Hl IH Hx]; [constructor|]. csimpl. constructor; [done|].
      destruct Hx; by constructor.
    + rewrite (merge_sort_Permutation sku_before rows). subst rows.
      apply NoDup_fmap_2_strong; [|apply NoDup_filter, NoDup_map_to_list].
      intros [i x] [j y] [_ Hx]%list_elem_of_filter [_ Hy]%list_elem_of_filter Heq. simpl in Heq.
      apply elem_of_map_to_list in Hx, Hy. pose proof (wf_sku s Hwf i j x y Hx Hy Heq) as ->. congruence.
    + intros p. rewrite list_elem_of_fmap. split.
      * intros ([i x] & -> & Hx). rewrite (merge_sort_Permutation sku_before rows) in Hx.
        apply list_elem_of_filter in Hx as [Hk Hx]. apply elem_of_map_to_list in Hx. by exists i, x.
      * intros (i & x & Hx & Hk & ->). exists (i, x). split; [done|].
        rewrite (merge_sort_Permutation sku_before rows). apply list_elem_of_filter. split; [done|].
        by apply elem_of_map_to_list.
Qed.

Lemma product_of_sku_spec s k id r :
  wf s → product_of_sku s k = Some (id, r) ↔ products s !! id = Some r ∧ sku r = k.
Proof.
  intros Hwf. unfold product_of_sku. split.
  - rewrite fmap_Some. intros ([i [id' r']] & (Hl & Hk & _)%list_find_Some & [= <- <-]).
    split; [|done]. apply elem_of_map_to_list. by eapply list_elem_of_lookup_2.
  - intros [Hr Hk]. assert ((id, r) ∈ map_to_list (products s)) as Hin by (by apply elem_of_map_to_list).
    destruct (list_find (λ p, sku p.2 = k) (map_to_list (products s))) as [[i [id' r']]|] eqn:Hf.
    + apply list_find_Some in Hf as (Hl & Hk' & _). simpl in Hk'.
      apply list_elem_of_lookup_2, elem_of_map_to_list in Hl.
      assert (id' = id) as -> by (apply (wf_sku s Hwf id' id r' r Hl Hr); congruence). simpl. congruence.
    + apply list_find_None in Hf. destruct (proj1 (Forall_forall _ _) Hf (id, r) Hin). done.
Qed.

Lemma product_of_sku_none s k :
  product_of_sku s k = None ↔ ∀ id r, products s !! id = Some r → sku r ≠ k.
Proof.
  unfold product_of_sku. rewrite fmap_None, list_find_None, Forall_forall. split.
  - intros H id r Hr. apply (H (id, r)). by apply elem_of_map_to_list.
  - intros H [id r] Hr. apply (H id r). by apply elem_of_map_to_list in Hr.
Qed.

(** ** Examples *)

(** Identifiers written in unary, for the examples. *)
Fixpoint unary (n : nat) : string := match n with O => "" | S n => String "x" (unary n) end.
Definition ex_text : UuidText := λ u, unary (N.to_nat u).
Definition ex_parse : UuidParse := λ s, Some (N.of_nat (String.length s)).

Lemma ex_laws : @UuidLaws ex_text ex_parse.
Proof.
  split; intros u.
  - unfold uuid_Parse, ex_parse, uuid_String, ex_text. f_equal.
    assert (∀ n, String.length (unary n) = n) as -> by (induction n as [|n IH]; [done|]; simpl; by rewrite IH).
    apply N2Nat.id.
  - unfold uuid_String, ex_text. by induction (N.to_nat u) as [|n IH].
Qed.

Definition ex_row (k : string) (t : Z) : product_row :=
  MkProductRow None k "a title" "" 500 "USD" true 1 t t.

(** Three products, two of them created at the same instant. *)
Definition ex_state : State :=
  MkState ∅ {[ 1%N := ex_row "SKU-1" 1700000000123456000; 2%N := ex_row "SKU-2" 1700000001000000000;
               3%N := ex_row "SKU-3" 1700000001000000000 ]}
          {[ 7%N := MkImageRow 1 "key-7" "url" "image/png" 10 true 0 0 ]}.

Lemma distinct_check {R} (f : R → string) (m : gmap uuid R) :
  NoDup ((λ p, f p.2) <$> map_to_list m) → distinct f m.
Proof.
  intros Hnd id1 id2 r1 r2 H1 H2 Hf. apply elem_of_map_to_list in H1, H2.
  apply list_elem_of_lookup in H1 as [i Hi], H2 as [j Hj].
  assert (i = j) as ->; [|congruence].
  eapply (NoDup_lookup _ i j (f r1) Hnd); rewrite list_lookup_fmap; [by rewrite Hi|by rewrite Hj; simpl; rewrite Hf].
Qed.

Lemma ex_wf : wf ex_state.
Proof.
  split.
  - apply (map_Forall_to_list (λ _ r, product_fits r = true ∧ 0 < price_minor r ∧ 1 <= version r ∧
      timestamptz (created_at r) = created_at r ∧ category_known ex_state (category_id r) = true)).
    repeat constructor; simpl; lia.
  - apply distinct_check, (bool_decide_unpack _). vm_compute. exact I.
  - apply (map_Forall_to_list (λ _ r, category_fits r = true)). repeat constructor.
  - apply distinct_check, (bool_decide_unpack _). vm_compute. exact I.
  - apply (map_Forall_to_list (λ _ r, image_fits r = true ∧ 0 < size_bytes r ∧ is_Some (products ex_state !! product_id r))).
    repeat constructor. by eexists.
  - apply distinct_check, (bool_decide_unpack _). vm_compute. exact I.
Qed.

Lemma ex_printable : @printable_rows UTC ex_state.
Proof.
  apply (map_Forall_to_list (λ _ r, @printable UTC (created_at r))).
  repeat constructor; vm_compute; discriminate.
Qed.

Lemma cursor_roundtrip_witness :
  @read_cursor ex_parse (@write_cursor ex_text UTC 1700000000123456000 3) = Some (1700000000123456000, 3%N).
Proof.
  apply (@cursor_roundtrip ex_text ex_parse ex_laws UTC). repeat constructor; vm_compute; discriminate.
Defined.

Example follow_ex :
  outcome (@follow ex_text ex_parse UTC 4 (with_cursor (MkListProductsParams 1 "" None None) "")
             (calm_env 0 100) 0%nat ex_state) =
  Ok [to_product 3 (ex_row "SKU-3" 1700000001000000000);
      to_product 2 (ex_row "SKU-2" 1700000001000000000);
      to_product 1 (ex_row "SKU-1" 1700000000123456000)].
Proof. vm_compute. reflexivity. Qed.

Lemma ListProducts_complete_witness :
  ∃ n' l, @follow ex_text ex_parse UTC 4 (with_cursor (MkListProductsParams 1 "" None None) "")
            (calm_env 0 100) 0%nat ex_state = (n', ex_state, Ok (uncurry to_product <$> l)) ∧ length l = 3%nat.
Proof.
  destruct (@ListProducts_complete ex_text ex_parse ex_laws UTC ex_state (MkListProductsParams 1 "" None None)
    (calm_env 0 100) 0%nat ex_wf ex_printable (calm_env_no_faults _ _)) as (n' & l & Hrun & Hp & _ & _).
  exists n', l. split; [exact Hrun|]. rewrite (Permutation_length Hp). vm_compute. reflexivity.
Defined.

Definition ex_new_product : Product :=
  MkProduct 5 None "SKU-5" "five" "" 0 "" (Money.MkMoney 900 "USD") true 0 [] 0 0.

Lemma catalog_history_witness :
  let s := final (run_write (WProduct ex_new_product) (calm_env 1000 50) 0%nat empty_state) in
  let s' := final (run_write (WPrice 5 700 "USD" 1) (calm_env 2000 60) 0%nat s) in
  wf s' ∧ price_minor <$> products s' !! 5%N = Some 700 ∧ continues s s'.
Proof.
  intros s s'.
  destruct (catalog_history s s') as (_ & H & H').
  - apply rtc_once. apply (step_write (WProduct ex_new_product) (calm_env 1000 50) 0%nat empty_state).
  - apply rtc_once. apply (step_write (WPrice 5 700 "USD" 1) (calm_env 2000 60) 0%nat s).
  - split; [exact H|]. split; [vm_compute; reflexivity|exact H'].
Defined.

Definition ex_image : ProductImage := MkProductImage 9 1 "key-7" "url" "image/png" 10 true 0 0.

Lemma AddProductImage_not_atomic_witness :
  is_primary <$> product_images ex_state !! 7%N = Some true ∧
  ∃ e, outcome (AddProductImage ex_image (calm_env 0 1) 0%nat ex_state) = Err e ∧
       ∀ id r, product_images (final (AddProductImage ex_image (calm_env 0 1) 0%nat ex_state)) !! id = Some r →
               product_id r = 1%N → is_primary r = false.
Proof.
  split; [vm_compute; reflexivity|].
  eexists. split; [vm_compute; reflexivity|].
  apply (AddProductImage_not_atomic ex_image (calm_env 0 1) 0%nat ex_state 2%nat
    (final (AddProductImage ex_image (calm_env 0 1) 0%nat ex_state))
    (ErrDriver "add product image: duplicate key value violates unique constraint"));
    [discriminate|reflexivity|reflexivity|vm_compute; reflexivity].
Defined.
