(* ===== verification/CatalogService.v ===== *)
(** internal/domain/catalog/service.go: the catalogue's service, over its tables and an
    optional search client.

    The search client is used through its interface ([Client]), and what is proved of the
    index is proved from the interface's laws ([ClientLaws]).  Indexing happens after the
    write, outside its transaction: a failure is logged and forgotten. *)

From S2P Require Import Prelude Database Money Timestamp Catalog Search CatalogStore.

(** * Validation *)

Definition strlen (s : string) : Z := Z.of_nat (String.length s).

Definition validateSKU (k : string) : option Catalog.error :=
  let trimmed := TrimSpace k in
  if (strlen trimmed <? 3) || (64 <? strlen trimmed) then Some ErrInvalidSKU else None.

Definition validateTitle (t : string) : option Catalog.error :=
  let trimmed := TrimSpace t in
  if (strlen trimmed =? 0) || (255 <? strlen t) then Some ErrInvalidTitle else None.

Definition validatePrice (p : Money.Money) : option Catalog.error :=
  if Money.Amount p <=? 0 then Some ErrInvalidPrice else None.

(** * Requests (models.go) *)

Record CreateProductRequest := MkCreateProductRequest {
  New_SKU : string;
  New_Title : string;
  New_Description : string;
  New_CategoryID : option uuid;
  New_Price : Money.Money;
}.

Record UpdateProductRequest := MkUpdateProductRequest {
  Upd_Title : string;
  Upd_Description : string;
  Upd_CategoryID : option uuid;
  Upd_IsActive : bool;
}.

Record CreateCategoryRequest := MkCreateCategoryRequest {
  Cat_Slug : string;
  Cat_Name : string;
  Cat_Description : string;
}.

Section service.
Context {St : Type} `{CL : !Client St} `{UT : UuidText} `{UP : UuidParse} `{LC : Location}.
(** [s.searchClient != nil] *)
Context (configured : bool).

Record World := MkWorld { tables : State; index : St }.
Definition set_tables (s : State) (w : World) : World := MkWorld s (index w).
Definition set_index (x : St) (w : World) : World := MkWorld (tables w) x.

Notation op A := (M World Catalog.error A).

Definition on_tables {A} (m : M State Catalog.error A) : op A := zoom tables set_tables m.

(** A call of the search client, with its error. *)
Definition on_index {A} (m : M St Search.error A) : op (result Search.error A) := λ env n w,
  match m env n (index w) with (n1, x, r) => (n1, set_index x w, Ok r) end.

(** [if err := s.validate...; err != nil { return err }] *)
Definition check (e : option Catalog.error) : op unit :=
  match e with Some e => fail e | None => ret tt end.

Local Open Scope go_scope.

Definition buildProductDocument (p : Product) : op ProductDocument :=
  let* catName :=
    match Product_CategoryID p with
    | None => ret ""
    | Some c =>
        let* r := try (on_tables (GetCategoryByID c)) in
        ret match r with Ok cat => Category_Name cat | Err _ => "" end
    end in
  ret (MkProductDocument (uuid_String (Product_ID p)) (Product_SKU p) (Product_Title p)
         (Product_Description p) (uuid_String <$> Product_CategoryID p) catName
         (Product_PriceMinor p) (Product_Currency p) (Product_IsActive p)).

(** The hook after a write: a failure to index is only logged. *)
Definition sync_index (p : Product) : op unit :=
  if configured then
    let* doc := buildProductDocument p in
    on_index (client_IndexProduct doc) ;;;
    ret tt
  else ret tt.

Definition CreateProduct (req : CreateProductRequest) : op Product :=
  check (validateSKU (New_SKU req)) ;;;
  check (validateTitle (New_Title req)) ;;;
  check (validatePrice (New_Price req)) ;;;
  let* id := uuid_New in
  let* p := on_tables (CatalogStore.CreateProduct
    (MkProduct id (New_CategoryID req) (New_SKU req) (New_Title req) (New_Description req)
       (Money.Amount (New_Price req)) (Money.Currency (New_Price req)) (New_Price req) true 1 [] 0 0)) in
  sync_index p ;;;
  ret p.

Definition GetProduct (id : uuid) : op Product := on_tables (GetProductByID id).

Definition GetProductBySKU (k : string) : op Product :=
  check (validateSKU k) ;;;
  on_tables (CatalogStore.GetProductBySKU k).

Definition GetProductsBySKUs (skus : list string) : op (list Product) :=
  match skus with
  | [] => ret []
  | _ => on_tables (CatalogStore.GetProductsBySKUs (sort_strings skus))
  end.

Definition ListProducts (params : ListProductsParams) : op (list Product * string * bool) :=
  on_tables (CatalogStore.ListProducts params).

Definition ErrVersion : Catalog.error := Catalog.ErrDriver "expected version must be positive".

Definition UpdateProduct (id : uuid) (req : UpdateProductRequest) (expectedVersion : Z) : op Product :=
  check (validateTitle (Upd_Title req)) ;;;
  if expectedVersion <=? 0 then fail ErrVersion else
  let* p := on_tables (CatalogStore.UpdateProduct id (Upd_Title req) (Upd_Description req)
                         (Upd_CategoryID req) (Upd_IsActive req) expectedVersion) in
  sync_index p ;;;
  ret p.

Definition UpdateProductPrice (id : uuid) (price : Money.Money) (expectedVersion : Z) : op Product :=
  check (validatePrice price) ;;;
  if expectedVersion <=? 0 then fail ErrVersion else
  let* p := on_tables (CatalogStore.UpdateProductPrice id (Money.Amount price) (Money.Currency price)
                         expectedVersion) in
  sync_index p ;;;
  ret p.

Definition CreateCategory (req : CreateCategoryRequest) : op Category :=
  let slug := TrimSpace (Cat_Slug req) in
  if String.eqb slug "" then fail (Catalog.ErrDriver "slug cannot be empty") else
  let name := TrimSpace (Cat_Name req) in
  if String.eqb name "" then fail (Catalog.ErrDriver "name cannot be empty") else
  let* id := uuid_New in
  on_tables (CatalogStore.CreateCategory (MkCategory id slug name (Cat_Description req) 0 0)).

Definition GetCategory (id : uuid) : op Category := on_tables (GetCategoryByID id).
Definition ListCategories : op (list Category) := on_tables CatalogStore.ListCategories.

Definition AddProductImage (productID : uuid) (storageKey url contentType : string) (sizeBytes : Z)
    (isPrimary : bool) (sortOrder : Z) : op ProductImage :=
  on_tables (GetProductByID productID) ;;;
  let* id := uuid_New in
  on_tables (CatalogStore.AddProductImage
    (MkProductImage id productID storageKey url contentType sizeBytes isPrimary sortOrder 0)).

Definition GetProductImages (productID : uuid) : op (list ProductImage) :=
  on_tables (GetProductByID productID) ;;;
  on_tables (CatalogStore.GetProductImages productID).

Definition GetProductImageByID (productID imageID : uuid) : op ProductImage :=
  on_tables (GetProductByID productID) ;;;
  on_tables (CatalogStore.GetProductImageByID productID imageID).

Definition DeleteProductImage (productID imageID : uuid) : op ProductImage :=
  on_tables (GetProductByID productID) ;;;
  on_tables (CatalogStore.DeleteProductImage productID imageID).

Definition ErrNoSearch : Catalog.error := Catalog.ErrDriver "search client not configured".

Definition SearchProducts (q : Query) : op SearchResult :=
  if negb configured then fail ErrNoSearch else
  let* r := on_index (client_Search q) in
  match r with
  | Ok res => ret res
  | Err (Search.Panic m) => fail (Catalog.Panic m)
  | Err e => fail (Catalog.ErrDriver (Search.Error e))
  end.

(** ** [ReindexAll] *)

(** [ctx.Err()] *)
Definition ctx_Err : op (option string) := λ env n w, (S n, w, Ok (env_fault env n)).

(** [for i := range products { docs[i] = s.buildProductDocument(ctx, &products[i]) }] *)
Fixpoint build_docs (l : list Product) : op (list ProductDocument) :=
  match l with
  | [] => ret []
  | p :: r =>
      let* d := buildProductDocument p in
      let* ds := build_docs r in
      ret (d :: ds)
  end.

(** The loop, [fuel] rounds of it; [None] if it would go on.  It returns the count it has
    reached together with the error. *)
Fixpoint reindex_loop (fuel : nat) (cursor : string) (totalIndexed : Z) :
    op (option (Z * option Catalog.error)) :=
  match fuel with
  | O => ret None
  | S fuel =>
      let* c := ctx_Err in
      match c with
      | Some msg => ret (Some (totalIndexed, Some (Catalog.ErrDriver msg)))
      | None =>
          let* r := try (ListProducts (MkListProductsParams 100 cursor None None)) in
          match r with
          | Err e => ret (Some (totalIndexed, Some (Catalog.ErrDriver
                       ("failed to list products for reindexing: " ++ Catalog.Error e)%string)))
          | Ok (products, nextCursor, hasMore) =>
              let* docs := build_docs products in
              let* b := match docs with
                        | [] => ret (Ok tt)
                        | _ => on_index (client_BulkIndex docs)
                        end in
              match b with
              | Err e => ret (Some (totalIndexed, Some (Catalog.ErrDriver
                           ("bulk indexing failed: " ++ Search.Error e)%string)))
              | Ok _ =>
                  let total := add64 totalIndexed (Z.of_nat (length docs)) in
                  if negb hasMore || String.eqb nextCursor "" then ret (Some (total, None))
                  else reindex_loop fuel nextCursor total
              end
          end
      end
  end.

Definition ReindexAll (fuel : nat) : op (option (Z * option Catalog.error)) :=
  if negb configured then ret (Some (0, Some ErrNoSearch)) else reindex_loop fuel "" 0.
End service.
Arguments MkWorld {St} tables index.
Arguments tables {St} w.
Arguments index {St} w.

(** * Documents *)

Definition doc_of `{UuidText} (p : Product) (name : string) : ProductDocument :=
  MkProductDocument (uuid_String (Product_ID p)) (Product_SKU p) (Product_Title p)
    (Product_Description p) (uuid_String <$> Product_CategoryID p) name
    (Product_PriceMinor p) (Product_Currency p) (Product_IsActive p).

(** The name in a document is that of the category, or empty when it could not be read. *)
Definition name_of (s : State) (p : Product) (n : string) : Prop :=
  n = "" ∨ ∃ c r, Product_CategoryID p = Some c ∧ categories s !! c = Some r ∧ n = name r.

Section documents.
Context {St : Type} `{UT : UuidText}.
Implicit Types (w : World (St:=St)).

Lemma buildProductDocument_run p env n w :
  ∃ n' cat, buildProductDocument p env n w = (n', w, Ok (doc_of p cat)) ∧ name_of (tables w) p cat.
Proof.
  unfold buildProductDocument, doc_of. destruct (Product_CategoryID p) as [c|] eqn:Hc.
  2:{ exists n, "". split; [done|by left]. }
  unfold bind, try, ret, on_tables, zoom, GetCategoryByID, sql.
  destruct w as [s x]. cbn [tables index set_tables].
  destruct (env_fault env n); [eexists _, ""; split; [done|by left]|].
  destruct (categories s !! c) as [r|] eqn:Hr; eexists _, _; (split; [done|]); [|by left].
  right. exists c, r. by rewrite Hc.
Qed.

Lemma build_docs_run l env n w :
  ∃ n' ds, build_docs l env n w = (n', w, Ok ds) ∧
    Forall2 (λ p d, ∃ cat, d = doc_of p cat ∧ name_of (tables w) p cat) l ds.
Proof.
  revert n. induction l as [|p l IH]; intros n; [by exists n, []|]. cbn [build_docs].
  destruct (buildProductDocument_run p env n w) as (n1 & cat & H1 & Hcat).
  rewrite (bind_ok _ _ _ _ _ _ _ _ H1). destruct (IH n1) as (n2 & ds & H2 & Hds).
  rewrite (bind_ok _ _ _ _ _ _ _ _ H2). exists n2, (doc_of p cat :: ds). split; [done|].
  constructor; [by exists cat|done].
Qed.
End documents.

(** ** What a bulk leaves in the index *)

Lemma bulk_lookup_other (l : list ProductDocument) (m : Index) k :
  k ∉ Doc_ID <$> l → foldl (λ m d, <[Doc_ID d := d]> m) m l !! k = m !! k.
Proof.
  revert m. induction l as [|d l IH]; intros m Hk; [done|]. csimpl in *.
  apply not_elem_of_cons in Hk as [Hd Hl]. rewrite IH by done. by apply lookup_insert_ne.
Qed.

Lemma bulk_lookup (l : list ProductDocument) (m : Index) d :
  NoDup (Doc_ID <$> l) → d ∈ l → foldl (λ m d, <[Doc_ID d := d]> m) m l !! Doc_ID d = Some d.
Proof.
  revert m. induction l as [|d' l IH]; intros m Hnd Hd; [by apply elem_of_nil in Hd|].
  csimpl in *. apply NoDup_cons in Hnd as [Hn Hnd]. apply elem_of_cons in Hd as [->|Hd]; [|by apply IH].
  rewrite bulk_lookup_other by done. apply lookup_insert_eq.
Qed.

(** * Reindexing *)

Section reindexing.
Context {St : Type} `{CL : !Client St, CW : !ClientLaws St}.
Context `{UT : UuidText, UP : UuidParse, UL : !UuidLaws} `{LC : Location}.
Implicit Types (w : World (St:=St)).

Lemma uuid_String_inj u v : uuid_String u = uuid_String v → u = v.
Proof. intros H. apply (f_equal uuid_Parse) in H. rewrite !uuid_Parse_String in H. congruence. Qed.

(** The document of a row of the tables [s] is in the index. *)
Definition indexed_row (s : State) (x : St) (y : uuid * product_row) : Prop :=
  ∃ cat, indexed x !! uuid_String y.1 = Some (doc_of (to_product y.1 y.2) cat) ∧
         name_of s (to_product y.1 y.2) cat.

(** The keys of the rows [l]. *)
Definition keys_of (l : list (uuid * product_row)) : list string := uuid_String <$> l.*1.

Lemma keys_of_nodup l : NoDup l.*1 → NoDup (keys_of l).
Proof. intros H. apply NoDup_fmap_2; [|done]. intros u v. apply uuid_String_inj. Qed.

(** One page: its documents are in the index, and the others as they were. *)
Lemma index_page s (l : list (uuid * product_row)) ds env n x n' x' :
  NoDup l.*1 →
  Forall2 (λ p d, ∃ cat, d = doc_of p cat ∧ name_of s p cat) ((λ y, to_product y.1 y.2) <$> l) ds →
  client_BulkIndex ds env n x = (n', x', Ok tt) →
  Forall (indexed_row s x') l ∧ ∀ k, k ∉ keys_of l → indexed x' !! k = indexed x !! k.
Proof.
  intros Hnd Hds Hrun. apply bulk_law in Hrun.
  assert (Doc_ID <$> ds = keys_of l) as Hkeys.
  { clear -Hds. unfold keys_of. revert ds Hds. induction l as [|y l IH]; intros ds Hds; csimpl in Hds.
    - by inversion Hds.
    - apply Forall2_cons_inv_l in Hds as (d & ds' & (cat & -> & _) & Hds & ->). csimpl. by rewrite (IH ds'). }
  pose proof (keys_of_nodup l Hnd) as Hnd'. rewrite <-Hkeys in Hnd'. split.
  - apply Forall_forall. intros y Hy. apply Forall2_fmap_l in Hds.
    apply list_elem_of_lookup in Hy as [i Hi].
    destruct (Forall2_lookup_l _ _ _ _ _ Hds Hi) as (d & Hd & cat & -> & Hcat).
    exists cat. split; [|done]. rewrite Hrun.
    apply (bulk_lookup ds (indexed x) (doc_of (to_product y.1 y.2) cat)); [done|].
    by eapply list_elem_of_lookup_2.
  - intros k Hk. rewrite Hrun. apply bulk_lookup_other. by rewrite Hkeys.
Qed.

(** A page, whatever the database does. *)
Lemma ListProducts_page params rest env n w :
  wf (tables w) → printable_rows (tables w) → at_rows (tables w) params rest →
  (∃ e, ListProducts params env n w = (S n, w, Err e)) ∨
  ∃ next,
    ListProducts params env n w =
      (S n, w, Ok ((λ x, to_product x.1 x.2) <$> take (limit_of params) rest, next,
                   (limit_of params <? length rest)%nat)) ∧
    ((limit_of params < length rest)%nat →
       next ≠ "" ∧ at_rows (tables w) (with_cursor params next) (drop (limit_of params) rest)) ∧
    (next = "" ∨ (limit_of params < length rest)%nat).
Proof.
  intros Hwf Hpr Hat. destruct w as [s x]. unfold ListProducts, on_tables, zoom. cbn [tables index] in *.
  destruct (env_fault env n) as [msg|] eqn:Hf.
  - left. unfold CatalogStore.ListProducts, bind, sql. rewrite Hf. by eexists.
  - right. destruct (ListProducts_step s params rest env n Hwf Hpr Hat Hf) as (next & Hrun & H).
    exists next. rewrite Hrun. done.
Qed.

Lemma with_cursor_params c : with_cursor (MkListProductsParams 100 "" None None) c = MkListProductsParams 100 c None None.
Proof. done. Qed.

Definition every : ListProductsParams := MkListProductsParams 100 "" None None.

(** What the loop answers when [rest] is left to index. *)
Definition reindexed (w w' : World) (rest : list (uuid * product_row)) (total : Z)
    (o : option (Z * option Catalog.error)) : Prop :=
  tables w' = tables w ∧ ∃ total' err, o = Some (total', err) ∧
  (err = None → total' = total + Z.of_nat (length rest) ∧
     Forall (indexed_row (tables w) (index w')) rest ∧
     ∀ k, k ∉ keys_of rest → indexed (index w') !! k = indexed (index w) !! k).

Lemma reindex_loop_spec fuel c total rest env n w :
  wf (tables w) → printable_rows (tables w) → at_rows (tables w) (with_cursor every c) rest →
  NoDup rest.*1 → 0 <= total → total + Z.of_nat (length rest) <= MaxInt64 → (length rest < fuel)%nat →
  ∃ n' w' o, reindex_loop fuel c total env n w = (n', w', Ok o) ∧ reindexed w w' rest total o.
Proof.
  revert c total rest n w. induction fuel as [|fuel IH]; intros c total rest n w Hwf Hpr Hat Hnd H0 Hmax Hfuel; [lia|].
  cbn [reindex_loop]. unfold ctx_Err. rewrite (bind_ok _ _ _ _ _ (S n) w (env_fault env n) eq_refl).
  destruct (env_fault env n) as [msg|].
  { eexists _, w, _. split; [done|]. split; [done|]. by do 2 eexists. }
  change (MkListProductsParams 100 c None None) with (with_cursor every c).
  destruct (ListProducts_page (with_cursor every c) rest env (S n) w Hwf Hpr Hat)
    as [[e Hrun]|(next & Hrun & Hmore & Hnext)].
  { unfold bind at 1, try. rewrite Hrun. eexists _, w, _. split; [done|]. split; [done|]. by do 2 eexists. }
  assert (try (ListProducts (with_cursor every c)) env (S n) w = (S (S n), w, Ok (Ok
    ((λ x, to_product x.1 x.2) <$> take 100 rest, next, (100 <? length rest)%nat)))) as Htry
    by (unfold try; by rewrite Hrun).
  rewrite (bind_ok _ _ _ _ _ _ _ _ Htry).
  change (limit_of (with_cursor every c)) with 100%nat in *.
  destruct (build_docs_run ((λ x, to_product x.1 x.2) <$> take 100 rest) env (S (S n)) w) as (n2 & ds & Hds & Hall).
  rewrite (bind_ok _ _ _ _ _ _ _ _ Hds).
  assert (NoDup (take 100 rest).*1) as Hnd1.
  { rewrite <-(take_drop 100 rest), fmap_app in Hnd. by apply NoDup_app in Hnd as (? & _ & _). }
  assert (Z.of_nat (length ds) = Z.of_nat (length (take 100 rest))) as Hlen
    by (apply Forall2_length in Hall; rewrite length_fmap in Hall; lia).
  assert (∃ n3 w3 b,
    match ds with [] => ret (Ok tt) | _ => on_index (client_BulkIndex ds) end env n2 w = (n3, w3, Ok b) ∧
    tables w3 = tables w ∧
    (b = Ok tt → Forall (indexed_row (tables w) (index w3)) (take 100 rest) ∧
                 ∀ k, k ∉ keys_of (take 100 rest) → indexed (index w3) !! k = indexed (index w) !! k))
    as (n3 & w3 & b & Hb & Hw3 & Hok).
  { destruct ds as [|d ds'].
    - exists n2, w, (Ok tt). split; [done|]. split; [done|]. intros _.
      destruct (take 100 rest); [done|]. simpl in Hlen. lia.
    - unfold on_index. destruct (client_BulkIndex (d :: ds') env n2 (index w)) as [[n3 x3] b] eqn:Hbulk.
      exists n3, (set_index x3 w), b. split; [done|]. split; [done|]. intros ->.
      eapply index_page; [exact Hnd1|exact Hall|exact Hbulk]. }
  rewrite (bind_ok _ _ _ _ _ _ _ _ Hb). destruct b as [[]|e].
  2:{ eexists _, w3, _. split; [done|]. split; [done|]. by do 2 eexists. }
  destruct (Hok eq_refl) as [Hin Hout]. cbv zeta. rewrite length_take in Hlen. rewrite Hlen.
  rewrite add64_id by (unfold in64, MinInt64, MaxInt64 in *; lia).
  destruct (Nat.ltb_spec 100 (length rest)) as [Hlt|Hge].
  - destruct (Hmore Hlt) as [Hne Hat']. apply String.eqb_neq in Hne. rewrite Hne. cbn [negb orb].
    replace (100 `min` length rest)%nat with 100%nat by lia.
    rewrite <-Hw3 in Hwf, Hpr, Hat'.
    rewrite <-(take_drop 100 rest), fmap_app in Hnd. apply NoDup_app in Hnd as (_ & Hdisj & Hnd2).
    destruct (IH next (total + Z.of_nat 100) (drop 100 rest) n3 w3) as (n' & w' & o & Hrun' & Ht' & total' & err & -> & Herr);
      try done; rewrite ?length_drop; try lia.
    exists n', w', (Some (total', err)). split; [exact Hrun'|]. split; [by rewrite Ht', Hw3|].
    exists total', err. split; [done|]. intros Hnone. destruct (Herr Hnone) as (-> & Hin' & Hout').
    rewrite length_drop. split; [lia|]. rewrite Hw3 in Hin'. split.
    + rewrite <-(take_drop 100 rest). apply Forall_app. split; [|done].
      apply Forall_forall. intros y Hy. destruct (proj1 (Forall_forall _ _) Hin y Hy) as (cat & Hc & Hname).
      exists cat. split; [|done]. rewrite Hout'; [done|]. unfold keys_of.
      intros (u & Hu & Hmem)%list_elem_of_fmap. apply uuid_String_inj in Hu as <-.
      apply (Hdisj y.1); [by apply list_elem_of_fmap_2|done].
    + intros k Hk. rewrite <-(take_drop 100 rest) in Hk. unfold keys_of in Hk. rewrite !fmap_app in Hk.
      apply not_elem_of_app in Hk as [Hk1 Hk2]. by rewrite Hout', Hout.
  - cbn [negb orb]. exists n3, w3. eexists. split; [done|]. split; [done|].
    exists (total + Z.of_nat (100 `min` length rest)), None. split; [done|]. intros _.
    rewrite take_ge in Hin, Hout by lia. split; [lia|done].
Qed.

End reindexing.

(** * Writes *)

Section writes.
Context {St : Type} `{CL : !Client St, CW : !ClientLaws St} `{UT : UuidText}.
Implicit Types (w : World (St:=St)).

(** After a write the index has the product, or is as it was. *)
Lemma sync_index_spec configured p env n w n' w' r :
  sync_index configured p env n w = (n', w', r) →
  r = Ok tt ∧ tables w' = tables w ∧
  (indexed (index w') = indexed (index w) ∨
   configured = true ∧ ∃ cat, name_of (tables w) p cat ∧
     indexed (index w') = <[uuid_String (Product_ID p) := doc_of p cat]> (indexed (index w))).
Proof.
  unfold sync_index. destruct configured; [|intros [= <- <- <-]; auto].
  destruct (buildProductDocument_run p env n w) as (n1 & cat & H1 & Hcat).
  rewrite (bind_ok _ _ _ _ _ _ _ _ H1). unfold bind, on_index, ret.
  destruct (client_IndexProduct (doc_of p cat) env n1 (index w)) as [[n2 x2] r2] eqn:Hx.
  intros [= <- <- <-]. split; [done|]. split; [done|]. apply index_law in Hx. simpl.
  destruct r2; [right; split; [done|]; by exists cat|by left].
Qed.

Lemma on_tables_run {A} (m : M State Catalog.error A) env n w n' w' r :
  on_tables m env n w = (n', w', r) → ∃ s', m env n (tables w) = (n', s', r) ∧ w' = set_tables s' w.
Proof.
  unfold on_tables, zoom. destruct (m env n (tables w)) as [[n1 s1] r1]. intros [= <- <- <-]. by exists s1.
Qed.

(** What [CreateProduct] may do and answer. *)
Definition product_creation (req : CreateProductRequest) (w w' : World (St:=St)) (r : result Catalog.error Product) : Prop :=
  match r with
  | Ok p =>
      validateSKU (New_SKU req) = None ∧ validateTitle (New_Title req) = None ∧
      0 < Money.Amount (New_Price req) ∧
      products (tables w) !! Product_ID p = None ∧ sku_taken (tables w) (New_SKU req) = false ∧
      ∃ row, tables w' = set_products (tables w) (<[Product_ID p := row]> (products (tables w))) ∧
        sku row = New_SKU req ∧ title row = New_Title req ∧ category_id row = New_CategoryID req ∧
        price_minor row = Money.Amount (New_Price req) ∧ currency row = Money.Currency (New_Price req) ∧
        version row = 1 ∧ is_active row = true ∧
        (indexed (index w') = indexed (index w) ∨
         ∃ cat, indexed (index w') = <[uuid_String (Product_ID p) := doc_of p cat]> (indexed (index w)))
  | Err e =>
      w' = w ∧
      (validateSKU (New_SKU req) = Some e ∨ validateTitle (New_Title req) = Some e ∨
       validatePrice (New_Price req) = Some e ∨
       (e = ErrDuplicateSKU ∧ (sku_taken (tables w) (New_SKU req) = true ∨ ∃ id, is_Some (products (tables w) !! id))) ∨
       (e = ErrCategoryNotFound ∧ category_known (tables w) (New_CategoryID req) = false) ∨
       ∃ m, e = Catalog.ErrDriver m)
  end.

Lemma CreateProduct_creation configured req env n w n' w' r :
  CreateProduct configured req env n w = (n', w', r) → product_creation req w w' r.
Proof.
  unfold CreateProduct, product_creation. intros Hrun.
  destruct (validateSKU (New_SKU req)) as [e|] eqn:H1; [injection Hrun as <- <- <-; by auto|].
  destruct (validateTitle (New_Title req)) as [e|] eqn:H2; [injection Hrun as <- <- <-; by auto|].
  destruct (validatePrice (New_Price req)) as [e|] eqn:H3; [injection Hrun as <- <- <-; by auto 6|].
  assert (0 < Money.Amount (New_Price req)) as Hpos.
  { unfold validatePrice in H3. destruct (Z.leb_spec (Money.Amount (New_Price req)) 0); [done|lia]. }
  cbn [check] in Hrun. do 3 rewrite (bind_ok (ret tt) _ env n w n w tt eq_refl) in Hrun.
  rewrite (bind_ok uuid_New _ env n w (S n) w (env_uuid env n) eq_refl) in Hrun.
  apply bind_inv in Hrun as [(e & Hrun & ->)|(n1 & w1 & p & Hon & Hrun)].
  - apply on_tables_run in Hrun as (s1 & Hrepo & ->). apply CreateProduct_run in Hrepo as [-> He].
    split; [by destruct w|]. simpl in He. tauto.
  - apply on_tables_run in Hon as (s1 & Hrepo & ->). apply CreateProduct_run in Hrepo as (Hnew & Htaken & row & -> & Hrow).
    apply bind_inv in Hrun as [(e & Hsync & ->)|(n3 & w3 & [] & Hsync & Hrun)];
      pose proof (sync_index_spec _ _ _ _ _ _ _ _ Hsync) as (Hr & Ht & Hix); [done|].
    injection Hrun as <- <- <-.
    split_and!; try done. exists row. split; [exact Ht|]. destruct Hrow as (? & ? & ? & ? & ? & ? & ?).
    split_and!; try done. destruct Hix as [Hix|(_ & cat & _ & Hix)]; [by left|right; by exists cat].
Qed.

(** Creating a product.  An invalid SKU, title or price, a SKU that is in use and an
    unknown category are refused with their errors and change nothing; a product that is
    answered is in the tables at version 1, active, with the price asked for, and the
    index has its document or, when the client failed, what it had before. *)
Theorem CreateProduct_spec configured req env n w n' w' r :
  CreateProduct configured req env n w = (n', w', r) →
  match r with
  | Ok p =>
      validateSKU (New_SKU req) = None ∧ validateTitle (New_Title req) = None ∧
      0 < Money.Amount (New_Price req) ∧
      products (tables w) !! Product_ID p = None ∧ sku_taken (tables w) (New_SKU req) = false ∧
      ∃ row, tables w' = set_products (tables w) (<[Product_ID p := row]> (products (tables w))) ∧
        sku row = New_SKU req ∧ title row = New_Title req ∧ category_id row = New_CategoryID req ∧
        price_minor row = Money.Amount (New_Price req) ∧ currency row = Money.Currency (New_Price req) ∧
        version row = 1 ∧ is_active row = true ∧
        (indexed (index w') = indexed (index w) ∨
         ∃ cat, indexed (index w') = <[uuid_String (Product_ID p) := doc_of p cat]> (indexed (index w)))
  | Err e =>
      w' = w ∧
      (validateSKU (New_SKU req) = Some e ∨ validateTitle (New_Title req) = Some e ∨
       validatePrice (New_Price req) = Some e ∨
       (e = ErrDuplicateSKU ∧ (sku_taken (tables w) (New_SKU req) = true ∨ ∃ id, is_Some (products (tables w) !! id))) ∨
       (e = ErrCategoryNotFound ∧ category_known (tables w) (New_CategoryID req) = false) ∨
       ∃ m, e = Catalog.ErrDriver m)
  end.
Proof. apply CreateProduct_creation. Qed.
End writes.

(** * Examples *)

Section examples.
#[local] Existing Instance ex_text.
#[local] Existing Instance ex_parse.
#[local] Existing Instance UTC.
#[local] Existing Instance ex_laws.
#[local] Instance ex_client : Client Index := MemoryClient ToLower.
#[local] Instance ex_client_laws : ClientLaws Index := MemoryClient_laws ToLower.

Definition ex_world : World (St:=Index) := MkWorld ex_state ∅.


Definition ex_request : CreateProductRequest :=
  MkCreateProductRequest "SKU-9" "nine" "" None (Money.MkMoney 900 "USD").

Lemma CreateProduct_spec_witness :
  outcome (CreateProduct true ex_request (calm_env 1000 50) 0%nat ex_world) =
    Ok (MkProduct 50 None "SKU-9" "nine" "" 900 "USD" (Money.MkMoney 900 "USD") true 1 [] 1000 1000) ∧
  sku_taken ex_state "SKU-9" = false.
Proof.
  pose proof (CreateProduct_spec true ex_request (calm_env 1000 50) 0%nat ex_world _ _ _ (run_eta _)) as H.
  assert (outcome (CreateProduct true ex_request (calm_env 1000 50) 0%nat ex_world) =
    Ok (MkProduct 50 None "SKU-9" "nine" "" 900 "USD" (Money.MkMoney 900 "USD") true 1 [] 1000 1000)) as Hout
    by (vm_compute; reflexivity).
  rewrite Hout in H. split; [exact Hout|]. apply H.
Defined.
End examples.
