(* ===== verification/Seed.v ===== *)
(** cmd/shopflow/seed.go: the demonstration data a server puts into an empty catalogue when
    it starts.

    The statements run one by one, outside any transaction.  ON CONFLICT DO NOTHING lets a
    row with the same slug, SKU or storage key stand; another unique key that clashes is
    an error. *)

From S2P Require Import Prelude.
From S2P Require CatalogStore Inventory.

(** * Data *)

Record seedCategory := MkSeedCategory {
  cat_id : uuid;
  cat_slug : string;
  cat_name : string;
  cat_description : string;
}.

Record seedProduct := MkSeedProduct {
  id : uuid;
  categoryID : uuid;
  sku : string;
  title : string;
  description : string;
  priceMinor : Z;
  in_stock : Z;
  imageURL : string;
}.

Definition seed_categories : list seedCategory := [
  MkSeedCategory 0x11111111111111111111111111111101 "electronics"
    "Электроника (Electronics)"
    "Гаджеты, смартфоны, ноутбуки и аксессуары";
  MkSeedCategory 0x11111111111111111111111111111102 "audio"
    "Аудио & Звук (Audio)"
    "Беспроводные наушники, акустика и микрофоны";
  MkSeedCategory 0x11111111111111111111111111111103 "accessories"
    "Аксессуары (Accessories)"
    "Чехлы, кабели, зарядные станции и рюкзаки";
  MkSeedCategory 0x11111111111111111111111111111104 "smart-home"
    "Умный дом (Smart Home)"
    "Устройства автоматизации и комфорта"].

Definition seed_products : list seedProduct := [
  MkSeedProduct 0x22222222222222222222222222222201 0x11111111111111111111111111111101
    "SKU-MACBOOK-PRO-16"
    "Ноутбук Pro 16 M3 Max"
    "Флагманский производительный ноутбук для разработки, 3D-графики и высоких нагрузок. 36GB RAM, 1TB SSD."
    249999 15
    "https://images.unsplash.com/photo-1517336714731-489689fd1ca8?w=800&auto=format&fit=crop&q=60";
  MkSeedProduct 0x22222222222222222222222222222202 0x11111111111111111111111111111102
    "SKU-HEADPHONES-ANC"
    "Беспроводные наушники Pro ANC"
    "Премиальное активное шумоподавление, Hi-Res аудиокодеки и до 40 часов непрерывного воспроизведения."
    34999 45
    "https://images.unsplash.com/photo-1505740420928-5e560c06d30e?w=800&auto=format&fit=crop&q=60";
  MkSeedProduct 0x22222222222222222222222222222203 0x11111111111111111111111111111101
    "SKU-KEYCHRON-Q1"
    "Механическая клавиатура Custom RGB"
    "Алюминиевый корпус, Hot-Swap переключатели, настраиваемая подсветка и подключение по Type-C/Bluetooth."
    18950 28
    "https://images.unsplash.com/photo-1587829741301-dc798b83add3?w=800&auto=format&fit=crop&q=60";
  MkSeedProduct 0x22222222222222222222222222222204 0x11111111111111111111111111111103
    "SKU-BACKPACK-URBAN"
    "Городской водонепроницаемый рюкзак"
    "Отделение для ноутбука 16 дюймов, скрытые карманы против кражи, USB-порт для быстрой подзарядки."
    8990 60
    "https://images.unsplash.com/photo-1553062407-98eeb64c6a62?w=800&auto=format&fit=crop&q=60";
  MkSeedProduct 0x22222222222222222222222222222205 0x11111111111111111111111111111101
    "SKU-MONITOR-4K-32"
    ("Монитор UltraWide 4K 32" ++ String "034" " IPS")%string
    "Калиброванная цветопередача 99% DCI-P3, 144Hz частота обновления, встроенный KVM-переключатель."
    69900 12
    "https://images.unsplash.com/photo-1527443224154-c4a3942d3acf?w=800&auto=format&fit=crop&q=60";
  MkSeedProduct 0x22222222222222222222222222222206 0x11111111111111111111111111111104
    "SKU-SMART-SPEAKER"
    "Умная колонка с голосовым ассистентом"
    "Чистый стереозвук, управление умным домом по Zigbee и Wi-Fi, адаптивная акустика помещения."
    12999 35
    "https://images.unsplash.com/photo-1543512214-318c7553f230?w=800&auto=format&fit=crop&q=60";
  MkSeedProduct 0x22222222222222222222222222222207 0x11111111111111111111111111111103
    "SKU-WIRELESS-CHARGER"
    "Беспроводная зарядная станция 3-в-1"
    "Одновременная быстрая зарядка MagSafe для смартфона, смарт-часов и беспроводных наушников."
    5990 80
    "https://images.unsplash.com/photo-1622445262464-84b1456045b6?w=800&auto=format&fit=crop&q=60";
  MkSeedProduct 0x22222222222222222222222222222208 0x11111111111111111111111111111102
    "SKU-STUDIO-MIC"
    "Конденсаторный USB-микрофон Studio Pro"
    "Кардиоидная диаграмма направленности, встроенный поп-фильтр и нулевая задержка мониторинга звука."
    14900 20
    "https://images.unsplash.com/photo-1590658268037-6bf12165a8df?w=800&auto=format&fit=crop&q=60"].

(** * Tables *)

Record State := MkState {
  catalog : CatalogStore.State;
  stock : Inventory.State;
}.

Definition set_catalog (s : State) (c : CatalogStore.State) : State := MkState c (stock s).
Definition set_stock (s : State) (t : Inventory.State) : State := MkState (catalog s) t.

Definition empty_state : State := MkState CatalogStore.empty_state Inventory.empty_state.

Inductive error := ErrDriver (msg : string).

#[export] Instance error_GoError : GoError error :=
  {| error_text e := match e with ErrDriver m => m end; driver_error := ErrDriver;
     driver_error_text := λ _, eq_refl |}.

Definition op := M State error.

(** * Statements *)

Section seed.
Local Open Scope go_scope.

Definition insert_category (c : seedCategory) : op unit :=
  let what := ("insert category " ++ cat_slug c ++ ": ")%string in
  sql what (λ now s,
    let cs := catalog s in
    let r := CatalogStore.MkCategoryRow (cat_slug c) (cat_name c) (cat_description c)
               (CatalogStore.timestamptz now) (CatalogStore.timestamptz now) in
    if negb (CatalogStore.category_fits r) then Err (ErrDriver (what ++ CatalogStore.pg_type)%string) else
    if CatalogStore.slug_taken cs (cat_slug c) then Ok (s, tt) else
    if bool_decide (is_Some (CatalogStore.categories cs !! cat_id c))
    then Err (ErrDriver (what ++ CatalogStore.pg_unique)%string) else
    Ok (set_catalog s (CatalogStore.set_categories cs (<[cat_id c := r]> (CatalogStore.categories cs))), tt)).

Definition insert_product (p : seedProduct) : op unit :=
  let what := ("insert product " ++ sku p ++ ": ")%string in
  sql what (λ now s,
    let cs := catalog s in
    let r := CatalogStore.MkProductRow (Some (categoryID p)) (sku p) (title p) (description p) (priceMinor p)
               "USD" true 1 (CatalogStore.timestamptz now) (CatalogStore.timestamptz now) in
    if negb (CatalogStore.product_fits r) then Err (ErrDriver (what ++ CatalogStore.pg_type)%string) else
    if negb (0 <? priceMinor p) then Err (ErrDriver (what ++ CatalogStore.pg_check)%string) else
    if CatalogStore.sku_taken cs (sku p) then Ok (s, tt) else
    if bool_decide (is_Some (CatalogStore.products cs !! id p))
    then Err (ErrDriver (what ++ CatalogStore.pg_unique)%string) else
    if negb (CatalogStore.category_known cs (Some (categoryID p)))
    then Err (ErrDriver (what ++ CatalogStore.pg_fk)%string) else
    Ok (set_catalog s (CatalogStore.set_products cs (<[id p := r]> (CatalogStore.products cs))), tt)).

Definition insert_stock (p : seedProduct) : op unit :=
  let what := ("insert inventory " ++ sku p ++ ": ")%string in
  sql what (λ now s,
    let ts := stock s in
    let r := Inventory.MkInventoryRow (in_stock p) 0 1 now in
    if negb (varchar_ok 64 (sku p) && Inventory.row_ok r)
    then Err (ErrDriver (what ++ Inventory.pg_check)%string) else
    match Inventory.inventory ts !! sku p with
    | Some _ => Ok (s, tt)
    | None => Ok (set_stock s (Inventory.set_inventory ts (<[sku p := r]> (Inventory.inventory ts))), tt)
    end).

(** [image_id] is [uuid.New()]. *)
Definition insert_image (p : seedProduct) (image_id : uuid) : op unit :=
  let what := ("insert product image " ++ sku p ++ ": ")%string in
  sql what (λ now s,
    let cs := catalog s in
    let r := CatalogStore.MkImageRow (id p) (sku p ++ "-primary")%string (imageURL p) "image/jpeg" 102400 true 0
               (CatalogStore.timestamptz now) in
    if negb (CatalogStore.image_fits r) then Err (ErrDriver (what ++ CatalogStore.pg_type)%string) else
    if CatalogStore.storage_key_taken cs (CatalogStore.storage_key r) then Ok (s, tt) else
    if bool_decide (is_Some (CatalogStore.product_images cs !! image_id))
    then Err (ErrDriver (what ++ CatalogStore.pg_unique)%string) else
    if bool_decide (CatalogStore.products cs !! id p = None)
    then Err (ErrDriver (what ++ CatalogStore.pg_fk)%string) else
    Ok (set_catalog s (CatalogStore.set_images cs (<[image_id := r]> (CatalogStore.product_images cs))), tt)).

Definition seed_product (p : seedProduct) : op unit :=
  insert_product p ;;;
  insert_stock p ;;;
  if negb (String.eqb (imageURL p) "")
  then let* image_id := uuid_New in insert_image p image_id
  else ret tt.

Definition seedInitialData : op unit :=
  let* count := sql "check products count: " (λ _ s, Ok (s, Z.of_nat (size (CatalogStore.products (catalog s))))) in
  if 0 <? count then ret tt else
  for_each insert_category seed_categories ;;;
  for_each seed_product seed_products.
End seed.

(** * What a run leaves *)

(** The row of a product of the list. *)
Record seeded (p : seedProduct) (r : CatalogStore.product_row) : Prop := {
  sd_sku : CatalogStore.sku r = sku p;
  sd_category : CatalogStore.category_id r = Some (categoryID p);
  sd_title : CatalogStore.title r = title p;
  sd_price : CatalogStore.price_minor r = priceMinor p ∧ CatalogStore.currency r = "USD";
  sd_active : CatalogStore.is_active r = true;
}.

(** The tables are well formed. *)
Definition wf (s : State) : Prop := CatalogStore.wf (catalog s) ∧ Inventory.inv (stock s).

(** Rows are only added: products and stock of the list. *)
Record grows (s s' : State) : Prop := {
  gr_products : CatalogStore.products (catalog s) ⊆ CatalogStore.products (catalog s');
  gr_images : CatalogStore.product_images (catalog s) ⊆ CatalogStore.product_images (catalog s');
  gr_stock : Inventory.inventory (stock s) ⊆ Inventory.inventory (stock s');
  gr_new_product i r : CatalogStore.products (catalog s') !! i = Some r →
    CatalogStore.products (catalog s) !! i = Some r ∨ ∃ p, p ∈ seed_products ∧ i = id p ∧ seeded p r;
  gr_new_stock k r : Inventory.inventory (stock s') !! k = Some r →
    Inventory.inventory (stock s) !! k = Some r ∨
    ∃ p, p ∈ seed_products ∧ k = sku p ∧ Inventory.on_hand r = in_stock p ∧ Inventory.reserved r = 0;
}.

#[export] Instance grows_preorder : PreOrder grows.
Proof.
  split; [intros s; split; by auto|]. intros s1 s2 s3 [P1 I1 T1 NP1 NT1] [P2 I2 T2 NP2 NT2].
  split; [by etrans..| |].
  - intros i r [H|H]%NP2; [by apply NP1|by right].
  - intros k r [H|H]%NT2; [by apply NT1|by right].
Qed.

(** A program that keeps the tables well formed, adds rows only, and establishes [Q]. *)
Definition adds (m : op unit) (Q : State → Prop) : Prop :=
  ∀ env n s n' s' r, wf s → m env n s = (n', s', r) → wf s' ∧ grows s s' ∧ (r = Ok tt → Q s').

Lemma adds_mono m (Q1 Q2 : State → Prop) : (∀ s, Q1 s → Q2 s) → adds m Q1 → adds m Q2.
Proof. intros HQ Hm env n s n' s' r Hs H. destruct (Hm _ _ _ _ _ _ Hs H) as (? & ? & ?). split_and!; auto. Qed.

Lemma adds_bind m k (Q1 Q2 : State → Prop) :
  (∀ s s', grows s s' → Q1 s → Q1 s') → adds m Q1 → adds k Q2 → adds (bind m (λ _, k)) (λ s, Q1 s ∧ Q2 s).
Proof.
  intros Hstable Hm Hk env n s n' s' r Hs [(e & H & ->)|(n1 & s1 & [] & H1 & H2)]%bind_inv.
  - by destruct (Hm _ _ _ _ _ _ Hs H) as (? & ? & _).
  - destruct (Hm _ _ _ _ _ _ Hs H1) as (Hs1 & G1 & Q). destruct (Hk _ _ _ _ _ _ Hs1 H2) as (Hs2 & G2 & Q').
    split; [done|]. split; [by etrans|]. intros Hr. split; [eapply Hstable, Q|]; auto.
Qed.

Lemma adds_each {X} (f : X → op unit) (Q : X → State → Prop) l :
  (∀ x s s', grows s s' → Q x s → Q x s') → (∀ x, x ∈ l → adds (f x) (Q x)) →
  adds (for_each f l) (λ s, ∀ x, x ∈ l → Q x s).
Proof.
  intros Hstable. induction l as [|x l IH]; intros Hf; cbn [for_each].
  - intros env n s n' s' r Hs [= <- <- <-]. split; [done|]. split; [done|]. by intros _ x ?%not_elem_of_nil.
  - eapply adds_mono; [|apply (adds_bind _ _ (Q x)); [apply Hstable|apply Hf; by left|apply IH; intros y Hy; apply Hf; by right]].
    intros s [Hx Hl] y [->|Hy]%elem_of_cons; auto.
Qed.

Lemma adds_sql what (f : Z → State → result error (State * unit)) (Q : State → Prop) :
  (∀ now s s', wf s → f now s = Ok (s', tt) → wf s' ∧ grows s s' ∧ Q s') → adds (sql what f) Q.
Proof.
  intros Hf env n s n' s' r Hs H. destruct r as [[]|e].
  - apply sql_ok_inv in H as (_ & H & _). destruct (Hf _ _ _ Hs H) as (? & ? & ?). auto.
  - apply sql_err_inv in H as ->. done.
Qed.

(** ** The statements *)

Lemma grows_catalog s c :
  CatalogStore.products (catalog s) ⊆ CatalogStore.products c →
  CatalogStore.product_images (catalog s) ⊆ CatalogStore.product_images c →
  (∀ i r, CatalogStore.products c !! i = Some r →
     CatalogStore.products (catalog s) !! i = Some r ∨ ∃ p, p ∈ seed_products ∧ i = id p ∧ seeded p r) →
  grows s (set_catalog s c).
Proof. intros H1 H2 H3. split; cbn; auto. Qed.

Lemma taken_true {R} (f : R → string) (m : gmap uuid R) k :
  existsb (λ p, String.eqb (f p.2) k) (map_to_list m) = true → ∃ i r, m !! i = Some r ∧ f r = k.
Proof.
  intros ([i r] & Hin%list_elem_of_In%elem_of_map_to_list & Heq%String.eqb_eq)%existsb_exists. eauto.
Qed.

Lemma insert_category_adds c : adds (insert_category c) (λ _, True).
Proof.
  apply adds_sql. cbv zeta. intros now s s' [Hc Hi].
  destruct (CatalogStore.category_fits _) eqn:Hfit; [|done]. cbn [negb].
  destruct (CatalogStore.slug_taken _ _) eqn:Hslug; [by intros [= <-]|].
  destruct (bool_decide _); [done|]. intros [= <-]. split; [split; [by apply CatalogStore.wf_insert_category|done]|].
  split; [|done]. apply grows_catalog; auto.
Qed.

(** A product of the list with this SKU. *)
Definition listed (p : seedProduct) (s : State) : Prop :=
  ∃ i r, CatalogStore.products (catalog s) !! i = Some r ∧ CatalogStore.sku r = sku p.
Definition stocked (p : seedProduct) (s : State) : Prop := is_Some (Inventory.inventory (stock s) !! sku p).
Definition pictured (p : seedProduct) (s : State) : Prop :=
  ∃ i r, CatalogStore.product_images (catalog s) !! i = Some r ∧
    CatalogStore.storage_key r = (sku p ++ "-primary")%string.

Lemma insert_product_adds p : p ∈ seed_products → adds (insert_product p) (listed p).
Proof.
  intros Hp. apply adds_sql. cbv zeta. intros now s s' [Hc Hi].
  destruct (CatalogStore.product_fits _) eqn:Hfit; [|done]. destruct (0 <? _) eqn:Hpos; [|done]. cbn [negb].
  destruct (CatalogStore.sku_taken _ _) eqn:Hsku; [intros [= <-]; split; [done|]; split; [done|by apply (taken_true CatalogStore.sku)]|].
  destruct (bool_decide _) eqn:Hid; [done|]. apply bool_decide_eq_false, eq_None_not_Some in Hid.
  destruct (CatalogStore.category_known _ _) eqn:Hcat; [|done]. intros [= <-]. apply Z.ltb_lt in Hpos.
  split; [split; [|done]|split].
  - apply CatalogStore.wf_insert_product; [done|done|exact Hpos|done|apply CatalogStore.timestamptz_idem|done|].
    intros i r Hl Heq. by destruct (CatalogStore.taken_false CatalogStore.sku _ _ Hsku _ _ Hl).
  - apply grows_catalog; cbn; [by apply insert_subseteq|done|].
    intros i r [[<- <-]|[_ Hl]]%lookup_insert_Some; [right; by exists p|by left].
  - eexists (id p), _. split; [apply lookup_insert_eq|done].
Qed.

Lemma insert_stock_adds p : p ∈ seed_products → adds (insert_stock p) (stocked p).
Proof.
  intros Hp. apply adds_sql. cbv zeta. intros now s s' [Hc Hi].
  destruct (varchar_ok 64 (sku p)) eqn:Hv; [|done]. destruct (Inventory.row_ok _) eqn:Hrow; [|done]. cbn [negb andb].
  destruct (Inventory.inventory (stock s) !! sku p) eqn:Hr; [intros [= <-]; split; [done|]; split; [done|by eexists]|].
  intros [= <-]. split; [split; [done|]|split].
  - apply Inventory.inv_insert_row; [done..|]. cbn. symmetry. apply Inventory.pending_qty_absent; [apply Hi|done].
  - split; cbn; auto; [by apply insert_subseteq|].
    intros k r [[<- <-]|[_ Hl]]%lookup_insert_Some; [right; by exists p|by left].
  - unfold stocked. cbn. rewrite lookup_insert_eq. by eexists.
Qed.

Lemma insert_image_adds p i : adds (insert_image p i) (pictured p).
Proof.
  apply adds_sql. cbv zeta. intros now s s' [Hc Hi].
  destruct (CatalogStore.image_fits _) eqn:Hfit; [|done]. cbn [negb].
  destruct (CatalogStore.storage_key_taken _ _) eqn:Hkey.
  { intros [= <-]. split; [done|]. split; [done|by apply (taken_true CatalogStore.storage_key)]. }
  destruct (bool_decide (is_Some _)) eqn:Hid; [done|]. apply bool_decide_eq_false, eq_None_not_Some in Hid.
  destruct (bool_decide (_ = None)) eqn:Hfk; [done|]. apply bool_decide_eq_false in Hfk. intros [= <-].
  split; [split; [by apply CatalogStore.wf_insert_image|done]|split].
  - apply grows_catalog; cbn; [done|by apply insert_subseteq|auto].
  - eexists i, _. split; [apply lookup_insert_eq|done].
Qed.

Lemma seed_has_image p : p ∈ seed_products → String.eqb (imageURL p) "" = false.
Proof.
  assert (Forall (λ p, String.eqb (imageURL p) "" = false) seed_products) as H by (repeat constructor).
  rewrite Forall_forall in H. apply H.
Qed.

Lemma seed_sku_inj p q : p ∈ seed_products → q ∈ seed_products → sku p = sku q → p = q.
Proof.
  assert (NoDup (sku <$> seed_products)) as Hnd by (apply (bool_decide_unpack _); vm_compute; exact I).
  intros [i Hi]%list_elem_of_lookup [j Hj]%list_elem_of_lookup Heq.
  assert (i = j) as ->; [|congruence]. eapply NoDup_lookup; [exact Hnd|..]; rewrite list_lookup_fmap, ?Hi, ?Hj; cbn; by rewrite ?Heq.
Qed.

Lemma listed_grows p s s' : grows s s' → listed p s → listed p s'.
Proof. intros G (i & r & Hi & Hr). exists i, r. split; [|done]. by eapply lookup_weaken, gr_products. Qed.
Lemma stocked_grows p s s' : grows s s' → stocked p s → stocked p s'.
Proof. intros G [r Hr]. exists r. by eapply lookup_weaken, gr_stock. Qed.
Lemma pictured_grows p s s' : grows s s' → pictured p s → pictured p s'.
Proof. intros G (i & r & Hi & Hr). exists i, r. split; [|done]. by eapply lookup_weaken, gr_images. Qed.

Lemma seed_product_adds p : p ∈ seed_products →
  adds (seed_product p) (λ s, listed p s ∧ stocked p s ∧ pictured p s).
Proof.
  intros Hp. unfold seed_product. rewrite seed_has_image by done. cbn [negb].
  apply adds_bind; [by apply listed_grows|by apply insert_product_adds|].
  apply adds_bind; [by apply stocked_grows|by apply insert_stock_adds|].
  intros env n s n' s' r Hs H. exact (insert_image_adds p (env_uuid env n) env (S n) s n' s' r Hs H).
Qed.

Lemma seed_all_adds :
  adds (bind (for_each insert_category seed_categories) (λ _, for_each seed_product seed_products))
    (λ s, ∀ p, p ∈ seed_products → listed p s ∧ stocked p s ∧ pictured p s).
Proof.
  eapply adds_mono; [|apply (adds_bind _ _ (λ _, True)); [done| |apply (adds_each seed_product (λ p s, listed p s ∧ stocked p s ∧ pictured p s))]].
  - by intros s [_ H].
  - eapply adds_mono; [|apply (adds_each _ (λ _ _, True))]; [done|done|]. intros c _. apply insert_category_adds.
  - intros p s s' G (H1 & H2 & H3). split_and!; [by eapply listed_grows|by eapply stocked_grows|by eapply pictured_grows].
  - apply seed_product_adds.
Qed.

Lemma seed_skips env n s n' s' r :
  CatalogStore.products (catalog s) ≠ ∅ → seedInitialData env n s = (n', s', r) → s' = s.
Proof.
  intros Hne [(e & H & _)|(n1 & s1 & count & H1 & H2)]%bind_inv; [by apply sql_err_inv in H|].
  apply sql_ok_inv in H1 as (_ & [= <- <-] & _).
  assert (0 < size (CatalogStore.products (catalog s)))%nat as Hpos.
  { destruct (size (CatalogStore.products (catalog s))) eqn:E; [|lia]. exfalso. by apply Hne, map_size_empty_inv. }
  rewrite (proj2 (Z.ltb_lt _ _)) in H2 by lia. by injection H2 as _ <- _.
Qed.


Lemma no_data_wf : wf empty_state.
Proof. split; [apply CatalogStore.wf_empty|apply Inventory.empty_state_inv]. Qed.

Definition ex_run := seedInitialData (calm_env 5 1) 0%nat empty_state.

Definition ex_mic : seedProduct := List.nth 7 seed_products (MkSeedProduct 0 0 "" "" "" 0 0 "").


(** * A start that fails half way *)

(** The database goes away between the first product and its stock. *)
Definition ex_broken : Env := faulty_env 5 1 6 "connection reset".

(** The data is not put in as a whole.  When the database fails between a product and its
    stock, the catalogue shows one active product that the stock tables do not know; and no
    later start of the server goes on from there, since the catalogue is no longer empty. *)
Theorem seed_never_resumed :
  let s1 := final (seedInitialData ex_broken 0%nat empty_state) in
  outcome (seedInitialData ex_broken 0%nat empty_state) = Err (ErrDriver "insert inventory SKU-MACBOOK-PRO-16: connection reset") ∧
  (CatalogStore.is_active <$> CatalogStore.products (catalog s1) !! 0x22222222222222222222222222222201%N) = Some true ∧
  size (CatalogStore.products (catalog s1)) = 1%nat ∧
  Inventory.stock (stock s1) "SKU-MACBOOK-PRO-16" = None ∧
  ∀ env n, final (seedInitialData env n s1) = s1.
Proof.
  split_and!; [vm_compute; reflexivity..|]. intros env n.
  destruct (seedInitialData env n _) as [[n' s'] r] eqn:H. eapply seed_skips; [|exact H].
  intros He. apply (f_equal size) in He. vm_compute in He. discriminate.
Qed.
