(* ===== verification/Storage.v ===== *)
(** internal/platform/storage: the interface of the blob storage of product images, what it
    promises ([BlobLaws]), and its two implementations: in memory (storage.go) and over an
    S3-compatible service (s3.go), whose client is the parameter [MinioClient]. *)

From S2P Require Import Prelude Strconv.

(** * Data *)

Inductive error : Type :=
| ErrInvalidContentType
| ErrFileTooLarge
| ErrObjectNotFound
| ErrDriver (msg : string).

Definition Error (e : error) : string :=
  match e with
  | ErrInvalidContentType => "unsupported image format: must be image/jpeg, image/png, image/webp or image/gif"
  | ErrFileTooLarge => "file exceeds maximum allowed size (5MB)"
  | ErrObjectNotFound => "object not found in storage"
  | ErrDriver msg => msg
  end%string.

#[export] Instance error_GoError : GoError error :=
  {| error_text := Error; driver_error := ErrDriver; driver_error_text := λ _, eq_refl |}.

Definition MaxFileSizeBytes : Z := 5 * 1024 * 1024.

Definition AllowedContentTypes : list (string * string) :=
  [("image/jpeg", ".jpg"); ("image/png", ".png"); ("image/webp", ".webp"); ("image/gif", ".gif")].

Record StoredObject := MkStoredObject {
  Key : string;
  ContentType : string;
  SizeBytes : Z;
  URL : string;
  Data : string;
}.

(** What an [io.Reader] yields in the end: its bytes, or the text of an error. *)
Definition reader := result string string.

(** * Checks *)

Definition ValidateImageUpload (sizeBytes : Z) (contentType : string) : result error string :=
  if (sizeBytes <=? 0) || (MaxFileSizeBytes <? sizeBytes) then Err ErrFileTooLarge else
  match list_find (λ p, p.1 = ToLower contentType) AllowedContentTypes with
  | Some (_, (_, ext)) => Ok ext
  | None => Err ErrInvalidContentType
  end.

Definition bytes (l : list nat) : string :=
  foldr (λ n s, String (ascii_of_nat n) s) "" l.

Definition starts (p data : string) : bool := String.prefix p data.

(** [http.DetectContentType] where the answer is one of the four formats; every other
    answer is taken to be [application/octet-stream], which is refused as it would be. *)
Definition DetectContentType (data : string) : string :=
  if starts "GIF87a" data || starts "GIF89a" data then "image/gif"
  else if starts "RIFF" data && String.eqb (substring 8 6 data) "WEBPVP" then "image/webp"
  else if starts (bytes [137; 80; 78; 71; 13; 10; 26; 10]%nat) data then "image/png"
  else if starts (bytes [255; 216; 255]%nat) data then "image/jpeg"
  else "application/octet-stream".

Definition DetectImageContentType (data : string) : string :=
  if (12 <=? Z.of_nat (String.length data)) && String.eqb (substring 0 4 data) "RIFF"
     && String.eqb (substring 8 4 data) "WEBP"
  then "image/webp" else DetectContentType data.

Definition BuildProductImageKey `{UuidText} (productID imageID : uuid) (ext : string) : string :=
  let cleanExt := TrimPrefix ext "." in
  ("products/" ++ uuid_String productID ++ "/" ++ uuid_String imageID ++ "." ++ cleanExt)%string.

(** * The interface *)

Class BlobStorage (St : Type) := {
  blob_Put : string → reader → Z → string → M St error StoredObject;
  blob_Get : string → M St error (string * StoredObject);
  blob_Delete : string → M St error unit;
  blob_GetURL : string → string;
}.
#[global] Hint Mode BlobStorage + : typeclass_instances.

(** A key that both implementations keep as it is. *)
Definition plain_key (k : string) : Prop := TrimPrefix k "/" = k.

(** What a storage promises: an operation on a key leaves the other keys alone; what was
    put is there and what was deleted is not; a deletion that fails changes nothing else; what
    is read is what is there. *)
Class BlobLaws (St : Type) `{BlobStorage St} := {
  blobs : St → gmap string string;
  Put_law key data size ct env n x n' x' r :
    plain_key key → blob_Put key data size ct env n x = (n', x', r) →
    (∀ k, k ≠ key → blobs x' !! k = blobs x !! k) ∧
    ∀ o, r = Ok o → Key o = key ∧ ∃ d, data = Ok d ∧ blobs x' !! key = Some d;
  Delete_law key env n x n' x' r :
    plain_key key → blob_Delete key env n x = (n', x', r) →
    blobs x' = delete key (blobs x) ∨ (blobs x' = blobs x ∧ ∃ e, r = Err e);
  Get_law key env n x n' x' r :
    plain_key key → blob_Get key env n x = (n', x', r) →
    blobs x' = blobs x ∧ ∀ d o, r = Ok (d, o) → blobs x !! key = Some d;
}.

(** * In memory *)

(** [MemoryStorage.objects] *)
Notation Objects := (gmap string StoredObject).

Definition TrimSuffix (s suffix : string) : string :=
  String.rev (TrimPrefix (String.rev s) (String.rev suffix)).

Section memory.
(** [MemoryStorage.baseURL] *)
Context (baseURL : string).
Local Open Scope go_scope.

Definition memory_Put (key : string) (r : reader) (sizeBytes : Z) (contentType : string) :
    M Objects error StoredObject := λ env n objects,
  match ValidateImageUpload sizeBytes contentType with
  | Err e => (n, objects, Err e)
  | Ok _ =>
      match r with
      | Err m => (n, objects, Err (ErrDriver ("read storage payload: " ++ m)))
      | Ok buf =>
          let obj := MkStoredObject key contentType (Z.of_nat (String.length buf)) (baseURL ++ "/" ++ key) buf in
          (n, <[key := obj]> objects, Ok obj)
      end
  end%string.

Definition memory_Get (key : string) : M Objects error (string * StoredObject) := λ env n objects,
  (n, objects, match objects !! key with Some obj => Ok (Data obj, obj) | None => Err ErrObjectNotFound end).

Definition memory_Delete (key : string) : M Objects error unit := λ env n objects,
  (n, delete key objects, Ok tt).

Definition memory_GetURL (key : string) : string := (baseURL ++ "/" ++ key)%string.

Definition MemoryStorage : BlobStorage Objects := {|
  blob_Put := memory_Put;
  blob_Get := memory_Get;
  blob_Delete := memory_Delete;
  blob_GetURL := memory_GetURL;
|}.

#[program] Definition MemoryStorage_laws : @BlobLaws Objects MemoryStorage := {|
  blobs := λ x, Data <$> x;
|}.
Next Obligation.
  intros key data size ct env n x n' x' r _. cbn. unfold memory_Put.
  destruct (ValidateImageUpload size ct); [destruct data|]; intros [= <- <- <-]; split; try done.
  - intros k Hk. rewrite fmap_insert. by apply lookup_insert_ne.
  - intros o [= <-]. split; [done|]. eexists. split; [done|].
    rewrite fmap_insert. apply lookup_insert_eq.
Qed.
Next Obligation.
  intros key env n x n' x' r _ H. change (memory_Delete key env n x = (n', x', r)) in H.
  injection H as <- <- <-. left. apply fmap_delete.
Qed.
Next Obligation.
  intros key env n x n' x' r _. cbn. unfold memory_Get. intros [= <- <- <-]. split; [done|].
  intros d o. rewrite lookup_fmap. destruct (x !! key) as [obj|]; [|done]. by intros [= <- _].
Qed.
End memory.

(** [NewMemoryStorage] *)
Definition memory_base_url (baseURL : string) : string :=
  TrimSuffix (if String.eqb baseURL "" then "http://localhost:8080/media" else baseURL) "/".

(** * Over S3 *)

(** The calls of the client, on one bucket: the size that was stored, the content and type
    of an object, and [None] where the code of an error is NoSuchKey. *)
Class MinioClient (St : Type) := {
  PutObject : string → reader → Z → string → M St error Z;
  GetObject : string → M St error (option (string * string));
  RemoveObject : string → M St error unit;
}.
#[global] Hint Mode MinioClient + : typeclass_instances.

(** What the service documents of them: objects are read back as they were put, and a call
    on one key concerns no other. *)
Class MinioLaws (St : Type) `{MinioClient St} := {
  bucket : St → gmap string string;
  PutObject_law key data size ct env n x n' x' r :
    PutObject key data size ct env n x = (n', x', r) →
    (∀ k, k ≠ key → bucket x' !! k = bucket x !! k) ∧
    ∀ z, r = Ok z → ∃ d, data = Ok d ∧ bucket x' !! key = Some d;
  RemoveObject_law key env n x n' x' r :
    RemoveObject key env n x = (n', x', r) →
    bucket x' = delete key (bucket x) ∨ (bucket x' = bucket x ∧ ∃ e, r = Err e);
  GetObject_law key env n x n' x' r :
    GetObject key env n x = (n', x', r) →
    bucket x' = bucket x ∧ ∀ d ct, r = Ok (Some (d, ct)) → bucket x !! key = Some d;
}.

Section s3.
Context {St : Type} `{MC : !MinioClient St} (baseURL : string).
Local Open Scope go_scope.

Definition s3_GetURL (key : string) : string :=
  let cleanKey := TrimPrefix key "/" in (baseURL ++ "/" ++ cleanKey)%string.

Definition wrap (what key : string) (e : error) : error :=
  ErrDriver (what ++ key ++ ": " ++ Error e)%string.

Definition s3_Put (key : string) (data : reader) (sizeBytes : Z) (contentType : string) :
    M St error StoredObject :=
  match ValidateImageUpload sizeBytes contentType with
  | Err e => fail e
  | Ok _ =>
      let cleanKey := TrimPrefix key "/" in
      let* size := map_err (wrap "s3 put object " cleanKey) (PutObject cleanKey data sizeBytes contentType) in
      ret (MkStoredObject cleanKey contentType size (s3_GetURL cleanKey) "")
  end.

(** The failures of the two calls of the client, [GetObject] and [Stat], are one here. *)
Definition s3_Get (key : string) : M St error (string * StoredObject) :=
  let cleanKey := TrimPrefix key "/" in
  let* obj := map_err (wrap "s3 get object " cleanKey) (GetObject cleanKey) in
  match obj with
  | None => fail ErrObjectNotFound
  | Some (data, ct) =>
      ret (data, MkStoredObject cleanKey ct (Z.of_nat (String.length data)) (s3_GetURL cleanKey) "")
  end.

Definition s3_Delete (key : string) : M St error unit :=
  let cleanKey := TrimPrefix key "/" in
  map_err (wrap "s3 delete object " cleanKey) (RemoveObject cleanKey).

Definition S3Storage : BlobStorage St := {|
  blob_Put := s3_Put;
  blob_Get := s3_Get;
  blob_Delete := s3_Delete;
  blob_GetURL := s3_GetURL;
|}.

Context `{ML : !MinioLaws St}.

#[program] Definition S3Storage_laws : @BlobLaws St S3Storage := {| blobs := bucket |}.
Next Obligation.
  intros key data size ct env n x n' x' r Hk. cbn. unfold s3_Put.
  destruct (ValidateImageUpload size ct) as [ext|e]; [|intros [= <- <- <-]; by split]. cbv zeta. rewrite Hk.
  unfold bind, map_err. destruct (PutObject key data size ct env n x) as [[n1 x1] [z|e]] eqn:H;
    apply PutObject_law in H as [H1 H2]; intros [= <- <- <-]; (split; [done|]); [|done].
  intros o [= <-]. split; [done|]. by apply (H2 z).
Qed.
Next Obligation.
  intros key env n x n' x' r Hk. cbn. unfold s3_Delete. cbv zeta. rewrite Hk. unfold map_err.
  destruct (RemoveObject key env n x) as [[n1 x1] [[]|e]] eqn:H;
    apply RemoveObject_law in H as [H|[H [e' He]]]; intros [= <- <- <-]; [by left|done|by left|right]. by eauto.
Qed.
Next Obligation.
  intros key env n x n' x' r Hk. cbn. unfold s3_Get. cbv zeta. rewrite Hk. unfold bind, map_err.
  destruct (GetObject key env n x) as [[n1 x1] [[[d ct]|]|e]] eqn:H; apply GetObject_law in H as [H1 H2];
    intros [= <- <- <-]; (split; [done|]); [|done..].
  intros d' o [= <- _]. by apply (H2 d ct).
Qed.
End s3.
