(* ===== verification/CatalogHandler.v ===== *)
(** internal/domain/catalog/handler.go: the requests of the HTTP interface of the
    catalogue, over the service of CatalogService.v and the blob storage of Storage.v.

    A handler always answers, unless the search client panics: its error type is the text
    of a panic.  Logging is left out, and an upload comes with what the package
    mime/multipart makes of its body. *)

From S2P Require Import Prelude Money Strconv Json Decode Web Timestamp Catalog Search CatalogStore CatalogService Storage.

(** * Data *)

(** What the handlers write as JSON. *)
Inductive answer :=
| OneProduct (p : Product)
| ProductList (items : list Product) (nextCursor : string) (hasMore : bool)
| OneCategory (c : Category)
| CategoryList (l : list Category)
| OneImage (img : ProductImage)
| ImageList (l : list ProductImage)
| Found (res : SearchResult).

(** The file of a form: its size, its first 512 bytes, and what it reads as in the end. *)
Record file := MkFile {
  File_Size : Z;
  File_Head : result string string;
  File_Data : reader;
}.

(** The form of a request, if it can be read within the limit of its size: what
    [r.FormValue] and [r.FormFile] answer. *)
Inductive form :=
| BadForm
| Form (values : gmap string string) (image : option file).

(** The service and the blobs. *)
Record Site (St B : Type) := MkSite { shop : World (St:=St); media : B }.
Arguments MkSite {St B} shop media.
Arguments shop {St B} s : rename.
Arguments media {St B} s : rename.

(** * Reading requests *)

Section requests.
Context `{UP : UuidParse}.

Definition Money_fields : setter Money.Money :=
  object true [("amount", into_int (λ z m, Money.MkMoney z (Money.Currency m)));
               ("currency", into_string (λ x m, Money.MkMoney (Money.Amount m) x))].
Definition no_money : Money.Money := Money.MkMoney 0 "".

Definition optional_uuid : setter (option uuid) := pointer uuid_Nil (into_uuid (λ u _, u)).

Definition CreateProductRequest_fields : setter CreateProductRequest :=
  object true
    [("sku", into_string (λ x q,
        MkCreateProductRequest x (New_Title q) (New_Description q) (New_CategoryID q) (New_Price q)));
     ("title", into_string (λ x q,
        MkCreateProductRequest (New_SKU q) x (New_Description q) (New_CategoryID q) (New_Price q)));
     ("description", into_string (λ x q,
        MkCreateProductRequest (New_SKU q) (New_Title q) x (New_CategoryID q) (New_Price q)));
     ("category_id", in_field New_CategoryID (λ u q,
        MkCreateProductRequest (New_SKU q) (New_Title q) (New_Description q) u (New_Price q)) optional_uuid);
     ("price", in_field New_Price (λ m q,
        MkCreateProductRequest (New_SKU q) (New_Title q) (New_Description q) (New_CategoryID q) m) Money_fields)].

Definition UpdateProductRequest_fields : setter UpdateProductRequest :=
  object true
    [("title", into_string (λ x q,
        MkUpdateProductRequest x (Upd_Description q) (Upd_CategoryID q) (Upd_IsActive q)));
     ("description", into_string (λ x q,
        MkUpdateProductRequest (Upd_Title q) x (Upd_CategoryID q) (Upd_IsActive q)));
     ("category_id", in_field Upd_CategoryID (λ u q,
        MkUpdateProductRequest (Upd_Title q) (Upd_Description q) u (Upd_IsActive q)) optional_uuid);
     ("is_active", into_bool (λ b q,
        MkUpdateProductRequest (Upd_Title q) (Upd_Description q) (Upd_CategoryID q) b))].

(** [UpdatePriceRequest]: its one field. *)
Definition UpdatePriceRequest_fields : setter Money.Money := object true [("price", Money_fields)].

Definition CreateCategoryRequest_fields : setter CreateCategoryRequest :=
  object true
    [("slug", into_string (λ x q, MkCreateCategoryRequest x (Cat_Name q) (Cat_Description q)));
     ("name", into_string (λ x q, MkCreateCategoryRequest (Cat_Slug q) x (Cat_Description q)));
     ("description", into_string (λ x q, MkCreateCategoryRequest (Cat_Slug q) (Cat_Name q) x))].

(** The parameters of [listProducts]; what cannot be read is left out. *)
Definition list_params (r : Request) : ListProductsParams :=
  MkListProductsParams (default 0 (ParseInt (Query_Get r "limit"))) (Query_Get r "cursor")
    (let s := Query_Get r "category_id" in if String.eqb s "" then None else uuid_Parse s)
    (ParseBool (Query_Get r "is_active")).

Definition price_filter (s : string) : option (option Z) :=
  if String.eqb s "" then Some None else
  match ParseInt s with
  | Some z => if z <? 0 then None else Some (Some z)
  | None => None
  end.

Definition positive_or (d : Z) (s : string) : Z :=
  match ParseInt s with Some z => if 0 <? z then z else d | None => d end.

(** The query of [searchProducts], or the problem with it. *)
Definition search_query (r : Request) : result (string * string * string) Query :=
  let catIDStr := Query_Get r "category_id" in
  if negb (String.eqb catIDStr "") && negb (bool_decide (is_Some (uuid_Parse catIDStr)))
  then Err ("INVALID_CATEGORY_ID", "Invalid Category ID", "category_id must be a valid UUID") else
  match price_filter (Query_Get r "min_price") with
  | None => Err ("INVALID_PRICE_FILTER", "Invalid Price Filter", "min_price must be a non-negative integer in minor units")
  | Some minPrice =>
  match price_filter (Query_Get r "max_price") with
  | None => Err ("INVALID_PRICE_FILTER", "Invalid Price Filter", "max_price must be a non-negative integer in minor units")
  | Some maxPrice =>
      if match minPrice, maxPrice with Some a, Some b => b <? a | _, _ => false end
      then Err ("INVALID_PRICE_RANGE", "Invalid Price Range", "min_price cannot exceed max_price") else
      Ok (MkQuery (TrimSpace (Query_Get r "q")) (if String.eqb catIDStr "" then None else Some catIDStr)
            minPrice maxPrice (ParseBool (Query_Get r "in_stock")) (positive_or 1 (Query_Get r "page"))
            (positive_or 20 (Query_Get r "page_size")))
  end end.
End requests.

(** * Requests *)

Section handler.
Context {St B : Type} `{CL : !Client St} `{BS : !BlobStorage B}.
Context `{UT : UuidText} `{UP : UuidParse} `{LC : Location} `{JT : JsonErrorText}.
(** [s.searchClient != nil] of the service, and [h.storage != nil]. *)
Context (configured storage : bool).
Local Open Scope go_scope.

Definition hop A := M (Site St B) string A.

(** A call of the service: its error is a value, a panic goes up. *)
Definition on_shop {A} (m : M (World (St:=St)) Catalog.error A) : hop (result Catalog.error A) := λ env n w,
  let '(n, x, r) := m env n (shop w) in
  (n, MkSite x (media w), match r with Err (Catalog.Panic m) => Err m | _ => Ok r end).

Definition on_media {A} (m : M B Storage.error A) : hop (result Storage.error A) := λ env n w,
  let '(n, x, r) := m env n (media w) in (n, MkSite (shop w) x, Ok r).

Definition problem (r : Request) (status : Z) (code title detail : string) : hop (Response answer) :=
  ret (RespondProblem ∅ r status code title detail).
Definition invalid_body (r : Request) (detail : string) : hop (Response answer) :=
  problem r StatusBadRequest "INVALID_REQUEST_BODY" "Invalid Request Body" detail.
Definition invalid_uuid (r : Request) (detail : string) : hop (Response answer) :=
  problem r StatusBadRequest "INVALID_UUID" "Invalid UUID" detail.
Definition validation_failed (r : Request) (e : Catalog.error) : hop (Response answer) :=
  problem r StatusBadRequest "VALIDATION_FAILED" "Validation Failed" (Catalog.Error e).
Definition product_not_found (r : Request) (idStr : string) : hop (Response answer) :=
  problem r StatusNotFound "PRODUCT_NOT_FOUND" "Product Not Found" ("Product " ++ idStr ++ " not found").
Definition precondition_required (r : Request) (detail : string) : hop (Response answer) :=
  problem r StatusBadRequest "PRECONDITION_REQUIRED" "Precondition Required" detail.
Definition precondition_failed (r : Request) : hop (Response answer) :=
  problem r StatusPreconditionFailed "PRECONDITION_FAILED" "Precondition Failed"
    "The resource version does not match the If-Match header".
Definition internal_error (r : Request) (detail : string) : hop (Response answer) :=
  problem r StatusInternalServerError "INTERNAL_ERROR" "Internal Server Error" detail.
Definition respond_product (p : Product) : hop (Response answer) :=
  ret (RespondJSON (SetETag (Product_Version p) ∅) StatusOK (OneProduct p)).

(** ** Products *)

Definition createProduct (r : Request) : hop (Response answer) :=
  match DecodeJSON CreateProductRequest_fields (MkCreateProductRequest "" "" "" None no_money) r with
  | (_, Some err) => invalid_body r err
  | (req, None) =>
      let* product := on_shop (CatalogService.CreateProduct configured req) in
      match product with
      | Err (ErrDuplicateSKU as e) => problem r StatusConflict "DUPLICATE_SKU" "Duplicate SKU" (Catalog.Error e)
      | Err (ErrCategoryNotFound as e) =>
          problem r StatusNotFound "CATEGORY_NOT_FOUND" "Category Not Found" (Catalog.Error e)
      | Err ((ErrInvalidSKU | ErrInvalidTitle | ErrInvalidPrice) as e) => validation_failed r e
      | Err _ => internal_error r "An unexpected error occurred"
      | Ok p =>
          ret (RespondJSON
                 (Header_Set "Location" ("/api/v1/products/" ++ uuid_String (Product_ID p))
                    (SetETag (Product_Version p) ∅))
                 StatusCreated (OneProduct p))
      end
  end.

Definition listProducts (r : Request) : hop (Response answer) :=
  let* resp := on_shop (ListProducts (list_params r)) in
  match resp with
  | Err _ => internal_error r "Failed to list products"
  | Ok (items, nextCursor, hasMore) => ret (RespondJSON ∅ StatusOK (ProductList items nextCursor hasMore))
  end.

Definition getProduct (r : Request) : hop (Response answer) :=
  let idStr := URLParam r "id" in
  match uuid_Parse idStr with
  | None => invalid_uuid r "The product ID must be a valid UUID"
  | Some id =>
      let* product := on_shop (GetProduct id) in
      match product with
      | Err ErrProductNotFound => product_not_found r idStr
      | Err _ => internal_error r "Failed to retrieve product"
      | Ok p => respond_product p
      end
  end.

Definition updateProduct (r : Request) : hop (Response answer) :=
  let idStr := URLParam r "id" in
  match uuid_Parse idStr with
  | None => invalid_uuid r "The product ID must be a valid UUID"
  | Some id =>
  match ExtractIfMatch r with
  | Err _ => precondition_required r "A valid If-Match header is required for updates"
  | Ok expectedVersion =>
  match DecodeJSON UpdateProductRequest_fields (MkUpdateProductRequest "" "" None false) r with
  | (_, Some err) => invalid_body r err
  | (req, None) =>
      let* product := on_shop (CatalogService.UpdateProduct configured id req expectedVersion) in
      match product with
      | Err ErrOptimisticLockConflict => precondition_failed r
      | Err ErrProductNotFound => product_not_found r idStr
      | Err ErrCategoryNotFound =>
          problem r StatusNotFound "CATEGORY_NOT_FOUND" "Category Not Found" "Specified category does not exist"
      | Err (ErrInvalidTitle as e) => validation_failed r e
      | Err _ => internal_error r "Failed to update product"
      | Ok p => respond_product p
      end
  end end end.

Definition updateProductPrice (r : Request) : hop (Response answer) :=
  let idStr := URLParam r "id" in
  match uuid_Parse idStr with
  | None => invalid_uuid r "The product ID must be a valid UUID"
  | Some id =>
  match ExtractIfMatch r with
  | Err _ => precondition_required r "A valid If-Match header is required for price updates"
  | Ok expectedVersion =>
  match DecodeJSON UpdatePriceRequest_fields no_money r with
  | (_, Some err) => invalid_body r err
  | (price, None) =>
      let* product := on_shop (CatalogService.UpdateProductPrice configured id price expectedVersion) in
      match product with
      | Err ErrOptimisticLockConflict => precondition_failed r
      | Err ErrProductNotFound => product_not_found r idStr
      | Err (ErrInvalidPrice as e) => validation_failed r e
      | Err _ => internal_error r "Failed to update product price"
      | Ok p => respond_product p
      end
  end end end.

(** ** Categories *)

Definition createCategory (r : Request) : hop (Response answer) :=
  match DecodeJSON CreateCategoryRequest_fields (MkCreateCategoryRequest "" "" "") r with
  | (_, Some err) => invalid_body r err
  | (req, None) =>
      let* category := on_shop (CatalogService.CreateCategory req) in
      match category with
      | Err (ErrDuplicateSlug as e) => problem r StatusConflict "DUPLICATE_SLUG" "Duplicate Slug" (Catalog.Error e)
      | Err e => validation_failed r e
      | Ok c => ret (RespondJSON ∅ StatusCreated (OneCategory c))
      end
  end.

Definition listCategories (r : Request) : hop (Response answer) :=
  let* categories := on_shop CatalogService.ListCategories in
  match categories with
  | Err _ => internal_error r "Failed to list categories"
  | Ok l => ret (RespondJSON ∅ StatusOK (CategoryList l))
  end.

Definition getCategory (r : Request) : hop (Response answer) :=
  let idStr := URLParam r "id" in
  match uuid_Parse idStr with
  | None => invalid_uuid r "The category ID must be a valid UUID"
  | Some id =>
      let* category := on_shop (GetCategory id) in
      match category with
      | Err ErrCategoryNotFound =>
          problem r StatusNotFound "CATEGORY_NOT_FOUND" "Category Not Found" ("Category " ++ idStr ++ " not found")
      | Err _ => internal_error r "Failed to retrieve category"
      | Ok c => ret (RespondJSON ∅ StatusOK (OneCategory c))
      end
  end.

(** ** Images *)

(** [uploadProductImage] from the call of the storage on. *)
Definition store_image (r : Request) (productID : uuid) (values : gmap string string) (f : file)
    (mime ext : string) : hop (Response answer) :=
  let* imageID := uuid_New in
  let storageKey := BuildProductImageKey productID imageID ext in
  let* storedObj := on_media (blob_Put storageKey (File_Data f) (File_Size f) mime) in
  match storedObj with
  | Err _ => problem r StatusInternalServerError "STORAGE_ERROR" "Storage Error" "Failed to store image file"
  | Ok storedObj =>
      let isPrimary := String.eqb (default "" (values !! "is_primary")) "true" in
      let sortOrder := Atoi_value (default "" (values !! "sort_order")) in
      let* img := on_shop (AddProductImage productID (Key storedObj) (URL storedObj) mime (File_Size f)
                             isPrimary sortOrder) in
      match img with
      | Err e =>
          on_media (blob_Delete storageKey) ;;;
          match e with
          | ErrProductNotFound => product_not_found r (URLParam r "id")
          | _ =>
              problem r StatusInternalServerError "METADATA_ERROR" "Metadata Error"
                "Failed to record image metadata"
          end
      | Ok img => ret (RespondJSON ∅ StatusCreated (OneImage img))
      end
  end.

Definition file_too_large (r : Request) : hop (Response answer) :=
  problem r StatusBadRequest "FILE_TOO_LARGE" "File Too Large" "Uploaded file exceeds maximum limit of 5MB".

Definition uploadProductImage (r : Request) (body : form) : hop (Response answer) :=
  if negb storage then
    problem r StatusNotImplemented "STORAGE_NOT_CONFIGURED" "Storage Not Configured"
      "Media storage is not configured on this instance"
  else
  let productIDStr := URLParam r "id" in
  match uuid_Parse productIDStr with
  | None => invalid_uuid r "Product ID must be a valid UUID"
  | Some productID =>
      let* product := on_shop (GetProduct productID) in
      match product with
      | Err ErrProductNotFound => product_not_found r productIDStr
      | Err _ => internal_error r "Failed to verify product"
      | Ok _ =>
      match body with
      | BadForm => file_too_large r
      | Form _ None => problem r StatusBadRequest "MISSING_FILE" "Missing File" "The 'image' multipart field is required"
      | Form values (Some f) =>
          if (MaxFileSizeBytes <? File_Size f) || (File_Size f <=? 0) then file_too_large r else
          match File_Head f with
          | Err _ => problem r StatusBadRequest "READ_ERROR" "Read Error" "Failed to read image content"
          | Ok sniffBuf =>
              if String.eqb sniffBuf ""
              then problem r StatusBadRequest "EMPTY_FILE" "Empty File" "Uploaded file is empty" else
              let sniffedMIME := DetectImageContentType sniffBuf in
              match ValidateImageUpload (File_Size f) sniffedMIME with
              | Err e => problem r StatusBadRequest "INVALID_IMAGE" "Invalid Image" (Storage.Error e)
              | Ok ext => store_image r productID values f sniffedMIME ext
              end
          end
      end end
  end.

Definition listProductImages (r : Request) : hop (Response answer) :=
  let productIDStr := URLParam r "id" in
  match uuid_Parse productIDStr with
  | None => invalid_uuid r "Product ID must be a valid UUID"
  | Some productID =>
      let* images := on_shop (GetProductImages productID) in
      match images with
      | Err ErrProductNotFound => product_not_found r productIDStr
      | Err _ => internal_error r "Failed to retrieve images"
      | Ok l => ret (RespondJSON ∅ StatusOK (ImageList l))
      end
  end.

Definition deleteProductImage (r : Request) : hop (Response answer) :=
  let productIDStr := URLParam r "id" in
  match uuid_Parse productIDStr with
  | None => invalid_uuid r "Product ID must be a valid UUID"
  | Some productID =>
  let imageIDStr := URLParam r "imageId" in
  match uuid_Parse imageIDStr with
  | None => invalid_uuid r "Image ID must be a valid UUID"
  | Some imageID =>
      let* deletedImg := on_shop (DeleteProductImage productID imageID) in
      match deletedImg with
      | Err ErrProductNotFound => product_not_found r productIDStr
      | Err ErrProductImageNotFound =>
          problem r StatusNotFound "IMAGE_NOT_FOUND" "Image Not Found" ("Image " ++ imageIDStr ++ " not found")
      | Err _ => internal_error r "Failed to delete image"
      | Ok img =>
          let* _ := if storage && negb (String.eqb (Image_StorageKey img) "")
                    then on_media (blob_Delete (Image_StorageKey img)) else ret (Ok tt) in
          ret (WriteHeader ∅ StatusNoContent)
      end
  end end.

(** ** Search *)

Definition searchProducts (r : Request) : hop (Response answer) :=
  match search_query r with
  | Err (code, title, detail) => problem r StatusBadRequest code title detail
  | Ok sq =>
      let* result := on_shop (SearchProducts configured sq) in
      match result with
      | Err _ => problem r StatusInternalServerError "SEARCH_ERROR" "Search Error" "Failed to execute search query"
      | Ok res => ret (RespondJSON ∅ StatusOK (Found res))
      end
  end.

(** ** Routes *)

(** [ProductRoutes] and [CategoryRoutes], by method and path. *)
Inductive endpoint :=
| EPCreate | EPList | EPSearch | EPGet | EPUpdate | EPPrice
| EPUpload | EPImages | EPDeleteImage
| EPCreateCategory | EPListCategories | EPGetCategory.
#[export] Instance endpoint_eq_dec : EqDecision endpoint.
Proof. solve_decision. Defined.

Definition handle (ep : endpoint) (r : Request) (body : form) : hop (Response answer) :=
  match ep with
  | EPCreate => createProduct r
  | EPList => listProducts r
  | EPSearch => searchProducts r
  | EPGet => getProduct r
  | EPUpdate => updateProduct r
  | EPPrice => updateProductPrice r
  | EPUpload => uploadProductImage r body
  | EPImages => listProductImages r
  | EPDeleteImage => deleteProductImage r
  | EPCreateCategory => createCategory r
  | EPListCategories => listCategories r
  | EPGetCategory => getCategory r
  end.

End handler.

(** * Images and their blobs *)

(** What a request may do to the keys [K] and the blobs [Bs], where [Rel] says that the
    storage is reliable: nothing; leave something under a key that no image has, and nothing
    of it if [Rel]; add an image with its blob; delete an image, and its blob if [Rel]. *)
Inductive effect (Rel : Prop) (K : gmap uuid string) (Bs : gmap string string) :
    gmap uuid string → gmap string string → Prop :=
| eff_none : effect Rel K Bs K Bs
| eff_failed k Bs' :
    (∀ i, K !! i ≠ Some k) → (∀ k', k' ≠ k → Bs' !! k' = Bs !! k') →
    (Rel → Bs' !! k = None ∨ Bs' !! k = Bs !! k) → effect Rel K Bs K Bs'
| eff_added i k Bs' :
    K !! i = None → (∀ j, K !! j ≠ Some k) → k ≠ "" → plain_key k →
    (∀ k', k' ≠ k → Bs' !! k' = Bs !! k') → is_Some (Bs' !! k) →
    effect Rel K Bs (<[i := k]> K) Bs'
| eff_deleted i k Bs' :
    K !! i = Some k → Bs' = delete k Bs ∨ (Bs' = Bs ∧ ¬ Rel) → effect Rel K Bs (delete i K) Bs'.

Definition all_covered (K : gmap uuid string) (Bs : gmap string string) : Prop :=
  (∀ i j k, K !! i = Some k → K !! j = Some k → i = j) ∧
  ∀ i k, K !! i = Some k → k ≠ "" ∧ plain_key k ∧ is_Some (Bs !! k).
Definition all_owned (K : gmap uuid string) (Bs : gmap string string) : Prop :=
  ∀ k, is_Some (Bs !! k) → ∃ i, K !! i = Some k.

Lemma effect_covered Rel K Bs K' Bs' :
  effect Rel K Bs K' Bs' → all_covered K Bs → all_covered K' Bs'.
Proof.
  intros [|k Bs1 Hk Hoff _|i k Bs1 Hi Hk Hne Hp Hoff Hs|i k Bs1 Hi Hdel] [Hinj Hcov]; (split; [|]); try done.
  - intros i k' Hi. destruct (Hcov _ _ Hi) as (? & ? & ?). rewrite Hoff; [done|]. intros ->. by eapply Hk.
  - intros i1 i2 k'. rewrite !lookup_insert_Some. naive_solver.
  - intros i' k' [[<- <-]|[_ Hl]]%lookup_insert_Some; [done|]. destruct (Hcov _ _ Hl) as (? & ? & ?).
    rewrite Hoff; [done|]. intros ->. by eapply Hk.
  - intros i1 i2 k' [_ H1]%lookup_delete_Some [_ H2]%lookup_delete_Some. by eapply Hinj.
  - intros i' k' [Hii Hl]%lookup_delete_Some. destruct (Hcov _ _ Hl) as (? & ? & ?). split_and!; [done..|].
    destruct Hdel as [->|[-> _]]; [|done]. rewrite lookup_delete_ne; [done|]. intros ->.
    apply Hii. by eapply Hinj.
Qed.

Lemma effect_owned (Rel : Prop) K Bs K' Bs' :
  effect Rel K Bs K' Bs' → Rel → all_owned K Bs → all_owned K' Bs'.
Proof.
  intros [|k Bs1 Hk Hoff Hr|i k Bs1 Hi Hk Hne Hp Hoff Hs|i k Bs1 Hi Hdel] HR Hown; [done|..].
  - intros k' Hk'. apply Hown. destruct (decide (k' = k)) as [->|Hne]; [|by rewrite <- Hoff].
    destruct (Hr HR) as [H|H]; rewrite H in Hk'; [by destruct Hk'|done].
  - intros k' Hk'. destruct (decide (k' = k)) as [->|Hne']; [exists i; apply lookup_insert_eq|].
    rewrite Hoff in Hk' by done. destruct (Hown _ Hk') as [j Hj]. exists j.
    rewrite lookup_insert_ne; [done|]. intros ->. by rewrite Hi in Hj.
  - destruct Hdel as [->|[_ []]]; [|done]. intros k' [v [Hne Hv]%lookup_delete_Some].
    destruct (Hown k') as [j Hj]; [by eexists|]. exists j. apply lookup_delete_Some. split; [|done].
    intros ->. rewrite Hi in Hj. congruence.
Qed.

(** The keys the rows of the images name. *)
Definition keys (s : State) : gmap uuid string := storage_key <$> product_images s.

(** An operation on the tables that leaves the keys of the images as they are. *)
Notation keeps m := (∀ K, preserves (λ s, keys s = K) m).

Lemma keeps_sql {A} what (f : Z → State → result Catalog.error (State * A)) :
  (∀ now s s' a, f now s = Ok (s', a) → keys s' = keys s) → keeps (sql what f).
Proof. intros Hf K. apply preserves_sql. intros now s s' a <-. apply Hf. Qed.

Ltac quiet :=
  repeat first [solve [auto with shopflow nocore] | apply preserves_bind; [|intros ?] | apply preserves_try | case_match | apply preserves_ret];
  auto with shopflow.
Ltac quiet_sql :=
  intros K; quiet; apply keeps_sql; cbv zeta beta; intros ? ? ? ? Hrun;
  simplify_eq; repeat (case_match; simplify_eq); done.

Lemma CreateProduct_keeps p : keeps (CatalogStore.CreateProduct p).
Proof. unfold CatalogStore.CreateProduct. quiet_sql. Qed.
Lemma GetProductByID_keeps id : keeps (GetProductByID id).
Proof. quiet_sql. Qed.
Lemma GetCategoryByID_keeps id : keeps (GetCategoryByID id).
Proof. quiet_sql. Qed.
Lemma GetProductImages_keeps id : keeps (CatalogStore.GetProductImages id).
Proof. quiet_sql. Qed.
Lemma ListCategories_keeps : keeps CatalogStore.ListCategories.
Proof. quiet_sql. Qed.
Lemma CreateCategory_keeps c : keeps (CatalogStore.CreateCategory c).
Proof. unfold CatalogStore.CreateCategory. quiet_sql. Qed.

Lemma ListProducts_keeps `{UuidText, UuidParse, Location} q : keeps (CatalogStore.ListProducts q).
Proof. unfold CatalogStore.ListProducts. quiet_sql. Qed.

Lemma update_row_keeps what id v f : keeps (update_row what id v f).
Proof. unfold update_row, why_no_row. quiet_sql. Qed.

Lemma UpdateProduct_keeps id t d c a v : keeps (CatalogStore.UpdateProduct id t d c a v).
Proof. apply update_row_keeps. Qed.
Lemma UpdateProductPrice_keeps id p c v : keeps (CatalogStore.UpdateProductPrice id p c v).
Proof. apply update_row_keeps. Qed.

Lemma unset_primary_keeps id : keeps (unset_primary id).
Proof.
  intros K. apply keeps_sql. intros now s s' [] [= <-]. unfold keys. cbn [set_images product_images].
  apply map_eq. intros i. rewrite !lookup_fmap. destruct (product_images s !! i); simpl; [|done].
  by case_decide.
Qed.

(** What [AddProductImage] does to the keys. *)
Lemma AddProductImage_keys img env K :
  triple env (λ s, keys s = K) (CatalogStore.AddProductImage img)
    (λ _ s, ∃ i, K !! i = None ∧ (∀ j, K !! j ≠ Some (Image_StorageKey img)) ∧
                 keys s = <[i := Image_StorageKey img]> K)
    (λ _ s, keys s = K).
Proof.
  apply (triple_bind _ _ _ _ _ (λ _ s, keys s = K)).
  { assert (preserves (λ s, keys s = K) (if (Image_ID img =? uuid_Nil)%N then uuid_New else ret (Image_ID img) : op uuid)) as H
      by quiet. apply H. }
  intros id. apply (triple_bind _ _ _ _ _ (λ _ s, keys s = K)).
  { case_match; [|apply (preserves_ret (λ s, keys s = K))].
    apply (preserves_try (λ s, keys s = K)), unset_primary_keeps. }
  intros _. apply triple_sql; [|done]. cbv zeta beta. intros n s <- _.
  destruct (image_fits _); [|done]. destruct (0 <? _); [|done]. cbn [negb].
  destruct (_ || _) eqn:Hdup; [done|]. destruct (bool_decide (_ = None)); [done|].
  apply orb_false_iff in Hdup as [Hnew%bool_decide_eq_false Hkey].
  exists id. split_and!.
  - unfold keys. rewrite lookup_fmap. by apply eq_None_not_Some in Hnew as ->.
  - intros j. unfold keys. rewrite lookup_fmap. destruct (product_images s !! j) as [r|] eqn:Hr; [|done].
    intros [= Heq]. by destruct (taken_false storage_key _ _ Hkey _ _ Hr).
  - unfold keys. cbn [set_images product_images]. by rewrite fmap_insert.
Qed.

Lemma DeleteProductImage_keys p id env K :
  triple env (λ s, keys s = K) (CatalogStore.DeleteProductImage p id)
    (λ img s, K !! id = Some (Image_StorageKey img) ∧ keys s = delete id K)
    (λ _ s, keys s = K).
Proof.
  apply triple_sql; [|done]. intros n s <- _. unfold image_of.
  destruct (product_images s !! id) as [r|] eqn:Hr; [|done]. destruct (decide _); [|done].
  unfold keys. rewrite lookup_fmap, Hr. cbn [set_images product_images]. by rewrite fmap_delete.
Qed.

#[local] Hint Resolve CreateProduct_keeps GetProductByID_keeps GetCategoryByID_keeps
  GetProductImages_keeps ListCategories_keeps CreateCategory_keeps ListProducts_keeps
  UpdateProduct_keeps UpdateProductPrice_keeps : shopflow.

(** ** The service *)

Section site.
Context {St B : Type} `{CL : !Client St} `{BS : !BlobStorage B} `{BL : !BlobLaws B}.
Context `{UT : UuidText} `{UP : UuidParse} `{LC : Location} `{JT : JsonErrorText}.
Context (configured storage : bool).
Local Open Scope go_scope.

Notation keeps_world m := (∀ K, preserves (λ x : World (St:=St), keys (tables x) = K) m).

Lemma on_tables_keeps {A} (m : M State Catalog.error A) : keeps m → keeps_world (on_tables m).
Proof.
  intros Hm K env n x n' x' r Hx. unfold on_tables, zoom.
  destruct (m env n (tables x)) as [[n1 s1] r1] eqn:H. intros [= <- <- <-].
  apply (preserves_run _ m _ _ _ _ _ _ (Hm K) H) in Hx. by destruct r1.
Qed.

Lemma on_index_keeps {A} (m : M St Search.error A) : keeps_world (on_index m).
Proof.
  intros K env n x n' x' r Hx. unfold on_index.
  destruct (m env n (index x)) as [[n1 s1] r1] eqn:H. by intros [= <- <- <-].
Qed.

Lemma check_keeps e : keeps_world (check e).
Proof. intros K. destruct e; [apply preserves_fail|apply preserves_ret]. Qed.

#[local] Hint Resolve on_tables_keeps on_index_keeps check_keeps : shopflow.

Lemma sync_index_keeps p : keeps_world (sync_index configured p).
Proof. intros K. unfold sync_index, buildProductDocument. quiet. Qed.
#[local] Hint Resolve sync_index_keeps : shopflow.

Lemma service_CreateProduct_keeps req : keeps_world (CatalogService.CreateProduct configured req).
Proof. intros K. unfold CatalogService.CreateProduct. quiet. Qed.
Lemma service_UpdateProduct_keeps id req v :
  keeps_world (CatalogService.UpdateProduct configured id req v).
Proof. intros K. unfold CatalogService.UpdateProduct. quiet. Qed.
Lemma service_UpdateProductPrice_keeps id p v :
  keeps_world (CatalogService.UpdateProductPrice configured id p v).
Proof. intros K. unfold CatalogService.UpdateProductPrice. quiet. Qed.
Lemma service_CreateCategory_keeps req : keeps_world (CatalogService.CreateCategory req).
Proof. intros K. unfold CatalogService.CreateCategory. quiet. Qed.
Lemma service_SearchProducts_keeps q : keeps_world (SearchProducts configured q).
Proof. intros K. unfold SearchProducts. quiet. Qed.
Lemma service_GetProduct_keeps id : keeps_world (GetProduct id).
Proof. intros K. unfold GetProduct. quiet. Qed.
Lemma service_GetCategory_keeps id : keeps_world (GetCategory id).
Proof. intros K. unfold GetCategory. quiet. Qed.
Lemma service_ListProducts_keeps q : keeps_world (ListProducts q).
Proof. intros K. unfold ListProducts. quiet. Qed.
Lemma service_ListCategories_keeps : keeps_world CatalogService.ListCategories.
Proof. intros K. unfold CatalogService.ListCategories. quiet. Qed.
Lemma service_GetProductImages_keeps id : keeps_world (CatalogService.GetProductImages id).
Proof. intros K. unfold CatalogService.GetProductImages. quiet. Qed.
#[local] Hint Resolve service_CreateProduct_keeps service_UpdateProduct_keeps
  service_UpdateProductPrice_keeps service_CreateCategory_keeps service_SearchProducts_keeps
  service_GetProduct_keeps service_GetCategory_keeps service_ListProducts_keeps
  service_ListCategories_keeps service_GetProductImages_keeps : shopflow.

(** ** The handlers *)

Definition site_keys (w : Site St B) : gmap uuid string := keys (tables (shop w)).

(** [K] and [Bs] are the keys and the blobs. *)
Definition at_rest K Bs (w : Site St B) : Prop := site_keys w = K ∧ blobs (media w) = Bs.

Lemma on_shop_rest {A} (m : M (World (St:=St)) Catalog.error A) :
  keeps_world m → ∀ K Bs, preserves (at_rest K Bs) (on_shop m).
Proof.
  intros Hm K Bs env n w n' w' r [HK HB]. unfold on_shop.
  destruct (m env n (shop w)) as [[n1 x] r1] eqn:H. intros [= <- <- <-].
  pose proof (preserves_run _ m _ _ _ _ _ _ (Hm K) H HK) as HK'.
  by destruct r1 as [|[]].
Qed.
#[local] Hint Resolve on_shop_rest : shopflow.

Lemma reads_rest ep r body K Bs :
  ep ≠ EPUpload → ep ≠ EPDeleteImage →
  preserves (at_rest K Bs) (handle configured storage ep r body).
Proof.
  intros Hu Hd. destruct ep; try done; clear Hu Hd; cbn [handle].
  - unfold createProduct. quiet.
  - unfold listProducts. quiet.
  - unfold searchProducts. quiet.
  - unfold getProduct. quiet.
  - unfold updateProduct. quiet.
  - unfold updateProductPrice. quiet.
  - unfold listProductImages. quiet.
  - unfold createCategory. quiet.
  - unfold listCategories. quiet.
  - unfold getCategory. quiet.
Qed.

Lemma triple_on_shop {A} env (m : M (World (St:=St)) Catalog.error A) K Bs
    (Q : A → gmap uuid string → Prop) (R : Catalog.error → gmap uuid string → Prop) :
  triple env (λ x, keys (tables x) = K) m (λ a x, Q a (keys (tables x))) (λ e x, R e (keys (tables x))) →
  triple env (at_rest K Bs) (on_shop m)
    (λ r w, blobs (media w) = Bs ∧ match r with Ok a => Q a (site_keys w) | Err e => R e (site_keys w) end)
    (λ p w, blobs (media w) = Bs ∧ R (Catalog.Panic p) (site_keys w)).
Proof.
  intros Hm n w n' w' r [HK HB]. unfold on_shop.
  destruct (m env n (shop w)) as [[n1 x] r1] eqn:H. intros [= <- <- <-].
  pose proof (Hm _ _ _ _ _ HK H) as HQ. by destruct r1 as [|[]].
Qed.

Definition no_panic (e : Catalog.error) : Prop := ∀ p, e ≠ Catalog.Panic p.

Lemma on_tables_calm {A} (m : M State Catalog.error A) :
  raises no_panic m → raises no_panic (on_tables (St:=St) m).
Proof.
  intros Hm env n x n' x' e. unfold on_tables, zoom.
  destruct (m env n (tables x)) as [[n1 s1] r1] eqn:H. intros [= <- <- ->]. by eapply Hm.
Qed.

Lemma sql_calm {A} what (f : Z → State → result Catalog.error (State * A)) :
  (∀ now s e, f now s = Err e → no_panic e) → raises no_panic (sql what f).
Proof. apply raises_sql. by intros msg p. Qed.

Lemma AddProductImage_calm p k u ct sz b o :
  raises no_panic (CatalogService.AddProductImage (St:=St) p k u ct sz b o).
Proof.
  apply raises_bind; [|intros _; apply raises_bind; [apply raises_uuid|intros id]]; apply on_tables_calm.
  - apply sql_calm. intros now s e. destruct (products s !! p); [done|]. by intros [= <-] q.
  - apply raises_bind; [case_match; auto with shopflow|]. intros i. apply raises_bind.
    { case_match; [|apply raises_ret]. intros env n s n' s' e. unfold try.
      by destruct (unset_primary _ env n s) as [[? ?] ?]. }
    intros _. apply sql_calm. cbv zeta beta. intros now s e Hrun.
    repeat (case_match; simplify_eq); done.
Qed.

Lemma triple_on_tables {A} env (m : M State Catalog.error A) K
    (Q : A → gmap uuid string → Prop) (R : gmap uuid string → Prop) :
  triple env (λ s, keys s = K) m (λ a s, Q a (keys s)) (λ _ s, R (keys s)) →
  triple env (λ x : World (St:=St), keys (tables x) = K) (on_tables m)
    (λ a x, Q a (keys (tables x))) (λ _ x, R (keys (tables x))).
Proof.
  intros Hm n x n' x' r HK. unfold on_tables, zoom.
  destruct (m env n (tables x)) as [[n1 s1] r1] eqn:H. intros [= <- <- <-].
  pose proof (Hm _ _ _ _ _ HK H). by destruct r1.
Qed.

Lemma find_product_keys env p K :
  triple env (λ x : World (St:=St), keys (tables x) = K) (on_tables (GetProductByID p))
    (λ _ x, keys (tables x) = K) (λ _ x, keys (tables x) = K).
Proof. apply on_tables_keeps, GetProductByID_keeps. Qed.

(** The service's [AddProductImage] adds one key, which was not there, or none. *)
Lemma service_AddProductImage_keys env p k u ct sz b o K :
  triple env (λ x, keys (tables x) = K) (CatalogService.AddProductImage (St:=St) p k u ct sz b o)
    (λ _ x, ∃ i, K !! i = None ∧ (∀ j, K !! j ≠ Some k) ∧ keys (tables x) = <[i := k]> K)
    (λ _ x, keys (tables x) = K).
Proof.
  eapply triple_bind; [apply find_product_keys|]. intros ?.
  apply (triple_bind _ _ _ _ _ (λ _ x, keys (tables x) = K)); [by apply triple_uuid|]. intros id.
  apply (triple_on_tables env _ K
           (λ _ K', ∃ i, K !! i = None ∧ (∀ j, K !! j ≠ Some k) ∧ K' = <[i := k]> K) (λ K', K' = K)).
  apply AddProductImage_keys.
Qed.

Lemma service_DeleteProductImage_keys env p i K :
  triple env (λ x, keys (tables x) = K) (CatalogService.DeleteProductImage (St:=St) p i)
    (λ img x, K !! i = Some (Image_StorageKey img) ∧ keys (tables x) = delete i K)
    (λ _ x, keys (tables x) = K).
Proof.
  eapply triple_bind; [apply find_product_keys|]. intros ?.
  apply (triple_on_tables env _ K
           (λ img K', K !! i = Some (Image_StorageKey img) ∧ K' = delete i K) (λ K', K' = K)).
  apply DeleteProductImage_keys.
Qed.

(** The storage deletes what it is told to, and keeps nothing of a failed upload. *)
Definition reliable (env : Env) : Prop :=
  (∀ key n (x : B) n' x' e, plain_key key → blob_Delete key env n x ≠ (n', x', Err e)) ∧
  ∀ key data size ct n (x : B) n' x' e,
    blob_Put key data size ct env n x = (n', x', Err e) → blobs x' !! key = blobs x !! key.

Lemma BuildProductImageKey_plain p i ext :
  plain_key (BuildProductImageKey p i ext) ∧ BuildProductImageKey p i ext ≠ "".
Proof. by split. Qed.

(** The upload has become an image, whose blob holds its bytes. *)
Definition recorded (f : file) (K : gmap uuid string) (w : Site St B) : Prop :=
  ∃ i k d, K !! i = None ∧ site_keys w !! i = Some k ∧ File_Data f = Ok d ∧ blobs (media w) !! k = Some d.

(** What an upload leaves. *)
Lemma store_image_effect env r p values f mime ext K Bs :
  (∀ q n x i, K !! i ≠ Some (BuildProductImageKey q (env_uuid env n) x)) →
  triple env (at_rest K Bs) (store_image r p values f mime ext)
    (λ resp w, effect (reliable env) K Bs (site_keys w) (blobs (media w)) ∧
               (StatusCode resp = StatusCreated → recorded f K w))
    (λ _ w, effect (reliable env) K Bs (site_keys w) (blobs (media w))).
Proof.
  intros Hfresh n w n' w' x [HK HB]. unfold store_image.
  rewrite (bind_ok uuid_New _ _ _ _ _ _ _ eq_refl). cbv zeta.
  set (key := BuildProductImageKey p (env_uuid env n) ext).
  destruct (BuildProductImageKey_plain p (env_uuid env n) ext) as [Hp Hne]. fold key in Hp, Hne.
  unfold bind at 1, on_media at 1.
  destruct (blob_Put key (File_Data f) (File_Size f) mime env (S n) (media w)) as [[n1 m1] rp] eqn:Hput.
  pose proof (Put_law _ _ _ _ _ _ _ _ _ _ Hp Hput) as [Hoff Hin].
  destruct rp as [o|e].
  2:{ intros [= <- <- <-]. cbn. split; [|done]. change (effect (reliable env) K Bs (site_keys w) (blobs m1)). rewrite HK. apply (eff_failed _ _ _ key); [by apply Hfresh|by rewrite <- HB|].
      intros [_ Hrel]. right. rewrite <- HB. by eapply Hrel. }
  destruct (Hin o eq_refl) as [Hkey (d & Hdata & Hd)]. rewrite Hkey. clear Hin.
  set (b := String.eqb _ _). set (so := Atoi_value _).
  unfold bind at 1, on_shop at 1. cbn [shop media].
  destruct (CatalogService.AddProductImage p key (URL o) mime (File_Size f) b so env n1 (shop w))
    as [[n2 y] [img|e]] eqn:Hadd.
  - apply (service_AddProductImage_keys _ _ _ _ _ _ _ _ K) in Hadd as (i & Hi & Hj & Hy); [|done].
    intros [= <- <- <-]. unfold recorded, site_keys. cbn. rewrite Hy. split.
    + apply eff_added; [done..| |by eexists]. by rewrite <- HB.
    + intros _. exists i, key, d. split_and!; [done|apply lookup_insert_eq|done|done].
  - pose proof (AddProductImage_calm _ _ _ _ _ _ _ _ _ _ _ _ _ Hadd) as Hcalm.
    apply (service_AddProductImage_keys _ _ _ _ _ _ _ _ K) in Hadd as Hy; [|done]. cbn in Hy.
    assert (match e with Catalog.Panic p => Err p | _ => Ok (Err e : result _ ProductImage) end = Ok (Err e)) as ->.
    { destruct e; try done. by destruct (Hcalm msg). }
    unfold bind, on_media. cbn [shop media].
    destruct (blob_Delete key env n2 m1) as [[n3 m2] rd] eqn:Hdel.
    pose proof (Delete_law _ _ _ _ _ _ _ Hp Hdel) as HD.
    assert (effect (reliable env) K Bs K (blobs m2)) as Heff.
    { apply (eff_failed _ _ _ key); [by apply Hfresh| |].
      - intros k' Hk'. rewrite <- HB, <- Hoff by done.
        destruct HD as [->|[-> _]]; [by apply lookup_delete_ne|done].
      - intros [Hrel _]. left. destruct HD as [->|[_ [e' ->]]]; [apply lookup_delete_eq|].
        by eapply Hrel in Hdel. }
    destruct e; intros [= <- <- <-]; (split; [|done]); unfold site_keys; cbn; by rewrite Hy.
Qed.

(** What the deletion of an image leaves. *)
Lemma deleteProductImage_effect env r K Bs :
  (∀ i k, K !! i = Some k → k ≠ "" ∧ plain_key k) →
  triple env (at_rest K Bs) (deleteProductImage storage r)
    (λ _ w, effect (reliable env ∧ storage = true) K Bs (site_keys w) (blobs (media w)))
    (λ _ w, effect (reliable env ∧ storage = true) K Bs (site_keys w) (blobs (media w))).
Proof.
  intros Hplain n w n' w' x [HK HB]. unfold deleteProductImage. cbv zeta.
  destruct (uuid_Parse _) as [p|]; [|intros [= <- <- <-]; rewrite <- HK, <- HB; apply eff_none].
  destruct (uuid_Parse _) as [i|]; [|intros [= <- <- <-]; rewrite <- HK, <- HB; apply eff_none].
  unfold bind at 1.
  destruct (on_shop _ env n w) as [[n1 w1] r1] eqn:Hdel.
  apply (triple_on_shop env _ K Bs (λ img K', K !! i = Some (Image_StorageKey img) ∧ K' = delete i K)
           (λ _ K', K' = K) (service_DeleteProductImage_keys env p i K)) in Hdel; [|done].
  destruct r1 as [[img|e]|q].
  - destruct Hdel as [HB1 [Hi HK1]]. destruct (Hplain _ _ Hi) as [Hne Hp].
    rewrite (proj2 (String.eqb_neq _ _) Hne), andb_true_r. destruct storage.
    + unfold bind, on_media. destruct (blob_Delete _ env n1 (media w1)) as [[n2 m2] rd] eqn:Hd.
      intros [= <- <- <-]. change (effect (reliable env ∧ true = true) K Bs (site_keys w1) (blobs m2)).
      rewrite HK1. apply (eff_deleted _ _ _ i (Image_StorageKey img)); [done|]. rewrite <- HB1.
      pose proof (Delete_law _ _ _ _ _ _ _ Hp Hd) as [->|[-> [e ->]]]; [by left|right].
      split; [done|]. intros [[Hrel _] _]. by eapply Hrel in Hd.
    + intros [= <- <- <-]. rewrite HK1, HB1. apply (eff_deleted _ _ _ i (Image_StorageKey img)); [done|].
      right. split; [done|]. by intros [_ ?].
  - destruct Hdel as [<- HK1].
    assert (effect (reliable env ∧ storage = true) K (blobs (media w1)) (site_keys w1) (blobs (media w1)))
      by (rewrite HK1; apply eff_none).
    destruct e; by intros [= <- <- <-].
  - destruct Hdel as [<- HK1]. intros [= <- <- <-]. rewrite HK1. apply eff_none.
Qed.

Lemma effect_weaken (Rel Rel' : Prop) K Bs K' Bs' :
  (Rel' → Rel) → effect Rel K Bs K' Bs' → effect Rel' K Bs K' Bs'.
Proof.
  intros HR [|k ? ? ? Hr|i k ?|i k ? ? Hd]; [apply eff_none|apply (eff_failed _ _ _ k); auto
    |by apply eff_added|]. apply (eff_deleted _ _ _ i k); [done|]. naive_solver.
Qed.

Lemma uploadProductImage_effect env r body K Bs :
  (∀ q n x i, K !! i ≠ Some (BuildProductImageKey q (env_uuid env n) x)) →
  triple env (at_rest K Bs) (uploadProductImage storage r body)
    (λ resp w, effect (reliable env) K Bs (site_keys w) (blobs (media w)) ∧
               (StatusCode resp = StatusCreated → ∃ values f, body = Form values (Some f) ∧ recorded f K w))
    (λ _ w, effect (reliable env) K Bs (site_keys w) (blobs (media w))).
Proof.
  intros Hfresh. set (Q := λ (resp : Response answer) (w : Site St B), _ ∧ _).
  assert (∀ resp, StatusCode resp ≠ StatusCreated →
    triple env (at_rest K Bs) (ret resp : hop (St:=St) (B:=B) (Response answer)) Q
      (λ _ w, effect (reliable env) K Bs (site_keys w) (blobs (media w)))) as Hret.
  { intros resp Hne n w n' w' x [<- <-] [= <- <- <-]. split; [apply eff_none|done]. }
  unfold uploadProductImage. cbv zeta. destruct (negb storage); [by apply Hret|].
  destruct (uuid_Parse _) as [p|]; [|by apply Hret].
  apply (triple_bind _ _ _ _ _ (λ _, at_rest K Bs)).
  { eapply triple_conseq; [apply on_shop_rest, service_GetProduct_keeps|done|done|].
    intros e w [<- <-]. apply eff_none. }
  intros [pr|[]]; try by apply Hret.
  destruct body as [|values [f|]]; try by apply Hret. case_match; [by apply Hret|].
  destruct (File_Head f) as [sniff|]; [|by apply Hret]. case_match; [by apply Hret|].
  destruct (ValidateImageUpload _ _); [|by apply Hret].
  eapply triple_conseq; [by apply store_image_effect|done| |done].
  intros resp w [He Hr]. split; [done|]. intros Hc. exists values, f. by split; [|apply Hr].
Qed.

(** Every request to the catalogue has an effect. *)
Lemma handle_effect env ep r body K Bs :
  (∀ q n x i, K !! i ≠ Some (BuildProductImageKey q (env_uuid env n) x)) →
  (∀ i k, K !! i = Some k → k ≠ "" ∧ plain_key k) →
  triple env (at_rest K Bs) (handle configured storage ep r body)
    (λ _ w, effect (reliable env ∧ storage = true) K Bs (site_keys w) (blobs (media w)))
    (λ _ w, effect (reliable env ∧ storage = true) K Bs (site_keys w) (blobs (media w))).
Proof.
  intros Hfresh Hplain. destruct (decide (ep = EPUpload)) as [->|Hu].
  { eapply triple_conseq; [by apply uploadProductImage_effect|done|..].
    - intros ? w [He _]. eapply effect_weaken; [|exact He]. by intros [? _].
    - intros ? w. apply effect_weaken. by intros [? _]. }
  destruct (decide (ep = EPDeleteImage)) as [->|Hd]; [by apply deleteProductImage_effect|].
  eapply triple_conseq; [by apply reads_rest|done|..]; intros ? w [<- <-]; apply eff_none.
Qed.

(** ** Images have blobs, blobs have images *)

(** Every image has its blob, under a key of its own. *)
Definition covered (w : Site St B) : Prop := all_covered (site_keys w) (blobs (media w)).

(** Every blob is of an image. *)
Definition owned (w : Site St B) : Prop := all_owned (site_keys w) (blobs (media w)).

(** The identifiers that will be drawn name no stored image. *)
Definition fresh (env : Env) (w : Site St B) : Prop :=
  ∀ q n x i, site_keys w !! i ≠ Some (BuildProductImageKey q (env_uuid env n) x).

(** C10: Whatever is asked of the catalogue, and whatever fails in the tables or in the
    storage, every image goes on having its blob, under a key of its own; and if the storage
    is configured and reliable, every blob goes on being the blob of an image: what a failed
    upload had stored is deleted again. *)
Theorem images_have_blobs env ep r body n w :
  fresh env w → covered w →
  covered (final (handle configured storage ep r body env n w)) ∧
  (reliable env → storage = true → owned w → owned (final (handle configured storage ep r body env n w))).
Proof.
  intros Hfresh Hcov.
  assert (effect (reliable env ∧ storage = true) (site_keys w) (blobs (media w))
    (site_keys (final (handle configured storage ep r body env n w)))
    (blobs (media (final (handle configured storage ep r body env n w))))) as Heff.
  { destruct (handle configured storage ep r body env n w) as [[n' w'] x] eqn:H.
    apply (handle_effect env ep r body (site_keys w) (blobs (media w))) in H; [by destruct x|done| |done].
    intros i k Hi. by destruct (proj2 Hcov i k Hi) as (? & ? & ?). }
  split; [by eapply effect_covered|]. intros Hrel Hs. by eapply effect_owned.
Qed.

(** An upload that is answered 201 Created has become an image of the catalogue, new in
    its tables, whose blob holds the bytes that were uploaded. *)
Theorem upload_recorded env r body n w n' w' resp :
  fresh env w → handle configured storage EPUpload r body env n w = (n', w', Ok resp) →
  StatusCode resp = StatusCreated →
  ∃ values f i k d, body = Form values (Some f) ∧ File_Data f = Ok d ∧
    site_keys w !! i = None ∧ site_keys w' !! i = Some k ∧ blobs (media w') !! k = Some d.
Proof.
  intros Hfresh Hrun Hc.
  apply (uploadProductImage_effect env r body (site_keys w) (blobs (media w)) Hfresh) in Hrun as [_ Hrec]; [|done].
  destruct (Hrec Hc) as (values & f & -> & i & k & d & ? & ? & ? & ?). by exists values, f, i, k, d.
Qed.
End site.

(** * Examples *)

Section examples.
#[local] Existing Instance ex_text.
#[local] Existing Instance ex_parse.
#[local] Existing Instance UTC.
#[local] Instance ex_error_text : JsonErrorText := λ _, "malformed".
#[local] Instance ex_client : Client Index := MemoryClient ToLower.
#[local] Instance ex_storage : BlobStorage Objects := MemoryStorage "http://media".
#[local] Instance ex_storage_laws : BlobLaws Objects := MemoryStorage_laws "http://media".

Definition ex_site : Site Index Objects :=
  MkSite (MkWorld ex_state ∅) {[ "key-7" := MkStoredObject "key-7" "image/png" 10 "http://media/key-7" "bytes" ]}.
Definition ex_upload_request : Request := MkRequest ∅ {[ "id" := "x" ]} ∅ "/products/x/images" (Bytes "") 0.
Definition ex_upload : form := Form {[ "is_primary" := "true" ]} (Some (MkFile 6 (Ok "GIF89a") (Ok "GIF89a"))).

Definition ex_run (env : Env) := handle true true EPUpload ex_upload_request ex_upload env 0%nat ex_site.

Example ex_uploaded :
  StatusCode <$> (match outcome (ex_run (calm_env 0 9)) with Ok r => Some r | Err _ => None end) = Some 201.
Proof. vm_compute. reflexivity. Qed.
Example ex_uploaded_blobs :
  size (media (final (ex_run (calm_env 0 9)))) = 2%nat.
Proof. vm_compute. reflexivity. Qed.
Example ex_not_recorded :
  StatusCode <$> (match outcome (ex_run (faulty_env 0 9 5 "lost")) with Ok r => Some r | Err _ => None end) = Some 500.
Proof. vm_compute. reflexivity. Qed.

Lemma ex_site_fresh env : fresh env ex_site.
Proof.
  intros q n x i. unfold site_keys, keys, ex_site, ex_state. cbn [shop tables product_images].
  rewrite map_fmap_singleton. by intros [_ ?]%lookup_singleton_Some.
Qed.

Lemma ex_site_covered : covered ex_site.
Proof.
  unfold covered, site_keys, keys, ex_site, ex_state. cbn [shop tables product_images media].
  rewrite map_fmap_singleton. split.
  - by intros i j k [<- _]%lookup_singleton_Some [<- _]%lookup_singleton_Some.
  - intros i k [_ <-]%lookup_singleton_Some. split_and!; [done..|]. by eexists.
Qed.

Lemma ex_site_owned : owned ex_site.
Proof.
  unfold owned, site_keys, keys, ex_site, ex_state. cbn [shop tables product_images media].
  rewrite map_fmap_singleton. intros k. cbn. rewrite map_fmap_singleton.
  intros [v [<- _]%lookup_singleton_Some]. exists 7%N. reflexivity.
Qed.

Lemma ex_reliable env : reliable (B:=Objects) env.
Proof.
  split; [by intros key n x n' x' e _ [= ]|]. intros key data size ct n x n' x' e. cbn. unfold memory_Put.
  destruct (ValidateImageUpload size ct); [destruct data|]; by intros [= <- <- _].
Qed.

(** The metadata cannot be recorded: no image has lost its blob, and the blob of the upload
    is gone. *)
Lemma images_have_blobs_witness :
  covered (final (ex_run (faulty_env 0 9 5 "lost"))) ∧ owned (final (ex_run (faulty_env 0 9 5 "lost"))).
Proof.
  destruct (images_have_blobs true true (faulty_env 0 9 5 "lost") EPUpload ex_upload_request ex_upload 0%nat ex_site
    (ex_site_fresh _) ex_site_covered) as [Hc Ho].
  split; [exact Hc|]. exact (Ho (ex_reliable _) eq_refl ex_site_owned).
Defined.

Lemma upload_recorded_witness :
  ∃ i k d, File_Data (MkFile 6 (Ok "GIF89a") (Ok "GIF89a")) = Ok d ∧
    site_keys (final (ex_run (calm_env 0 9))) !! i = Some k ∧
    blobs (media (final (ex_run (calm_env 0 9)))) !! k = Some d.
Proof.
  destruct (ex_run (calm_env 0 9)) as [[n' w'] x] eqn:H.
  assert (match x with Ok resp => StatusCode resp = 201 | Err _ => False end) as Hx
    by (apply (f_equal outcome) in H; cbn in H; rewrite <- H; vm_compute; reflexivity).
  destruct x as [resp|]; [|done].
  destruct (upload_recorded true true _ _ _ _ _ _ _ _ (ex_site_fresh _) H Hx)
    as (values & f & i & k & d & Hb & Hd & _ & Hi & Hk). injection Hb as _ <-. by exists i, k, d.
Defined.
End examples.
