(* ===== verification/Cache.v ===== *)
(** internal/platform/cache/catalog_cache.go: a cache of products in Redis, in front of the
    catalogue's service.

    What is stored under a key is the JSON of a product or the marker of a product that
    was not found.  [singleflight] lets concurrent misses of one key share one read; a run
    here is one caller's, and what the callers do between each other's steps is the step
    relation at the end.  The random part of a time to live is a parameter. *)

From S2P Require Import Prelude Money Json Redis Timestamp Catalog Search CatalogStore CatalogService.

(** * Entries *)

Inductive cached :=
| Marker                 (** [negativeMarker] *)
| Entry (j : json).

Definition baseTTL : Z := 5 * 60 * Second.
Definition jitterRange : Z := 30 * Second.
Definition negativeTTL : Z := 30 * Second.

(** ** The JSON of a product (the struct tags of models.go) *)

Definition money_to_json (m : Money.Money) : json :=
  JObject [("amount", JInt (Money.Amount m)); ("currency", JString (Money.Currency m))].

Definition image_to_json (i : ProductImage) : json :=
  JObject [("id", JUUID (Image_ID i)); ("product_id", JUUID (Image_ProductID i));
           ("storage_key", JString (Image_StorageKey i)); ("url", JString (Image_URL i));
           ("content_type", JString (Image_ContentType i)); ("size_bytes", JInt (Image_SizeBytes i));
           ("is_primary", JBool (Image_IsPrimary i)); ("sort_order", JInt (Image_SortOrder i));
           ("created_at", JTime (Image_CreatedAt i))].

(** [PriceMinor] and [Currency] are tagged "-"; [category_id] and [images] are omitted when
    they are empty. *)
Definition product_to_json (p : Product) : json :=
  JObject ([("id", JUUID (Product_ID p))]
    ++ match Product_CategoryID p with Some c => [("category_id", JUUID c)] | None => [] end
    ++ [("sku", JString (Product_SKU p)); ("title", JString (Product_Title p));
        ("description", JString (Product_Description p)); ("price", money_to_json (Product_Price p));
        ("is_active", JBool (Product_IsActive p)); ("version", JInt (Product_Version p))]
    ++ match Product_Images p with [] => [] | l => [("images", JArray (image_to_json <$> l))] end
    ++ [("created_at", JTime (Product_CreatedAt p)); ("updated_at", JTime (Product_UpdatedAt p))]).

Definition as_bool (j : json) : option bool :=
  match j with JBool b => Some b | JNull => Some false | _ => None end.
Definition as_uuid_ptr (j : json) : option (option uuid) :=
  match j with JUUID u => Some (Some u) | JNull => Some None | _ => None end.

Definition money_of_json (j : json) : option Money.Money :=
  f ← as_object j;
  a ← as_int (field f "amount"); c ← as_string (field f "currency");
  Some (Money.MkMoney a c).

Definition image_of_json (j : json) : option ProductImage :=
  f ← as_object j;
  id ← as_uuid (field f "id"); pid ← as_uuid (field f "product_id");
  key ← as_string (field f "storage_key"); u ← as_string (field f "url");
  ct ← as_string (field f "content_type"); sz ← as_int (field f "size_bytes");
  prim ← as_bool (field f "is_primary"); so ← as_int (field f "sort_order");
  at_ ← as_time (field f "created_at");
  Some (MkProductImage id pid key u ct sz prim so at_).

(** [json.Unmarshal] into a [Product]: the untagged columns stay zero. *)
Definition product_of_json (j : json) : option Product :=
  f ← as_object j;
  id ← as_uuid (field f "id"); c ← as_uuid_ptr (field f "category_id");
  k ← as_string (field f "sku"); t ← as_string (field f "title");
  d ← as_string (field f "description"); pr ← money_of_json (field f "price");
  act ← as_bool (field f "is_active"); v ← as_int (field f "version");
  imgs ← as_array (field f "images") ≫= mapM image_of_json;
  created ← as_time (field f "created_at"); updated ← as_time (field f "updated_at");
  Some (MkProduct id c k t d 0 "" pr act v imgs created updated).

Section cache.
Context {St : Type} `{UT : UuidText}.
(** [rand.Int64N(int64(jitterRange) * 2)], by the tick of the call *)
Context (jitter : nat → Z).

Record CacheWorld := MkCacheWorld { store : Store cached; svc : World (St:=St) }.

Notation op A := (M CacheWorld Catalog.error A).

Definition on_svc {A} (m : M (World (St:=St)) Catalog.error A) : op A :=
  zoom svc (λ s w, MkCacheWorld (store w) s) m.

(** A command to Redis, with its error. *)
Definition on_redis {A} (m : M (Store cached) Redis.error A) : op (result Redis.error A) := λ env n w,
  match m env n (store w) with (n1, s, r) => (n1, MkCacheWorld s (svc w), Ok r) end.

Definition productKey (id : uuid) : string := ("catalog:product:v1:" ++ uuid_String id)%string.
Definition skuKey (k : string) : string := ("catalog:sku:v1:" ++ k)%string.

Definition ttlWithJitter (n : nat) : Z := baseTTL + (jitter n - jitterRange).

Local Open Scope go_scope.

(** [getFromCache]: a hit with a product, a hit without one, or a miss. *)
Definition getFromCache (key : string) : op (option (option Product)) :=
  let* r := on_redis (GET key) in
  ret match r with
  | Ok (Some Marker) => Some None
  | Ok (Some (Entry j)) => match product_of_json j with Some p => Some (Some p) | None => None end
  | _ => None
  end.

(** A failure to write is only logged. *)
Definition setInCache (key : string) (p : Product) : op unit := λ env n,
  (on_redis (SET key (Entry (product_to_json p)) (ttlWithJitter n)) ;;; ret tt) env n.

Definition setNegative (key : string) : op unit :=
  on_redis (SET key Marker negativeTTL) ;;; ret tt.

(** The body of the singleflight call, and what follows it. *)
Definition read_through (key : string) (dbRead : M (World (St:=St)) Catalog.error Product) :
    op (option Product) :=
  let* r := try (on_svc dbRead) in
  match r with
  | Err ErrProductNotFound => setNegative key ;;; fail ErrProductNotFound
  | Err e => fail e
  | Ok p => setInCache key p ;;; ret (Some p)
  end.

(** [None] is a nil product, returned without an error. *)
Definition GetProduct (id : uuid) : op (option Product) :=
  let* hit := getFromCache (productKey id) in
  match hit with
  | Some p => ret p
  | None => read_through (productKey id) (CatalogService.GetProduct id)
  end.

Definition GetProductBySKU (k : string) : op (option Product) :=
  let* hit := getFromCache (skuKey k) in
  match hit with
  | Some p => ret p
  | None => read_through (skuKey k) (CatalogService.GetProductBySKU k)
  end.

Definition GetProductsBySKUs (skus : list string) : op (list Product) :=
  on_svc (CatalogService.GetProductsBySKUs skus).

Definition InvalidateProduct (p : Product) : op unit :=
  on_redis (DEL [productKey (Product_ID p); skuKey (Product_SKU p)]) ;;; ret tt.
End cache.
Arguments MkCacheWorld {St}.
Arguments store {St} w : rename.
Arguments svc {St} w : rename.

(** * What is read back *)

(** A product as its JSON carries it: without the columns of its price. *)
Definition through_json (p : Product) : Product :=
  MkProduct (Product_ID p) (Product_CategoryID p) (Product_SKU p) (Product_Title p)
    (Product_Description p) 0 "" (Product_Price p) (Product_IsActive p) (Product_Version p)
    (Product_Images p) (Product_CreatedAt p) (Product_UpdatedAt p).

Lemma image_json_roundtrip i : image_of_json (image_to_json i) = Some i.
Proof. by destruct i. Qed.

(** The JSON of a product gives all of it back, except the columns [PriceMinor] and
    [Currency], which come back zero. *)
Lemma product_json_roundtrip p : product_of_json (product_to_json p) = Some (through_json p).
Proof.
  destruct p as [id c k t d pm cur [pa pc] act v imgs cr up]. unfold through_json.
  assert (∀ l, mapM image_of_json (image_to_json <$> l) = Some l) as Himgs.
  { intros l. apply mapM_fmap_Some, image_json_roundtrip. }
  destruct imgs as [|i l]; [by destruct c|]. specialize (Himgs (i :: l)).
  destruct c; cbn -[mapM fmap image_of_json image_to_json] in *; by rewrite Himgs.
Qed.

(** * Histories of the cache *)

Section histories.
Context `{UT : UuidText, UP : UuidParse, UL : !UuidLaws}.

(** The store, the tables, and what the readers in flight have read. *)
Record Sys := MkSys {
  sys_store : Store cached;
  sys_tables : State;
  sys_reads : list (uuid * product_row);
}.

(** The steps between which callers may be interleaved: a statement of the catalogue, a
    read of a product, a write of one that was read, at any later time and with any time
    to live, a negative entry, an invalidation. *)
Inductive cache_step : Sys → Sys → Prop :=
| StepTables c t t' l : catalog_step t t' → cache_step (MkSys c t l) (MkSys c t' l)
| StepRead c t l id r : products t !! id = Some r → cache_step (MkSys c t l) (MkSys c t ((id, r) :: l))
| StepSetID c t l id r now ttl : (id, r) ∈ l →
    cache_step (MkSys c t l)
      (MkSys (Redis.write now ttl (productKey id) (Entry (product_to_json (to_product id r))) c) t l)
| StepSetSKU c t l id r now ttl : (id, r) ∈ l →
    cache_step (MkSys c t l)
      (MkSys (Redis.write now ttl (skuKey (sku r)) (Entry (product_to_json (to_product id r))) c) t l)
| StepNegative c t l key now : cache_step (MkSys c t l) (MkSys (Redis.write now negativeTTL key Marker c) t l)
| StepDel c t l keys : cache_step (MkSys c t l) (MkSys (foldr delete c keys) t l).

(** A row that a product has, or had. *)
Definition past_row (t : State) (id : uuid) (r0 : product_row) : Prop :=
  ∃ r, products t !! id = Some r ∧ sku r = sku r0 ∧ version r0 <= version r ∧
       (version r0 = version r → r0 = r).

Lemma past_row_now t id r : products t !! id = Some r → past_row t id r.
Proof. intros Hr. exists r. split_and!; [done..|lia|done]. Qed.

Lemma past_row_step t t' id r0 : continues t t' → past_row t id r0 → past_row t' id r0.
Proof.
  intros Hc (r & Hr & Hs & Hv & He). destruct (Hc id r Hr) as (r' & Hr' & Hs' & _ & Hv' & He').
  exists r'. split_and!; [done|congruence|lia|]. intros Heq.
  rewrite (He ltac:(lia)). symmetry. apply He'. lia.
Qed.

(** What the store holds under a key of a product is a past row of that product. *)
Definition entries_ok (c : Store cached) (t : State) : Prop :=
  ∀ key e j, c !! key = Some e → value e = Entry j →
    ∃ id r0, past_row t id r0 ∧ j = product_to_json (to_product id r0) ∧
             (key = productKey id ∨ key = skuKey (sku r0)).

Record sys_ok (x : Sys) : Prop := {
  ok_reads : ∀ id r0, (id, r0) ∈ sys_reads x → past_row (sys_tables x) id r0;
  ok_entries : entries_ok (sys_store x) (sys_tables x);
}.

Lemma entries_ok_write c t now ttl key v :
  entries_ok c t →
  (∀ j, v = Entry j → ∃ id r0, past_row t id r0 ∧ j = product_to_json (to_product id r0) ∧
                               (key = productKey id ∨ key = skuKey (sku r0))) →
  entries_ok (Redis.write now ttl key v c) t.
Proof.
  intros Hok Hv k e j. unfold Redis.write. intros [[<- <-]|[_ Hl]]%lookup_insert_Some; [by apply Hv|by eapply Hok].
Qed.

Lemma cache_step_ok x y : cache_step x y → sys_ok x → sys_ok y.
Proof.
  intros Hstep [Hr He].
  destruct Hstep as [c t t' l Ht|c t l id r Hl|c t l id r now ttl Hl|c t l id r now ttl Hl|c t l key now|c t l keys];
    split; simpl in *; try done.
  - intros id r0 Hin. eapply past_row_step; [by apply catalog_step_keeps|auto].
  - intros key e j Hk Hj. destruct (He key e j Hk Hj) as (id & r0 & Hp & Hrest). exists id, r0.
    split; [|done]. eapply past_row_step; [by apply catalog_step_keeps|done].
  - intros id' r0 [[= -> ->]|Hin]%elem_of_cons; [by apply past_row_now|auto].
  - apply entries_ok_write; [done|]. intros j [= <-]. exists id, r. auto.
  - apply entries_ok_write; [done|]. intros j [= <-]. exists id, r. auto.
  - apply entries_ok_write; done.
  - intros key e j. rewrite lookup_foldr_delete. case_decide; [done|]. apply He.
Qed.

Lemma keys_apart id k : productKey id ≠ skuKey k.
Proof. done. Qed.

Lemma append_inj_l (a b c : string) : (a ++ b = a ++ c)%string → b = c.
Proof.
  induction a as [|x a IH]; intros H; [exact H|].
  change (String x a ++ b)%string with (String x (a ++ b)) in H.
  change (String x a ++ c)%string with (String x (a ++ c)) in H. injection H as H. by apply IH.
Qed.

Lemma productKey_inj u v : productKey u = productKey v → u = v.
Proof. intros H%append_inj_l. by apply uuid_String_inj. Qed.
Lemma skuKey_inj a b : skuKey a = skuKey b → a = b.
Proof. apply append_inj_l. Qed.

Context {St : Type} (jitter : nat → Z).

(** What a lookup in the cache answers, when the entries are past rows. *)
Lemma getFromCache_past key env n (w : CacheWorld (St:=St)) n' w' p :
  entries_ok (store w) (tables (svc w)) →
  getFromCache key env n w = (n', w', Ok (Some (Some p))) →
  w' = w ∧ ∃ id r0, past_row (tables (svc w)) id r0 ∧ p = through_json (to_product id r0) ∧
                    (key = productKey id ∨ key = skuKey (sku r0)).
Proof.
  intros Hok. unfold getFromCache, bind, on_redis, GET, sql, ret. destruct w as [c s]. cbn [store svc] in *.
  destruct (env_fault env n); [done|]. intros [= <- <- H]. split; [done|]. revert H. unfold read.
  destruct (c !! key) as [e|] eqn:He; [|done]. destruct (live _ e); [|done].
  destruct (value e) as [|j] eqn:Hv; [done|].
  destruct (Hok key e j He Hv) as (id & r0 & Hp & -> & Hkey). rewrite product_json_roundtrip.
  intros [= <-]. by exists id, r0.
Qed.

(** The world of a caller is the one of the history. *)
Definition seen_by (x : Sys) (w : CacheWorld (St:=St)) : Prop :=
  store w = sys_store x ∧ tables (svc w) = sys_tables x.

Lemma getFromCache_same key env n (w : CacheWorld (St:=St)) n' w' r :
  getFromCache key env n w = (n', w', r) → w' = w.
Proof.
  unfold getFromCache, bind, on_redis, GET, sql, ret. destruct w as [c s]. cbn [store svc].
  destruct (env_fault env n); by intros [= _ <- _].
Qed.

(** A miss: the product comes from the tables, and what is stored is that product or the
    marker. *)
Lemma read_through_spec key dbRead env n (w : CacheWorld (St:=St)) n' w' r x :
  seen_by x w →
  (∀ n s n' s' p, tables s = sys_tables x → dbRead env n s = (n', s', Ok p) → s' = s ∧ ∃ id row,
     products (tables s) !! id = Some row ∧ p = to_product id row ∧ (key = productKey id ∨ key = skuKey (sku row))) →
  (∀ n s n' s' e, dbRead env n s = (n', s', Err e) → s' = s) →
  read_through jitter key dbRead env n w = (n', w', r) →
  (∃ x', rtc cache_step x x' ∧ seen_by x' w') ∧
  match r with
  | Ok p => ∃ id row, p = Some (to_product id row) ∧ products (sys_tables x) !! id = Some row ∧
                      (key = productKey id ∨ key = skuKey (sku row))
  | Err _ => True
  end.
Proof.
  intros [Hc Ht] Hok Herr Hrun. destruct w as [c s], x as [xc xt xl]. cbn [store svc sys_store sys_tables] in *. subst xc xt.
  unfold read_through, bind, try, on_svc, zoom in Hrun. cbn [svc] in Hrun.
  destruct (dbRead env n s) as [[n1 s1] [p|e]] eqn:Hdb.
  - destruct (Hok _ _ _ _ _ eq_refl Hdb) as (-> & id & row & Hrow & -> & Hkey).
    assert (Hput : ∀ now ttl, ∃ x', rtc cache_step (MkSys c (tables s) xl) x' ∧
      seen_by x' (MkCacheWorld (Redis.write now ttl key (Entry (product_to_json (to_product id row))) c) s)).
    { intros now ttl. eexists (MkSys _ (tables s) ((id, row) :: xl)). split; [|by split].
      eapply rtc_l; [by apply (StepRead c (tables s) xl id row)|]. apply rtc_once.
      destruct Hkey as [->| ->]; [apply StepSetID|apply StepSetSKU]; by left. }
    unfold setInCache, bind, on_redis, SET, sql, ret in Hrun. cbn [store svc] in Hrun.
    destruct (env_fault env n1); injection Hrun as <- <- <-; cbn [store svc].
    + split; [|by exists id, row]. exists (MkSys c (tables s) xl). by split.
    + split; [apply Hput|by exists id, row].
  - pose proof (Herr _ _ _ _ _ Hdb) as ->.
    assert (∃ x', rtc cache_step (MkSys c (tables s) xl) x' ∧ seen_by x' (MkCacheWorld c s)) as Hsame
      by (exists (MkSys c (tables s) xl); by split).
    destruct e; try (injection Hrun as <- <- <-; by split).
    unfold setNegative, bind, on_redis, SET, sql, ret in Hrun. cbn [store svc] in Hrun.
    destruct (env_fault env n1); injection Hrun as <- <- <-; cbn [store svc]; [by split|].
    split; [|done]. eexists (MkSys _ (tables s) xl). split; [|by split].
    apply rtc_once. apply StepNegative.
Qed.

Lemma GetProductBySKU_reads k env n (s : World (St:=St)) n' s' p :
  wf (tables s) → CatalogService.GetProductBySKU k env n s = (n', s', Ok p) →
  s' = s ∧ ∃ id row, products (tables s) !! id = Some row ∧ p = to_product id row ∧
                     (skuKey k = productKey id ∨ skuKey k = skuKey (sku row)).
Proof.
  intros Hwf. unfold CatalogService.GetProductBySKU.
  intros (n1 & s1 & [] & Hc & (t & Hs & ->)%on_tables_run)%bind_ok_inv.
  assert (s1 = s) as -> by (revert Hc; unfold check; destruct (validateSKU k); [done|]; by intros [= _ <-]).
  apply sql_ok_inv in Hs as (_ & Hs & _).
  destruct (product_of_sku (tables s) k) as [[id row]|] eqn:Hk; [|done]. injection Hs as <- <-.
  apply product_of_sku_spec in Hk as [Hrow <-]; [|done]. split; [by destruct s|]. exists id, row. auto.
Qed.

Lemma GetProductBySKU_reads_err k env n (s : World (St:=St)) n' s' e :
  CatalogService.GetProductBySKU k env n s = (n', s', Err e) → s' = s.
Proof.
  unfold CatalogService.GetProductBySKU, check. intros [H|(n1 & s1 & [] & Hc & H)]%bind_err_inv.
  - destruct (validateSKU k); [by injection H as _ <-|done].
  - destruct (validateSKU k); [done|]. injection Hc as <- <-.
    apply on_tables_run in H as (t & Hs & ->). apply sql_err_inv in Hs as ->. by destruct s.
Qed.

Lemma history_ok x : rtc cache_step (MkSys ∅ empty_state []) x → sys_ok x ∧ wf (sys_tables x).
Proof.
  intros Hx.
  assert (sys_ok (MkSys ∅ empty_state []) ∧ wf (sys_tables (MkSys ∅ empty_state []))) as H0.
  { split; [|apply wf_empty]. split; [intros ? ? []%elem_of_nil|].
    intros key e j. simpl. by rewrite lookup_empty. }
  revert H0. induction Hx as [|a b c Hab _ IH]; [done|]. intros [Ha Hwf]. apply IH.
  split; [by eapply cache_step_ok|]. destruct Hab; try done. by eapply catalog_step_keeps.
Qed.

End histories.

(** * Negative entries *)

(** A negative entry answers a nil product and no error.  The first request for an
    identifier that no product has is refused with [ErrProductNotFound], as the service
    refuses it; any repetition in the next thirty seconds succeeds, with a nil product. *)
Theorem negative_hit_nil {St} `{UT : UuidText} jitter id env n (w : CacheWorld (St:=St)) :
  no_faults env → products (tables (svc w)) !! id = None →
  read (env_now env n) (store w) (productKey id) = None →
  ∃ w', GetProduct jitter id env n w = (S (S (S n)), w', Err ErrProductNotFound) ∧
    svc w' = svc w ∧
    ∀ env' m, env_fault env' m = None → env_now env' m <= env_now env (S (S n)) + 30 * Second →
      GetProduct jitter id env' m w' = (S m, w', Ok None).
Proof.
  intros Hf Hnone Hmiss. destruct w as [c s]. cbn [store svc] in *.
  eexists. split.
  - unfold GetProduct, getFromCache, bind, on_redis, GET, sql, ret. cbn [store svc].
    rewrite (Hf n), Hmiss. unfold read_through, bind, try, on_svc, zoom. cbn [svc].
    unfold CatalogService.GetProduct, on_tables, zoom, GetProductByID, sql.
    rewrite (Hf (S n)), Hnone.
    unfold setNegative, bind, on_redis, SET, sql, ret, fail. cbn [store svc].
    rewrite (Hf (S (S n))). reflexivity.
  - cbn [svc store]. split; [by destruct s|]. intros env' m Hm Hnow.
    unfold GetProduct, getFromCache, bind, on_redis, GET, sql, ret. cbn [store svc]. rewrite Hm.
    rewrite read_write_eq. unfold negativeTTL. by rewrite (proj2 (Z.leb_le _ _)) by lia.
Qed.

(** ** Examples *)

Section examples.
#[local] Existing Instance ex_text.
#[local] Existing Instance ex_parse.
#[local] Existing Instance ex_laws.

Definition ex_jitter : nat → Z := λ _, 0.
Definition ex_cache (t : State) : CacheWorld (St:=Index) := MkCacheWorld ∅ (MkWorld t ∅).

Lemma negative_hit_nil_witness :
  ∃ w', GetProduct ex_jitter 9 (calm_env 1000 1) 0%nat (ex_cache ex_state) = (3%nat, w', Err ErrProductNotFound) ∧
        GetProduct ex_jitter 9 (calm_env 2000 1) 0%nat w' = (1%nat, w', Ok None).
Proof.
  destruct (negative_hit_nil ex_jitter 9 (calm_env 1000 1) 0%nat (ex_cache ex_state)) as (w' & H1 & _ & H2);
    [done|reflexivity|reflexivity|].
  exists w'. split; [exact H1|]. apply (H2 (calm_env 2000 1) 0%nat); [reflexivity|vm_compute; discriminate].
Defined.

(** A product is created, read through the cache, repriced, and read again. *)
Definition ex_created : State := final (run_write (WProduct ex_new_product) (calm_env 1000 50) 0%nat empty_state).
Definition ex_read : CacheWorld (St:=Index) := final (GetProduct ex_jitter 5 (calm_env 1500 1) 0%nat (ex_cache ex_created)).
Definition ex_repriced : State := final (run_write (WPrice 5 700 "USD" 1) (calm_env 2000 60) 0%nat ex_created).

End examples.
