(* ===== verification/Order.v ===== *)
(** internal/domain/order: the order aggregate, its state machine and totals, the
    idempotent placement of orders with their outbox event, and the transitions of
    their status under an optimistic lock.

    The tables are those of migrations/00003_create_order_tables.sql and the outbox
    table of 00006.  The catalogue is read through its interface ([CatalogReader]).
    The service is modelled with a transaction starter, as the program wires it; the
    branch without one ([beginner == nil]) serves tests against a mock. *)

From S2P Require Import Prelude Database Money Json Sha256 Outbox Catalog.

(** * Data (errors.go, models.go) *)

Inductive error : Type :=
| ErrOrderNotFound
| ErrUnauthorized
| ErrForbidden
| ErrMissingIdempotencyKey
| ErrIdempotencyConflict
| ErrConcurrentProcessing
| ErrEmptyOrderItems
| ErrMaxItemsExceeded
| ErrInvalidQuantity
| ErrInvalidPrice
| ErrCurrencyMismatch
| ErrProductNotFound
| ErrProductUnavailable
| ErrArithmeticOverflow
| ErrOptimisticLockConflict
| ErrInvalidStateTransition
| ErrOrderTerminal
| ErrEmptyCartCheckout
| ErrCatalog (e : Catalog.error)   (** "catalog reader error: ..." *)
| ErrText (msg : string)           (** [errors.New] at the point of use *)
| ErrDriver (msg : string).

Definition Error (e : error) : string :=
  match e with
  | ErrOrderNotFound => "order not found"
  | ErrUnauthorized => "unauthorized: missing or invalid user identification"
  | ErrForbidden => "forbidden: customer does not own this order"
  | ErrMissingIdempotencyKey => "missing idempotency-key header"
  | ErrIdempotencyConflict => "idempotency key conflict: payload mismatch"
  | ErrConcurrentProcessing => "concurrent request with same idempotency key in progress"
  | ErrEmptyOrderItems => "order must contain at least one line item"
  | ErrMaxItemsExceeded => "order exceeds maximum allowed line items (100)"
  | ErrInvalidQuantity => "quantity must be greater than zero"
  | ErrInvalidPrice => "price must be greater than zero"
  | ErrCurrencyMismatch => "currency mismatch between order and product catalog"
  | ErrProductNotFound => "product SKU not found in catalog"
  | ErrProductUnavailable => "product SKU is inactive or unavailable"
  | ErrArithmeticOverflow => "monetary arithmetic integer overflow"
  | ErrOptimisticLockConflict => "optimistic lock conflict: order modified concurrently"
  | ErrInvalidStateTransition => "invalid order state transition"
  | ErrOrderTerminal => "order is in a terminal state and cannot be modified"
  | ErrEmptyCartCheckout => "cannot checkout an empty cart"
  | ErrCatalog e => "catalog reader error: " ++ Catalog.Error e
  | ErrText msg => msg
  | ErrDriver msg => msg
  end%string.

#[export] Instance error_GoError : GoError error :=
  {| error_text := Error; driver_error := ErrDriver; driver_error_text := λ _, eq_refl |}.

Inductive OrderStatus :=
| StatusPending
| StatusReservingStock
| StatusStockReserved
| StatusPaying
| StatusPaid
| StatusConfirmed
| StatusCancelled
| StatusRefunded.

#[export] Instance OrderStatus_eq_dec : EqDecision OrderStatus.
Proof. solve_decision. Defined.

Definition status_string (s : OrderStatus) : string :=
  match s with
  | StatusPending => "PENDING"
  | StatusReservingStock => "RESERVING_STOCK"
  | StatusStockReserved => "STOCK_RESERVED"
  | StatusPaying => "PAYING"
  | StatusPaid => "PAID"
  | StatusConfirmed => "CONFIRMED"
  | StatusCancelled => "CANCELLED"
  | StatusRefunded => "REFUNDED"
  end.

Definition status_of_string (s : string) : option OrderStatus :=
  let is_ st := String.eqb s (status_string st) in
  if is_ StatusPending then Some StatusPending
  else if is_ StatusReservingStock then Some StatusReservingStock
  else if is_ StatusStockReserved then Some StatusStockReserved
  else if is_ StatusPaying then Some StatusPaying
  else if is_ StatusPaid then Some StatusPaid
  else if is_ StatusConfirmed then Some StatusConfirmed
  else if is_ StatusCancelled then Some StatusCancelled
  else if is_ StatusRefunded then Some StatusRefunded
  else None.

Definition IsTerminal (s : OrderStatus) : bool :=
  match s with
  | StatusConfirmed | StatusCancelled | StatusRefunded => true
  | _ => false
  end.

Definition CanTransitionTo (s next : OrderStatus) : bool :=
  let eq a := bool_decide (next = a) in
  if bool_decide (s = next) then true else
  if IsTerminal s then false else
  match s with
  | StatusPending => eq StatusReservingStock || eq StatusCancelled
  | StatusReservingStock => eq StatusStockReserved || eq StatusCancelled
  | StatusStockReserved => eq StatusPaying || eq StatusCancelled
  | StatusPaying => eq StatusPaid || eq StatusCancelled
  | StatusPaid => eq StatusConfirmed || eq StatusRefunded
  | _ => false
  end.

Inductive IdempotencyStatus :=
| IdempotencyStatusProcessing
| IdempotencyStatusCompleted
| IdempotencyStatusFailed.

#[export] Instance IdempotencyStatus_eq_dec : EqDecision IdempotencyStatus.
Proof. solve_decision. Defined.

Record OrderItem := MkOrderItem {
  Item_ID : uuid;
  Item_OrderID : uuid;
  Item_SKU : string;
  Item_TitleSnapshot : string;
  Item_UnitPriceMinor : Z;
  Item_Quantity : Z;
  Item_SubtotalMinor : Z;
  Item_CreatedAt : Z;
}.

Record Order := MkOrder {
  ID : uuid;
  UserID : uuid;
  IdempotencyKey : string;
  Status : OrderStatus;
  TotalAmountMinor : Z;
  Currency : string;
  Version : Z;
  Items : list OrderItem;
  CreatedAt : Z;
  UpdatedAt : Z;
}.

Record IdempotencyKeyRecord := MkIdempotencyKeyRecord {
  Rec_Key : string;
  Rec_UserID : uuid;
  Rec_RequestHash : string;
  Rec_Status : IdempotencyStatus;
  Rec_ResponseCode : option Z;
  Rec_ResponseBody : option json;
  Rec_OrderID : option uuid;
  Rec_CreatedAt : Z;
  Rec_ExpiresAt : Z;
}.

Record OrderItemRequest := MkOrderItemRequest { Req_SKU : string; Req_Quantity : Z }.
Record CreateOrderRequest := MkCreateOrderRequest {
  Req_Items : list OrderItemRequest;
  Req_Currency : string;
}.

Record ListOrdersParams := MkListOrdersParams {
  Params_UserID : uuid;
  Params_Status : option string;
  Params_Limit : Z;
  Params_Cursor : string;
}.

Record OrderListResponse := MkOrderListResponse {
  List_Items : list Order;
  List_NextCursor : string;
  List_HasMore : bool;
}.

#[export] Instance OrderItem_eq_dec : EqDecision OrderItem.
Proof. solve_decision. Defined.
#[export] Instance Order_eq_dec : EqDecision Order.
Proof. solve_decision. Defined.

(** ** Totals *)

Definition set_subtotal (it : OrderItem) (subtotal : Z) : OrderItem :=
  MkOrderItem (Item_ID it) (Item_OrderID it) (Item_SKU it) (Item_TitleSnapshot it)
    (Item_UnitPriceMinor it) (Item_Quantity it) subtotal (Item_CreatedAt it).

(** The loop of [CalculateTotals] over the items, from [grandTotal] on. *)
Fixpoint calculate_loop (items : list OrderItem) (grandTotal : Z) :
    result error (list OrderItem * Z) :=
  match items with
  | [] => Ok ([], grandTotal)
  | item :: rest =>
      if Item_Quantity item <=? 0 then Err ErrInvalidQuantity else
      if Item_UnitPriceMinor item <=? 0 then Err ErrInvalidPrice else
      let qty64 := Item_Quantity item in
      if Z.quot MaxInt64 qty64 <? Item_UnitPriceMinor item then Err ErrArithmeticOverflow else
      let subtotal := mul64 (Item_UnitPriceMinor item) qty64 in
      if (0 <? subtotal) && (sub64 MaxInt64 subtotal <? grandTotal) then Err ErrArithmeticOverflow
      else
        match calculate_loop rest (add64 grandTotal subtotal) with
        | Ok (rest', total) => Ok (set_subtotal item subtotal :: rest', total)
        | Err e => Err e
        end
  end.

Definition CalculateTotals (o : Order) : result error Order :=
  if (length (Items o) =? 0)%nat then Err ErrEmptyOrderItems else
  if (100 <? length (Items o))%nat then Err ErrMaxItemsExceeded else
  match calculate_loop (Items o) 0 with
  | Err e => Err e
  | Ok (items, grandTotal) =>
      Ok (MkOrder (ID o) (UserID o) (IdempotencyKey o) (Status o) grandTotal (Currency o)
            (Version o) items (CreatedAt o) (UpdatedAt o))
  end.

(** ** JSON of an order (the struct tags) *)

Definition item_to_json (it : OrderItem) : json :=
  JObject [("id", JUUID (Item_ID it)); ("order_id", JUUID (Item_OrderID it));
           ("sku", JString (Item_SKU it)); ("title_snapshot", JString (Item_TitleSnapshot it));
           ("unit_price_minor", JInt (Item_UnitPriceMinor it));
           ("quantity", JInt (Item_Quantity it)); ("subtotal_minor", JInt (Item_SubtotalMinor it));
           ("created_at", JTime (Item_CreatedAt it))].

Definition order_to_json (o : Order) : json :=
  JObject [("id", JUUID (ID o)); ("user_id", JUUID (UserID o));
           ("idempotency_key", JString (IdempotencyKey o));
           ("status", JString (status_string (Status o)));
           ("total_amount_minor", JInt (TotalAmountMinor o)); ("currency", JString (Currency o));
           ("version", JInt (Version o)); ("items", JArray (item_to_json <$> Items o));
           ("created_at", JTime (CreatedAt o)); ("updated_at", JTime (UpdatedAt o))].

Definition item_of_json (j : json) : option OrderItem :=
  f ← as_object j;
  id ← as_uuid (field f "id"); oid ← as_uuid (field f "order_id");
  sku ← as_string (field f "sku"); title ← as_string (field f "title_snapshot");
  price ← as_int (field f "unit_price_minor"); qty ← as_int (field f "quantity");
  sub ← as_int (field f "subtotal_minor"); at_ ← as_time (field f "created_at");
  Some (MkOrderItem id oid sku title price qty sub at_).

(** [json.Unmarshal] into an [Order].  Go would also keep a status outside the
    enumeration; the bodies read here were written by [order_to_json]. *)
Definition order_of_json (j : json) : option Order :=
  f ← as_object j;
  id ← as_uuid (field f "id"); uid ← as_uuid (field f "user_id");
  key ← as_string (field f "idempotency_key");
  st ← as_string (field f "status") ≫= status_of_string;
  total ← as_int (field f "total_amount_minor"); cur ← as_string (field f "currency");
  ver ← as_int (field f "version");
  items ← as_array (field f "items") ≫= mapM item_of_json;
  created ← as_time (field f "created_at"); updated ← as_time (field f "updated_at");
  Some (MkOrder id uid key st total cur ver items created updated).

(** [json.Marshal] of a request, for callers without a raw body. *)
Definition marshal_request (req : CreateOrderRequest) : string :=
  let item it := ("{" ++ quoted "sku" ++ ":" ++ quoted (Req_SKU it) ++ "," ++ quoted "quantity"
                  ++ ":" ++ fmt_d (Req_Quantity it) ++ "}")%string in
  ("{" ++ quoted "items" ++ ":[" ++ strings_join (item <$> Req_Items req) "," ++ "],"
   ++ quoted "currency" ++ ":" ++ quoted (Req_Currency req) ++ "}")%string.

Definition ComputeRequestHash (rawBody : string) : string :=
  Sha256.hex_EncodeToString (Sum256 rawBody).

(** * Tables (migrations/00003_create_order_tables.sql) *)

(** The rows of [orders] are orders without their items. *)
Record State := MkState {
  orders : gmap uuid Order;
  order_items : list OrderItem;
  idempotency_keys : gmap (uuid * string) IdempotencyKeyRecord;
  outbox : gmap uuid OutboxMessage;
}.

Definition empty_state : State := MkState ∅ [] ∅ ∅.

Definition set_orders (s : State) (m : gmap uuid Order) : State :=
  MkState m (order_items s) (idempotency_keys s) (outbox s).
Definition set_items (s : State) (l : list OrderItem) : State :=
  MkState (orders s) l (idempotency_keys s) (outbox s).
Definition set_keys (s : State) (m : gmap (uuid * string) IdempotencyKeyRecord) : State :=
  MkState (orders s) (order_items s) m (outbox s).
Definition set_outbox (s : State) (m : gmap uuid OutboxMessage) : State :=
  MkState (orders s) (order_items s) (idempotency_keys s) m.

Definition order_ok (o : Order) : bool :=
  int8_ok (TotalAmountMinor o) && (0 <=? TotalAmountMinor o) && varchar_ok 128 (IdempotencyKey o)
  && varchar_ok 3 (Currency o) && int8_ok (Version o).

Definition item_ok (it : OrderItem) : bool :=
  int8_ok (Item_UnitPriceMinor it) && (0 <? Item_UnitPriceMinor it)
  && int4_ok (Item_Quantity it) && (0 <? Item_Quantity it)
  && int8_ok (Item_SubtotalMinor it) && (0 <? Item_SubtotalMinor it)
  && (Item_SubtotalMinor it =? Item_UnitPriceMinor it * Item_Quantity it)
  && varchar_ok 64 (Item_SKU it) && varchar_ok 255 (Item_TitleSnapshot it).

Definition pg_check : string := "new row violates a constraint of its table".
Definition pg_unique : string := "duplicate key value violates unique constraint".
Definition pg_fk : string := "insert violates foreign key constraint".

Definition op := M State error.

(** * Repository (repository.go) *)

Definition find_by_key (s : State) (userID : uuid) (key : string) : option Order :=
  snd <$> list_find (λ o, UserID o = userID ∧ IdempotencyKey o = key) (map_to_list (orders s)).*2.

Definition with_items (o : Order) (items : list OrderItem) : Order :=
  MkOrder (ID o) (UserID o) (IdempotencyKey o) (Status o) (TotalAmountMinor o) (Currency o)
    (Version o) items (CreatedAt o) (UpdatedAt o).

Section repository.
Context `{UT : UuidText}.
Local Open Scope go_scope.

(** The seconds an idempotency key lives. *)
Definition ttl_seconds (ttl : Z) : Z :=
  let s := Z.quot ttl Second in if s <=? 0 then 86400 else s.

(** [LockIdempotencyKey]: take the key if it is new or expired; otherwise lock its
    row and judge it.  The answer is the record and whether the caller owns it. *)
Definition LockIdempotencyKey (key : string) (userID : uuid) (reqHash : string) (ttl : Z) :
    op (IdempotencyKeyRecord * bool) :=
  let lifetime := ttl_seconds ttl * Second in
  let* inserted := sql "lock idempotency key insert: " (λ now s,
    let fresh := MkIdempotencyKeyRecord key userID reqHash IdempotencyStatusProcessing None None
                   None now (now + lifetime) in
    if negb (varchar_ok 128 key && varchar_ok 64 reqHash)
    then Err (ErrDriver ("lock idempotency key insert: " ++ pg_check)%string) else
    let take_it := Ok (set_keys s (<[(userID, key) := fresh]> (idempotency_keys s)), Some fresh) in
    match idempotency_keys s !! (userID, key) with
    | None => take_it
    | Some rec => if Rec_ExpiresAt rec <? now then take_it else Ok (s, None)
    end) in
  match inserted with
  | Some rec => ret (rec, true)
  | None =>
      let* rec := sql "lock idempotency key select: " (λ _ s,
        match idempotency_keys s !! (userID, key) with
        | Some rec => Ok (s, rec)
        | None => Err (ErrDriver "lock idempotency key select: no rows in result set")
        end) in
      if negb (String.eqb (Rec_RequestHash rec) reqHash) then fail ErrIdempotencyConflict else
      match Rec_Status rec with
      | IdempotencyStatusProcessing => fail ErrConcurrentProcessing
      | IdempotencyStatusFailed =>
          sql "retry idempotency key update: " (λ now s,
            match idempotency_keys s !! (userID, key) with
            | Some r =>
                let r' := MkIdempotencyKeyRecord key userID (Rec_RequestHash r)
                            IdempotencyStatusProcessing (Rec_ResponseCode r) (Rec_ResponseBody r)
                            (Rec_OrderID r) now (now + lifetime) in
                Ok (set_keys s (<[(userID, key) := r']> (idempotency_keys s)), (r', true))
            | None => Err (ErrDriver "retry idempotency key update: no rows in result set")
            end)
      | IdempotencyStatusCompleted => ret (rec, false)
      end
  end.

Definition CompleteIdempotencyKey (key : string) (userID : uuid) (statusCode : Z)
    (responseBody : json) (orderID : uuid) : op unit :=
  sql "complete idempotency key: " (λ _ s,
    match idempotency_keys s !! (userID, key) with
    | None => Ok (s, tt)
    | Some r =>
        let r' := MkIdempotencyKeyRecord (Rec_Key r) (Rec_UserID r) (Rec_RequestHash r)
                    IdempotencyStatusCompleted (Some statusCode) (Some responseBody) (Some orderID)
                    (Rec_CreatedAt r) (Rec_ExpiresAt r) in
        Ok (set_keys s (<[(userID, key) := r']> (idempotency_keys s)), tt)
    end).

Definition GetIdempotencyKey (key : string) (userID : uuid) : op (option IdempotencyKeyRecord) :=
  sql "get idempotency key: " (λ _ s, Ok (s, idempotency_keys s !! (userID, key))).

Definition SaveIdempotencyKey (rec : IdempotencyKeyRecord) : op unit :=
  sql "save idempotency key: " (λ _ s,
    if negb (varchar_ok 128 (Rec_Key rec) && varchar_ok 64 (Rec_RequestHash rec))
    then Err (ErrDriver ("save idempotency key: " ++ pg_check)%string)
    else Ok (set_keys s (<[(Rec_UserID rec, Rec_Key rec) := rec]> (idempotency_keys s)), tt)).

Definition UpdateIdempotencyKey (rec : IdempotencyKeyRecord) : op unit :=
  sql "update idempotency key: " (λ _ s,
    match idempotency_keys s !! (Rec_UserID rec, Rec_Key rec) with
    | None => Ok (s, tt)
    | Some r =>
        let r' := MkIdempotencyKeyRecord (Rec_Key r) (Rec_UserID r) (Rec_RequestHash rec)
                    (Rec_Status rec) (Rec_ResponseCode rec) (Rec_ResponseBody rec)
                    (Rec_OrderID rec) (Rec_CreatedAt r) (Rec_ExpiresAt rec) in
        if negb (varchar_ok 64 (Rec_RequestHash rec))
        then Err (ErrDriver ("update idempotency key: " ++ pg_check)%string)
        else Ok (set_keys s (<[(Rec_UserID rec, Rec_Key rec) := r']> (idempotency_keys s)), tt)
    end).

(** [CreateOrder]; the identifier, version and times the code writes into its
    argument are in the returned order. *)
Definition repo_CreateOrder (o : Order) : op Order :=
  let* id := if (ID o =? uuid_Nil)%N then uuid_New else ret (ID o) in
  sql "" (λ now s,
    let row := MkOrder id (UserID o) (IdempotencyKey o) (Status o) (TotalAmountMinor o)
                 (Currency o) 1 [] now now in
    if negb (order_ok row) then Err (ErrDriver pg_check) else
    match orders s !! id, find_by_key s (UserID o) (IdempotencyKey o) with
    | None, None => Ok (set_orders s (<[id := row]> (orders s)), with_items row (Items o))
    | _, _ => Err (ErrDriver pg_unique)
    end).

(** One queued INSERT of the batch. *)
Definition insert_item (item : OrderItem) : op unit :=
  let what := "insert order item batch: " in
  let* id := if (Item_ID item =? uuid_Nil)%N then uuid_New else ret (Item_ID item) in
  sql what (λ now s,
    let row := MkOrderItem id (Item_OrderID item) (Item_SKU item) (Item_TitleSnapshot item)
                 (Item_UnitPriceMinor item) (Item_Quantity item) (Item_SubtotalMinor item) now in
    if negb (item_ok row) then Err (ErrDriver (what ++ pg_check)%string) else
    if decide (Exists (λ x, Item_ID x = id) (order_items s))
    then Err (ErrDriver (what ++ pg_unique)%string) else
    match orders s !! Item_OrderID item with
    | None => Err (ErrDriver (what ++ pg_fk)%string)
    | Some _ => Ok (set_items s (order_items s ++ [row]), tt)
    end).

Definition CreateOrderItems (items : list OrderItem) : op unit := for_each insert_item items.

(** The row the INSERT of [InsertOutboxMessage] writes. *)
Definition order_message (id aggregateID : uuid) (eventType : string) (payload : json) (now : Z) :
    OutboxMessage :=
  MkOutboxMessage id "order" (uuid_String aggregateID) eventType payload ∅
    Outbox.StatusPending 0 None None None None now None.

Definition InsertOutboxMessage (aggregateID : uuid) (eventType : string) (payload : json) :
    op unit :=
  let what := "insert outbox message: " in
  let* id := uuid_New in
  sql what (λ now s,
    let m := order_message id aggregateID eventType payload now in
    if negb (message_ok m) then Err (ErrDriver (what ++ pg_check)%string) else
    match outbox s !! id with
    | Some _ => Err (ErrDriver (what ++ pg_unique)%string)
    | None => Ok (set_outbox s (<[id := m]> (outbox s)), tt)
    end).

Definition CreateOrderWithItemsAndOutbox (o : Order) (outboxPayload : json) : op Order :=
  let* o := repo_CreateOrder o in
  CreateOrderItems (Items o) ;;;
  InsertOutboxMessage (ID o) "OrderCreated" outboxPayload ;;;
  ret o.

Definition repo_GetOrderByID (id : uuid) : op Order :=
  sql "get order by id: " (λ _ s,
    match orders s !! id with
    | Some o => Ok (s, o)
    | None => Err ErrOrderNotFound
    end).

(** ORDER BY created_at ASC, id ASC *)
Definition item_le (x y : OrderItem) : Prop :=
  Item_CreatedAt x < Item_CreatedAt y ∨
  (Item_CreatedAt x = Item_CreatedAt y ∧ (Item_ID x <= Item_ID y)%N).
#[local] Instance item_le_dec : RelDecision item_le.
Proof. intros x y. unfold item_le. apply _. Defined.

Definition items_of (s : State) (orderID : uuid) : list OrderItem :=
  merge_sort item_le (filter (λ it, Item_OrderID it = orderID) (order_items s)).

Definition GetOrderItems (orderID : uuid) : op (list OrderItem) :=
  sql "get order items: " (λ _ s, Ok (s, items_of s orderID)).

Definition GetOrderByUserAndIdempotencyKey (userID : uuid) (key : string) : op Order :=
  let* o := sql "get order by user and idempotency key: " (λ _ s,
    match find_by_key s userID key with
    | Some o => Ok (s, o)
    | None => Err ErrOrderNotFound
    end) in
  let* items := GetOrderItems (ID o) in
  ret (with_items o items).

(** ORDER BY created_at DESC, id DESC *)
Definition order_ge (x y : Order) : Prop :=
  CreatedAt y < CreatedAt x ∨ (CreatedAt x = CreatedAt y ∧ (ID y <= ID x)%N).
#[local] Instance order_ge_dec : RelDecision order_ge.
Proof. intros x y. unfold order_ge. apply _. Defined.

Definition status_matches (status : option string) (o : Order) : bool :=
  match status with None => true | Some st => String.eqb (status_string (Status o)) st end.

Definition orders_matching (s : State) (userID : uuid) (status : option string) : list Order :=
  merge_sort order_ge
    (filter (λ o, UserID o = userID ∧ status_matches status o)
       (map_to_list (orders s)).*2).

(** [ListOrders]: the rows, the next cursor (never filled) and whether more exist. *)
Definition repo_ListOrders (params : ListOrdersParams) : op (list Order * string * bool) :=
  let limit := if (Params_Limit params <=? 0) || (100 <? Params_Limit params) then 20
               else Params_Limit params in
  let* rows := sql "list orders: " (λ _ s,
    Ok (s, take (Z.to_nat (limit + 1))
             (orders_matching s (Params_UserID params) (Params_Status params)))) in
  let hasMore := (limit <? Z.of_nat (length rows)) in
  ret (if hasMore then take (Z.to_nat limit) rows else rows, "", hasMore).

Definition set_status (o : Order) (st : OrderStatus) (version now : Z) : Order :=
  MkOrder (ID o) (UserID o) (IdempotencyKey o) st (TotalAmountMinor o) (Currency o) version
    (Items o) (CreatedAt o) now.

(** [UpdateOrderStatus]: compare-and-set on status and version; when no row
    matched, a second statement judges the current status. *)
Definition UpdateOrderStatus (orderID : uuid) (fromStatus toStatus : OrderStatus)
    (expectedVersion : Z) : op Z :=
  let* updated := sql "update order status: " (λ now s,
    match orders s !! orderID with
    | Some o =>
        if decide (Status o = fromStatus ∧ Version o = expectedVersion) then
          let o' := set_status o toStatus (Version o + 1) now in
          if negb (order_ok o')
          then Err (ErrDriver ("update order status: " ++ pg_check)%string)
          else Ok (set_orders s (<[orderID := o']> (orders s)), Some (Version o'))
        else Ok (s, None)
    | None => Ok (s, None)
    end) in
  match updated with
  | Some newVersion => ret newVersion
  | None =>
      let* current := sql "" (λ _ s,
        match orders s !! orderID with
        | Some o => Ok (s, o)
        | None => Err ErrOrderNotFound
        end) in
      if decide (Status current = toStatus) then ret (Version current)
      else if IsTerminal (Status current) then fail ErrOrderTerminal
      else fail ErrOptimisticLockConflict
  end.
End repository.

(** * Service (service.go) *)

Section service.
Context `{UT : UuidText} `{CR : CatalogReader} (idempotencyTTL : Z).
Local Open Scope go_scope.

(** The validation loop of [CreateOrder]: a quantity per trimmed SKU, in Go's [int]. *)
Fixpoint collect_skus (items : list OrderItemRequest) (skuMap : gmap string Z) :
    result error (gmap string Z) :=
  match items with
  | [] => Ok skuMap
  | it :: rest =>
      let sku := TrimSpace (Req_SKU it) in
      if String.eqb sku "" then Err (ErrText "sku cannot be empty") else
      if Req_Quantity it <=? 0 then Err ErrInvalidQuantity else
      collect_skus rest (<[sku := add64 (default 0 (skuMap !! sku)) (Req_Quantity it)]> skuMap)
  end.

(** [prodMap]: the products by SKU; a later one replaces an earlier one. *)
Definition product_map (products : list Product) : gmap string Product :=
  foldl (λ m p, <[Product_SKU p := p]> m) ∅ products.

(** The checks on the product of one SKU, and its unit price. *)
Definition unit_price (prodMap : gmap string Product) (currency sku : string) :
    result error (Product * Z) :=
  match prodMap !! sku with
  | None => Err ErrProductNotFound
  | Some prod =>
      if negb (Product_IsActive prod) then Err ErrProductUnavailable else
      if negb (String.eqb (Product_Currency prod) "")
         && negb (String.eqb (Product_Currency prod) currency) then Err ErrCurrencyMismatch else
      let unitPrice := Product_PriceMinor prod in
      let unitPrice :=
        if (unitPrice <=? 0) && (0 <? Money.Amount (Product_Price prod))
        then Money.Amount (Product_Price prod) else unitPrice in
      if unitPrice <=? 0 then Err ErrInvalidPrice else Ok (prod, unitPrice)
  end.

(** The snapshots of the lines, one per SKU. *)
Fixpoint build_items (prodMap : gmap string Product) (currency : string)
    (skuMap : gmap string Z) (skus : list string) : op (list OrderItem) :=
  match skus with
  | [] => ret []
  | sku :: rest =>
      let* pp := lift_result (unit_price prodMap currency sku) in
      let* id := uuid_New in
      let item := MkOrderItem id uuid_Nil sku (Product_Title pp.1) pp.2
                    (default 0 (skuMap !! sku)) 0 time_Zero in
      let* items := build_items prodMap currency skuMap rest in
      ret (item :: items)
  end.

Definition set_order_id (id : uuid) (it : OrderItem) : OrderItem :=
  MkOrderItem (Item_ID it) id (Item_SKU it) (Item_TitleSnapshot it) (Item_UnitPriceMinor it)
    (Item_Quantity it) (Item_SubtotalMinor it) (Item_CreatedAt it).

Definition event_item (it : OrderItem) : json :=
  JObject [("sku", JString (Item_SKU it)); ("title_snapshot", JString (Item_TitleSnapshot it));
           ("unit_price_minor", JInt (Item_UnitPriceMinor it)); ("quantity", JInt (Item_Quantity it));
           ("subtotal_minor", JInt (Item_SubtotalMinor it));
           ("line_total_minor", JInt (Item_SubtotalMinor it))].

(** The payload of OrderCreated. *)
Definition created_payload (order : Order) : json :=
  JObject [("order_id", JUUID (ID order));
           ("order_number", JString ("ORD-" ++ String.substring 0 8 (uuid_String (ID order)))%string);
           ("customer_id", JUUID (UserID order)); ("saga_id", JUUID (ID order));
           ("status", JString (status_string (Status order)));
           ("total_amount_minor", JInt (TotalAmountMinor order));
           ("currency", JString (Currency order)); ("items", JArray (event_item <$> Items order));
           ("created_at", JTime (CreatedAt order))].

(** The transaction of [CreateOrder], steps a to e. *)
Definition CreateOrder_tx (order : Order) (reqHash : string) : op (Order * bool) :=
  let* lk := LockIdempotencyKey (IdempotencyKey order) (UserID order) reqHash idempotencyTTL in
  let '(idemRec, isNew) := lk in
  if negb isNew then
    match Rec_Status idemRec, Rec_ResponseBody idemRec ≫= order_of_json with
    | IdempotencyStatusCompleted, Some cached => ret (cached, true)
    | _, _ => fail ErrConcurrentProcessing
    end
  else
    let outboxPayload := created_payload order in
    let* order := CreateOrderWithItemsAndOutbox order outboxPayload in
    CompleteIdempotencyKey (IdempotencyKey order) (UserID order) 201 (order_to_json order)
      (ID order) ;;;
    ret (order, false).

(** [CreateOrder] up to its transaction: validate the request, resolve the products
    and compute the totals. *)
Definition prepare_order (userID : uuid) (idemKey : string) (req : CreateOrderRequest) :
    op Order :=
  if (userID =? uuid_Nil)%N then fail ErrUnauthorized else
  let idemKey := TrimSpace idemKey in
  if String.eqb idemKey "" then fail ErrMissingIdempotencyKey else
  if (length (Req_Items req) =? 0)%nat then fail ErrEmptyOrderItems else
  if (100 <? length (Req_Items req))%nat then fail ErrMaxItemsExceeded else
  let currency := TrimSpace (Req_Currency req) in
  let currency := if String.eqb currency "" then "USD" else currency in
  let* skuMap := lift_result (collect_skus (Req_Items req) ∅) in
  let skus := sort_strings (map_to_list skuMap).*1 in
  let* products := lift_result (match GetProductsBySKUs skus with
                                | Ok products => Ok products
                                | Err e => Err (ErrCatalog e) end) in
  let* lineItems := build_items (product_map products) currency skuMap skus in
  let* id := uuid_New in
  let* order := lift_result (CalculateTotals
    (MkOrder id userID idemKey StatusPending 0 currency 0 lineItems time_Zero time_Zero)) in
  ret (with_items order (set_order_id id <$> Items order)).

(** The bytes whose hash identifies the request. *)
Definition request_hash (req : CreateOrderRequest) (rawPayload : string) : string :=
  ComputeRequestHash (if (String.length rawPayload =? 0)%nat then marshal_request req
                      else rawPayload).

(** [CreateOrder]: the order and whether it was replayed. *)
Definition CreateOrder (userID : uuid) (idemKey : string) (req : CreateOrderRequest)
    (rawPayload : string) : op (Order * bool) :=
  let* order := prepare_order userID idemKey req in
  ExecuteTx (CreateOrder_tx order (request_hash req rawPayload)).

Definition GetOrderByID (orderID : uuid) : op Order :=
  let* order := repo_GetOrderByID orderID in
  let* items := GetOrderItems orderID in
  ret (with_items order items).

Definition GetOrder (orderID userID : uuid) : op Order :=
  if (userID =? uuid_Nil)%N then fail ErrUnauthorized else
  let* order := GetOrderByID orderID in
  if negb (UserID order =? userID)%N then fail ErrForbidden else ret order.

Definition ListOrders (params : ListOrdersParams) : op OrderListResponse :=
  if (Params_UserID params =? uuid_Nil)%N then fail ErrUnauthorized else
  let* r := repo_ListOrders params in
  ret (MkOrderListResponse r.1.1 r.1.2 r.2).

Definition line_payload (it : OrderItem) : json :=
  JObject [("sku", JString (Item_SKU it)); ("title", JString (Item_TitleSnapshot it));
           ("unit_price_minor", JInt (Item_UnitPriceMinor it)); ("quantity", JInt (Item_Quantity it));
           ("subtotal_minor", JInt (Item_SubtotalMinor it))].

Definition customer_email (u : uuid) : json :=
  JString ("user-" ++ uuid_String u ++ "@shopflow.io")%string.

Definition cancelled_payload (orderID userID : uuid) (order : Order) (reason : string) (now : Z) :
    json :=
  JObject [("order_id", JUUID orderID); ("customer_id", JUUID userID);
           ("customer_email", customer_email userID);
           ("total_amount_minor", JInt (TotalAmountMinor order));
           ("currency", JString (Currency order)); ("reason", JString reason);
           ("line_items", JArray (line_payload <$> Items order)); ("cancelled_at", JTime now)].

(** The transaction of [CancelOrder] on the order as it was read. *)
Definition CancelOrder_tx (order : Order) (orderID userID : uuid) (reason : string) : op Order :=
  let* newVer := UpdateOrderStatus orderID (Status order) StatusCancelled (Version order) in
  let order := set_status order StatusCancelled newVer (UpdatedAt order) in
  let* now := time_now in
  InsertOutboxMessage orderID "OrderCancelled" (cancelled_payload orderID userID order reason now) ;;;
  ret order.

Definition CancelOrder (orderID userID : uuid) (idemKey reason : string) : op Order :=
  if (userID =? uuid_Nil)%N then fail ErrUnauthorized else
  if String.eqb (TrimSpace reason) "" then fail (ErrText "cancellation reason cannot be empty") else
  let* order := GetOrder orderID userID in
  if negb (CanTransitionTo (Status order) StatusCancelled) then
    if decide (Status order = StatusCancelled) then ret order else fail ErrOrderTerminal
  else ExecuteTx (CancelOrder_tx order orderID userID reason).

(** The event of a status change. *)
Definition status_event (from to : OrderStatus) : string :=
  ("OrderStatusChanged_" ++ status_string from ++ "_to_" ++ status_string to)%string.

Definition status_payload (orderID : uuid) (from to : OrderStatus) (newVer now : Z) : json :=
  JObject [("order_id", JUUID orderID); ("from_status", JString (status_string from));
           ("to_status", JString (status_string to)); ("version", JInt newVer);
           ("updated_at", JTime now)].

Definition InsertStatusChanged (orderID : uuid) (from to : OrderStatus) (newVer : Z) : op unit :=
  let* now := time_now in
  InsertOutboxMessage orderID (status_event from to) (status_payload orderID from to newVer now).

Definition confirmed_payload (orderID : uuid) (order : Order) (now : Z) : json :=
  JObject [("order_id", JUUID orderID); ("customer_id", JUUID (UserID order));
           ("customer_email", customer_email (UserID order));
           ("total_amount_minor", JInt (TotalAmountMinor order));
           ("currency", JString (Currency order));
           ("line_items", JArray (line_payload <$> Items order)); ("confirmed_at", JTime now)].

(** The transaction of [ConfirmOrder] on the order as it was read. *)
Definition ConfirmOrder_tx (order : Order) (orderID : uuid) (expectedVersion : Z) : op Z :=
  let* newVer := UpdateOrderStatus orderID (Status order) StatusConfirmed expectedVersion in
  InsertStatusChanged orderID (Status order) StatusConfirmed newVer ;;;
  let* now := time_now in
  InsertOutboxMessage orderID "OrderConfirmed" (confirmed_payload orderID order now) ;;;
  ret newVer.

Definition ConfirmOrder (orderID : uuid) (expectedVersion : Z) : op Order :=
  let* order := GetOrderByID orderID in
  if decide (Status order = StatusConfirmed) then ret order else
  if negb (CanTransitionTo (Status order) StatusConfirmed) then fail ErrInvalidStateTransition else
  let* newVer := ExecuteTx (ConfirmOrder_tx order orderID expectedVersion) in
  ret (set_status order StatusConfirmed newVer (UpdatedAt order)).

Definition TransitionStatus_tx (orderID : uuid) (fromStatus toStatus : OrderStatus)
    (expectedVersion : Z) : op Z :=
  let* newVer := UpdateOrderStatus orderID fromStatus toStatus expectedVersion in
  InsertStatusChanged orderID fromStatus toStatus newVer ;;;
  ret newVer.

Definition TransitionStatus (orderID : uuid) (fromStatus toStatus : OrderStatus)
    (expectedVersion : Z) : op Order :=
  if negb (CanTransitionTo fromStatus toStatus) then fail ErrInvalidStateTransition else
  let* newVer := ExecuteTx (TransitionStatus_tx orderID fromStatus toStatus expectedVersion) in
  let* order := GetOrderByID orderID in
  ret (set_status order toStatus newVer (UpdatedAt order)).
End service.

(** * The state machine *)

(** How far a status has come. *)
Definition progress (s : OrderStatus) : nat :=
  match s with
  | StatusPending => 0
  | StatusReservingStock => 1
  | StatusStockReserved => 2
  | StatusPaying => 3
  | StatusPaid => 4
  | StatusConfirmed | StatusCancelled | StatusRefunded => 5
  end.

Lemma CanTransitionTo_progress s t :
  CanTransitionTo s t = true → s = t ∨ (progress s < progress t)%nat.
Proof. destruct s, t; vm_compute; intros; first [discriminate | by left | right; lia]. Qed.

Lemma CanTransitionTo_terminal s t :
  CanTransitionTo s t = true → IsTerminal s = true → t = s.
Proof. by destruct s, t; vm_compute. Qed.

Lemma status_of_string_status s : status_of_string (status_string s) = Some s.
Proof. by destruct s. Qed.

(** * Totals *)

Definition line_total (it : OrderItem) : Z := Item_UnitPriceMinor it * Item_Quantity it.
Definition order_total (items : list OrderItem) : Z := sumZ line_total items.
Definition line_ok (it : OrderItem) : Prop := 0 < Item_Quantity it ∧ 0 < Item_UnitPriceMinor it.
Definition priced (o : Order) : Order :=
  MkOrder (ID o) (UserID o) (IdempotencyKey o) (Status o) (order_total (Items o)) (Currency o)
    (Version o) ((λ it, set_subtotal it (line_total it)) <$> Items o) (CreatedAt o) (UpdatedAt o).

(** What the loop answers from [acc] on. *)
Definition loop_answer (items : list OrderItem) (acc : Z)
    (r : result error (list OrderItem * Z)) : Prop :=
  match r with
  | Ok (items', total) =>
      Forall line_ok items ∧ acc + order_total items <= MaxInt64 ∧
      items' = (λ it, set_subtotal it (line_total it)) <$> items ∧
      total = acc + order_total items
  | Err e =>
      ∃ pre it post, items = pre ++ it :: post ∧ Forall line_ok pre ∧
        ((Item_Quantity it <= 0 ∧ e = ErrInvalidQuantity) ∨
         (0 < Item_Quantity it ∧ Item_UnitPriceMinor it <= 0 ∧ e = ErrInvalidPrice) ∨
         (line_ok it ∧ MaxInt64 < acc + order_total (pre ++ [it]) ∧ e = ErrArithmeticOverflow))
  end.

Lemma loop_answer_step it items acc r :
  line_ok it → acc + line_total it <= MaxInt64 →
  loop_answer items (acc + line_total it) r →
  loop_answer (it :: items) acc
    (match r with
     | Ok (items', total) => Ok (set_subtotal it (line_total it) :: items', total)
     | Err e => Err e
     end).
Proof.
  intros Hit Hle. destruct r as [[items' total]|e]; simpl.
  - intros (Hok & Hmax & -> & ->). unfold order_total in *. simpl.
    split_and!; [by constructor | lia | done | lia].
  - intros (pre & x & post & -> & Hpre & H). exists (it :: pre), x, post.
    split_and!; [done | by constructor |].
    destruct H as [H|[H|(H1 & H2 & ->)]]; [by left | by right; left |].
    right. right. split_and!; [done| |done]. unfold order_total in *. simpl. lia.
Qed.

Lemma calculate_loop_spec items acc :
  0 <= acc <= MaxInt64 → loop_answer items acc (calculate_loop items acc).
Proof.
  revert acc. induction items as [|it items IH]; intros acc Hacc; simpl.
  - unfold order_total. simpl. split_and!; [constructor | lia | done | lia].
  - assert (Hhere : ∀ e, ((Item_Quantity it <= 0 ∧ e = ErrInvalidQuantity) ∨
      (0 < Item_Quantity it ∧ Item_UnitPriceMinor it <= 0 ∧ e = ErrInvalidPrice) ∨
      (line_ok it ∧ MaxInt64 < acc + line_total it ∧ e = ErrArithmeticOverflow)) →
      loop_answer (it :: items) acc (Err e)).
    { intros e He. exists [], it, items. split_and!; [done | constructor |].
      unfold order_total. simpl. by rewrite Z.add_0_r. }
    destruct (Z.leb_spec (Item_Quantity it) 0); [by apply Hhere; auto|].
    destruct (Z.leb_spec (Item_UnitPriceMinor it) 0); [by apply Hhere; auto|].
    pose proof (mul_guard_exact (Item_UnitPriceMinor it) (Item_Quantity it) ltac:(lia)) as Hg.
    fold (line_total it) in Hg.
    assert (0 < line_total it) by (unfold line_total; nia).
    destruct (Z.ltb_spec (Z.quot MaxInt64 (Item_Quantity it)) (Item_UnitPriceMinor it)).
    { apply Hhere. right. right. unfold line_ok. split_and!; [lia..| |done]. lia. }
    assert (Hle : line_total it <= MaxInt64) by lia.
    rewrite mul64_id by (fold (line_total it); unfold in64, MinInt64; lia).
    fold (line_total it).
    rewrite sub64_id by (unfold in64, MinInt64; lia).
    rewrite (proj2 (Z.ltb_lt 0 (line_total it))) by done. simpl.
    destruct (Z.ltb_spec (MaxInt64 - line_total it) acc).
    { apply Hhere. right. right. unfold line_ok. split_and!; [lia..| |done]. lia. }
    rewrite add64_id by (unfold in64, MinInt64; lia).
    apply loop_answer_step; [by unfold line_ok | lia |]. apply IH. lia.
Qed.

(** What [CalculateTotals] may answer. *)
Definition totals_answer (o : Order) (r : result error Order) : Prop :=
  match r with
  | Ok o' => (1 <= length (Items o) <= 100)%nat ∧ Forall line_ok (Items o) ∧
             order_total (Items o) <= MaxInt64 ∧ o' = priced o
  | Err e =>
      (Items o = [] ∧ e = ErrEmptyOrderItems) ∨
      ((100 < length (Items o))%nat ∧ e = ErrMaxItemsExceeded) ∨
      ((1 <= length (Items o) <= 100)%nat ∧
       ∃ pre it post, Items o = pre ++ it :: post ∧ Forall line_ok pre ∧
        ((Item_Quantity it <= 0 ∧ e = ErrInvalidQuantity) ∨
         (0 < Item_Quantity it ∧ Item_UnitPriceMinor it <= 0 ∧ e = ErrInvalidPrice) ∨
         (line_ok it ∧ MaxInt64 < order_total (pre ++ [it]) ∧ e = ErrArithmeticOverflow)))
  end.

Lemma CalculateTotals_answer o : totals_answer o (CalculateTotals o).
Proof.
  unfold totals_answer.
  unfold CalculateTotals.
  destruct (Nat.eqb_spec (length (Items o)) 0) as [H0|H0].
  { left. by apply nil_length_inv in H0. }
  destruct (Nat.ltb_spec 100 (length (Items o))) as [H1|H1]; [by right; left|].
  pose proof (calculate_loop_spec (Items o) 0 ltac:(unfold MaxInt64; lia)) as H.
  destruct (calculate_loop (Items o) 0) as [[items total]|e]; simpl in H.
  - destruct H as (Hok & Hmax & -> & ->). split_and!; [lia | lia | done | done | done].
  - right. right. split; [lia|]. done.
Qed.

Definition item_line (price qty : Z) : OrderItem :=
  MkOrderItem 7 9 "SKU-1" "Title" price qty 0 0.
Definition order_of (items : list OrderItem) : Order :=
  MkOrder 9 3 "key" StatusPending 0 "USD" 0 items 0 0.

(** [CalculateTotals] is exact.  It succeeds exactly when the order has 1 to 100
    lines, each with a positive quantity and price, whose true total fits int64; the
    total and the subtotals are then the mathematical ones.  Each error names the
    first line at fault, and an overflow is reported only when the running total of
    the lines so far really exceeds MaxInt64. *)
Theorem CalculateTotals_exact o :
  match CalculateTotals o with
  | Ok o' => (1 <= length (Items o) <= 100)%nat ∧ Forall line_ok (Items o) ∧
             order_total (Items o) <= MaxInt64 ∧ o' = priced o
  | Err e =>
      (Items o = [] ∧ e = ErrEmptyOrderItems) ∨
      ((100 < length (Items o))%nat ∧ e = ErrMaxItemsExceeded) ∨
      ((1 <= length (Items o) <= 100)%nat ∧
       ∃ pre it post, Items o = pre ++ it :: post ∧ Forall line_ok pre ∧
        ((Item_Quantity it <= 0 ∧ e = ErrInvalidQuantity) ∨
         (0 < Item_Quantity it ∧ Item_UnitPriceMinor it <= 0 ∧ e = ErrInvalidPrice) ∨
         (line_ok it ∧ MaxInt64 < order_total (pre ++ [it]) ∧ e = ErrArithmeticOverflow)))
  end.
Proof.
  exact (CalculateTotals_answer o).
Qed.

Example CalculateTotals_examples :
  CalculateTotals (order_of [item_line 4611686018427387904 1; item_line 1 1;
                             item_line 4611686018427387903 1]) = Err ErrArithmeticOverflow ∧
  (TotalAmountMinor <$> match CalculateTotals (order_of [item_line 1250 3; item_line 999 2]) with
                        | Ok o => Some o | Err _ => None end) = Some 5748.
Proof. split; vm_compute; reflexivity. Qed.

(** * JSON *)

Lemma item_json_roundtrip it : item_of_json (item_to_json it) = Some it.
Proof. by destruct it. Qed.

(** The order cached with an idempotency key is read back unchanged: decoding the
    JSON of an order gives the order, with its lines, status and amounts. *)
Theorem order_json_roundtrip o : order_of_json (order_to_json o) = Some o.
Proof.
  destruct o as [id uid key st total cur ver items created updated].
  assert (H : mapM item_of_json (item_to_json <$> items) = Some items).
  { induction items as [|it items IH]; [done|]. rewrite fmap_cons. cbn [mapM].
    rewrite item_json_roundtrip. cbn [mbind option_bind]. by rewrite IH. }
  unfold order_of_json, order_to_json. cbn [Items].
  generalize dependent (item_to_json <$> items). intros js H. simpl.
  rewrite status_of_string_status. simpl. rewrite H. done.
Qed.

(** * The repository's statements *)

Section statements.
Context `{UT : UuidText}.

(** What [UpdateOrderStatus] may do to the tables it finds. *)
Inductive cas_result (id : uuid) (from to : OrderStatus) (v : Z) (s : State) : Z → State → Prop :=
| cas_applied o now :
    orders s !! id = Some o → Status o = from → Version o = v → in64 (v + 1) →
    cas_result id from to v s (v + 1)
      (set_orders s (<[id := set_status o to (v + 1) now]> (orders s)))
| cas_already o :
    orders s !! id = Some o → ¬ (Status o = from ∧ Version o = v) → Status o = to →
    cas_result id from to v s (Version o) s.

(** Why it may refuse. *)
Definition cas_refused (id : uuid) (from to : OrderStatus) (v : Z) (s : State) (e : error) : Prop :=
  match orders s !! id with
  | None => e = ErrOrderNotFound
  | Some o =>
      if decide (Status o = from ∧ Version o = v)
      then ∃ now, order_ok (set_status o to (v + 1) now) = false ∧ ∃ m, e = ErrDriver m
      else Status o ≠ to ∧
           e = if IsTerminal (Status o) then ErrOrderTerminal else ErrOptimisticLockConflict
  end.

Lemma order_ok_version o : order_ok o = true → in64 (Version o).
Proof.
  unfold order_ok, int8_ok, in64. intros H. repeat (apply andb_prop in H as [H ?]).
  repeat match goal with H : _ && _ = true |- _ => apply andb_prop in H as [? ?] end. lia.
Qed.

Lemma triple_UpdateOrderStatus env s id from to v :
  triple env (λ s', s' = s) (UpdateOrderStatus id from to v)
    (λ newVer s', cas_result id from to v s newVer s')
    (λ e s', s' = s ∧ ((faulted env ∧ ∃ m, e = ErrDriver m) ∨ cas_refused id from to v s e)).
Proof.
  unfold UpdateOrderStatus.
  eapply (triple_bind _ _ _ _ _ (λ r s', match r with
    | Some newVer => cas_result id from to v s newVer s'
    | None => s' = s ∧ match orders s !! id with
                       | Some o => ¬ (Status o = from ∧ Version o = v) | None => True end end)).
  - apply triple_sql.
    + intros n s' -> _. destruct (orders s !! id) as [o|] eqn:Ho; [|done].
      case_decide as Hd; [|done]. cbv zeta.
      destruct (order_ok _) eqn:Hok; simpl.
      * destruct Hd as [Hf Hv]. rewrite Hv in *. apply cas_applied; [done..|].
        apply order_ok_version in Hok. done.
      * split; [done|]. right. unfold cas_refused. rewrite Ho, decide_True by done.
        destruct Hd as [_ Hv]. rewrite Hv in *. by eauto.
    + intros n msg s' -> Hn. split; [done|]. left. unfold faulted. simpl. by eauto.
  - intros [newVer|]; [apply (triple_ret env newVer (λ a s', cas_result id from to v s a s'))|].
    eapply (triple_bind _ _ _ _ _ (λ o s', s' = s ∧ orders s !! id = Some o ∧
      ¬ (Status o = from ∧ Version o = v))).
    + apply triple_sql.
      * intros n s' [-> H] _. destruct (orders s !! id) as [o|] eqn:Ho; [done|].
        split; [done|]. right. unfold cas_refused. by rewrite Ho.
      * intros n msg s' [-> _] Hn. split; [done|]. left. unfold faulted. simpl. by eauto.
    + intros o n s1 n' s' r (-> & Ho & Hne).
      assert (Hr : Status o ≠ to →
        cas_refused id from to v s (if IsTerminal (Status o) then ErrOrderTerminal
                                    else ErrOptimisticLockConflict)).
      { intros Ht. unfold cas_refused. by rewrite Ho, decide_False by done. }
      case_decide as Hd; [|destruct (IsTerminal (Status o))];
        unfold ret, fail; intros [= <- <- <-]; [by apply cas_already|by auto..].
Qed.

(** The row [InsertOutboxMessage] has added. *)
Definition emitted (env : Env) (s s' : State) (id : uuid) (eventType : string) (payload : json) : Prop :=
  ∃ mid tick, outbox s !! mid = None ∧
    s' = set_outbox s
      (<[mid := order_message mid id eventType payload (env_now env tick)]> (outbox s)).

Lemma triple_InsertOutboxMessage env s id eventType payload :
  triple env (λ s', s' = s) (InsertOutboxMessage id eventType payload)
    (λ _ s', emitted env s s' id eventType payload) (λ _ s', s' = s).
Proof.
  unfold InsertOutboxMessage. eapply (triple_bind _ _ _ _ _ (λ _ s', s' = s)).
  { by apply triple_uuid. }
  intros mid. apply triple_sql; [|done]. intros n s' -> _. cbv zeta.
  destruct (negb _); [done|]. destruct (outbox s !! mid) eqn:Hm; [done|].
  unfold emitted. by eauto.
Qed.

Lemma triple_GetOrderByID env s id :
  triple env (λ s', s' = s) (GetOrderByID id)
    (λ o s', s' = s ∧ ∃ row, orders s !! id = Some row ∧ o = with_items row (items_of s id))
    (λ e s', s' = s ∧ ((faulted env ∧ ∃ m, e = ErrDriver m) ∨
                       (orders s !! id = None ∧ e = ErrOrderNotFound))).
Proof.
  unfold GetOrderByID.
  eapply (triple_bind _ _ _ _ _ (λ o s', s' = s ∧ orders s !! id = Some o)).
  - apply triple_sql.
    + intros n s' -> _. destruct (orders s !! id) eqn:Ho; [done|]. by auto.
    + intros n msg s' -> Hn. split; [done|]. left. unfold faulted. simpl. by eauto.
  - intros row. eapply (triple_bind _ _ _ _ _ (λ l s', s' = s ∧ orders s !! id = Some row ∧
      l = items_of s id)).
    + apply triple_sql; [by intros n s' [-> H] _|].
      intros n msg s' [-> _] Hn. split; [done|]. left. unfold faulted. simpl. by eauto.
    + intros l n s1 n' s' r (-> & Ho & ->). unfold ret. intros [= <- <- <-]. by eauto.
Qed.
End statements.

(** * Placing an order *)

Section placing.
Context `{UT : UuidText} `{CR : CatalogReader} (idempotencyTTL : Z).

Lemma wrap64_wrap_l a b : wrap64 (wrap64 a + b) = wrap64 (a + b).
Proof.
  unfold wrap64. f_equal.
  replace ((a - MinInt64) mod 2 ^ 64 + MinInt64 + b - MinInt64)
    with ((a - MinInt64) mod 2 ^ 64 + b) by lia.
  rewrite Zplus_mod_idemp_l. f_equal. lia.
Qed.

(** ** The request *)

(** The quantity asked of a SKU, over all lines that name it. *)
Definition requested (items : list OrderItemRequest) (sku : string) : Z :=
  sumZ (λ it, if decide (TrimSpace (Req_SKU it) = sku) then Req_Quantity it else 0) items.

Definition request_ok (items : list OrderItemRequest) : Prop :=
  Forall (λ it, TrimSpace (Req_SKU it) ≠ "" ∧ 0 < Req_Quantity it) items.

Lemma collect_skus_ok items m m' :
  collect_skus items m = Ok m' →
  request_ok items ∧
  dom m' = dom m ∪ list_to_set ((λ it, TrimSpace (Req_SKU it)) <$> items) ∧
  ∀ sku q, m' !! sku = Some q →
    (sku ∉ (λ it, TrimSpace (Req_SKU it)) <$> items ∧ m !! sku = Some q) ∨
    q = wrap64 (default 0 (m !! sku) + requested items sku).
Proof.
  revert m. induction items as [|it items IH]; intros m; simpl.
  - intros [= <-]. split_and!; [constructor | set_solver |].
    intros sku q H. left. split; [set_solver|done].
  - cbv zeta. destruct (String.eqb_spec (TrimSpace (Req_SKU it)) ""); [done|].
    destruct (Z.leb_spec (Req_Quantity it) 0); [done|].
    intros (Hok & Hdom & Hq)%IH. split_and!.
    + by constructor.
    + rewrite Hdom. rewrite dom_insert_L. set_solver.
    + intros sku q [[Hni Hl]|Hl]%Hq; unfold requested in *; simpl.
      * destruct (decide (TrimSpace (Req_SKU it) = sku)) as [<-|Hne].
        -- rewrite lookup_insert in Hl. rewrite decide_True in Hl by done. injection Hl as <-.
           right. unfold add64. apply (f_equal wrap64).
           rewrite sumZ_zero; [lia|].
           intros x Hx. case_decide as Hd; [|done]. destruct Hni.
           rewrite <-Hd. apply list_elem_of_fmap. by eauto.
        -- left. rewrite lookup_insert_ne in Hl by done. split; [|done]. set_solver.
      * right. destruct (decide (TrimSpace (Req_SKU it) = sku)) as [<-|Hne].
        -- rewrite lookup_insert, decide_True in Hl by done. simpl in Hl. rewrite Hl.
           unfold add64. rewrite wrap64_wrap_l. apply (f_equal wrap64). lia.
        -- rewrite lookup_insert_ne in Hl by done. rewrite Hl. apply (f_equal wrap64). lia.
Qed.

Lemma collect_skus_quantity items m' sku q :
  collect_skus items ∅ = Ok m' → m' !! sku = Some q → q = wrap64 (requested items sku).
Proof.
  intros (_ & Hdom & Hq)%collect_skus_ok [[_ H]|H]%Hq; [by rewrite lookup_empty in H|].
  by rewrite lookup_empty in H.
Qed.

(** ** The lines *)

(** The line of [sku]: the title and price of its product at this moment, the
    quantity asked for, and the subtotal. *)
Definition quoted_line (req : CreateOrderRequest) (currency : string)
    (products : list Product) (orderID : uuid) (sku : string) (it : OrderItem) : Prop :=
  Item_SKU it = sku ∧ Item_OrderID it = orderID ∧
  (∃ prod, unit_price (product_map products) currency sku = Ok (prod, Item_UnitPriceMinor it) ∧
           Item_TitleSnapshot it = Product_Title prod) ∧
  Item_Quantity it = wrap64 (requested (Req_Items req) sku) ∧
  Item_SubtotalMinor it = line_total it ∧ line_ok it.

Definition request_currency (req : CreateOrderRequest) : string :=
  let currency := TrimSpace (Req_Currency req) in
  if String.eqb currency "" then "USD" else currency.

(** The order a request stands for: one line per distinct SKU, in ascending order. *)
Record quoted (userID : uuid) (idemKey : string) (req : CreateOrderRequest) (o : Order) : Prop := {
  quoted_user : userID ≠ uuid_Nil ∧ UserID o = userID;
  quoted_key : IdempotencyKey o = TrimSpace idemKey ∧ TrimSpace idemKey ≠ "";
  quoted_request : (1 <= length (Req_Items req) <= 100)%nat ∧ request_ok (Req_Items req);
  quoted_status : Status o = StatusPending;
  quoted_currency : Currency o = request_currency req;
  quoted_times : CreatedAt o = time_Zero ∧ UpdatedAt o = time_Zero;
  quoted_lines : ∃ products skus,
    GetProductsBySKUs skus = Ok products ∧
    NoDup skus ∧ Sorted String.le skus ∧
    (∀ sku, sku ∈ skus ↔ sku ∈ (λ it, TrimSpace (Req_SKU it)) <$> Req_Items req) ∧
    Forall2 (quoted_line req (Currency o) products (ID o)) skus (Items o);
  quoted_total : TotalAmountMinor o = order_total (Items o) ∧ TotalAmountMinor o <= MaxInt64;
}.

(** A line before the totals. *)
Definition drafted_line (products : gmap string Product) (currency : string)
    (skuMap : gmap string Z) (sku : string) (it : OrderItem) : Prop :=
  Item_SKU it = sku ∧
  (∃ prod, unit_price products currency sku = Ok (prod, Item_UnitPriceMinor it) ∧
           Item_TitleSnapshot it = Product_Title prod) ∧
  Item_Quantity it = default 0 (skuMap !! sku).

Lemma triple_build_items env s prodMap currency skuMap skus :
  triple env (λ s', s' = s) (build_items prodMap currency skuMap skus)
    (λ items s', s' = s ∧ Forall2 (drafted_line prodMap currency skuMap) skus items)
    (λ _ s', s' = s).
Proof.
  induction skus as [|sku skus IH]; cbn [build_items].
  - eapply triple_pre; [apply (triple_ret env [] (λ items s', s' = s ∧ Forall2 _ [] items))|].
    by intros s' ->.
  - eapply (triple_bind _ _ _ _ _ (λ pp s', s' = s ∧ unit_price prodMap currency sku = Ok pp)).
    { apply triple_lift. intros s' ->. by destruct (unit_price prodMap currency sku). }
    intros pp. apply triple_at. intros s1 [-> Hpp].
    eapply (triple_bind _ _ _ _ _ (λ _ s', s' = s)); [by apply triple_uuid|]. intros id. cbv zeta.
    eapply triple_bind; [apply IH|]. intros items n s1 n' s' r [-> Hitems].
    unfold ret. intros [= <- <- <-]. split; [done|]. constructor; [|done].
    unfold drafted_line. simpl. split_and!; [done| |done]. exists pp.1. by destruct pp.
Qed.

Lemma drafted_quoted req m products currency id skus items :
  collect_skus (Req_Items req) ∅ = Ok m → (∀ sku, sku ∈ skus → sku ∈ dom m) →
  Forall2 (drafted_line (product_map products) currency m) skus items →
  Forall line_ok items →
  Forall2 (quoted_line req currency products id) skus
    (set_order_id id <$> ((λ it, set_subtotal it (line_total it)) <$> items)).
Proof.
  intros Hm Hskus Hd Hok. induction Hd as [|sku it skus items Hit Hd IH]; [constructor|].
  inversion_clear Hok. rewrite !fmap_cons. constructor.
  - destruct Hit as (H1 & (prod & H2 & H3) & H4). unfold quoted_line. simpl.
    split_and!; [done..|by eauto| |done|done].
    rewrite H4. assert (Hin : sku ∈ dom m) by (apply Hskus; set_solver).
    apply elem_of_dom in Hin as [q Hq]. rewrite Hq. simpl. by eapply collect_skus_quantity.
  - apply IH; [|done]. intros x Hx. apply Hskus. set_solver.
Qed.

Lemma order_total_fmap (f : OrderItem → OrderItem) items :
  (∀ it, line_total (f it) = line_total it) → order_total (f <$> items) = order_total items.
Proof. intros H. unfold order_total. rewrite sumZ_map. apply sumZ_ext_in. by intros it _. Qed.

Lemma triple_prepare_order env s userID idemKey req :
  triple env (λ s', s' = s) (prepare_order userID idemKey req)
    (λ o s', s' = s ∧ quoted userID idemKey req o) (λ _ s', s' = s).
Proof.
  unfold prepare_order. cbv zeta.
  destruct (N.eqb_spec userID uuid_Nil) as [|Huser]; [apply (triple_fail env _ _ (λ _ s', s' = s))|].
  destruct (String.eqb_spec (TrimSpace idemKey) ""); [apply (triple_fail env _ _ (λ _ s', s' = s))|].
  destruct (Nat.eqb_spec (length (Req_Items req)) 0);
    [apply (triple_fail env _ _ (λ _ s', s' = s))|].
  destruct (Nat.ltb_spec 100 (length (Req_Items req)));
    [apply (triple_fail env _ _ (λ _ s', s' = s))|].
  change (if (TrimSpace (Req_Currency req) =? "")%string then "USD" else TrimSpace (Req_Currency req))
    with (request_currency req).
  eapply (triple_bind _ _ _ _ _ (λ m s', s' = s ∧ collect_skus (Req_Items req) ∅ = Ok m)).
  { apply triple_lift. intros s' ->. by destruct (collect_skus _ _). }
  intros m. apply triple_at. intros s1 [-> Hm].
  set (skus := sort_strings (map_to_list m).*1).
  eapply (triple_bind _ _ _ _ _ (λ ps s', s' = s ∧ GetProductsBySKUs skus = Ok ps)).
  { apply triple_lift. intros s' ->. by destruct (GetProductsBySKUs skus). }
  intros products. apply triple_at. intros s1 [-> Hp].
  eapply triple_bind; [apply triple_build_items|].
  intros items. apply triple_at. intros s1 [-> Hitems].
  eapply (triple_bind _ _ _ _ _ (λ _ s', s' = s)); [by apply triple_uuid|]. intros id.
  set (o0 := MkOrder _ _ _ _ _ _ _ _ _ _).
  pose proof (CalculateTotals_answer o0) as Ht. unfold totals_answer in Ht.
  intros k s1 k' s' r -> [(e & He & ->)|(n1 & s2 & o & H1 & H2)]%bind_inv.
  { unfold lift_result in He. by simplify_eq. }
  unfold lift_result in H1. injection H1 as <- <- H1. unfold ret in H2. injection H2 as <- <- <-.
  rewrite H1 in Ht. destruct Ht as (Hlen & Hlok & Hmax & ->). subst o0. simpl in *.
  split; [done|]. destruct (collect_skus_ok _ _ _ Hm) as (Hrok & Hdom & _).
  assert (Hsk : ∀ sku, sku ∈ skus ↔ sku ∈ dom m).
  { intros sku. unfold skus. rewrite sort_strings_elem, list_elem_of_fmap, elem_of_dom. split.
    - intros ([x q] & -> & ?%elem_of_map_to_list). by eauto.
    - intros [q ?]. exists (sku, q). split; [done|]. by apply elem_of_map_to_list. }
  split; simpl; try done.
  - split; [lia|done].
  - exists products, skus. split_and!; [done| | | |].
    + apply sort_strings_nodup, NoDup_fst_map_to_list.
    + apply sort_strings_sorted.
    + intros sku. rewrite Hsk, Hdom. set_solver.
    + apply (drafted_quoted _ m); [done| |done|done]. intros sku. apply Hsk.
  - rewrite !order_total_fmap by done. done.
Qed.
End placing.

(** * The transaction of [CreateOrder] *)

Section create.
Context `{UT : UuidText} `{CR : CatalogReader} (idempotencyTTL : Z).

Definition key_lifetime : Z := ttl_seconds idempotencyTTL * Second.

(** The key's record is absent or expired at [now]. *)
Definition key_free (s : State) (userID : uuid) (key : string) (now : Z) : Prop :=
  match idempotency_keys s !! (userID, key) with
  | None => True
  | Some rec => Rec_ExpiresAt rec < now
  end.

Inductive lock_result (env : Env) (key : string) (userID : uuid) (hash : string) (s : State) :
    IdempotencyKeyRecord * bool → State → Prop :=
| lock_owned rec tick :
    let now := env_now env tick in
    key_free s userID key now ∨
      (∃ old, idempotency_keys s !! (userID, key) = Some old ∧ Rec_RequestHash old = hash ∧
              Rec_Status old = IdempotencyStatusFailed) →
    Rec_Key rec = key → Rec_UserID rec = userID → Rec_RequestHash rec = hash →
    Rec_CreatedAt rec = now → Rec_ExpiresAt rec = now + key_lifetime →
    lock_result env key userID hash s (rec, true)
      (set_keys s (<[(userID, key) := rec]> (idempotency_keys s)))
| lock_done rec tick :
    env_now env tick <= Rec_ExpiresAt rec →
    idempotency_keys s !! (userID, key) = Some rec → Rec_RequestHash rec = hash →
    Rec_Status rec = IdempotencyStatusCompleted →
    lock_result env key userID hash s (rec, false) s.

Lemma triple_LockIdempotencyKey env s key userID hash :
  triple env (λ s', s' = s) (LockIdempotencyKey key userID hash idempotencyTTL)
    (lock_result env key userID hash s) (λ _ s', s' = s).
Proof.
  unfold LockIdempotencyKey. cbv zeta. fold key_lifetime.
  eapply (triple_bind _ _ _ _ _ (λ r s', match r with
    | Some rec => lock_result env key userID hash s (rec, true) s'
    | None => s' = s ∧ ∃ k, ¬ key_free s userID key (env_now env k) end)).
  { apply triple_sql; [|by intros n msg s' ->]. intros n s' -> _.
    destruct (negb _); [done|].
    pose proof (λ H, lock_owned env key userID hash s (MkIdempotencyKeyRecord key userID hash
      IdempotencyStatusProcessing None None None (env_now env n) (env_now env n + key_lifetime))
      n (or_introl H) eq_refl eq_refl eq_refl eq_refl eq_refl) as Hown.
    unfold key_free in *. destruct (idempotency_keys s !! (userID, key)) as [rec|]; [|by apply Hown].
    destruct (Z.ltb_spec (Rec_ExpiresAt rec) (env_now env n)); [by apply Hown|].
    split; [done|]. exists n. lia. }
  intros [rec|].
  { apply (triple_ret env (rec, true) (lock_result env key userID hash s)). }
  apply triple_at. intros s1 [-> [tick Hfree]].
  eapply (triple_bind _ _ _ _ _ (λ rec s', s' = s ∧ idempotency_keys s !! (userID, key) = Some rec)).
  { apply triple_sql; [|by intros n msg s' ->]. intros n s' -> _.
    by destruct (idempotency_keys s !! (userID, key)). }
  intros rec. apply triple_at. intros s1 [-> Hrec].
  destruct (String.eqb_spec (Rec_RequestHash rec) hash) as [Hh|]; simpl;
    [|apply (triple_fail env _ _ (λ _ s', s' = s))].
  destruct (Rec_Status rec) eqn:Hst.
  - apply (triple_fail env _ _ (λ _ s', s' = s)).
  - eapply triple_pre;
      [apply (triple_ret env (rec, false) (lock_result env key userID hash s))|]. intros s' ->.
    apply (lock_done env key userID hash s rec tick); [|done..].
    unfold key_free in Hfree. rewrite Hrec in Hfree. lia.
  - apply triple_sql; [|by intros n msg s' ->]. intros n s' -> _. rewrite Hrec.
    eapply lock_owned; [right; by eauto|done..].
Qed.

(** ** What a placed order leaves in the tables *)

(** The row of a line. *)
Definition stored_as (it row : OrderItem) : Prop :=
  ∃ id now, (Item_ID it ≠ uuid_Nil → id = Item_ID it) ∧
    row = MkOrderItem id (Item_OrderID it) (Item_SKU it) (Item_TitleSnapshot it)
            (Item_UnitPriceMinor it) (Item_Quantity it) (Item_SubtotalMinor it) now.

(** The prepared order once it is written: version 1 and the time of the insert. *)
Definition inserted (o0 : Order) (id : uuid) (now : Z) : Order :=
  MkOrder id (UserID o0) (IdempotencyKey o0) (Status o0) (TotalAmountMinor o0) (Currency o0)
    1 (Items o0) now now.

Definition completed_key (o : Order) (hash : string) (locked : Z) : IdempotencyKeyRecord :=
  MkIdempotencyKeyRecord (IdempotencyKey o) (UserID o) hash IdempotencyStatusCompleted (Some 201)
    (Some (order_to_json o)) (Some (ID o)) locked (locked + key_lifetime).

Inductive placed (env : Env) (o0 : Order) (hash : string) (s : State) : Order → State → Prop :=
| placed_intro id tick rows mid tick_event tick_lock :
    let o := inserted o0 id (env_now env tick) in
    let locked := env_now env tick_lock in
    (ID o0 ≠ uuid_Nil → id = ID o0) → order_ok o = true →
    orders s !! id = None → find_by_key s (UserID o) (IdempotencyKey o) = None →
    Forall2 stored_as (Items o) rows →
    outbox s !! mid = None →
    (key_free s (UserID o) (IdempotencyKey o) locked ∨
       ∃ old, idempotency_keys s !! (UserID o, IdempotencyKey o) = Some old ∧
              Rec_RequestHash old = hash ∧ Rec_Status old = IdempotencyStatusFailed) →
    placed env o0 hash s o
      (MkState (<[id := with_items o []]> (orders s)) (order_items s ++ rows)
         (<[(UserID o, IdempotencyKey o) := completed_key o hash locked]> (idempotency_keys s))
         (<[mid := order_message mid id "OrderCreated" (created_payload o0) (env_now env tick_event)]> (outbox s))).

(** The cached answer of a completed key. *)
Definition replayed (env : Env) (o0 : Order) (hash : string) (s : State) (o : Order) : Prop :=
  ∃ rec tick, env_now env tick <= Rec_ExpiresAt rec ∧
    idempotency_keys s !! (UserID o0, IdempotencyKey o0) = Some rec ∧
    Rec_RequestHash rec = hash ∧ Rec_Status rec = IdempotencyStatusCompleted ∧
    Rec_ResponseBody rec ≫= order_of_json = Some o.

Lemma triple_repo_CreateOrder env s o :
  triple env (λ s', s' = s) (repo_CreateOrder o)
    (λ o' s', ∃ id tick, o' = inserted o id (env_now env tick) ∧ (ID o ≠ uuid_Nil → id = ID o) ∧ order_ok o' = true ∧
       orders s !! id = None ∧ find_by_key s (UserID o) (IdempotencyKey o) = None ∧
       s' = set_orders s (<[id := with_items o' []]> (orders s)))
    (λ _ _, True).
Proof.
  unfold repo_CreateOrder.
  eapply (triple_bind _ _ _ _ _ (λ id s', s' = s ∧ (ID o ≠ uuid_Nil → id = ID o))).
  { destruct (N.eqb_spec (ID o) uuid_Nil) as [|Hne]; [by apply triple_uuid|].
    intros n s1 n' s' r ->. unfold ret. by intros [= <- <- <-]. }
  intros id. apply triple_at. intros s1 [-> Hid].
  apply triple_sql; [|done]. intros n s' -> _. cbv zeta.
  destruct (order_ok _) eqn:Hok; simpl; [|done].
  destruct (orders s !! id) eqn:Ho; [done|].
  destruct (find_by_key s (UserID o) (IdempotencyKey o)) eqn:Hk; [done|].
  exists id, n. done.
Qed.

Lemma triple_CreateOrderItems env s items :
  triple env (λ s', s' = s) (CreateOrderItems items)
    (λ _ s', ∃ rows, Forall2 stored_as items rows ∧ s' = set_items s (order_items s ++ rows))
    (λ _ _, True).
Proof.
  eapply triple_pre.
  - apply (triple_for_each env insert_item (λ l s', ∃ rows, Forall2 stored_as l rows ∧
      s' = set_items s (order_items s ++ rows)) (λ _ _, True)).
    intros l1 it l2 _. apply triple_at. intros s1 (rows & Hrows & ->). unfold insert_item. cbv zeta.
    eapply (triple_bind _ _ _ _ _ (λ id s', s' = set_items s (order_items s ++ rows) ∧
      (Item_ID it ≠ uuid_Nil → id = Item_ID it))).
    { destruct (N.eqb_spec (Item_ID it) uuid_Nil) as [|Hne]; [by apply triple_uuid|].
      intros n s1 n' s' r ->. unfold ret. by intros [= <- <- <-]. }
    intros id. apply triple_at. intros s1 [-> Hid].
    apply triple_sql; [|done]. intros n s' -> _.
    destruct (negb _); [done|]. case_decide; [done|]. destruct (orders _ !! _); [|done].
    eexists (rows ++ [_]). split.
    + apply Forall2_app; [done|]. constructor; [|constructor]. exists id, (env_now env n). by split.
    + unfold set_items. simpl. by rewrite app_assoc.
  - intros s' ->. exists []. split; [constructor|]. unfold set_items. rewrite app_nil_r. by destruct s.
Qed.

Lemma triple_CreateOrder_tx env s o0 hash :
  triple env (λ s', s' = s) (CreateOrder_tx idempotencyTTL o0 hash)
    (λ r s', if r.2 then s' = s ∧ replayed env o0 hash s r.1 else placed env o0 hash s r.1 s')
    (λ _ _, True).
Proof.
  unfold CreateOrder_tx.
  eapply (triple_bind _ _ _ _ _
    (lock_result env (IdempotencyKey o0) (UserID o0) hash s)).
  { eapply triple_conseq; [apply (triple_LockIdempotencyKey env s)|done..]. }
  intros [rec isNew]. apply triple_at. intros s1 Hlk. simpl in Hlk.
  destruct isNew; simpl; inversion Hlk as [rec' tl now Hfree Hkey Huser Hhash Hcr Hex|rec' tl Hexp Hl Hhash Hst]; subst.
  - unfold CreateOrderWithItemsAndOutbox. intros n s1 n' s' r -> Hrun. destruct r as [[o b]|]; [|done].
    apply bind_ok_inv in Hrun as (n2 & s2 & o2 & Hw & Hrun).
    apply bind_ok_inv in Hw as (n3 & s3 & o3 & Hc & Hw).
    apply (triple_repo_CreateOrder env _ o0 _ _ _ _ _ eq_refl) in Hc as (id & tick & -> & Hid & Hook & Hno & Hfk & ->).
    apply bind_ok_inv in Hw as (n4 & s4 & [] & Hi & Hw).
    apply (triple_CreateOrderItems env _ _ _ _ _ _ _ eq_refl) in Hi as (rows & Hrows & ->).
    apply bind_ok_inv in Hw as (n5 & s5 & [] & He & Hw).
    apply (triple_InsertOutboxMessage env _ _ _ _ _ _ _ _ _ eq_refl) in He as (mid & mnow & Hm & ->).
    unfold ret in Hw. injection Hw as <- <- <-.
    apply bind_ok_inv in Hrun as (n6 & s6 & [] & Hcomp & Hret).
    unfold ret in Hret. injection Hret as <- <- <- <-.
    apply sql_ok_inv in Hcomp as (_ & Hcomp & _). simpl in Hcomp.
    rewrite lookup_insert, decide_True in Hcomp by done. injection Hcomp as <-.
    unfold set_outbox, set_items, set_orders, set_keys. simpl.
    rewrite insert_insert, decide_True by done. rewrite Hkey, Huser, Hex.
    rewrite Hcr. subst now.
    by apply (placed_intro env o0 (Rec_RequestHash rec) s id tick rows mid mnow tl).
  - rewrite Hst. destruct (Rec_ResponseBody rec ≫= order_of_json) as [cached|] eqn:Hb.
    + eapply triple_pre; [apply (triple_ret env (cached, true))|].
      intros s' ->. simpl. split; [done|]. by exists rec, tl.
    + eapply triple_pre; [apply (triple_fail env ErrConcurrentProcessing _ (λ _ _, True))|done].
Qed.

Lemma CreateOrder_effect env n s userID idemKey req raw :
  let run := CreateOrder idempotencyTTL userID idemKey req raw env n s in
  match outcome run with
  | Err _ => final run = s
  | Ok (o, true) =>
      final run = s ∧ ∃ o0, quoted userID idemKey req o0 ∧ replayed env o0 (request_hash req raw) s o
  | Ok (o, false) =>
      ∃ o0, quoted userID idemKey req o0 ∧ placed env o0 (request_hash req raw) s o (final run)
  end.
Proof.
  cbv zeta. destruct (CreateOrder _ _ _ _ _ env n s) as [[n' s'] r] eqn:Hrun. simpl.
  unfold final, outcome. simpl.
  assert (H : triple env (λ s', s' = s) (CreateOrder idempotencyTTL userID idemKey req raw)
    (λ r s', ∃ o0, quoted userID idemKey req o0 ∧
       if r.2 then s' = s ∧ replayed env o0 (request_hash req raw) s r.1
       else placed env o0 (request_hash req raw) s r.1 s') (λ _ s', s' = s)).
  { unfold CreateOrder. eapply triple_bind; [apply triple_prepare_order|].
    intros o0. apply triple_at. intros s1 [-> Hq].
    eapply triple_conseq; [apply triple_ExecuteTx, (triple_CreateOrder_tx env s)|done| |done].
    intros a s2 Ha. by exists o0. }
  specialize (H n s n' s' r eq_refl Hrun). destruct r as [[o []]|e]; simpl in H; [|done|done].
  destruct H as (o0 & Hq & -> & Hr). by eauto.
Qed.
(** C5: placing an order is atomic, and its effect is exactly one order.  Whatever the
    clock, the identifiers and the failures of the driver: an error leaves every table
    as it was; a replay changes nothing and returns the order cached under this user's
    key for the same request hash; otherwise the request was valid, the order holds one
    line per distinct SKU at the catalogue's price with the exact total, and the
    transaction added exactly its row (PENDING, version 1), the rows of its lines, one
    OrderCreated message and the completed idempotency key that caches it. *)
Theorem CreateOrder_atomic env n s userID idemKey req raw :
  let run := CreateOrder idempotencyTTL userID idemKey req raw env n s in
  match outcome run with
  | Err _ => final run = s
  | Ok (o, true) =>
      final run = s ∧ ∃ o0, quoted userID idemKey req o0 ∧ replayed env o0 (request_hash req raw) s o
  | Ok (o, false) =>
      ∃ o0, quoted userID idemKey req o0 ∧ placed env o0 (request_hash req raw) s o (final run)
  end.
Proof. apply CreateOrder_effect. Qed.
End create.

(** * Idempotency *)

Section idempotency.
Context `{UT : UuidText} `{CR : CatalogReader} (idempotencyTTL : Z).

(** Two runs agree: the same error, or values related by [R]. *)
Definition agree {A B} (R : A → B → Prop) (r1 : result error A) (r2 : result error B) : Prop :=
  match r1, r2 with
  | Ok a, Ok b => R a b
  | Err e1, Err e2 => e1 = e2
  | _, _ => False
  end.

Definition same_line (x y : OrderItem) : Prop :=
  Item_UnitPriceMinor x = Item_UnitPriceMinor y ∧ Item_Quantity x = Item_Quantity y.

(** [m1] and [m2] agree from all states, and leave the tables alone. *)
Definition stable {A B} (R : A → B → Prop) (m1 : op A) (m2 : op B) : Prop :=
  ∀ env1 n1 s1 env2 n2 s2,
    agree R (outcome (m1 env1 n1 s1)) (outcome (m2 env2 n2 s2)).

Lemma stable_lift {A B} (R : A → B → Prop) r1 r2 :
  agree R r1 r2 → stable R (lift_result r1) (lift_result r2).
Proof. by intros H env1 n1 s1 env2 n2 s2. Qed.

Lemma stable_ret {A B} (R : A → B → Prop) a b : R a b → stable R (ret a) (ret b).
Proof. by intros H env1 n1 s1 env2 n2 s2. Qed.

Lemma stable_uuid : stable (λ _ _, True) uuid_New uuid_New.
Proof. by intros env1 n1 s1 env2 n2 s2. Qed.

Lemma stable_bind {A B A' B'} (R : A → B → Prop) (R' : A' → B' → Prop)
    (m1 : op A) (m2 : op B) k1 k2 :
  stable R m1 m2 → (∀ a b, R a b → stable R' (k1 a) (k2 b)) →
  stable R' (bind m1 k1) (bind m2 k2).
Proof.
  intros Hm Hk env1 n1 s1 env2 n2 s2. specialize (Hm env1 n1 s1 env2 n2 s2).
  unfold bind, outcome in *. destruct (m1 env1 n1 s1) as [[n1' s1'] [a|e1]],
    (m2 env2 n2 s2) as [[n2' s2'] [b|e2]]; simpl in *; try done.
  by apply Hk.
Qed.

Lemma agree_refl {A} (r : result error A) : agree eq r r.
Proof. by destruct r. Qed.

Lemma stable_build_items prodMap currency m skus :
  stable (Forall2 same_line) (build_items prodMap currency m skus)
    (build_items prodMap currency m skus).
Proof.
  induction skus as [|sku skus IH]; cbn [build_items]; [by apply stable_ret|].
  eapply stable_bind; [apply stable_lift, agree_refl|]. intros pp ? <-.
  eapply stable_bind; [apply stable_uuid|]. intros id1 id2 _. cbv zeta.
  eapply stable_bind; [apply IH|]. intros l1 l2 Hl. apply stable_ret. by constructor.
Qed.

Lemma calculate_loop_same l1 l2 acc :
  Forall2 same_line l1 l2 → agree (λ _ _, True) (calculate_loop l1 acc) (calculate_loop l2 acc).
Proof.
  intros H. revert acc. induction H as [|x y l1 l2 [Hp Hq] Hl IH]; intros acc; [done|].
  cbn [calculate_loop]. cbv zeta. rewrite Hp, Hq.
  destruct (_ <=? 0); [done|]. destruct (_ <=? 0); [done|]. destruct (_ <? _); [done|].
  destruct (_ && _); [done|].
  specialize (IH (add64 acc (mul64 (Item_UnitPriceMinor y) (Item_Quantity y)))).
  destruct (calculate_loop l1 _) as [[]|], (calculate_loop l2 _) as [[]|]; done.
Qed.

(** Preparing the same request twice succeeds twice or fails twice. *)
Lemma stable_prepare_order userID idemKey req :
  stable (λ _ _, True) (prepare_order userID idemKey req) (prepare_order userID idemKey req).
Proof.
  unfold prepare_order. cbv zeta.
  destruct (_ =? _)%N; [done|]. destruct (_ =? _)%string; [done|].
  destruct (_ =? _)%nat; [done|]. destruct (_ <? _)%nat; [done|].
  eapply stable_bind; [apply stable_lift, agree_refl|]. intros m ? <-.
  eapply stable_bind; [apply stable_lift, agree_refl|]. intros ps ? <-.
  eapply stable_bind; [apply stable_build_items|]. intros l1 l2 Hl.
  eapply stable_bind; [apply stable_uuid|]. intros id1 id2 _.
  eapply (stable_bind (λ _ _, True)); [|intros; by apply stable_ret]. apply stable_lift.
  unfold CalculateTotals. simpl. rewrite <-(Forall2_length _ _ _ Hl).
  destruct (_ =? _)%nat; [done|]. destruct (_ <? _)%nat; [done|].
  pose proof (calculate_loop_same l1 l2 0 Hl).
  destruct (calculate_loop l1 _) as [[]|], (calculate_loop l2 _) as [[]|]; done.
Qed.

(** A completed, unexpired key is returned to a request of the same hash only. *)
Lemma LockIdempotencyKey_completed env n s key userID hash rec :
  no_faults env →
  idempotency_keys s !! (userID, key) = Some rec →
  varchar_ok 128 key && varchar_ok 64 hash = true →
  (∀ k, env_now env k <= Rec_ExpiresAt rec) →
  Rec_Status rec = IdempotencyStatusCompleted →
  ∃ n', LockIdempotencyKey key userID hash idempotencyTTL env n s =
    (n', s, if String.eqb (Rec_RequestHash rec) hash then Ok (rec, false)
            else Err ErrIdempotencyConflict).
Proof.
  intros Hf Hrec Hok Hexp Hst. unfold LockIdempotencyKey. cbv zeta.
  erewrite bind_ok; [|rewrite sql_run by done; rewrite Hok; simpl;
    rewrite Hrec; destruct (Z.ltb_spec (Rec_ExpiresAt rec) (env_now env n)) as [Hlt|];
    [specialize (Hexp n); lia|done]].
  cbn iota. erewrite bind_ok; [|rewrite sql_run by done; rewrite Hrec; done].
  destruct (String.eqb_spec (Rec_RequestHash rec) hash); simpl; [|by eexists].
  rewrite Hst. by eexists.
Qed.

Lemma CreateOrder_tx_completed env n s o0 hash rec o :
  no_faults env →
  idempotency_keys s !! (UserID o0, IdempotencyKey o0) = Some rec →
  varchar_ok 128 (IdempotencyKey o0) && varchar_ok 64 hash = true →
  (∀ k, env_now env k <= Rec_ExpiresAt rec) →
  Rec_Status rec = IdempotencyStatusCompleted → Rec_ResponseBody rec = Some (order_to_json o) →
  ∃ n', CreateOrder_tx idempotencyTTL o0 hash env n s =
    (n', s, if String.eqb (Rec_RequestHash rec) hash then Ok (o, true) else Err ErrIdempotencyConflict).
Proof.
  intros Hf Hrec Hok Hexp Hst Hbody. unfold CreateOrder_tx.
  destruct (LockIdempotencyKey_completed env n s _ _ hash rec Hf Hrec Hok Hexp Hst) as [n' Hl].
  destruct (_ =? _)%string.
  - erewrite bind_ok by exact Hl. simpl. rewrite Hst, Hbody. cbn [mbind option_bind].
    rewrite order_json_roundtrip. by eexists.
  - erewrite bind_err by exact Hl. by eexists.
Qed.


Lemma request_hash_fits req raw : varchar_ok 64 (request_hash req raw) = true.
Proof.
  unfold request_hash, ComputeRequestHash, varchar_ok. apply Nat.leb_le.
  etransitivity; [apply char_count_le|].
  by rewrite Sha256.hex_EncodeToString_length, Sha256.Sum256_length.
Qed.

(** A run that succeeds prepares an order of this user and key. *)
Lemma prepare_order_again env n s env2 n2 s2 userID idemKey req o b raw :
  outcome (CreateOrder idempotencyTTL userID idemKey req raw env n s) = Ok (o, b) →
  ∃ n' o0, prepare_order userID idemKey req env2 n2 s2 = (n', s2, Ok o0) ∧
           UserID o0 = userID ∧ IdempotencyKey o0 = TrimSpace idemKey.
Proof.
  destruct (CreateOrder _ _ _ _ _ env n s) as [[n' s'] r] eqn:Hrun. unfold outcome. simpl.
  intros ->. apply bind_ok_inv in Hrun as (n1 & s1 & o1 & H1 & _).
  pose proof (stable_prepare_order userID idemKey req env n s env2 n2 s2) as Hst.
  rewrite H1 in Hst. unfold outcome in Hst. simpl in Hst.
  destruct (prepare_order userID idemKey req env2 n2 s2) as [[n3 s3] [o0|e]] eqn:H2; [|done].
  pose proof (triple_prepare_order env2 s2 userID idemKey req _ _ _ _ _ eq_refl H2) as [-> Hq].
  exists n3, o0. destruct Hq as [[_ Hu] [Hk _] _ _ _ _ _ _]. by rewrite Hu, Hk.
Qed.

(** Retrying a placed order is safe.  After a successful [CreateOrder], and while
    its key has not expired, the same user's call with the same key and request hash
    answers the very same order, marked as replayed; a call with the same key and a
    different payload that passes validation answers [ErrIdempotencyConflict]; neither
    changes any table. *)
Theorem CreateOrder_retry env n s userID idemKey req raw o env2 n2 :
  let first := CreateOrder idempotencyTTL userID idemKey req raw env n s in
  outcome first = Ok (o, false) →
  no_faults env2 →
  (∀ rec k, idempotency_keys (final first) !! (userID, TrimSpace idemKey) = Some rec →
     env_now env2 k <= Rec_ExpiresAt rec) →
  let again req' raw' := CreateOrder idempotencyTTL userID idemKey req' raw' env2 n2 (final first) in
  outcome (again req raw) = Ok (o, true) ∧ final (again req raw) = final first ∧
  (∀ req' raw', request_hash req' raw' ≠ request_hash req raw →
     final (again req' raw') = final first ∧
     ∃ e, outcome (again req' raw') = Err e ∧
       (outcome (prepare_order userID idemKey req' env2 n2 (final first)) = Err e ∨
        e = ErrIdempotencyConflict)).
Proof.
  cbv zeta. intros Hfirst Hnf Hexp.
  pose proof (CreateOrder_effect idempotencyTTL env n s userID idemKey req raw) as Hat.
  cbv zeta in Hat. rewrite Hfirst in Hat. destruct Hat as (o0 & Hq & Hpl).
  set (s1 := final (CreateOrder idempotencyTTL userID idemKey req raw env n s)) in *.
  destruct Hq as [[_ Hu] [Hk _] _ _ _ _ _ _].
  assert (Hrec : ∃ rec, idempotency_keys s1 !! (userID, TrimSpace idemKey) = Some rec ∧
    Rec_RequestHash rec = request_hash req raw ∧ Rec_Status rec = IdempotencyStatusCompleted ∧
    Rec_ResponseBody rec = Some (order_to_json o) ∧ varchar_ok 128 (TrimSpace idemKey) = true).
  { destruct Hpl as [id tick rows mid te tl o locked Hid Hok]. simpl. rewrite Hu, Hk.
    rewrite lookup_insert, decide_True by done. eexists. split; [done|]. simpl.
    split_and!; [done..|]. unfold order_ok in Hok. simpl in Hok. rewrite Hk in Hok.
    repeat (apply andb_prop in Hok as [Hok ?]). done. }
  destruct Hrec as (rec & Hrec & Hh & Hst & Hbody & Hfit).
  assert (Hrun : ∀ req' raw' n' o', prepare_order userID idemKey req' env2 n2 s1 = (n', s1, Ok o') →
    UserID o' = userID → IdempotencyKey o' = TrimSpace idemKey →
    ∃ m, CreateOrder idempotencyTTL userID idemKey req' raw' env2 n2 s1 =
      (m, s1, if String.eqb (request_hash req raw) (request_hash req' raw')
              then Ok (o, true) else Err ErrIdempotencyConflict)).
  { intros req' raw' n' o' Hp Hu' Hk'. unfold CreateOrder. erewrite bind_ok by exact Hp.
    rewrite ExecuteTx_run by done.
    destruct (CreateOrder_tx_completed env2 (S n') s1 o' (request_hash req' raw') rec o) as [m ->];
      [done|by rewrite Hu', Hk'|by rewrite Hk', Hfit, request_hash_fits|by eauto|done|done|].
    rewrite Hh. destruct (_ =? _)%string; by eexists. }
  split_and!.
  1,2: destruct (prepare_order_again _ _ _ env2 n2 s1 _ _ _ _ _ _ Hfirst) as (n' & o' & Hp & Hu' & Hk');
    destruct (Hrun req raw n' o' Hp Hu' Hk') as [m ->]; by rewrite String.eqb_refl.
  intros req' raw' Hne. destruct (prepare_order userID idemKey req' env2 n2 s1) as [[n' s'] r] eqn:Hp.
  pose proof (triple_prepare_order env2 s1 userID idemKey req' _ _ _ _ _ eq_refl Hp) as Ht.
  destruct r as [o'|e].
  - destruct Ht as [-> [[_ Hu'] [Hk' _] _ _ _ _ _ _]].
    destruct (Hrun req' raw' n' o' Hp Hu' Hk') as [m ->].
    destruct (String.eqb_spec (request_hash req raw) (request_hash req' raw')); [by destruct Hne|].
    split; [done|]. eexists. split; [done|]. by right.
  - subst s'. unfold CreateOrder. erewrite bind_err by exact Hp.
    split; [done|]. eexists. split; [done|]. by left.
Qed.
End idempotency.

(** * Expired keys *)

Section expiry.
Context `{UT : UuidText} `{CR : CatalogReader} (idempotencyTTL : Z).

(** A key cannot be used again after it expires.  [LockIdempotencyKey] takes over
    an expired (or purged) key as if it were new, but the order placed with it still
    occupies UNIQUE (user_id, idempotency_key): every later [CreateOrder] of the user
    under that key fails, whatever the payload, and changes nothing. *)
Theorem expired_key_unusable env n s userID idemKey req raw o :
  find_by_key s userID (TrimSpace idemKey) = Some o →
  (∀ k, key_free s userID (TrimSpace idemKey) (env_now env k)) →
  let run := CreateOrder idempotencyTTL userID idemKey req raw env n s in
  final run = s ∧ ∃ e, outcome run = Err e.
Proof.
  cbv zeta. intros Hfind Hfree.
  pose proof (CreateOrder_effect idempotencyTTL env n s userID idemKey req raw) as H. cbv zeta in H.
  destruct (outcome _) as [[o' []]|e]; [| |by eauto].
  - destruct H as (_ & o0 & [[_ Hu] [Hk _] _ _ _ _ _ _] & rec & k & Hexp & Hrec & _).
    specialize (Hfree k). unfold key_free in Hfree. rewrite Hu, Hk in Hrec. rewrite Hrec in Hfree. lia.
  - destruct H as (o0 & [[_ Hu] [Hk _] _ _ _ _ _ _] & Hpl). exfalso.
    inversion Hpl as [id tick rows mid te tl o1 locked ? ? ? Hno]. subst o1. simpl in Hno. congruence.
Qed.
End expiry.

(** * The life of an order *)

Section lifecycle.
Context `{UT : UuidText} (idempotencyTTL : Z).

(** The transactions of the service, each committed or rolled back.  A transaction
    that changes a status works on an order read earlier, which may be stale: only
    what the code checked of it before is known. *)
Inductive order_tx (s s' : State) : Prop :=
| tx_create env n n' o hash r :
    Status o = StatusPending →
    ExecuteTx (CreateOrder_tx idempotencyTTL o hash) env n s = (n', s', r) → order_tx s s'
| tx_cancel env n n' read id userID reason r :
    CanTransitionTo (Status read) StatusCancelled = true →
    ExecuteTx (CancelOrder_tx read id userID reason) env n s = (n', s', r) → order_tx s s'
| tx_confirm env n n' read id v r :
    CanTransitionTo (Status read) StatusConfirmed = true →
    ExecuteTx (ConfirmOrder_tx read id v) env n s = (n', s', r) → order_tx s s'
| tx_transition env n n' id from to v r :
    CanTransitionTo from to = true →
    ExecuteTx (TransitionStatus_tx id from to v) env n s = (n', s', r) → order_tx s s'.

(** One legal change of an order's row. *)
Definition advances (o o' : Order) : Prop :=
  o' = o ∨ ∃ st now, o' = set_status o st (Version o + 1) now ∧ CanTransitionTo (Status o) st = true.

Definition orders_advance (s s' : State) : Prop :=
  ∀ id o, orders s !! id = Some o → ∃ o', orders s' !! id = Some o' ∧ advances o o'.

Lemma orders_advance_refl s : orders_advance s s.
Proof. intros id o Ho. exists o. split; [done|by left]. Qed.

Lemma orders_advance_eq s s1 s' : orders_advance s s1 → orders s' = orders s1 → orders_advance s s'.
Proof. intros H Heq id o Ho. rewrite Heq. by apply H. Qed.

Lemma cas_result_advance id from to v s nv s' :
  CanTransitionTo from to = true → cas_result id from to v s nv s' → orders_advance s s'.
Proof.
  intros Hcan [o now Ho <- Hv _|]; [|apply orders_advance_refl]. intros id1 o1 H1. simpl.
  destruct (decide (id1 = id)) as [->|Hne].
  - rewrite lookup_insert, decide_True by done. simplify_eq. eexists. split; [done|].
    right. by eauto.
  - rewrite lookup_insert_ne by done. exists o1. split; [done|by left].
Qed.

(** Everything after the compare-and-set leaves the orders alone. *)
Lemma preserves_InsertOutboxMessage (m : gmap uuid Order) id eventType payload :
  preserves (λ s, orders s = m) (InsertOutboxMessage id eventType payload).
Proof.
  intros env n s n' s' r Hs Hrun.
  pose proof (triple_InsertOutboxMessage env s id eventType payload n s n' s' r eq_refl Hrun) as H.
  destruct r; [|by subst]. by destruct H as (mid & tick & _ & ->).
Qed.

Lemma preserves_InsertStatusChanged (m : gmap uuid Order) id from to v :
  preserves (λ s, orders s = m) (InsertStatusChanged id from to v).
Proof. apply preserves_bind; [auto with shopflow|]. intros now. apply preserves_InsertOutboxMessage. Qed.

Lemma status_tx_advance {A} env s id from to v (k : Z → op A) :
  CanTransitionTo from to = true →
  (∀ m nv, preserves (λ s, orders s = m) (k nv)) →
  triple env (λ s', s' = s) (bind (UpdateOrderStatus id from to v) k)
    (λ _ s', orders_advance s s') (λ _ _, True).
Proof.
  intros Hcan Hk. eapply triple_bind.
  { eapply triple_conseq; [apply (triple_UpdateOrderStatus env s id from to v)|done| |done].
    intros nv s' H. exact H. }
  intros nv. apply triple_at. intros s1 H1.
  eapply triple_conseq; [apply (Hk (orders s1) nv env)|by intros s' ->| |done].
  intros a s' Heq. eapply orders_advance_eq; [by eapply cas_result_advance|done].
Qed.

Lemma order_tx_advance s s' : order_tx s s' → orders_advance s s'.
Proof.
  assert (Hcommit : ∀ A (fn : op A) env n n' r,
    triple env (λ s', s' = s) fn (λ _ s', orders_advance s s') (λ _ _, True) →
    ExecuteTx fn env n s = (n', s', r) → orders_advance s s').
  { intros A fn env n n' r Hfn Hrun. pose proof (triple_ExecuteTx env _ _ _ Hfn) as Ht.
    specialize (Ht n s n' s' r eq_refl Hrun). destruct r; [done|]. rewrite Ht. apply orders_advance_refl. }
  intros [env n n' o hash r _ Hrun|env n n' read id u reason r Hcan Hrun
         |env n n' read id v r Hcan Hrun|env n n' id from to v r Hcan Hrun];
    (eapply Hcommit; [|exact Hrun]); clear Hcommit Hrun.
  - eapply triple_conseq; [apply (triple_CreateOrder_tx idempotencyTTL env s o hash)|done| |done].
    intros [o' []] s1; simpl; [intros [-> _]; apply orders_advance_refl|].
    intros [id tick rows mid te tl ? ? ? ? Hno]. intros id1 o1 Ho1. simpl.
    exists o1. split; [|by left]. rewrite lookup_insert_ne; [done|]. intros ->. congruence.
  - apply status_tx_advance; [done|]. intros m nv. cbv zeta.
    apply preserves_bind; [auto with shopflow|]. intros now.
    apply preserves_bind; [apply preserves_InsertOutboxMessage|]. auto with shopflow.
  - apply status_tx_advance; [done|]. intros m nv.
    apply preserves_bind; [apply preserves_InsertStatusChanged|]. intros _.
    apply preserves_bind; [auto with shopflow|]. intros now.
    apply preserves_bind; [apply preserves_InsertOutboxMessage|]. auto with shopflow.
  - apply status_tx_advance; [done|]. intros m nv.
    apply preserves_bind; [apply preserves_InsertStatusChanged|]. auto with shopflow.
Qed.

(** What a whole history preserves of an order. *)
Definition evolved (o o' : Order) : Prop :=
  ID o' = ID o ∧ UserID o' = UserID o ∧ IdempotencyKey o' = IdempotencyKey o ∧
  TotalAmountMinor o' = TotalAmountMinor o ∧ Currency o' = Currency o ∧ CreatedAt o' = CreatedAt o ∧
  Version o <= Version o' ∧ (Version o' = Version o → o' = o) ∧
  (Status o' = Status o ∨ (progress (Status o) < progress (Status o'))%nat) ∧
  (IsTerminal (Status o) = true → Status o' = Status o) ∧
  rtc (λ a b, CanTransitionTo a b = true) (Status o) (Status o').

Lemma evolved_advances o o1 o2 : evolved o o1 → advances o1 o2 → evolved o o2.
Proof.
  intros (H1 & H2 & H3 & H4 & H5 & H6 & H7 & H8 & H9 & H10 & H11) [->|(st & now & -> & Hcan)];
    [by unfold evolved|].
  unfold evolved. simpl. split_and!; try done; try lia.
  - destruct (CanTransitionTo_progress _ _ Hcan) as [<-|?]; [done|].
    destruct H9 as [Heq|?]; right; [rewrite <-Heq; done|lia].
  - intros Ht. specialize (H10 Ht). rewrite H10 in Hcan. by apply CanTransitionTo_terminal in Hcan.
  - by eapply rtc_r.
Qed.

End lifecycle.

(** * Changing a status *)

Section changing.
Context `{UT : UuidText} `{CR : CatalogReader} (idempotencyTTL : Z).

Lemma UpdateOrderStatus_result env n s id from to v :
  let run := UpdateOrderStatus id from to v env n s in
  match outcome run with
  | Ok nv => cas_result id from to v s nv (final run)
  | Err e => final run = s ∧ ((faulted env ∧ ∃ m, e = ErrDriver m) ∨ cas_refused id from to v s e)
  end.
Proof.
  cbv zeta. destruct (UpdateOrderStatus id from to v env n s) as [[n' s'] r] eqn:H.
  apply (triple_UpdateOrderStatus env s) in H; [|done]. exact H.
Qed.

(** The optimistic lock lets one of two racing updates win.  When a caller's
    [UpdateOrderStatus] has succeeded, a second caller who read the same version and
    wants another status is refused, with [ErrOrderTerminal] if the winner's status is
    terminal and [ErrOptimisticLockConflict] otherwise, and changes nothing. *)
Theorem UpdateOrderStatus_race env n s env2 n2 id from v to1 to2 nv :
  outcome (UpdateOrderStatus id from to1 v env n s) = Ok nv → to1 ≠ to2 →
  let s1 := final (UpdateOrderStatus id from to1 v env n s) in
  let loser := UpdateOrderStatus id from to2 v env2 n2 s1 in
  final loser = s1 ∧
  ∃ e, outcome loser = Err e ∧
    ((faulted env2 ∧ ∃ m, e = ErrDriver m) ∨
     e = if IsTerminal to1 then ErrOrderTerminal else ErrOptimisticLockConflict).
Proof.
  intros Hok Hne. cbv zeta. pose proof (UpdateOrderStatus_result env n s id from to1 v) as H1.
  cbv zeta in H1. rewrite Hok in H1. set (s1 := final _) in *. clearbody s1.
  assert (Hs1 : ∃ o, orders s1 !! id = Some o ∧ Status o = to1 ∧ ¬ (Status o = from ∧ Version o = v)).
  { destruct H1 as [o now Ho Hf Hv _|o Ho Hn Ht]; [|by eauto].
    simpl. rewrite lookup_insert, decide_True by done. eexists. split; [done|]. simpl. split; [done|].
    lia. }
  destruct Hs1 as (o & Ho & Ht & Hn).
  pose proof (UpdateOrderStatus_result env2 n2 s1 id from to2 v) as H2. cbv zeta in H2.
  destruct (outcome (UpdateOrderStatus id from to2 v env2 n2 s1)) as [nv2|e].
  - exfalso. inversion H2; simplify_eq; [|congruence]. by destruct Hn.
  - destruct H2 as [Hs2 He]. split; [done|]. exists e. split; [done|].
    destruct He as [He|He]; [by left|right].
    unfold cas_refused in He. rewrite Ho, decide_False in He by done. by rewrite <-Ht, (proj2 He).
Qed.

(** ** Cancelling *)

Lemma GetOrder_result env n s id u n' s' r :
  GetOrder id u env n s = (n', s', r) →
  s' = s ∧ match r with
           | Ok o => u ≠ uuid_Nil ∧ ∃ row, orders s !! id = Some row ∧ UserID row = u ∧
                                           o = with_items row (items_of s id)
           | Err _ => True
           end.
Proof.
  unfold GetOrder. destruct (N.eqb_spec u uuid_Nil) as [|Hnil]; [unfold fail; by intros [= <- <- <-]|].
  intros [(e & H & ->)|(n1 & s1 & o & H1 & H2)]%bind_inv.
  - apply (triple_GetOrderByID env s) in H; [|done]. by destruct H as [-> _].
  - apply (triple_GetOrderByID env s) in H1; [|done]. destruct H1 as (-> & row & Hrow & ->).
    simpl in H2. destruct (N.eqb_spec (UserID row) u); simpl in H2; unfold ret, fail in H2;
      injection H2 as <- <- <-; [|done]. by eauto 10.
Qed.

(** The tables after a status change that was applied. *)
Definition with_status (s : State) (id : uuid) (o : Order) (st : OrderStatus) (now : Z) : State :=
  set_orders s (<[id := set_status o st (Version o + 1) now]> (orders s)).

Lemma cas_result_current id to s row nv s' :
  orders s !! id = Some row → cas_result id (Status row) to (Version row) s nv s' →
  nv = Version row + 1 ∧ ∃ now, s' = with_status s id row to now.
Proof.
  intros Hrow [o now Ho Hf Hv _|o Ho Hn _]; simplify_eq; [|by destruct Hn].
  split; [done|]. by exists now.
Qed.

Lemma CancelOrder_effect env n s id u key reason :
  let run := CancelOrder id u key reason env n s in
  match outcome run with
  | Err _ => final run = s
  | Ok o =>
      u ≠ uuid_Nil ∧ TrimSpace reason ≠ "" ∧
      ∃ row tick now, orders s !! id = Some row ∧ UserID row = u ∧
        (IsTerminal (Status row) = false ∧ Status row ≠ StatusPaid ∨ Status row = StatusCancelled) ∧
        o = set_status (with_items row (items_of s id)) StatusCancelled (Version row + 1) (UpdatedAt row) ∧
        emitted env (with_status s id row StatusCancelled now) (final run) id "OrderCancelled"
          (cancelled_payload id u o reason (env_now env tick))
  end.
Proof.
  cbv zeta. destruct (CancelOrder id u key reason env n s) as [[n' s'] r] eqn:Hrun.
  unfold outcome, final. simpl. revert Hrun. unfold CancelOrder.
  destruct (N.eqb_spec u uuid_Nil) as [|Hnil]; [unfold fail; by intros [= <- <- <-]|].
  destruct (String.eqb_spec (TrimSpace reason) "") as [|Hreason]; [unfold fail; by intros [= <- <- <-]|].
  intros [(e & H & ->)|(n1 & s1 & o & H1 & H2)]%bind_inv.
  { by apply GetOrder_result in H as [-> _]. }
  apply GetOrder_result in H1 as (-> & _ & row & Hrow & Hu & ->). simpl in H2.
  destruct (CanTransitionTo (Status row) StatusCancelled) eqn:Hcan; simpl in H2.
  2: { case_decide; unfold ret, fail in H2; injection H2 as <- <- <-; [|done]. by destruct (Status row). }
  destruct r as [o|e]; [|by apply ExecuteTx_err in H2].
  apply ExecuteTx_ok in H2 as (n2 & H2 & _). unfold CancelOrder_tx in H2.
  apply bind_ok_inv in H2 as (n3 & s3 & nv & Hcas & H2).
  apply (triple_UpdateOrderStatus env s) in Hcas; [|done].
  apply (cas_result_current id StatusCancelled s row) in Hcas as (-> & now & ->); [|done]. cbv zeta in H2.
  apply bind_ok_inv in H2 as (n4 & s4 & t & Ht & H2). unfold time_now in Ht. injection Ht as <- <- <-.
  apply bind_ok_inv in H2 as (n5 & s5 & [] & Hev & H2). unfold ret in H2. injection H2 as <- <- <-.
  apply (triple_InsertOutboxMessage env (with_status s id row StatusCancelled now)) in Hev; [|done].
  split_and!; [done..|]. exists row, n3, now. split_and!; [done|done| |done|exact Hev].
  destruct (Status row); vm_compute in Hcan; try discriminate; first [by right|by left].
Qed.

(** Cancelling.  Only the owner of the order may cancel it, and only while it may
    move to CANCELLED; a cancellation that succeeds has, in one transaction, moved the
    row to CANCELLED with the next version and added one OrderCancelled message; any
    error leaves the tables untouched.  This includes an order that is already
    CANCELLED, since [CanTransitionTo] allows staying: a repeated cancellation bumps
    the version and emits the event again. *)
Theorem CancelOrder_spec env n s id u key reason :
  let run := CancelOrder id u key reason env n s in
  match outcome run with
  | Err _ => final run = s
  | Ok o =>
      u ≠ uuid_Nil ∧ TrimSpace reason ≠ "" ∧
      ∃ row tick now, orders s !! id = Some row ∧ UserID row = u ∧
        (IsTerminal (Status row) = false ∧ Status row ≠ StatusPaid ∨ Status row = StatusCancelled) ∧
        o = set_status (with_items row (items_of s id)) StatusCancelled (Version row + 1) (UpdatedAt row) ∧
        emitted env (with_status s id row StatusCancelled now) (final run) id "OrderCancelled"
          (cancelled_payload id u o reason (env_now env tick))
  end.
Proof. apply CancelOrder_effect. Qed.

(** ** Confirming *)

Lemma ConfirmOrder_effect env n s id v :
  let run := ConfirmOrder id v env n s in
  match outcome run with
  | Err _ => final run = s
  | Ok o =>
      ∃ row, orders s !! id = Some row ∧
      let read := with_items row (items_of s id) in
      (Status row = StatusConfirmed ∧ o = read ∧ final run = s) ∨
      (Status row = StatusPaid ∧ Version row = v ∧
       o = set_status read StatusConfirmed (v + 1) (UpdatedAt row) ∧
       ∃ now t1 t2 s1,
         emitted env (with_status s id row StatusConfirmed now) s1 id
           (status_event StatusPaid StatusConfirmed)
           (status_payload id StatusPaid StatusConfirmed (v + 1) (env_now env t1)) ∧
         emitted env s1 (final run) id "OrderConfirmed" (confirmed_payload id read (env_now env t2)))
  end.
Proof.
  cbv zeta. destruct (ConfirmOrder id v env n s) as [[n' s'] r] eqn:Hrun.
  unfold outcome, final. simpl. revert Hrun. unfold ConfirmOrder.
  intros [(e & H & ->)|(n1 & s1 & o & H1 & H2)]%bind_inv.
  { apply (triple_GetOrderByID env s) in H; [|done]. by destruct H as [-> _]. }
  apply (triple_GetOrderByID env s) in H1; [|done]. destruct H1 as (-> & row & Hrow & ->). simpl in H2.
  case_decide as Hst.
  { unfold ret in H2. injection H2 as <- <- <-. exists row. split; [done|]. by left. }
  destruct (CanTransitionTo (Status row) StatusConfirmed) eqn:Hcan; simpl in H2;
    [|unfold fail in H2; by injection H2 as <- <- <-].
  assert (Hpaid : Status row = StatusPaid) by (by destruct (Status row)). clear Hcan Hst.
  apply bind_inv in H2 as [(e & H2 & ->)|(n2 & s2 & nv & Htx & H2)]; [by apply ExecuteTx_err in H2|].
  unfold ret in H2. injection H2 as <- <- <-.
  apply ExecuteTx_ok in Htx as (n3 & H2 & _). unfold ConfirmOrder_tx in H2. simpl in H2.
  apply bind_ok_inv in H2 as (n4 & s4 & nv' & Hcas & H2).
  apply (triple_UpdateOrderStatus env s) in Hcas; [|done].
  inversion Hcas as [o now Ho Hf Hv _|o Ho Hn Ht]; simplify_eq; [|congruence].
  apply bind_ok_inv in H2 as (n5 & s5 & [] & He1 & H2).
  apply bind_ok_inv in He1 as (n6 & s6 & t1 & Ht1 & He1). unfold time_now in Ht1. injection Ht1 as <- <- <-.
  eapply triple_InsertOutboxMessage in He1; [|done].
  apply bind_ok_inv in H2 as (n7 & s7 & t2 & Ht2 & H2). unfold time_now in Ht2. injection Ht2 as <- <- <-.
  apply bind_ok_inv in H2 as (n8 & s8 & [] & He2 & H2). unfold ret in H2. injection H2 as <- <- <-.
  eapply triple_InsertOutboxMessage in He2; [|done].
  exists row. split; [done|]. right. split_and!; [done..|].
  rewrite Hpaid in He1. by exists now, n4, n5, s5.
Qed.

(** Confirming.  A success means that the order is CONFIRMED and nothing changed,
    or that it was PAID at the expected version and one transaction moved it to
    CONFIRMED at the next version and added its two messages, the status change and
    OrderConfirmed; an error leaves the tables untouched. *)
Theorem ConfirmOrder_spec env n s id v :
  let run := ConfirmOrder id v env n s in
  match outcome run with
  | Err _ => final run = s
  | Ok o =>
      ∃ row, orders s !! id = Some row ∧
      let read := with_items row (items_of s id) in
      (Status row = StatusConfirmed ∧ o = read ∧ final run = s) ∨
      (Status row = StatusPaid ∧ Version row = v ∧
       o = set_status read StatusConfirmed (v + 1) (UpdatedAt row) ∧
       ∃ now t1 t2 s1,
         emitted env (with_status s id row StatusConfirmed now) s1 id
           (status_event StatusPaid StatusConfirmed)
           (status_payload id StatusPaid StatusConfirmed (v + 1) (env_now env t1)) ∧
         emitted env s1 (final run) id "OrderConfirmed" (confirmed_payload id read (env_now env t2)))
  end.
Proof. apply ConfirmOrder_effect. Qed.

Lemma TransitionStatus_ok env n s id from to v o :
  outcome (TransitionStatus id from to v env n s) = Ok o →
  ∃ nv s1 t, Version o = nv ∧ cas_result id from to v s nv s1 ∧
    emitted env s1 (final (TransitionStatus id from to v env n s)) id (status_event from to)
      (status_payload id from to nv (env_now env t)) ∧ CanTransitionTo from to = true.
Proof.
  destruct (TransitionStatus id from to v env n s) as [[n' s'] r] eqn:Hrun.
  unfold outcome, final. simpl. intros ->. revert Hrun. unfold TransitionStatus.
  destruct (CanTransitionTo from to); simpl; [|done]. intros H.
  apply bind_ok_inv in H as (n1 & s1 & nv & Htx & H).
  apply bind_ok_inv in H as (n2 & s2 & row & Hget & H). unfold ret in H. injection H as <- <- <-.
  apply (triple_GetOrderByID env s1) in Hget; [|done]. destruct Hget as (-> & _).
  apply ExecuteTx_ok in Htx as (n3 & H & _). unfold TransitionStatus_tx in H.
  apply bind_ok_inv in H as (n4 & s4 & nv' & Hcas & H).
  apply (triple_UpdateOrderStatus env s) in Hcas; [|done].
  apply bind_ok_inv in H as (n5 & s5 & [] & He & H). unfold ret in H. injection H as <- <- <-.
  apply bind_ok_inv in He as (n6 & s6 & t & Ht & He). unfold time_now in Ht. injection Ht as <- <- <-.
  eapply triple_InsertOutboxMessage in He; [|done].
  exists nv', s4, n4. by split_and!.
Qed.

(** A retried status change succeeds again, and emits again.  [UpdateOrderStatus]
    answers a caller whose target is already reached with the current version, so a
    second [TransitionStatus] with the arguments of a first that succeeded returns the
    same version, and adds a second OrderStatusChanged message for the same change. *)
Theorem TransitionStatus_retry_duplicates env n s id from to v o env2 n2 o2 :
  let first := TransitionStatus id from to v env n s in
  let again := TransitionStatus id from to v env2 n2 (final first) in
  from ≠ to → outcome first = Ok o → outcome again = Ok o2 →
  Version o2 = Version o ∧ orders (final again) = orders (final first) ∧
  ∃ t, emitted env2 (final first) (final again) id (status_event from to)
         (status_payload id from to (Version o) (env_now env2 t)).
Proof.
  cbv zeta. intros Hne Hfirst Hagain.
  destruct (TransitionStatus_ok env n s id from to v o Hfirst) as (nv & s0 & t & -> & Hcas & He & _).
  set (s1 := final _) in *. clearbody s1.
  destruct (TransitionStatus_ok env2 n2 s1 id from to v o2 Hagain) as (nv2 & s2 & t2 & -> & Hcas2 & He2 & _).
  destruct He as (mid & tick & _ & ->).
  assert (Hs0 : ∃ row, orders s0 !! id = Some row ∧ Status row = to ∧ Version row = nv).
  { destruct Hcas as [row now Hrow _ _ _|row Hrow _ Hst]; [|by eauto].
    simpl. rewrite lookup_insert, decide_True by done. by eauto. }
  destruct Hs0 as (row & Hrow & Hst & <-).
  inversion Hcas2 as [row2 now Hrow2 Hf _ _|row2 Hrow2 _ _]; simpl in Hrow2; simplify_eq.
  split; [done|]. split; [by destruct He2 as (mid2 & tick2 & _ & ->)|]. by exists t2.
Qed.
End changing.

(** * Examples: the hypotheses above can hold *)

#[local] Existing Instance ex_uuid_text.
#[local] Instance ex_catalog : CatalogReader :=
  ex_reader [ex_product "SKU-A" 1250; ex_product "SKU-B" 999].

Definition ex_ttl : Z := 3600 * Second.
Definition ex_request : CreateOrderRequest :=
  MkCreateOrderRequest [MkOrderItemRequest "SKU-B" 2; MkOrderItemRequest " SKU-A " 1;
                        MkOrderItemRequest "SKU-A" 2] "".
Definition ex_created := CreateOrder ex_ttl 7 "key-1" ex_request "" (calm_env 1000 50) 0%nat empty_state.
Definition ex_tables : State := final ex_created.
Definition ex_order : Order :=
  match outcome ex_created with Ok (o, _) => o | Err _ => order_of [] end.

(** The request's three lines become two, in the order of their SKUs. *)
Example ex_order_lines :
  outcome ex_created = Ok (ex_order, false) ∧
  (λ it, (Item_SKU it, Item_Quantity it, Item_SubtotalMinor it)) <$> Items ex_order =
    [("SKU-A", 3, 3750); ("SKU-B", 2, 1998)] ∧
  TotalAmountMinor ex_order = 5748 ∧ size (outbox ex_tables) = 1%nat.
Proof. split_and!; vm_compute; reflexivity. Qed.

Lemma CreateOrder_retry_witness :
  outcome (CreateOrder ex_ttl 7 "key-1" ex_request "" (calm_env 2000 90) 0%nat ex_tables)
    = Ok (ex_order, true).
Proof.
  refine (proj1 (CreateOrder_retry ex_ttl (calm_env 1000 50) 0%nat empty_state 7 "key-1" ex_request ""
    ex_order (calm_env 2000 90) 0%nat _ _ _)).
  - vm_compute. reflexivity.
  - intros k. reflexivity.
  - assert (H : (λ r, 2000 <=? Rec_ExpiresAt r) <$> idempotency_keys ex_tables !! (7%N, "key-1")
                = Some true) by (vm_compute; reflexivity).
    intros rec k Hrec. unfold ex_tables, ex_created in H.
    change (TrimSpace "key-1") with "key-1" in Hrec. rewrite Hrec in H. simpl in H.
    injection H as H. simpl. lia.
Defined.

Lemma expired_key_unusable_witness :
  let run := CreateOrder ex_ttl 7 "key-1" ex_request "" (calm_env (5000 * Second) 90) 0%nat ex_tables in
  final run = ex_tables ∧ ∃ e, outcome run = Err e.
Proof.
  apply (expired_key_unusable ex_ttl (calm_env (5000 * Second) 90) 0%nat ex_tables 7 "key-1" ex_request ""
    (with_items ex_order [])).
  - vm_compute. reflexivity.
  - intros k. vm_compute. reflexivity.
Defined.

(** The example order, moved on and cancelled. *)
Definition ex_reserving : State :=
  final (ExecuteTx (TransitionStatus_tx (ID ex_order) StatusPending StatusReservingStock 1)
           (calm_env 2000 90) 0%nat ex_tables).
Definition ex_cancelled : State :=
  final (ExecuteTx (CancelOrder_tx (set_status ex_order StatusReservingStock 2 0) (ID ex_order) 7 "late")
           (calm_env 3000 120) 0%nat ex_reserving).


Lemma UpdateOrderStatus_race_witness :
  let s1 := final (UpdateOrderStatus (ID ex_order) StatusPending StatusCancelled 1
                     (calm_env 2000 90) 0%nat ex_tables) in
  let loser := UpdateOrderStatus (ID ex_order) StatusPending StatusReservingStock 1
                 (calm_env 2000 90) 0%nat s1 in
  final loser = s1 ∧
  ∃ e, outcome loser = Err e ∧ ((faulted (calm_env 2000 90) ∧ ∃ m, e = ErrDriver m) ∨ e = ErrOrderTerminal).
Proof.
  apply (UpdateOrderStatus_race (calm_env 2000 90) 0%nat ex_tables (calm_env 2000 90) 0%nat (ID ex_order)
    StatusPending 1 StatusCancelled StatusReservingStock 2).
  - vm_compute. reflexivity.
  - discriminate.
Defined.

Definition ex_moved (env : Env) (s : State) :=
  TransitionStatus (ID ex_order) StatusPending StatusReservingStock 1 env 0%nat s.

Lemma TransitionStatus_retry_duplicates_witness :
  let first := ex_moved (calm_env 2000 90) ex_tables in
  let again := ex_moved (calm_env 3000 190) (final first) in
  size (outbox (final again)) = 3%nat ∧ orders (final again) = orders (final first).
Proof.
  cbv zeta. split; [vm_compute; reflexivity|].
  refine (proj1 (proj2 (TransitionStatus_retry_duplicates (calm_env 2000 90) 0%nat ex_tables (ID ex_order)
    StatusPending StatusReservingStock 1 (set_status
      (match outcome (GetOrderByID (ID ex_order) (calm_env 0 0) 0%nat ex_tables) with
       | Ok o => o | Err _ => ex_order end) StatusReservingStock 2 2000)
    (calm_env 3000 190) 0%nat _ _ _ _))); [discriminate|vm_compute; reflexivity..].
Defined.
