(* ===== verification/OrderHandler.v ===== *)
(** internal/domain/order/handler.go: the requests of the HTTP interface of orders, over
    the service of Order.v.

    A handler is a program over the tables of the orders that always answers: its error
    type is empty.  Logging is left out. *)

From S2P Require Import Prelude Strconv Json Decode Web Catalog Order.

(** * Requests *)

(** What the handlers write as JSON. *)
Record CancelOrderResponse := MkCancelOrderResponse {
  Cancel_OrderID : uuid;
  Cancel_Status : string;
  Cancel_Message : string;
}.

Inductive answer :=
| OneOrder (o : Order)
| OrderList (l : OrderListResponse)
| Cancelled (c : CancelOrderResponse).

(** [time.Hour], and the lifetime of a key of [NewService]. *)
Definition Hour : Z := 3600 * Second.
Definition default_ttl : Z := 24 * Hour.

Section handler.
Context `{CR : CatalogReader} `{UT : UuidText} `{UP : UuidParse} `{JT : JsonErrorText}.
Local Open Scope go_scope.

Definition hop := M State Empty_set (Response answer).

Definition OrderItemRequest_fields : setter OrderItemRequest :=
  object true [("sku", into_string (λ x q, MkOrderItemRequest x (Req_Quantity q)));
               ("quantity", into_int (λ z q, MkOrderItemRequest (Req_SKU q) z))].

Definition CreateOrderRequest_fields : setter CreateOrderRequest :=
  object true
    [("items", in_field Req_Items (λ l q, MkCreateOrderRequest l (Req_Currency q))
                 (slice (MkOrderItemRequest "" 0) OrderItemRequest_fields));
     ("currency", into_string (λ x q, MkCreateOrderRequest (Req_Items q) x))].

(** [CancelOrderRequest]: its one field. *)
Definition CancelOrderRequest_fields : setter string := object true [("reason", into_string (λ x _, x))].

Definition extractUserID (r : Request) : result error uuid :=
  let raw := TrimSpace (Header_Get r "X-User-ID") in
  if String.eqb raw "" then Err ErrUnauthorized else
  match uuid_Parse raw with
  | None => Err ErrUnauthorized
  | Some u => if (u =? uuid_Nil)%N then Err ErrUnauthorized else Ok u
  end.

Definition extractOrderID (r : Request) : result error uuid :=
  let idStr := URLParam r "order_id" in
  let idStr := if String.eqb idStr "" then URLParam r "id" else idStr in
  if String.eqb idStr "" then Err (ErrText "missing order ID in URL") else
  match uuid_Parse idStr with
  | None => Err (ErrText "invalid order ID format")
  | Some u => if (u =? uuid_Nil)%N then Err (ErrText "invalid order ID format") else Ok u
  end.

(** ** The answers that several requests give *)

Definition unauthorized (r : Request) : Response answer :=
  RespondProblem ∅ r StatusUnauthorized "UNAUTHORIZED" "Unauthorized" "A valid X-User-ID header is required".
Definition bad_request (r : Request) (code title detail : string) : Response answer :=
  RespondProblem ∅ r StatusBadRequest code title detail.
Definition conflict (r : Request) (code title detail : string) : Response answer :=
  RespondProblem ∅ r StatusConflict code title detail.
Definition invalid_uuid (r : Request) : Response answer :=
  bad_request r "INVALID_UUID" "Invalid UUID" "Order ID must be a valid UUID".
Definition order_not_found (r : Request) (detail : string) : Response answer :=
  RespondProblem ∅ r StatusNotFound "ORDER_NOT_FOUND" "Order Not Found" detail.
Definition forbidden (r : Request) : Response answer :=
  RespondProblem ∅ r StatusForbidden "FORBIDDEN" "Forbidden" "Customer does not own this order".
Definition internal_error (r : Request) (detail : string) : Response answer :=
  RespondProblem ∅ r StatusInternalServerError "INTERNAL_ERROR" "Internal Server Error" detail.

(** ** Placing *)

Definition order_failed (r : Request) (e : error) : Response answer :=
  match e with
  | ErrUnauthorized => RespondProblem ∅ r StatusUnauthorized "UNAUTHORIZED" "Unauthorized" (Error e)
  | ErrMissingIdempotencyKey =>
      bad_request r "MISSING_IDEMPOTENCY_KEY" "Missing Idempotency-Key" (Error e)
  | ErrIdempotencyConflict =>
      conflict r "IDEMPOTENCY_CONFLICT" "Idempotency Conflict"
        "Idempotency key was previously used with a different request payload"
  | ErrConcurrentProcessing =>
      conflict r "CONCURRENT_REQUEST" "Concurrent Request In Progress"
        "A request with this idempotency key is currently processing"
  | ErrEmptyOrderItems =>
      bad_request r "EMPTY_ORDER_ITEMS" "Empty Order Items" "Order must contain at least one line item"
  | ErrMaxItemsExceeded =>
      bad_request r "MAX_ITEMS_EXCEEDED" "Max Items Exceeded" "Order exceeds maximum allowed line items (100)"
  | ErrInvalidQuantity =>
      bad_request r "INVALID_QUANTITY" "Invalid Quantity" "Item quantity must be greater than zero"
  | ErrInvalidPrice =>
      bad_request r "INVALID_PRICE" "Invalid Price" "Product unit price must be positive"
  | ErrCurrencyMismatch =>
      bad_request r "CURRENCY_MISMATCH" "Currency Mismatch" "Currency does not match catalog currency"
  | ErrProductNotFound =>
      RespondProblem ∅ r StatusNotFound "PRODUCT_NOT_FOUND" "Product Not Found"
        "One or more requested SKUs were not found in catalog"
  | ErrProductUnavailable =>
      bad_request r "PRODUCT_UNAVAILABLE" "Product Unavailable" "One or more requested SKUs are inactive"
  | ErrArithmeticOverflow =>
      bad_request r "ARITHMETIC_OVERFLOW" "Arithmetic Overflow" "Monetary arithmetic overflow detected"
  | _ => internal_error r "Failed to place order"
  end.

Definition createOrder (r : Request) : hop :=
  match extractUserID r with
  | Err _ => ret (unauthorized r)
  | Ok userID =>
  let idemKey := TrimSpace (Header_Get r "Idempotency-Key") in
  if String.eqb idemKey "" then
    ret (bad_request r "MISSING_IDEMPOTENCY_KEY" "Missing Idempotency-Key"
           "Idempotency-Key header is required for order creation")
  else
  match ReadAll r with
  | None => ret (bad_request r "INVALID_REQUEST_BODY" "Invalid Request Body" "Failed to read request body")
  | Some rawBody =>
  match DecodeJSON CreateOrderRequest_fields (MkCreateOrderRequest [] "") (with_body r (Bytes rawBody)) with
  | (_, Some err) => ret (bad_request r "INVALID_REQUEST_BODY" "Invalid Request Body" err)
  | (req, None) =>
      let* res := call (CreateOrder default_ttl userID idemKey req rawBody) in
      ret match res with
          | Err e => order_failed r e
          | Ok (order, isCached) =>
              let h := Header_Set "Location" ("/api/v1/orders/" ++ uuid_String (ID order)) ∅ in
              let statusCode := if isCached : bool then StatusOK else StatusCreated in
              RespondJSON h statusCode (OneOrder order)
          end
  end end end.

(** ** Reading *)

Definition getOrder (r : Request) : hop :=
  match extractOrderID r with
  | Err _ => ret (invalid_uuid r)
  | Ok orderID =>
  match extractUserID r with
  | Err _ => ret (unauthorized r)
  | Ok userID =>
      let* res := call (GetOrder orderID userID) in
      ret match res with
          | Err ErrOrderNotFound => order_not_found r ("Order " ++ uuid_String orderID ++ " not found")
          | Err ErrForbidden => forbidden r
          | Err _ => internal_error r "Failed to retrieve order"
          | Ok order => RespondJSON ∅ StatusOK (OneOrder order)
          end
  end end.

Definition list_params (r : Request) (userID : uuid) : ListOrdersParams :=
  let statusQuery := TrimSpace (Query_Get r "status") in
  let limitQuery := TrimSpace (Query_Get r "limit") in
  MkListOrdersParams userID
    (if String.eqb statusQuery "" then None else Some statusQuery)
    (if String.eqb limitQuery "" then 0 else
       match ParseInt limitQuery with Some l => if 0 <? l then l else 0 | None => 0 end)
    (TrimSpace (Query_Get r "cursor")).

Definition listOrders (r : Request) : hop :=
  match extractUserID r with
  | Err _ => ret (unauthorized r)
  | Ok userID =>
      let* res := call (ListOrders (list_params r userID)) in
      ret match res with
          | Err _ => internal_error r "Failed to list orders"
          | Ok resp => RespondJSON ∅ StatusOK (OrderList resp)
          end
  end.

(** ** Cancelling *)

(** The reason in the body, if there is a body and it can be read. *)
Definition cancel_reason (r : Request) : string :=
  match Body r with
  | NilBody => "Customer requested cancellation"
  | _ =>
      match DecodeJSON CancelOrderRequest_fields "" r with
      | (reason, None) =>
          if String.eqb (TrimSpace reason) "" then "Customer requested cancellation" else reason
      | (_, Some _) => "Customer requested cancellation"
      end
  end.

Definition cancelOrder (r : Request) : hop :=
  match extractOrderID r with
  | Err _ => ret (invalid_uuid r)
  | Ok orderID =>
  match extractUserID r with
  | Err _ => ret (unauthorized r)
  | Ok userID =>
      let idemKey := TrimSpace (Header_Get r "Idempotency-Key") in
      let* res := call (CancelOrder orderID userID idemKey (cancel_reason r)) in
      ret match res with
          | Err ErrOrderNotFound => order_not_found r "Order does not exist"
          | Err ErrForbidden => forbidden r
          | Err ErrOrderTerminal =>
              conflict r "ORDER_TERMINAL" "Order In Terminal State"
                "Order is already in a terminal state and cannot be cancelled"
          | Err ErrInvalidStateTransition =>
              conflict r "INVALID_STATE_TRANSITION" "Invalid State Transition" (Error ErrInvalidStateTransition)
          | Err _ => internal_error r "Failed to cancel order"
          | Ok order =>
              RespondJSON ∅ StatusOK (Cancelled (MkCancelOrderResponse (ID order)
                (status_string (Status order)) "Order cancelled successfully"))
          end
  end end.
End handler.

(** * Retries *)

Section retries.
Context `{CR : CatalogReader} `{UT : UuidText} `{UP : UuidParse} `{JT : JsonErrorText}.

(** The order that a request asks for: the user, the key, the lines and the text of the
    body; nothing if the request is malformed. *)
Definition placing (r : Request) : option (uuid * string * CreateOrderRequest * string) :=
  match extractUserID r, ReadAll r with
  | Ok u, Some raw =>
      let k := TrimSpace (Header_Get r "Idempotency-Key") in
      match DecodeJSON CreateOrderRequest_fields (MkCreateOrderRequest [] "") (with_body r (Bytes raw)) with
      | (q, None) => if String.eqb k "" then None else Some (u, k, q, raw)
      | (_, Some _) => None
      end
  | _, _ => None
  end.

(** The response to an answer of the service. *)
Definition placed_response (r : Request) (res : result error (Order * bool)) : Response answer :=
  match res with
  | Err e => order_failed r e
  | Ok (o, cached) =>
      RespondJSON (Header_Set "Location" ("/api/v1/orders/" ++ uuid_String (ID o)) ∅)
        (if cached : bool then 200 else 201) (OneOrder o)
  end.

Lemma order_failed_status r e : 400 <= StatusCode (order_failed r e).
Proof. by destruct e. Qed.

(** A request that is not understood is refused; any other is one call of the service. *)
Lemma createOrder_run r env n s :
  match placing r with
  | Some (u, k, q, raw) =>
      createOrder r env n s =
        let run := CreateOrder default_ttl u k q raw env n s in (run.1.1, final run, Ok (placed_response r (outcome run)))
  | None => ∃ resp, createOrder r env n s = (n, s, Ok resp) ∧ 400 <= StatusCode resp < 500
  end.
Proof.
  unfold placing, createOrder, ret.
  destruct (extractUserID r) as [u|]; [|by eexists].
  destruct (ReadAll r) as [raw|].
  2: { destruct (String.eqb _ ""); by eexists. }
  destruct (DecodeJSON _ _ (with_body r (Bytes raw))) as [q [err|]].
  { destruct (String.eqb _ ""); by eexists. }
  cbv zeta. destruct (String.eqb _ ""); [by eexists|]. unfold bind, call, final, outcome.
  destruct (CreateOrder _ _ _ _ _ env n s) as [[n' s'] res]. cbn [fst snd].
  by destruct res as [[o []]|e].
Qed.

(** The lines are read from the body alone. *)
Lemma placing_body r r2 u k q u2 k2 q2 raw :
  placing r = Some (u, k, q, raw) → placing r2 = Some (u2, k2, q2, raw) → q = q2.
Proof.
  unfold placing.
  destruct (extractUserID r), (ReadAll r) as [b|], (extractUserID r2), (ReadAll r2) as [b2|]; try done.
  assert (∀ b, DecodeJSON CreateOrderRequest_fields (MkCreateOrderRequest [] "") (with_body r (Bytes b))
             = DecodeJSON CreateOrderRequest_fields (MkCreateOrderRequest [] "") (with_body r2 (Bytes b))) as Heq
    by reflexivity.
  rewrite Heq. destruct (DecodeJSON _ _ (with_body r2 (Bytes b))) as [x []] eqn:Hx; [done|].
  destruct (DecodeJSON _ _ (with_body r2 (Bytes b2))) as [y []] eqn:Hy; [done|].
  cbv zeta. destruct (String.eqb _ ""), (String.eqb _ ""); try done. intros [= <- <- <- <-] [= <- <- <- <-].
  congruence.
Qed.

End retries.

(** * Examples *)

Section examples.
#[local] Existing Instance ex_uuid_text.
#[local] Instance ex_parse : UuidParse := λ s,
  if String.eqb s "user-7" then Some 7%N else if String.eqb s "order-51" then Some 51%N else None.
#[local] Instance ex_error_text : JsonErrorText := λ _, "malformed".
#[local] Instance ex_shelf : CatalogReader := ex_reader [ex_product "SKU-A" 1250; ex_product "SKU-B" 999].

Definition ex_lines (q : string) : string :=
  ("{" ++ Json.quoted "currency" ++ ":" ++ Json.quoted "USD" ++ "," ++ Json.quoted "items" ++ ":[{" ++ Json.quoted "sku" ++ ":"
   ++ Json.quoted "SKU-A" ++ "," ++ Json.quoted "quantity" ++ ":" ++ q ++ "}]}")%string.

Definition ex_post (q : string) : Request :=
  MkRequest {["X-User-Id" := "user-7"; "Idempotency-Key" := "key-1"]} ∅ ∅ "/api/v1/orders"
    (Bytes (ex_lines q)) 0.

Definition ex_placed := createOrder (ex_post "2") (calm_env 1000 50) 0%nat empty_state.

Example ex_statuses :
  match outcome ex_placed with
  | Ok resp => StatusCode resp = 201 ∧ ResHeader resp !! "Location" = Some ("/api/v1/orders/" ++ uuid_String 51)%string
  | Err _ => False
  end ∧
  match outcome (cancelOrder (with_body (MkRequest {["X-User-Id" := "user-7"]} {["order_id" := "order-51"]} ∅ "" NilBody 0)
                   NilBody) (calm_env 2000 90) 0%nat (final ex_placed)) with
  | Ok resp => ResBody resp = JSON (Cancelled (MkCancelOrderResponse 51 "CANCELLED" "Order cancelled successfully"))
  | Err _ => False
  end.
Proof. vm_compute. by split_and!. Qed.

Definition ex_reply : Response answer :=
  match outcome ex_placed with Ok resp => resp | Err _ => unauthorized (ex_post "2") end.

End examples.
