(* ===== verification/OrderNotices.v ===== *)
(** From the events of orders to the mails of customers: the payloads that Order.v puts
    into the outbox, as texts (Wire.v), read by the consumer of Notification.v. *)

From S2P Require Import Prelude Json Timestamp Decode Wire Kafka Inbox Email Outbox CatalogStore Order Notification.

(** * What a payload is read as *)

Definition line_of (it : OrderItem) : LineItemPayload :=
  MkLineItemPayload (Item_SKU it) (Item_TitleSnapshot it) (Item_UnitPriceMinor it) (Item_Quantity it)
    (Item_SubtotalMinor it).

Section payloads.
Context `{UT : UuidText} `{UP : UuidParse} `{UL : !UuidLaws}.

Definition address (u : uuid) : string := ("user-" ++ uuid_String u ++ "@shopflow.io")%string.

Definition confirmed_notice (id : uuid) (o : Order) (at_ : Z) : OrderConfirmedPayload :=
  MkOrderConfirmedPayload id (uuid_String (UserID o)) (address (UserID o)) (TotalAmountMinor o)
    (Currency o) (line_of <$> Items o) at_.

Definition cancelled_notice (id u : uuid) (o : Order) (reason : string) (at_ : Z) : OrderCancelledPayload :=
  MkOrderCancelledPayload id (uuid_String u) (address u) (TotalAmountMinor o)
    (Currency o) reason (line_of <$> Items o) at_.

Lemma line_read it v q0 :
  denotes (line_payload it) v → object false LineItemPayload_fields v q0 = stored (line_of it).
Proof.
  apply (object_stores false LineItemPayload_fields
    [("sku", JString (Item_SKU it), λ q, MkLineItemPayload (Item_SKU it) (Line_Title q) (Line_UnitPriceMinor q) (Line_Quantity q) (Line_SubtotalMinor q));
     ("title", JString (Item_TitleSnapshot it), λ q, MkLineItemPayload (Line_SKU q) (Item_TitleSnapshot it) (Line_UnitPriceMinor q) (Line_Quantity q) (Line_SubtotalMinor q));
     ("unit_price_minor", JInt (Item_UnitPriceMinor it), λ q, MkLineItemPayload (Line_SKU q) (Line_Title q) (Item_UnitPriceMinor it) (Line_Quantity q) (Line_SubtotalMinor q));
     ("quantity", JInt (Item_Quantity it), λ q, MkLineItemPayload (Line_SKU q) (Line_Title q) (Line_UnitPriceMinor q) (Item_Quantity it) (Line_SubtotalMinor q));
     ("subtotal_minor", JInt (Item_SubtotalMinor it), λ q, MkLineItemPayload (Line_SKU q) (Line_Title q) (Line_UnitPriceMinor q) (Line_Quantity q) (Item_SubtotalMinor it))]).
  - fields_known.
  - fields_independent.
Qed.
Lemma confirmed_read id o at_ v q0 :
  denotes (confirmed_payload id o at_) v → object false OrderConfirmedPayload_fields v q0 = stored (confirmed_notice id o at_).
Proof.
  intros Hd. etrans; [apply (object_stores false OrderConfirmedPayload_fields
    [("order_id", JUUID id, λ q, MkOrderConfirmedPayload id (Conf_CustomerID q) (Conf_CustomerEmail q) (Conf_TotalAmountMinor q) (Conf_Currency q) (Conf_LineItems q) (Conf_ConfirmedAt q));
     ("customer_id", JUUID (UserID o), λ q, MkOrderConfirmedPayload (Conf_OrderID q) (uuid_String (UserID o)) (Conf_CustomerEmail q) (Conf_TotalAmountMinor q) (Conf_Currency q) (Conf_LineItems q) (Conf_ConfirmedAt q));
     ("customer_email", customer_email (UserID o), λ q, MkOrderConfirmedPayload (Conf_OrderID q) (Conf_CustomerID q) (address (UserID o)) (Conf_TotalAmountMinor q) (Conf_Currency q) (Conf_LineItems q) (Conf_ConfirmedAt q));
     ("total_amount_minor", JInt (TotalAmountMinor o), λ q, MkOrderConfirmedPayload (Conf_OrderID q) (Conf_CustomerID q) (Conf_CustomerEmail q) (TotalAmountMinor o) (Conf_Currency q) (Conf_LineItems q) (Conf_ConfirmedAt q));
     ("currency", JString (Currency o), λ q, MkOrderConfirmedPayload (Conf_OrderID q) (Conf_CustomerID q) (Conf_CustomerEmail q) (Conf_TotalAmountMinor q) (Currency o) (Conf_LineItems q) (Conf_ConfirmedAt q));
     ("line_items", JArray (line_payload <$> Items o), λ q, MkOrderConfirmedPayload (Conf_OrderID q) (Conf_CustomerID q) (Conf_CustomerEmail q) (Conf_TotalAmountMinor q) (Conf_Currency q) (line_of <$> Items o) (Conf_ConfirmedAt q));
     ("confirmed_at", JTime at_, λ q, MkOrderConfirmedPayload (Conf_OrderID q) (Conf_CustomerID q) (Conf_CustomerEmail q) (Conf_TotalAmountMinor q) (Conf_Currency q) (Conf_LineItems q) at_)]); [| |exact Hd]|reflexivity].
  - fields_known. refine (stores_slice _ _ _ _ _ _ _ _). intros; by apply line_read.
  - fields_independent.
Qed.

Lemma cancelled_read id u o reason at_ v q0 :
  denotes (cancelled_payload id u o reason at_) v → object false OrderCancelledPayload_fields v q0 = stored (cancelled_notice id u o reason at_).
Proof.
  intros Hd. etrans; [apply (object_stores false OrderCancelledPayload_fields
    [("order_id", JUUID id, λ q, MkOrderCancelledPayload id (Can_CustomerID q) (Can_CustomerEmail q) (Can_TotalAmountMinor q) (Can_Currency q) (Can_Reason q) (Can_LineItems q) (Can_CancelledAt q));
     ("customer_id", JUUID u, λ q, MkOrderCancelledPayload (Can_OrderID q) (uuid_String u) (Can_CustomerEmail q) (Can_TotalAmountMinor q) (Can_Currency q) (Can_Reason q) (Can_LineItems q) (Can_CancelledAt q));
     ("customer_email", customer_email u, λ q, MkOrderCancelledPayload (Can_OrderID q) (Can_CustomerID q) (address u) (Can_TotalAmountMinor q) (Can_Currency q) (Can_Reason q) (Can_LineItems q) (Can_CancelledAt q));
     ("total_amount_minor", JInt (TotalAmountMinor o), λ q, MkOrderCancelledPayload (Can_OrderID q) (Can_CustomerID q) (Can_CustomerEmail q) (TotalAmountMinor o) (Can_Currency q) (Can_Reason q) (Can_LineItems q) (Can_CancelledAt q));
     ("currency", JString (Currency o), λ q, MkOrderCancelledPayload (Can_OrderID q) (Can_CustomerID q) (Can_CustomerEmail q) (Can_TotalAmountMinor q) (Currency o) (Can_Reason q) (Can_LineItems q) (Can_CancelledAt q));
     ("reason", JString reason, λ q, MkOrderCancelledPayload (Can_OrderID q) (Can_CustomerID q) (Can_CustomerEmail q) (Can_TotalAmountMinor q) (Can_Currency q) reason (Can_LineItems q) (Can_CancelledAt q));
     ("line_items", JArray (line_payload <$> Items o), λ q, MkOrderCancelledPayload (Can_OrderID q) (Can_CustomerID q) (Can_CustomerEmail q) (Can_TotalAmountMinor q) (Can_Currency q) (Can_Reason q) (line_of <$> Items o) (Can_CancelledAt q));
     ("cancelled_at", JTime at_, λ q, MkOrderCancelledPayload (Can_OrderID q) (Can_CustomerID q) (Can_CustomerEmail q) (Can_TotalAmountMinor q) (Can_Currency q) (Can_Reason q) (Can_LineItems q) at_)]); [| |exact Hd]|reflexivity].
  - fields_known. refine (stores_slice _ _ _ _ _ _ _ _). intros; by apply line_read.
  - fields_independent.
Qed.

End payloads.

(** * Messages and mails *)

Section notices.
Context {St : Type} `{SD : !Sender St} `{SL : !SenderLaws St} `{UT : UuidText} `{UP : UuidParse} `{UL : !UuidLaws}
  `{TT : TimeText} `{JB : Jsonb}.

(** The message that carries an event of the outbox: its key, its headers, and a text of
    its payload. *)
Definition carries (msg : Kafka.Message) (m : OutboxMessage) : Prop :=
  Kafka.Key msg = AggregateID m ∧ Kafka.Headers msg = message_headers m ∧
  text_of (Kafka.Value msg) (Outbox.Payload m).

Definition confirmed_mail (id : uuid) (o : Order) (at_ : Z) : EmailMessage :=
  let bodies := RenderOrderConfirmed (confirmed_notice id o at_) in
  MkEmailMessage "" [address (UserID o)] ("Order Confirmed: " ++ uuid_String id)%string bodies.1 bodies.2.

Definition cancelled_mail (id u : uuid) (o : Order) (reason : string) (at_ : Z) : EmailMessage :=
  let bodies := RenderOrderCancelled (cancelled_notice id u o reason at_) in
  MkEmailMessage "" [address u] ("Order Cancelled: " ++ uuid_String id)%string bodies.1 bodies.2.

(** The events a customer is told of, and the mail that tells it. *)
Inductive notice (m : OutboxMessage) : EmailMessage → Prop :=
| notice_confirmed id o at_ :
    Outbox.EventType m = "OrderConfirmed" → Outbox.Payload m = confirmed_payload id o at_ →
    notice m (confirmed_mail id o at_)
| notice_cancelled id u o reason at_ :
    Outbox.EventType m = "OrderCancelled" → Outbox.Payload m = cancelled_payload id u o reason at_ →
    notice m (cancelled_mail id u o reason at_).

Lemma header_of k m :
  k ≠ "traceparent" → message_headers m !! k =
    (<["message_id" := uuid_String (Outbox.ID m)]> (<["aggregate_id" := AggregateID m]>
     (<["aggregate_type" := AggregateType m]> (<["event_type" := Outbox.EventType m]> (Outbox.Headers m))))) !! k.
Proof.
  intros Hk. unfold message_headers. cbv zeta. destruct (TraceContext m) as [t|]; [|done].
  destruct (String.eqb t ""); [done|]. by rewrite lookup_insert_ne.
Qed.

Lemma event_of_carried msg m e :
  carries msg m → Outbox.EventType m = e → TrimSpace e = e → e ≠ "" → event_of msg = e.
Proof.
  intros (_ & Hh & _) <- Ht Hne. unfold event_of. rewrite Hh, header_of by done.
  rewrite !lookup_insert_ne by done. rewrite lookup_insert_eq. change (default "" (Some ?x)) with x. rewrite Ht.
  by rewrite (proj2 (String.eqb_neq _ _) Hne).
Qed.

Lemma HandleMessage_notice msg m mail :
  notice m mail → carries msg m → HandleMessage (St:=St) msg = on_sender (Send mail).
Proof.
  intros [id o at_ He Hp|id u o reason at_ He Hp] Hc; unfold HandleMessage;
    rewrite (event_of_carried _ _ _ Hc He eq_refl ltac:(done)); destruct Hc as (_ & _ & Ht); rewrite Hp in Ht; cbn [String.eqb].
  - unfold handleOrderConfirmed. cbv zeta.
    rewrite (Unmarshal_text _ _ _ _ (confirmed_notice id o at_) Ht); [done|]. intros v. apply confirmed_read.
  - unfold handleOrderCancelled. cbv zeta.
    rewrite (Unmarshal_text _ _ _ _ (cancelled_notice id u o reason at_) Ht); [done|]. intros v. apply cancelled_read.
Qed.

(** What a delivery of the message needs: the tables take it, and it has an identifier. *)
Definition deliverable (msg : Kafka.Message) (m : OutboxMessage) : Prop :=
  carries msg m ∧ uuid_String (Outbox.ID m) ≠ "" ∧
  Inbox.message_ok (inbox_message "notification-service" msg 0) = true.

Lemma deliverable_readable msg m : deliverable msg m → readable msg = true.
Proof.
  intros ((_ & Hh & Hv & _) & Hne & _). unfold readable, message_id.
  rewrite Hh, header_of, lookup_insert_eq by done. change (default "" (Some ?x)) with x.
  rewrite (proj2 (String.eqb_neq _ _) Hne), (proj2 (String.eqb_neq _ _) Hne), Hv. by rewrite andb_false_r.
Qed.

(** The key of the message in the inbox. *)
Definition inbox_key (msg : Kafka.Message) : string * string := (message_id msg, "notification-service").

(** A delivery to the consumer: what [ProcessMessage_spec] says of it. *)
Lemma consume_delivers m msg env n st (x : St) :
  deliverable msg m → no_faults env →
  let run := consume_message msg env n (Inbox.MkWorld st x) in
  match Inbox.status_of st (inbox_key msg) with
  | Some StatusCompleted | Some StatusProcessing => outcome run = Ok tt ∧ final run = Inbox.MkWorld st x
  | Some Inbox.StatusFailed | None =>
      ∃ n1, let h := HandleMessage msg env n1 x in
      Inbox.domain (final run) = final h ∧ outcome run = reply_after (outcome h) ∧
      Inbox.status_of (Inbox.tables (final run)) (inbox_key msg) = Some (status_after (outcome h))
  end.
Proof.
  intros Hd Hf. pose proof (deliverable_readable _ _ Hd) as Hread. destruct Hd as (_ & _ & Hok).
  pose proof (ProcessMessage_delivers (NewProcessor_cfg consumer_cfg) HandleMessage msg env n st x Hf Hread Hok) as H.
  unfold consume_message, inbox_key. change (Cfg_ConsumerGroup _) with "notification-service" in H. cbv zeta in H |- *.
  destruct (Inbox.status_of st _) as [[]|]; [done|done|..];
    destruct H as (n1 & ? & ? & ? & _); by exists n1.
Qed.

(** What becomes of a mail whose message is delivered as often as the broker likes. *)
Lemma notice_delivered m mail msg env n st (x : St) :
  notice m mail → deliverable msg m → no_faults env → Inbox.status_of st (inbox_key msg) = None →
  let first := consume_message msg env n (Inbox.MkWorld st x) in
  (outcome first = Ok tt →
     sent (Inbox.domain (final first)) = sent x ++ [mail] ∧
     ∀ env2 n2, no_faults env2 → final (consume_message msg env2 n2 (final first)) = final first) ∧
  (∀ e, outcome first = Err e → Inbox.status_of (Inbox.tables (final first)) (inbox_key msg) = Some Inbox.StatusFailed).
Proof.
  intros Hn Hd Hf Hst. cbv zeta. pose proof (consume_delivers m msg env n st x Hd Hf) as H. cbv zeta in H.
  rewrite Hst in H. destruct H as (n1 & Hdom & Hout & Hstat).
  rewrite (HandleMessage_notice _ _ _ Hn (proj1 Hd)) in Hdom, Hout, Hstat.
  unfold on_sender, map_err in *. destruct (Send mail env n1 x) as [[n2 x2] r] eqn:Hsend.
  apply Send_law in Hsend.
  destruct (consume_message msg env n (Inbox.MkWorld st x)) as [[n' w'] r'] eqn:Hrun.
  destruct r as [[]|e]; cbn [outcome final fst snd reply_after status_after] in *; subst r'.
  - split; [intros _|done]. split; [by rewrite Hdom|]. intros env2 n3 Hf2. destruct w' as [st' x'].
    pose proof (consume_delivers m msg env2 n3 st' x' Hd Hf2) as H. cbv zeta in H. cbn [Inbox.tables] in Hstat.
    rewrite Hstat in H. by destruct H.
  - done.
Qed.

(** ** From the order to the mail *)

(** The requests whose events a customer is told of. *)
Inductive act :=
| Confirm (id : uuid) (expectedVersion : Z)
| Cancel (id userID : uuid) (idemKey reason : string).

Definition act_order (a : act) : uuid := match a with Confirm id _ | Cancel id _ _ _ => id end.
Definition run_act (a : act) : Order.op Order :=
  match a with
  | Confirm id v => ConfirmOrder id v
  | Cancel id u key reason => CancelOrder id u key reason
  end.

Lemma emitted_new env s s' id e payload :
  emitted env s s' id e payload →
  ∃ mid m, outbox s !! mid = None ∧ outbox s' !! mid = Some m ∧ Outbox.EventType m = e ∧ Outbox.Payload m = payload.
Proof.
  intros (mid & tick & Hnew & ->). eexists mid, _. split; [done|]. split; [apply lookup_insert_eq|done].
Qed.

End notices.

(** * Examples *)

Section examples.
#[local] Existing Instance ex_text.
#[local] Existing Instance ex_parse.
#[local] Existing Instance ex_laws.
#[local] Existing Instance UTC.
#[local] Instance ex_jsonb : Jsonb := Valid.
#[local] Instance ex_time_text : TimeText := Format.

Definition ex_cancel : act := Cancel (Order.ID ex_order) 7 "key-2" "late".
Definition ex_cancelling := run_act ex_cancel (calm_env 3000 120) 0%nat ex_tables.
Definition ex_event : OutboxMessage :=
  match outbox (final ex_cancelling) !! 125%N with Some m => m | None => order_message 0 0 "" JNull 0 end.

Definition ex_member (k v : string) : string := (Json.quoted k ++ ": " ++ v)%string.
Definition ex_object (l : list string) : string := ("{" ++ strings_join l ", " ++ "}")%string.
Definition ex_line (sku price q sub : string) : string :=
  ex_object [ex_member "sku" (Json.quoted sku); ex_member "title" (Json.quoted ("Title of " ++ sku)); ex_member "unit_price_minor" price;
             ex_member "quantity" q; ex_member "subtotal_minor" sub].
Definition ex_value : string :=
  ex_object
    [ex_member "order_id" (Json.quoted (uuid_String 52)); ex_member "customer_id" (Json.quoted (uuid_String 7));
     ex_member "customer_email" (Json.quoted (address 7)); ex_member "total_amount_minor" "5748";
     ex_member "currency" (Json.quoted "USD"); ex_member "reason" (Json.quoted "late");
     ex_member "line_items" ("[" ++ ex_line "SKU-A" "1250" "3" "3750" ++ ", " ++ ex_line "SKU-B" "999" "2" "1998" ++ "]");
     ex_member "cancelled_at" (Json.quoted (Format 3000))]%string.
Definition ex_notice : Kafka.Message :=
  Kafka.MkMessage "shopflow.orders" (uuid_String 52) ex_value (message_headers ex_event) 3000 0 1.

Ltac denote :=
  first [ apply den_string | match goal with |- denotes (JUUID ?u) _ => exact (den_uuid u) end
        | apply den_int; reflexivity
        | apply den_time; vm_compute; reflexivity | apply den_array
        | eapply den_object; [|reflexivity] ].

Lemma ex_deliverable : deliverable ex_notice ex_event.
Proof.
  split; [|split; [by vm_compute|vm_compute; reflexivity]].
  split; [vm_compute; reflexivity|]. split; [reflexivity|]. split; [vm_compute; reflexivity|].
  destruct (parse ex_value) as [[v rest]|] eqn:Hp; [|by vm_compute in Hp].
  exists v, rest. split; [done|].
  vm_compute in Hp. injection Hp as <- <-. split; [reflexivity|].
  let x := eval vm_compute in (Outbox.Payload ex_event) in change (Outbox.Payload ex_event) with x.
  repeat first [denote | apply Forall2_cons; split; [cbn [fst snd]; try (split; [reflexivity|])|] | apply List.Forall2_nil].
Qed.

End examples.
