(* ===== verification/Cart.v ===== *)
(** internal/domain/cart: shopping carts, their lines and totals, under an optimistic
    lock.

    The tables are those of migrations/00002_create_cart_tables.sql.  The catalogue is
    read through its interface ([CatalogReader]); a reader that reports no error gives a
    product.  The operations run one statement at a time, their changes in a
    transaction, as in the code. *)

From S2P Require Import Prelude Database Money Catalog.

(** * Data (errors.go, models.go) *)

Inductive error : Type :=
| ErrCartNotFound
| ErrCartNotActive
| ErrItemNotFound
| ErrInvalidQuantity
| ErrInvalidPrice
| ErrArithmeticOverflow
| ErrOptimisticLockConflict
| ErrUnauthorized
| ErrForbidden
| ErrProductUnavailable
| ErrCurrencyMismatch
| ErrInvalidVersion
| ErrEmptySKU                (** [errors.New("sku cannot be empty")] *)
| ErrDriver (msg : string).

Definition Error (e : error) : string :=
  match e with
  | ErrCartNotFound => "cart not found"
  | ErrCartNotActive => "cart is not active"
  | ErrItemNotFound => "item not found in cart"
  | ErrInvalidQuantity => "quantity must be greater than zero"
  | ErrInvalidPrice => "price cannot be negative"
  | ErrArithmeticOverflow => "monetary arithmetic integer overflow"
  | ErrOptimisticLockConflict => "optimistic lock conflict: cart modified by another request"
  | ErrUnauthorized => "unauthorized: missing or invalid customer authentication"
  | ErrForbidden => "forbidden: customer does not own this cart"
  | ErrProductUnavailable => "product is unavailable or does not exist"
  | ErrCurrencyMismatch => "currency mismatch"
  | ErrInvalidVersion => "invalid or missing expected version"
  | ErrEmptySKU => "sku cannot be empty"
  | ErrDriver msg => msg
  end%string.

#[export] Instance error_GoError : GoError error :=
  {| error_text := Error; driver_error := ErrDriver; driver_error_text := λ _, eq_refl |}.

#[export] Instance error_eq_dec : EqDecision error.
Proof. solve_decision. Defined.

Inductive CartStatus := CartStatusActive | CartStatusCheckedOut | CartStatusAbandoned.

#[export] Instance CartStatus_eq_dec : EqDecision CartStatus.
Proof. solve_decision. Defined.

Record CartItem := MkCartItem {
  Item_ID : uuid;
  Item_CartID : uuid;
  Item_SKU : string;
  Item_Title : string;
  Item_UnitPriceMinor : Z;
  Item_Quantity : Z;
  Item_UnitPrice : Money.Money;
  Item_LineTotal : Money.Money;
  Item_CreatedAt : Z;
  Item_UpdatedAt : Z;
}.

Record Cart := MkCart {
  ID : uuid;
  UserID : uuid;
  Status : CartStatus;
  Version : Z;
  Currency : string;
  Items : list CartItem;
  TotalAmount : Money.Money;
  CreatedAt : Z;
  UpdatedAt : Z;
}.

(** The zero value of [money.Money]. *)
Definition no_money : Money.Money := Money.MkMoney 0 "".

(** ** Totals *)

Definition set_totals (it : CartItem) (lineTotal : Z) (currency : string) : CartItem :=
  MkCartItem (Item_ID it) (Item_CartID it) (Item_SKU it) (Item_Title it) (Item_UnitPriceMinor it)
    (Item_Quantity it) (Money.MkMoney (Item_UnitPriceMinor it) currency)
    (Money.MkMoney lineTotal currency) (Item_CreatedAt it) (Item_UpdatedAt it).

(** A money field that was set to another currency. *)
Definition other_currency (m : Money.Money) (currency : string) : bool :=
  negb (String.eqb (Money.Currency m) "") && negb (String.eqb (Money.Currency m) currency).

(** The loop of [CalculateTotals] over the items, from [grandTotal] on. *)
Fixpoint calculate_loop (currency : string) (items : list CartItem) (grandTotal : Z) :
    result error (list CartItem * Z) :=
  match items with
  | [] => Ok ([], grandTotal)
  | item :: rest =>
      if Item_Quantity item <=? 0 then Err ErrInvalidQuantity else
      if Item_UnitPriceMinor item <? 0 then Err ErrInvalidPrice else
      if other_currency (Item_UnitPrice item) currency then Err ErrCurrencyMismatch else
      if other_currency (Item_LineTotal item) currency then Err ErrCurrencyMismatch else
      let qty64 := Item_Quantity item in
      if (0 <? qty64) && (Z.quot MaxInt64 qty64 <? Item_UnitPriceMinor item)
      then Err ErrArithmeticOverflow else
      let lineTotalMinor := mul64 (Item_UnitPriceMinor item) qty64 in
      if (0 <? lineTotalMinor) && (sub64 MaxInt64 lineTotalMinor <? grandTotal)
      then Err ErrArithmeticOverflow else
      match calculate_loop currency rest (add64 grandTotal lineTotalMinor) with
      | Ok (rest', total) => Ok (set_totals item lineTotalMinor currency :: rest', total)
      | Err e => Err e
      end
  end.

(** [CalculateTotals]; the callers drop the cart when it fails. *)
Definition CalculateTotals (c : Cart) (currency : string) : result error Cart :=
  let currency :=
    if String.eqb currency ""
    then (if String.eqb (Currency c) "" then "USD" else Currency c) else currency in
  match calculate_loop currency (Items c) 0 with
  | Err e => Err e
  | Ok (items, grandTotal) =>
      Ok (MkCart (ID c) (UserID c) (Status c) (Version c) currency items
            (Money.MkMoney grandTotal currency) (CreatedAt c) (UpdatedAt c))
  end.

(** * Tables *)

Record cart_row := MkCartRow {
  row_user : uuid;
  row_status : CartStatus;
  row_version : Z;
  row_created : Z;
  row_updated : Z;
}.

Record item_row := MkItemRow {
  row_id : uuid;
  quantity : Z;
  unit_price_minor : Z;
  item_created : Z;
  item_updated : Z;
}.

(** [cart_items] has UNIQUE (cart_id, sku), here its key. *)
Record State := MkState {
  carts : gmap uuid cart_row;
  cart_items : gmap (uuid * string) item_row;
}.

Definition empty_state : State := MkState ∅ ∅.
Definition set_carts (s : State) (m : gmap uuid cart_row) : State := MkState m (cart_items s).
Definition set_items (s : State) (m : gmap (uuid * string) item_row) : State := MkState (carts s) m.

Definition pg_check : string := "new row violates a constraint of its table".
Definition pg_range : string := "integer out of range".
Definition pg_unique : string := "duplicate key value violates unique constraint".
Definition pg_fk : string := "insert violates foreign key constraint".

(** The CHECK constraints of [cart_items]. *)
Definition item_ok (r : item_row) : bool :=
  (0 <? quantity r) && int4_ok (quantity r) && (0 <? unit_price_minor r) && int8_ok (unit_price_minor r).

Definition op := M State error.

(** * Repository (repository.go) *)

Section repository.
Local Open Scope go_scope.

Definition to_cart (id : uuid) (r : cart_row) : Cart :=
  MkCart id (row_user r) (row_status r) (row_version r) "" [] no_money (row_created r) (row_updated r).

Definition to_item (cartID : uuid) (sku : string) (r : item_row) : CartItem :=
  MkCartItem (row_id r) cartID sku "" (unit_price_minor r) (quantity r) no_money no_money
    (item_created r) (item_updated r).

Definition GetCartByID (id : uuid) : op Cart :=
  sql "get cart by id: " (λ _ s,
    match carts s !! id with
    | Some r => Ok (s, to_cart id r)
    | None => Err ErrCartNotFound
    end).

(** The row the partial unique index on (user_id) WHERE status = 'ACTIVE' finds. *)
Definition active_cart (s : State) (userID : uuid) : option (uuid * cart_row) :=
  snd <$> list_find (λ p, row_user p.2 = userID ∧ row_status p.2 = CartStatusActive)
            (map_to_list (carts s)).

Definition GetActiveCartByUserID (userID : uuid) : op Cart :=
  sql "get active cart by user id: " (λ _ s,
    match active_cart s userID with
    | Some (id, r) => Ok (s, to_cart id r)
    | None => Err ErrCartNotFound
    end).

(** [CreateCart]: the INSERT, or the update of the active cart the user has. *)
Definition CreateCart (cart : Cart) : op Cart :=
  let* id := if (ID cart =? uuid_Nil)%N then uuid_New else ret (ID cart) in
  sql "create or get active cart: " (λ now s,
    let '(id', r) :=
      match active_cart s (UserID cart) with
      | Some (id', r) => (id', MkCartRow (row_user r) (row_status r) (row_version r) (row_created r) now)
      | None => (id, MkCartRow (UserID cart) CartStatusActive 1 now now)
      end in
    if bool_decide (active_cart s (UserID cart) = None ∧ is_Some (carts s !! id))
    then Err (ErrDriver ("create or get active cart: " ++ pg_unique)%string)
    else Ok (set_carts s (<[id' := r]> (carts s)),
             MkCart id' (row_user r) (row_status r) (row_version r) (Currency cart) (Items cart)
               (TotalAmount cart) (row_created r) (row_updated r))).

(** [IncrementCartVersion]: a compare-and-set on the version of an active cart; when no
    row matched, a second statement says why. *)
Definition IncrementCartVersion (cartID : uuid) (expectedVersion : Z) : op Z :=
  let* updated := sql "increment cart version: " (λ now s,
    match carts s !! cartID with
    | Some r =>
        if decide (row_version r = expectedVersion ∧ row_status r = CartStatusActive) then
          let v := row_version r + 1 in
          if negb (int8_ok v) then Err (ErrDriver ("increment cart version: " ++ pg_range)%string)
          else Ok (set_carts s (<[cartID := MkCartRow (row_user r) (row_status r) v (row_created r) now]>
                                  (carts s)), Some v)
        else Ok (s, None)
    | None => Ok (s, None)
    end) in
  match updated with
  | Some newVersion => ret newVersion
  | None =>
      let* current := sql "check cart existence: " (λ _ s,
        match carts s !! cartID with
        | Some r => Ok (s, r)
        | None => Err ErrCartNotFound
        end) in
      if decide (row_status current = CartStatusActive) then fail ErrOptimisticLockConflict
      else fail ErrCartNotActive
  end.

Definition sku_le (x y : CartItem) : Prop := String.le (Item_SKU x) (Item_SKU y).
#[export] Instance sku_le_dec : RelDecision sku_le.
Proof. intros x y. unfold sku_le. apply _. Defined.

(** WHERE cart_id = $1 ORDER BY sku ASC *)
Definition items_of (s : State) (cartID : uuid) : list CartItem :=
  merge_sort sku_le
    ((λ p, to_item p.1.1 p.1.2 p.2) <$> filter (λ p, p.1.1 = cartID) (map_to_list (cart_items s))).

Definition GetCartItems (cartID : uuid) : op (list CartItem) :=
  sql "get cart items: " (λ _ s, Ok (s, items_of s cartID)).

(** [UpsertCartItem]: the id is [gen_random_uuid()]. *)
Definition UpsertCartItem (cartID : uuid) (sku : string) (qty unitPriceMinor : Z) : op unit :=
  let* id := uuid_New in
  sql "upsert cart item: " (λ now s,
    if negb (varchar_ok 64 sku && item_ok (MkItemRow id qty unitPriceMinor now now))
    then Err (ErrDriver ("upsert cart item: " ++ pg_check)%string) else
    match cart_items s !! (cartID, sku) with
    | Some r =>
        let q := quantity r + qty in
        if negb (int4_ok q) then Err (ErrDriver ("upsert cart item: " ++ pg_range)%string) else
        let row := MkItemRow (row_id r) q unitPriceMinor (item_created r) now in
        if negb (item_ok row) then Err (ErrDriver ("upsert cart item: " ++ pg_check)%string) else
        Ok (set_items s (<[(cartID, sku) := row]> (cart_items s)), tt)
    | None =>
        if bool_decide (carts s !! cartID = None)
        then Err (ErrDriver ("upsert cart item: " ++ pg_fk)%string) else
        if existsb (λ p, (row_id p.2 =? id)%N) (map_to_list (cart_items s))
        then Err (ErrDriver ("upsert cart item: " ++ pg_unique)%string) else
        Ok (set_items s (<[(cartID, sku) := MkItemRow id qty unitPriceMinor now now]> (cart_items s)), tt)
    end).

Definition UpdateCartItemQuantity (cartID : uuid) (sku : string) (qty : Z) : op unit :=
  sql "update cart item quantity: " (λ now s,
    if negb (int4_ok qty) then Err (ErrDriver ("update cart item quantity: " ++ pg_range)%string) else
    match cart_items s !! (cartID, sku) with
    | Some r =>
        let row := MkItemRow (row_id r) qty (unit_price_minor r) (item_created r) now in
        if negb (item_ok row) then Err (ErrDriver ("update cart item quantity: " ++ pg_check)%string)
        else Ok (set_items s (<[(cartID, sku) := row]> (cart_items s)), tt)
    | None => Err ErrItemNotFound
    end).

Definition DeleteCartItem (cartID : uuid) (sku : string) : op unit :=
  sql "delete cart item: " (λ _ s,
    match cart_items s !! (cartID, sku) with
    | Some _ => Ok (set_items s (delete (cartID, sku) (cart_items s)), tt)
    | None => Err ErrItemNotFound
    end).

Definition ClearCartItems (cartID : uuid) : op unit :=
  sql "clear cart items: " (λ _ s,
    Ok (set_items s (filter (λ p, p.1.1 ≠ cartID) (cart_items s)), tt)).
End repository.

(** * Service (service.go) *)

Section service.
Context `{CR : CatalogReader}.
Local Open Scope go_scope.

Definition set_title (title : string) (it : CartItem) : CartItem :=
  MkCartItem (Item_ID it) (Item_CartID it) (Item_SKU it) title (Item_UnitPriceMinor it)
    (Item_Quantity it) (Item_UnitPrice it) (Item_LineTotal it) (Item_CreatedAt it) (Item_UpdatedAt it).

(** [titleMap]: of two products with one SKU the later counts. *)
Definition title_map (products : list Product) : gmap string string :=
  foldl (λ m p, <[Product_SKU p := Product_Title p]> m) ∅ products.

(** [enrichItemTitles]: a failure of the catalogue leaves the titles empty. *)
Definition enrichItemTitles (items : list CartItem) : list CartItem :=
  match items with
  | [] => []
  | _ =>
      match GetProductsBySKUs (sort_strings (Item_SKU <$> items)) with
      | Err _ => items
      | Ok products =>
          (λ it, match title_map products !! Item_SKU it with
                 | Some title => set_title title it
                 | None => it
                 end) <$> items
      end
  end.

Definition with_items (c : Cart) (version : Z) (items : list CartItem) (currency : string) : Cart :=
  MkCart (ID c) (UserID c) (Status c) version currency items (TotalAmount c) (CreatedAt c) (UpdatedAt c).

(** The end of every operation: read the items, put their titles in, add up. *)
Definition load_items (c : Cart) (version : Z) (currency : string) : op Cart :=
  let* items := GetCartItems (ID c) in
  lift_result (CalculateTotals (with_items c version (enrichItemTitles items) currency) currency).

(** [if currency == "" { currency = "USD" }] *)
Definition cart_currency (c : Cart) : string := if String.eqb (Currency c) "" then "USD" else Currency c.

Definition CreateOrGetActiveCart (customerID : uuid) : op Cart :=
  if (customerID =? uuid_Nil)%N then fail ErrUnauthorized else
  let* id := uuid_New in
  let* cart := CreateCart (MkCart id customerID CartStatusActive 0 "USD" [] no_money 0 0) in
  load_items cart (Version cart) "USD".

Definition GetCart (cartID customerID : uuid) : op Cart :=
  if (customerID =? uuid_Nil)%N then fail ErrUnauthorized else
  let* cart := GetCartByID cartID in
  if negb (UserID cart =? customerID)%N then fail ErrForbidden else
  load_items cart (Version cart) (cart_currency cart).

(** The guards the changes of a cart share: the cart exists, is the customer's and
    active, and has the expected version. *)
Definition check_cart (cartID customerID : uuid) (expectedVersion : Z) : op Cart :=
  let* cart := GetCartByID cartID in
  if negb (UserID cart =? customerID)%N then fail ErrForbidden else
  if negb (bool_decide (Status cart = CartStatusActive)) then fail ErrCartNotActive else
  if negb (Version cart =? expectedVersion) then fail ErrOptimisticLockConflict else
  ret cart.

(** The transaction of a change: increment the version, then the change itself. *)
Definition change_tx (cart : Cart) (change : op unit) : op Z :=
  ExecuteTx (
    let* newVer := IncrementCartVersion (ID cart) (Version cart) in
    change ;;;
    ret newVer).

(** The price of the product that is added, or why it cannot be. *)
Definition resolve_price (sku : string) (cartCurrency : string) : result error Z :=
  match GetProductBySKU sku with
  | Err _ => Err ErrProductUnavailable
  | Ok product =>
      if negb (Product_IsActive product) then Err ErrProductUnavailable else
      let price := Product_Price product in
      let productCurrency :=
        if String.eqb (Money.Currency price) "" then "USD" else Money.Currency price in
      if negb (String.eqb productCurrency cartCurrency) then Err ErrCurrencyMismatch else
      let priceMinor :=
        if (Money.Amount price <=? 0) && (0 <? Product_PriceMinor product)
        then Product_PriceMinor product else Money.Amount price in
      if priceMinor <=? 0 then Err ErrInvalidPrice else Ok priceMinor
  end.

Definition AddItem (cartID customerID : uuid) (sku : string) (qty expectedVersion : Z) : op Cart :=
  if (customerID =? uuid_Nil)%N then fail ErrUnauthorized else
  if expectedVersion <=? 0 then fail ErrInvalidVersion else
  if qty <=? 0 then fail ErrInvalidQuantity else
  let sku := TrimSpace sku in
  if String.eqb sku "" then fail ErrEmptySKU else
  let* cart := check_cart cartID customerID expectedVersion in
  let* priceMinor := lift_result (resolve_price sku (cart_currency cart)) in
  let* newVer := change_tx cart (UpsertCartItem cartID sku qty priceMinor) in
  load_items cart newVer (cart_currency cart).

Definition RemoveItem (cartID customerID : uuid) (sku : string) (expectedVersion : Z) : op Cart :=
  if (customerID =? uuid_Nil)%N then fail ErrUnauthorized else
  if expectedVersion <=? 0 then fail ErrInvalidVersion else
  let* cart := check_cart cartID customerID expectedVersion in
  let* newVer := change_tx cart (DeleteCartItem cartID sku) in
  load_items cart newVer (cart_currency cart).

Definition UpdateQuantity (cartID customerID : uuid) (sku : string) (qty expectedVersion : Z) :
    op Cart :=
  if (customerID =? uuid_Nil)%N then fail ErrUnauthorized else
  if expectedVersion <=? 0 then fail ErrInvalidVersion else
  if qty <=? 0 then RemoveItem cartID customerID sku expectedVersion else
  let* cart := check_cart cartID customerID expectedVersion in
  let* newVer := change_tx cart (UpdateCartItemQuantity cartID sku qty) in
  load_items cart newVer (cart_currency cart).

Definition ClearCart (cartID customerID : uuid) (expectedVersion : Z) : op Cart :=
  if (customerID =? uuid_Nil)%N then fail ErrUnauthorized else
  if expectedVersion <=? 0 then fail ErrInvalidVersion else
  let* cart := check_cart cartID customerID expectedVersion in
  let* newVer := change_tx cart (ClearCartItems cartID) in
  let c := with_items cart newVer [] (cart_currency cart) in
  ret match CalculateTotals c (cart_currency cart) with Ok c' => c' | Err _ => c end.
End service.

(** * Totals *)

Definition line_total (it : CartItem) : Z := Item_UnitPriceMinor it * Item_Quantity it.
Definition cart_total (items : list CartItem) : Z := sumZ line_total items.

(** A line as the tables keep it: not priced in any currency yet. *)
Definition line_ok (it : CartItem) : Prop :=
  0 < Item_Quantity it ∧ 0 <= Item_UnitPriceMinor it ∧
  Item_UnitPrice it = no_money ∧ Item_LineTotal it = no_money.

Definition priced_items (currency : string) (items : list CartItem) : list CartItem :=
  (λ it, set_totals it (line_total it) currency) <$> items.

Lemma cart_total_nonneg items : Forall line_ok items → 0 <= cart_total items.
Proof.
  intros H. apply sumZ_nonneg. intros it Hin.
  destruct (proj1 (Forall_forall _ _) H it Hin) as (? & ? & _). unfold line_total. nia.
Qed.

(** On the lines of the tables the loop is exact: the sum if it fits, and an overflow
    otherwise. *)
Lemma cart_calculate_loop_spec currency items acc :
  Forall line_ok items → 0 <= acc <= MaxInt64 →
  calculate_loop currency items acc =
    if acc + cart_total items <=? MaxInt64
    then Ok (priced_items currency items, acc + cart_total items) else Err ErrArithmeticOverflow.
Proof.
  intros Hok. revert acc. induction Hok as [|it items (Hq & Hp & Hu & Hl) Hok IH]; intros acc Hacc.
  { unfold cart_total. simpl. rewrite Z.add_0_r. by rewrite (proj2 (Z.leb_le acc MaxInt64)) by lia. }
  pose proof (cart_total_nonneg items Hok) as Hrest.
  assert (Hsum : cart_total (it :: items) = line_total it + cart_total items) by done.
  assert (0 <= line_total it) by (unfold line_total; nia).
  cbn [calculate_loop]. rewrite Hu, Hl. change (other_currency no_money currency) with false. cbv iota.
  rewrite (proj2 (Z.leb_gt (Item_Quantity it) 0)) by lia.
  rewrite (proj2 (Z.ltb_ge (Item_UnitPriceMinor it) 0)) by lia.
  rewrite (proj2 (Z.ltb_lt 0 (Item_Quantity it))) by lia. rewrite andb_true_l.
  pose proof (mul_guard_exact (Item_UnitPriceMinor it) (Item_Quantity it) Hq) as Hg.
  fold (line_total it) in Hg.
  destruct (Z.ltb_spec (Z.quot MaxInt64 (Item_Quantity it)) (Item_UnitPriceMinor it)) as [Hov|Hov].
  { rewrite (proj2 (Z.leb_gt _ _)); [done|]. lia. }
  apply Hg in Hov. rewrite mul64_id by (fold (line_total it); unfold in64, MinInt64; lia).
  fold (line_total it). rewrite sub64_id by (unfold in64, MinInt64; lia).
  destruct (Z.ltb_spec (MaxInt64 - line_total it) acc) as [Hov2|Hov2].
  { rewrite (proj2 (Z.ltb_lt 0 (line_total it))) by lia. simpl.
    rewrite (proj2 (Z.leb_gt _ _)); [done|]. lia. }
  rewrite andb_false_r, add64_id by (unfold in64, MinInt64; lia). rewrite IH by lia. cbv zeta.
  rewrite Hsum, Z.add_assoc. by destruct (_ <=? MaxInt64).
Qed.

(** [CalculateTotals] of a cart just read: exact, or an overflow. *)
Lemma CalculateTotals_spec c currency :
  Forall line_ok (Items c) → currency ≠ "" →
  CalculateTotals c currency =
    if cart_total (Items c) <=? MaxInt64
    then Ok (MkCart (ID c) (UserID c) (Status c) (Version c) currency (priced_items currency (Items c))
               (Money.MkMoney (cart_total (Items c)) currency) (CreatedAt c) (UpdatedAt c))
    else Err ErrArithmeticOverflow.
Proof.
  intros Hok Hc. unfold CalculateTotals. apply String.eqb_neq in Hc. rewrite Hc.
  rewrite cart_calculate_loop_spec, Z.add_0_l by (done || (unfold MaxInt64; lia)).
  by destruct (_ <=? MaxInt64).
Qed.

(** * Lines *)

(** What a cart holds of a SKU: quantity and unit price. *)
Definition contents (s : State) (id : uuid) (sku : string) : option (Z * Z) :=
  (λ r, (quantity r, unit_price_minor r)) <$> cart_items s !! (id, sku).

(** Every row satisfies the constraints of its table and belongs to a cart, and a user
    has one active cart at most. *)
Record wf (s : State) : Prop := {
  wf_items : ∀ id sku r, cart_items s !! (id, sku) = Some r → item_ok r = true ∧ is_Some (carts s !! id);
  wf_active : ∀ id1 id2 r1 r2, carts s !! id1 = Some r1 → carts s !! id2 = Some r2 →
    row_status r1 = CartStatusActive → row_status r2 = CartStatusActive →
    row_user r1 = row_user r2 → id1 = id2;
}.

Lemma cart_items_of_perm s id :
  items_of s id ≡ₚ (λ p, to_item p.1.1 p.1.2 p.2) <$> filter (λ p, p.1.1 = id) (map_to_list (cart_items s)).
Proof. apply merge_sort_Permutation. Qed.

Lemma cart_items_of_elem s id it :
  it ∈ items_of s id ↔ ∃ r, cart_items s !! (id, Item_SKU it) = Some r ∧ it = to_item id (Item_SKU it) r.
Proof.
  rewrite cart_items_of_perm, list_elem_of_fmap. split.
  - intros ([[id' sku] r] & -> & [Hid Hin]%list_elem_of_filter). simpl in *. subst id'.
    apply elem_of_map_to_list in Hin. by exists r.
  - intros (r & Hr & ->). exists ((id, Item_SKU it), r). simpl. split; [done|].
    apply list_elem_of_filter. split; [done|]. by apply elem_of_map_to_list.
Qed.

Lemma items_of_line s id sku q p :
  contents s id sku = Some (q, p) ↔
  ∃ it, it ∈ items_of s id ∧ Item_SKU it = sku ∧ Item_Quantity it = q ∧ Item_UnitPriceMinor it = p.
Proof.
  unfold contents. rewrite fmap_Some. split.
  - intros (r & Hr & [= -> ->]). exists (to_item id sku r). split_and!; try done.
    apply cart_items_of_elem. by exists r.
  - intros (it & (r & Hr & Hit)%cart_items_of_elem & <- & <- & <-). exists r. split; [done|].
    rewrite Hit at 1 2. done.
Qed.

Lemma cart_items_of_nodup s id : NoDup (Item_SKU <$> items_of s id).
Proof.
  rewrite cart_items_of_perm, <-list_fmap_compose.
  pose proof (NoDup_fst_map_to_list (cart_items s)) as Hnd.
  induction (map_to_list (cart_items s)) as [|[[id' sku] r] l IH]; [constructor|].
  csimpl in Hnd. inversion_clear Hnd as [|? ? Hn Hnd']. rewrite filter_cons.
  case_decide as Hid; [|by apply IH]. csimpl in *. subst id'. constructor; [|by apply IH].
  intros ([[id' sku'] r'] & Hs & [Hid Hin]%list_elem_of_filter)%list_elem_of_fmap. simpl in *. subst.
  apply Hn, list_elem_of_fmap. by exists (id, sku', r').
Qed.

Lemma items_of_sorted s id : Sorted sku_le (items_of s id).
Proof. apply Sorted_merge_sort. intros x y. unfold sku_le. apply (total String.le). Qed.

Lemma items_of_ok s id : wf s → Forall line_ok (items_of s id).
Proof.
  intros Hwf. apply Forall_forall. intros it (r & Hr & ->)%cart_items_of_elem.
  destruct (wf_items s Hwf _ _ _ Hr) as [Hok _]. unfold item_ok in Hok.
  rewrite !andb_true_iff, !Z.ltb_lt in Hok. unfold line_ok. simpl. split_and!; [lia|lia|done|done].
Qed.

(** * Changes *)

Definition bump (r : cart_row) (now : Z) : cart_row :=
  MkCartRow (row_user r) (row_status r) (row_version r + 1) (row_created r) now.

Definition view := string → option (Z * Z).

(** The change of a cart's lines, on the quantities and prices it holds. *)
Definition put_line (sku : string) (q p : Z) (c : view) : view := λ k,
  if decide (k = sku) then Some (default 0 (fst <$> c sku) + q, p) else c k.
Definition set_line (sku : string) (q : Z) (c : view) : view := λ k,
  if decide (k = sku) then (λ x, (q, x.2)) <$> c sku else c k.
Definition drop_line (sku : string) (c : view) : view := λ k, if decide (k = sku) then None else c k.
Definition no_lines (c : view) : view := λ _, None.

(** [s'] is [s] with the lines of cart [id] changed by [f], in rows its table accepts. *)
Record edited (id : uuid) (f : view → view) (s s' : State) : Prop := {
  ed_carts : carts s' = carts s;
  ed_contents : ∀ sku, contents s' id sku = f (contents s id) sku;
  ed_others : ∀ k, k.1 ≠ id → cart_items s' !! k = cart_items s !! k;
  ed_rows : ∀ k r, cart_items s' !! k = Some r → cart_items s !! k = Some r ∨
    (item_ok r = true ∧ (is_Some (cart_items s !! k) ∨ is_Some (carts s !! k.1)));
}.

(** A statement that edits the lines of [id] by [f], or fails without effect. *)
Definition edits (id : uuid) (f : view → view) (m : op unit) : Prop :=
  ∀ env n s n' s' r, m env n s = (n', s', r) →
    match r with Ok _ => edited id f s s' | Err _ => s' = s end.

(** Writing one row. *)
Lemma edited_insert id sku row f s :
  item_ok row = true → is_Some (cart_items s !! (id, sku)) ∨ is_Some (carts s !! id) →
  (∀ k, f (contents s id) k =
        if decide (k = sku) then Some (quantity row, unit_price_minor row) else contents s id k) →
  edited id f s (set_items s (<[(id, sku) := row]> (cart_items s))).
Proof.
  intros Hok Hex Hf. split; [done|..].
  - intros k. rewrite Hf. unfold contents. simpl. case_decide as Hk.
    + subst. by rewrite lookup_insert_eq.
    + by rewrite lookup_insert_ne by (intros [= ?]; done).
  - intros k Hk. simpl. apply lookup_insert_ne. intros <-. done.
  - intros k r. simpl. destruct (decide (k = (id, sku))) as [->|Hk].
    + rewrite lookup_insert_eq. intros [= <-]. by right.
    + rewrite lookup_insert_ne by done. by left.
Qed.

Lemma sql_edits id f what (g : Z → State → result error (State * unit)) :
  (∀ now s s', g now s = Ok (s', tt) → edited id f s s') → edits id f (sql what g).
Proof.
  intros H env n s n' s' r Hrun. destruct r as [[]|e]; [|by eapply sql_err_inv].
  apply sql_ok_inv in Hrun as (_ & Hg & _). by eapply H.
Qed.

Lemma UpsertCartItem_edits id sku q p : edits id (put_line sku q p) (UpsertCartItem id sku q p).
Proof.
  intros env n s n' s' r Hrun. unfold UpsertCartItem in Hrun.
  rewrite (bind_ok _ _ _ _ _ (S n) s (env_uuid env n) eq_refl) in Hrun. revert Hrun. apply sql_edits.
  clear. intros now s s'. destruct (varchar_ok 64 sku && item_ok _) eqn:Hok; [|done].
  apply andb_true_iff in Hok as [_ Hok]. cbn [negb].
  destruct (cart_items s !! (id, sku)) as [row|] eqn:Hrow.
  - destruct (int4_ok _); [|done]. cbn [negb]. destruct (item_ok (MkItemRow (row_id row) _ _ _ _)) eqn:Hok'; [|done].
    intros [= <-]. apply edited_insert; [done|left; by eauto|].
    intros k. unfold put_line. case_decide; [|done]. unfold contents. by rewrite Hrow.
  - case_bool_decide as Hc; [done|]. destruct (existsb _ _); [done|]. intros [= <-].
    apply edited_insert; [done|right; by destruct (carts s !! id); [eauto|]|].
    intros k. unfold put_line. case_decide; [|done]. unfold contents. by rewrite Hrow.
Qed.

Lemma UpdateCartItemQuantity_edits id sku q :
  edits id (set_line sku q) (UpdateCartItemQuantity id sku q).
Proof.
  apply sql_edits. intros now s s'. destruct (int4_ok q); [|done]. cbn [negb].
  destruct (cart_items s !! (id, sku)) as [row|] eqn:Hrow; [|done].
  destruct (item_ok _) eqn:Hok; [|done]. intros [= <-].
  apply edited_insert; [done|left; by eauto|].
  intros k. unfold set_line. case_decide; [|done]. unfold contents. by rewrite Hrow.
Qed.

Lemma DeleteCartItem_edits id sku : edits id (drop_line sku) (DeleteCartItem id sku).
Proof.
  apply sql_edits. intros now s s'. destruct (cart_items s !! (id, sku)) as [row|] eqn:Hrow; [|done].
  intros [= <-]. split; [done|..].
  - intros k. unfold drop_line, contents. simpl. case_decide as Hk.
    + subst. by rewrite lookup_delete_eq.
    + by rewrite lookup_delete_ne by (intros [= ?]; done).
  - intros k Hk. simpl. apply lookup_delete_ne. intros <-. done.
  - intros k r. simpl. intros [_ H]%lookup_delete_Some. by left.
Qed.

Lemma ClearCartItems_edits id : edits id no_lines (ClearCartItems id).
Proof.
  apply sql_edits. intros now s s' [= <-]. split; [done|..].
  - intros k. unfold no_lines, contents. simpl. apply fmap_None, map_lookup_filter_None.
    right. intros r _ H. by apply H.
  - intros k Hk. simpl. destruct (cart_items s !! k) as [r|] eqn:Hr.
    + by apply map_lookup_filter_Some.
    + apply map_lookup_filter_None. by left.
  - intros k r. simpl. intros [H _]%map_lookup_filter_Some. by left.
Qed.

(** ** The version *)

Lemma IncrementCartVersion_spec id v env n s n' s' r :
  IncrementCartVersion id v env n s = (n', s', r) →
  match r with
  | Ok v' => ∃ row now, carts s !! id = Some row ∧ row_version row = v ∧
      row_status row = CartStatusActive ∧ v' = v + 1 ∧
      s' = set_carts s (<[id := bump row now]> (carts s))
  | Err e => s' = s ∧ ((∃ m, e = ErrDriver m) ∨ (e = ErrCartNotFound ∧ carts s !! id = None) ∨
      ∃ row, carts s !! id = Some row ∧
        ((e = ErrCartNotActive ∧ row_status row ≠ CartStatusActive) ∨
         (e = ErrOptimisticLockConflict ∧ row_version row ≠ v)))
  end.
Proof.
  unfold IncrementCartVersion, bind, sql, ret, fail.
  destruct (env_fault env n); [intros [= <- <- <-]; split; [done|left; by eexists]|].
  destruct (carts s !! id) as [row|] eqn:Hrow.
  - case_decide as Hc.
    + destruct Hc as [Hv Hst]. destruct (int8_ok _); intros [= <- <- <-]; [|split; [done|left; by eexists]].
      exists row, (env_now env n). split_and!; [done..| |]; unfold bump; by rewrite Hv.
    + cbv beta iota; destruct (env_fault env (S n)); [intros [= <- <- <-]; split; [done|left; by eexists]|]. rewrite Hrow.
      case_decide as Hst; intros [= <- <- <-]; (split; [done|]; right; right; exists row; split; [done|]).
      * right. split; [done|]. intros Hv. by apply Hc.
      * by left.
  - cbv beta iota; destruct (env_fault env (S n)); [intros [= <- <- <-]; split; [done|left; by eexists]|]. rewrite Hrow.
    intros [= <- <- <-]. split; [done|]. right. by left.
Qed.

(** What a change of cart [id] at version [v] does: one row of [carts] moves to the next
    version, and the lines of that cart change by [f]. *)
Definition changed (id : uuid) (v : Z) (f : view → view) (s s' : State) : Prop :=
  ∃ row now, carts s !! id = Some row ∧ row_version row = v ∧ row_status row = CartStatusActive ∧
    edited id f (set_carts s (<[id := bump row now]> (carts s))) s'.

Lemma change_tx_spec c change f env n s n' s' r :
  edits (ID c) f change → change_tx c change env n s = (n', s', r) →
  match r with
  | Ok v' => v' = Version c + 1 ∧ changed (ID c) (Version c) f s s'
  | Err _ => s' = s
  end.
Proof.
  intros He Hrun. unfold change_tx in Hrun. destruct r as [v'|e]; [|by eapply ExecuteTx_err].
  apply ExecuteTx_ok in Hrun as (n1 & Hrun & _). run_inv.
  match goal with H : IncrementCartVersion _ _ _ _ _ = _ |- _ => apply IncrementCartVersion_spec in H end.
  match goal with H : change _ _ _ = _ |- _ => apply He in H end.
  destruct H as (row & now & H1 & H2 & H3 & -> & ->). split; [done|]. by exists row, now.
Qed.

Lemma changed_wf id v f s s' : changed id v f s s' → wf s → wf s'.
Proof.
  intros (row & now & Hrow & _ & _ & [Hc _ _ Hr]) Hwf. simpl in *. split.
  - intros id' sku r H. destruct (Hr _ _ H) as [Hold|[Hok Hex]].
    + destruct (wf_items s Hwf _ _ _ Hold) as [? ?]. split; [done|].
      rewrite Hc, lookup_insert_is_Some. destruct (decide (id = id')); [by left|by right].
    + split; [done|]. rewrite Hc. simpl in *. destruct Hex as [[r' Hex]|Hex].
      * destruct (wf_items s Hwf _ _ _ Hex) as [_ ?]. rewrite lookup_insert_is_Some.
        destruct (decide (id = id')); [by left|by right].
      * exact Hex.
  - assert (Hlook : ∀ i r, carts s' !! i = Some r → ∃ r0, carts s !! i = Some r0 ∧
        row_user r0 = row_user r ∧ row_status r0 = row_status r).
    { intros i r. rewrite Hc. destruct (decide (i = id)) as [->|Hi].
      - rewrite lookup_insert_eq. intros [= <-]. by exists row.
      - rewrite lookup_insert_ne by done. by exists r. }
    intros id1 id2 r1 r2 (q1 & H1 & U1 & S1)%Hlook (q2 & H2 & U2 & S2)%Hlook Ha1 Ha2 Hu.
    apply (wf_active s Hwf id1 id2 q1 q2 H1 H2); congruence.
Qed.

(** ** The requests that change a cart *)

Inductive request :=
| Add (sku : string) (qty : Z)
| SetQuantity (sku : string) (qty : Z)
| Remove (sku : string)
| Clear.

(** What the request asks for, on the lines of the cart; [p] is the price of the product
    that is added. *)
Definition effect (r : request) (p : Z) : view → view :=
  match r with
  | Add sku q => put_line (TrimSpace sku) q p
  | SetQuantity sku q => if q <=? 0 then drop_line sku else set_line sku q
  | Remove sku => drop_line sku
  | Clear => no_lines
  end.

Definition statement (r : request) (id : uuid) (p : Z) : op unit :=
  match r with
  | Add sku q => UpsertCartItem id (TrimSpace sku) q p
  | SetQuantity sku q => if q <=? 0 then DeleteCartItem id sku else UpdateCartItemQuantity id sku q
  | Remove sku => DeleteCartItem id sku
  | Clear => ClearCartItems id
  end.

Lemma statement_edits r id p : edits id (effect r p) (statement r id p).
Proof.
  destruct r as [sku q|sku q|sku|]; simpl.
  - apply UpsertCartItem_edits.
  - destruct (q <=? 0); [apply DeleteCartItem_edits|apply UpdateCartItemQuantity_edits].
  - apply DeleteCartItem_edits.
  - apply ClearCartItems_edits.
Qed.

Section operations.
Context `{CR : CatalogReader}.

Definition serve (r : request) (id user : uuid) (v : Z) : op Cart :=
  match r with
  | Add sku q => AddItem id user sku q v
  | SetQuantity sku q => UpdateQuantity id user sku q v
  | Remove sku => RemoveItem id user sku v
  | Clear => ClearCart id user v
  end.

Lemma enrich_same items :
  Forall2 (λ x y, ∃ title, y = set_title title x) items (enrichItemTitles items) ∨
  enrichItemTitles items = items.
Proof.
  unfold enrichItemTitles. destruct items as [|it items]; [by right|].
  destruct (GetProductsBySKUs _) as [ps|e]; [left|by right].
  apply Forall2_fmap_r, Forall2_same_length_lookup_2; [done|].
  intros i x y Hx Hy. simplify_eq. cbn. destruct (title_map ps !! Item_SKU x) as [t|]; [by exists t|].
  exists (Item_Title x). by destruct x.
Qed.

Lemma enrich_total items : cart_total (enrichItemTitles items) = cart_total items.
Proof.
  destruct (enrich_same items) as [H|H]; [|by rewrite H].
  unfold cart_total. induction H as [|x y l l' [t ->] _ IH]; simpl; [done|]. by rewrite IH.
Qed.

Lemma enrich_ok items : Forall line_ok items → Forall line_ok (enrichItemTitles items).
Proof.
  destruct (enrich_same items) as [H|H]; [|by rewrite H].
  induction H as [|x y l l' [t ->] _ IH]; [done|]. intros Hl. inversion_clear Hl.
  constructor; [done|by apply IH].
Qed.

(** The cart shown to the customer is the one in the tables. *)
Definition shows (s : State) (id u : uuid) (v : Z) (c : Cart) : Prop :=
  ID c = id ∧ UserID c = u ∧ Version c = v ∧ Currency c = "USD" ∧
  Items c = priced_items "USD" (enrichItemTitles (items_of s id)) ∧
  TotalAmount c = Money.MkMoney (cart_total (items_of s id)) "USD".

Lemma load_items_spec c v env n s n' s' r :
  wf s → load_items c v "USD" env n s = (n', s', r) →
  s' = s ∧
  match r with
  | Ok c' => shows s (ID c) (UserID c) v c' ∧ cart_total (items_of s (ID c)) <= MaxInt64
  | Err e => (e = ErrArithmeticOverflow ∧ MaxInt64 < cart_total (items_of s (ID c))) ∨
             (faulted env ∧ ∃ m, e = ErrDriver m)
  end.
Proof.
  intros Hwf. unfold load_items, bind, GetCartItems, sql, lift_result.
  destruct (env_fault env n) as [m|] eqn:Hn.
  { intros [= <- <- <-]. split; [done|]. right. split; [by exists n, m|by eexists]. }
  rewrite CalculateTotals_spec; [|by apply enrich_ok, items_of_ok|done].
  cbn [Items with_items]. rewrite enrich_total.
  destruct (Z.leb_spec (cart_total (items_of s (ID c))) MaxInt64); intros [= <- <- <-]; split; try done.
  by left.
Qed.

Lemma check_cart_spec id u v env n s n' s' r :
  check_cart id u v env n s = (n', s', r) →
  s' = s ∧ match r with
  | Ok c => ∃ row, carts s !! id = Some row ∧ row_user row = u ∧ row_status row = CartStatusActive ∧
                   row_version row = v ∧ c = to_cart id row
  | Err e => (faulted env ∧ ∃ m, e = ErrDriver m) ∨ (e = ErrCartNotFound ∧ carts s !! id = None) ∨
      ∃ row, carts s !! id = Some row ∧
        ((e = ErrForbidden ∧ row_user row ≠ u) ∨
         (e = ErrCartNotActive ∧ row_status row ≠ CartStatusActive) ∨
         (e = ErrOptimisticLockConflict ∧ row_version row ≠ v))
  end.
Proof.
  unfold check_cart, bind, GetCartByID, sql, fail, ret.
  destruct (env_fault env n) as [m|] eqn:Hn.
  { intros [= <- <- <-]. split; [done|]. left. split; [by exists n, m|by eexists]. }
  destruct (carts s !! id) as [row|] eqn:Hrow; [|intros [= <- <- <-]; split; [done|]; right; by left].
  cbn [to_cart UserID Status Version].
  destruct (N.eqb_spec (row_user row) u) as [Hu|Hu]; cbn [negb];
    [|intros [= <- <- <-]; split; [done|]; right; right; exists row; by auto].
  case_bool_decide as Hst; cbn [negb];
    [|intros [= <- <- <-]; split; [done|]; right; right; exists row; by auto].
  destruct (Z.eqb_spec (row_version row) v) as [Hv|Hv]; cbn [negb]; intros [= <- <- <-];
    (split; [done|]); [by exists row|right; right; exists row; by auto].
Qed.
End operations.

(** * Properties *)

(** No statement of a change reports an overflow of the total. *)
Definition not_overflow (e : error) : Prop := e ≠ ErrArithmeticOverflow.

Lemma raises_not_overflow {A} what (f : Z → State → result error (State * A)) :
  (∀ now s e, f now s = Err e → not_overflow e) → raises not_overflow (sql what f).
Proof. intros H. by apply raises_sql. Qed.

Lemma statement_not_overflow r id p : raises not_overflow (statement r id p).
Proof.
  assert (Hdel : ∀ sku, raises not_overflow (DeleteCartItem id sku)).
  { intros sku. apply raises_not_overflow. intros now s e. by destruct (_ !! _); intros [= <-]. }
  destruct r as [sku q|sku q|sku|]; simpl; [|destruct (q <=? 0)|..]; auto.
  - apply raises_bind; [apply raises_uuid|]. intros x. apply raises_not_overflow. intros now s e H.
    split_match H; by simplify_eq.
  - apply raises_not_overflow. intros now s e H. split_match H; by simplify_eq.
  - apply raises_not_overflow. by intros now s e [= ].
Qed.

Lemma change_tx_not_overflow c r id p : raises not_overflow (change_tx c (statement r id p)).
Proof.
  apply raises_ExecuteTx; [done|]. apply raises_bind.
  - intros env n s n' s' e H. apply IncrementCartVersion_spec in H as [_ H].
    destruct H as [[m ->]|[[-> _]|(row & _ & [[-> _]|[-> _]])]]; done.
  - intros v. apply raises_bind; [apply statement_not_overflow|]. intros _. apply raises_ret.
Qed.

Section changing.
Context `{CR : CatalogReader}.

(** After a change was committed, the caller gets the cart, or learns that its total
    does not fit, or the reading of the lines failed. *)
Definition committed_answer (env : Env) (s : State) (id u : uuid) (v : Z) (r : result error Cart) : Prop :=
  match r with
  | Ok c => shows s id u v c ∧ cart_total (items_of s id) <= MaxInt64
  | Err e => (e = ErrArithmeticOverflow ∧ MaxInt64 < cart_total (items_of s id)) ∨
             (faulted env ∧ ∃ m, e = ErrDriver m)
  end.

Lemma change_and_load c change f env n s n' s' r :
  wf s → edits (ID c) f change →
  bind (change_tx c change) (λ newVer, load_items c newVer "USD") env n s = (n', s', r) →
  raises not_overflow (change_tx c change) →
  (s' = s ∧ ∃ e, r = Err e ∧ not_overflow e) ∨
  (changed (ID c) (Version c) f s s' ∧ committed_answer env s' (ID c) (UserID c) (Version c + 1) r).
Proof.
  intros Hwf He [(e & H & ->)|(n1 & s1 & v' & H & Hload)]%bind_inv Hno.
  - pose proof (Hno _ _ _ _ _ _ H). apply (change_tx_spec _ _ _ _ _ _ _ _ _ He) in H. left. by eauto.
  - apply (change_tx_spec _ _ _ _ _ _ _ _ _ He) in H as [-> Hch]. right.
    assert (Hwf1 := changed_wf _ _ _ _ _ Hch Hwf).
    apply (load_items_spec _ _ _ _ _ _ _ _ Hwf1) in Hload as [-> Hr]. by destruct r.
Qed.

Lemma no_lines_items s id : (∀ sku, contents s id sku = None) → items_of s id = [].
Proof.
  intros H. destruct (items_of s id) as [|it l] eqn:Hl; [done|].
  assert (Hin : it ∈ items_of s id) by (rewrite Hl; set_solver).
  assert (contents s id (Item_SKU it) = Some (Item_Quantity it, Item_UnitPriceMinor it))
    by (apply items_of_line; by exists it).
  by rewrite H in *.
Qed.

Lemma clear_and_answer c env n s n' s' r :
  wf s →
  bind (change_tx c (ClearCartItems (ID c))) (λ newVer,
    let c' := with_items c newVer [] "USD" in
    ret match CalculateTotals c' "USD" with Ok c'' => c'' | Err _ => c' end) env n s = (n', s', r) →
  (s' = s ∧ ∃ e, r = Err e ∧ not_overflow e) ∨
  (changed (ID c) (Version c) no_lines s s' ∧
   committed_answer env s' (ID c) (UserID c) (Version c + 1) r).
Proof.
  intros Hwf [(e & H & ->)|(n1 & s1 & v' & H & Hload)]%bind_inv.
  { pose proof (change_tx_not_overflow c Clear (ID c) 0 _ _ _ _ _ _ H).
    apply (change_tx_spec _ _ _ _ _ _ _ _ _ (ClearCartItems_edits (ID c))) in H. left. by eauto. }
  apply (change_tx_spec _ _ _ _ _ _ _ _ _ (ClearCartItems_edits (ID c))) in H.
  destruct H as [-> Hch]. unfold ret in Hload. simplify_eq. right. split; [done|].
  assert (Hnone : items_of s' (ID c) = []).
  { apply no_lines_items. destruct Hch as (row & now & _ & _ & _ & [_ Hc _ _]). exact Hc. }
  unfold committed_answer, shows. by rewrite Hnone.
Qed.

(** What a change request may answer, and do. *)
Definition answered (r : request) (id u : uuid) (v : Z) (env : Env) (s s' : State)
    (res : result error Cart) : Prop :=
  (s' = s ∧ ∃ e, res = Err e ∧ not_overflow e) ∨
  (∃ row p, carts s !! id = Some row ∧ row_user row = u ∧
     (∀ sku q, r = Add sku q → resolve_price (TrimSpace sku) "USD" = Ok p) ∧
     changed id v (effect r p) s s' ∧ committed_answer env s' id u (v + 1) res).

Lemma answered_fail r id u v env n (s : State) n' s' e res :
  not_overflow e → fail e env n s = (n', s', res) → answered r id u v env s s' res.
Proof. unfold fail. intros He [= <- <- <-]. left. by eauto. Qed.

Lemma answered_check r id u v env n s n' s' res (k : Cart → op Cart) :
  bind (check_cart id u v) k env n s = (n', s', res) →
  (∀ n1 row, carts s !! id = Some row → row_user row = u → row_version row = v →
     k (to_cart id row) env n1 s = (n', s', res) → answered r id u v env s s' res) →
  answered r id u v env s s' res.
Proof.
  intros [(e & H & ->)|(n1 & s1 & c & H & Hk)]%bind_inv Hcont; apply check_cart_spec in H.
  - left. destruct H as [-> H]. split; [done|]. exists e. split; [done|].
    destruct H as [(_ & m & ->)|[[-> _]|(row & _ & [[-> _]|[[-> _]|[-> _]]])]]; done.
  - destruct H as [-> (row & H1 & H2 & _ & H3 & ->)]. by apply (Hcont n1 row).
Qed.

Lemma answered_change r id u v p row env n s n' s' res :
  wf s → carts s !! id = Some row → row_user row = u → row_version row = v →
  (∀ sku q, r = Add sku q → resolve_price (TrimSpace sku) "USD" = Ok p) →
  bind (change_tx (to_cart id row) (statement r id p)) (λ newVer, load_items (to_cart id row) newVer "USD")
    env n s = (n', s', res) →
  answered r id u v env s s' res.
Proof.
  intros Hwf Hrow Hu Hv Hp H.
  apply (change_and_load _ _ (effect r p)) in H as [H|[H1 H2]];
    [by left| |done|apply statement_edits|apply change_tx_not_overflow].
  right. exists row, p. simpl in H1, H2. by subst.
Qed.

Lemma resolve_price_err sku currency e : resolve_price sku currency = Err e → not_overflow e.
Proof. unfold resolve_price. intros H. split_match H; by simplify_eq. Qed.

Lemma serve_answered r id u v env n s n' s' res :
  wf s → serve r id u v env n s = (n', s', res) → answered r id u v env s s' res.
Proof.
  intros Hwf Hrun. destruct r as [sku q|sku q|sku|]; unfold serve in Hrun;
    [unfold AddItem in Hrun|unfold UpdateQuantity, RemoveItem in Hrun|unfold RemoveItem in Hrun|
     unfold ClearCart in Hrun];
    (destruct (u =? uuid_Nil)%N; [by eapply answered_fail; [|exact Hrun]|]);
    (destruct (v <=? 0); [by eapply answered_fail; [|exact Hrun]|]).
  - destruct (q <=? 0); [by eapply answered_fail; [|exact Hrun]|]. cbv zeta in Hrun.
    destruct (String.eqb _ _); [by eapply answered_fail; [|exact Hrun]|].
    eapply answered_check; [exact Hrun|]. clear Hrun. intros n1 row Hrow Hu Hv Hrun.
    apply bind_inv in Hrun as [(e & H & ->)|(n2 & s2 & p & H & Hrun)];
      unfold lift_result in H; injection H as <- <- Hp.
    { left. split; [done|]. exists e. split; [done|]. by eapply resolve_price_err. }
    eapply (answered_change _ _ _ _ p); try done. by intros sku' q' [= <- <-].
  - destruct (q <=? 0) eqn:Hq;
      (eapply answered_check; [exact Hrun|]); clear Hrun; intros n1 row Hrow Hu Hv Hrun;
      (eapply (answered_change _ _ _ _ 0); [done..|]); unfold statement; rewrite Hq; exact Hrun.
  - eapply answered_check; [exact Hrun|]. clear Hrun. intros n1 row Hrow Hu Hv Hrun.
    eapply (answered_change _ _ _ _ 0); [done..|exact Hrun].
  - eapply answered_check; [exact Hrun|]. clear Hrun. intros n1 row Hrow Hu Hv Hrun.
    apply (clear_and_answer (to_cart id row)) in Hrun as [H|[H1 H2]]; [by left| |done].
    right. exists row, 0. simpl in H1, H2. by subst.
Qed.

End changing.

(** ** Any interleaving *)

(** What changes the tables: the statement that finds or creates a cart, and the
    transaction of a change, for a cart read at any earlier time and any price. *)
Inductive cart_step (s s' : State) : Prop :=
| StepCreate env n c : s' = final (CreateCart c env n s) → cart_step s s'
| StepChange env n c r p : s' = final (change_tx c (statement r (ID c) p) env n s) → cart_step s s'.

(** The rows of a cart between two states: it is the same customer's, its version never
    goes back, and while it has not moved neither have its lines. *)
Definition advanced (s s' : State) : Prop :=
  ∀ id r, carts s !! id = Some r → ∃ r', carts s' !! id = Some r' ∧ row_user r' = row_user r ∧
    row_version r <= row_version r' ∧
    (row_version r' = row_version r → ∀ sku, cart_items s' !! (id, sku) = cart_items s !! (id, sku)).

Lemma advanced_refl s : advanced s s.
Proof. intros id r H. exists r. by split_and!. Qed.

Lemma advanced_trans s1 s2 s3 : advanced s1 s2 → advanced s2 s3 → advanced s1 s3.
Proof.
  intros H1 H2 id r Hr. destruct (H1 id r Hr) as (r2 & Hr2 & U2 & V2 & C2).
  destruct (H2 id r2 Hr2) as (r3 & Hr3 & U3 & V3 & C3). exists r3. split_and!; [done|congruence|lia|].
  intros Hv sku. rewrite C3, C2 by lia. done.
Qed.

Lemma changed_advanced id v f s s' : changed id v f s s' → advanced s s'.
Proof.
  intros (row & now & Hrow & Hv & _ & [Hc _ Ho _]) id' r Hr. simpl in *. rewrite Hc.
  destruct (decide (id' = id)) as [->|Hne].
  - simplify_eq. eexists. split; [apply lookup_insert_eq|]. simpl. split_and!; [done|lia|lia].
  - exists r. rewrite lookup_insert_ne by done. split_and!; try done. intros _ sku. by apply Ho.
Qed.

Lemma active_cart_some s u id r :
  active_cart s u = Some (id, r) → carts s !! id = Some r ∧ row_user r = u ∧ row_status r = CartStatusActive.
Proof.
  unfold active_cart. intros ([i [id' r']] & Hp & [= -> ->])%fmap_Some. apply list_find_Some in Hp.
  simpl in Hp. destruct Hp as (Hin & [Hu Hs] & _).
  apply list_elem_of_lookup_2, elem_of_map_to_list in Hin. done.
Qed.

Lemma active_cart_none s u id r :
  active_cart s u = None → carts s !! id = Some r → row_user r = u → row_status r ≠ CartStatusActive.
Proof.
  unfold active_cart. rewrite fmap_None. intros Hn Hr Hu Hs. apply list_find_None in Hn.
  rewrite Forall_forall in Hn. apply (Hn (id, r)); [by apply elem_of_map_to_list|done].
Qed.

(** [CreateCart] adds a cart to a user who has none, or touches the one there is. *)
Lemma CreateCart_spec c env n s n' s' r :
  wf s → CreateCart c env n s = (n', s', r) → wf s' ∧ advanced s s'.
Proof.
  intros Hwf Hrun. destruct r as [c'|e].
  2: { unfold CreateCart in Hrun. apply bind_inv in Hrun as [(e' & H & _)|(n1 & s1 & id & H & Hrun)].
       - destruct (ID c =? uuid_Nil)%N; by vm_compute in H.
       - apply sql_err_inv in Hrun as ->. destruct (ID c =? uuid_Nil)%N; unfold uuid_New, ret in H;
           simplify_eq; (split; [done|apply advanced_refl]). }
  unfold CreateCart in Hrun. apply bind_ok_inv in Hrun as (n1 & s1 & id & H & Hrun).
  assert (s1 = s) as -> by (destruct (ID c =? uuid_Nil)%N; unfold uuid_New, ret in H; by simplify_eq).
  apply sql_ok_inv in Hrun as (_ & Hrun & _). clear H.
  destruct (active_cart s (UserID c)) as [[id' r]|] eqn:Ha.
  - rewrite bool_decide_eq_false_2 in Hrun by (by intros [? _]). simplify_eq.
    apply active_cart_some in Ha as (Hr & _ & Hst). split; [split|]; simpl.
    + intros i sku q H. destruct (wf_items s Hwf _ _ _ H) as [? ?]. split; [done|].
      rewrite lookup_insert_is_Some. destruct (decide (id' = i)); [by left|by right].
    + assert (Hl : ∀ i q, <[id' := MkCartRow (row_user r) (row_status r) (row_version r) (row_created r)
          (env_now env n1)]> (carts s) !! i = Some q →
          ∃ q0, carts s !! i = Some q0 ∧ row_user q0 = row_user q ∧ row_status q0 = row_status q).
      { intros i q. destruct (decide (i = id')) as [->|Hi].
        - rewrite lookup_insert_eq. intros [= <-]. by exists r.
        - rewrite lookup_insert_ne by done. by exists q. }
      intros i1 i2 r1 r2 (q1 & H1 & U1 & S1)%Hl (q2 & H2 & U2 & S2)%Hl A1 A2 U.
      apply (wf_active s Hwf i1 i2 q1 q2 H1 H2); congruence.
    + intros i q Hq. simpl. destruct (decide (i = id')) as [->|Hi].
      * simplify_eq. eexists. split; [apply lookup_insert_eq|]. by split_and!.
      * exists q. rewrite lookup_insert_ne by done. by split_and!.
  - case_bool_decide as Hid; [done|]. simplify_eq.
    assert (Hfresh : carts s !! id = None).
    { destruct (carts s !! id) eqn:H; [|done]. exfalso. apply Hid. split; [done|by eauto]. }
    split; [split|]; simpl.
    + intros i sku q H. destruct (wf_items s Hwf _ _ _ H) as [? ?]. split; [done|].
      rewrite lookup_insert_is_Some. destruct (decide (id = i)); [by left|by right].
    + intros i1 i2 r1 r2. rewrite !lookup_insert_Some.
      intros [[<- <-]|[N1 H1]] [[<- <-]|[N2 H2]] A1 A2 U; simpl in *; [done| | |].
      * by destruct (active_cart_none s (UserID c) i2 r2 Ha H2).
      * by destruct (active_cart_none s (UserID c) i1 r1 Ha H1).
      * by apply (wf_active s Hwf i1 i2 r1 r2).
    + intros i q Hq. simpl. exists q. rewrite lookup_insert_ne by (intros ->; congruence). by split_and!.
Qed.

Lemma cart_step_keeps s s' : cart_step s s' → wf s → wf s' ∧ advanced s s'.
Proof.
  intros [env n c ->|env n c r p ->] Hwf.
  - destruct (CreateCart c env n s) as [[n' s'] res] eqn:H. by eapply CreateCart_spec.
  - destruct (change_tx c _ env n s) as [[n' s'] res] eqn:H.
    apply (change_tx_spec _ _ _ _ _ _ _ _ _ (statement_edits r (ID c) p)) in H. cbn [final fst snd].
    destruct res; [|subst; split; [done|apply advanced_refl]].
    destruct H as [_ Hch]. split; [by eapply changed_wf|by eapply changed_advanced].
Qed.

(** C17: the carts of a shop.  Over any interleaving of the transactions of concurrent
    requests, with stale reads, any prices and any failures of the driver: every line has
    a positive quantity within range, a positive price and a cart it belongs to, a user has
    one active cart at most, a cart never changes hands, its version never goes back, and
    whoever sees the same version twice sees the same lines. *)
Theorem cart_history s s' :
  rtc cart_step empty_state s → rtc cart_step s s' → wf s' ∧ advanced s s'.
Proof.
  intros H0 H. assert (Hwf : wf s).
  { assert (Hw : wf empty_state) by (split; intros *; simpl; by rewrite ?lookup_empty).
    clear H. revert Hw. induction H0 as [|x y z Hxy _ IH]; [done|]. intros Hw. apply IH.
    by eapply cart_step_keeps. }
  clear H0. revert Hwf. induction H as [|x y z Hxy _ IH]; intros Hw; [split; [done|apply advanced_refl]|].
  destruct (cart_step_keeps _ _ Hxy Hw) as [Hwy Ha]. destruct (IH Hwy) as [Hwz Hb].
  split; [done|]. by eapply advanced_trans.
Qed.

(** An addition that takes the total beyond int64 is reported as failed, after it has
    been committed.  The line is in the cart and the version has moved; from then on every
    reading of the cart fails too, so that the customer sees neither the line to remove nor
    the version to remove it at. *)
Theorem overflow_commits `{CR : CatalogReader} r id u v env n s :
  wf s →
  let run := serve r id u v env n s in
  outcome run = Err ErrArithmeticOverflow →
  (∃ p, changed id v (effect r p) s (final run)) ∧
  ∀ u' env' n', let read := GetCart id u' env' n' (final run) in
    final read = final run ∧ ∃ e, outcome read = Err e.
Proof.
  intros Hwf. cbv zeta. intros Hov.
  destruct (serve_answered r id u v env n s _ _ _ Hwf (run_eta _)) as [[_ (e & He & Hno)]|(row & p & _ & _ & _ & Hch & Hans)].
  { rewrite Hov in He. by injection He as <-. }
  split; [by exists p|]. rewrite Hov in Hans. destruct Hans as [[_ Hbig]|[_ (m & ?)]]; [|done].
  pose proof (changed_wf _ _ _ _ _ Hch Hwf) as Hwf'.
  set (s1 := final (serve r id u v env n s)) in *. clearbody s1. clear Hov Hch. intros u' env' n'.
  unfold GetCart. destruct (u' =? uuid_Nil)%N; [split; [done|by eexists]|].
  unfold bind, GetCartByID, sql. destruct (env_fault env' n'); [split; [done|by eexists]|].
  destruct (carts s1 !! id) as [q|] eqn:Hq; [|split; [done|by eexists]].
  destruct (negb _); [split; [done|by eexists]|]. change (cart_currency (to_cart id q)) with "USD".
  destruct (load_items (to_cart id q) _ "USD" env' (S n') s1) as [[n2 s2] res] eqn:Hl.
  apply (load_items_spec _ _ _ _ _ _ _ _ Hwf') in Hl as [-> Hr]. split; [done|].
  destruct res as [c|e]; [|by eexists]. destruct Hr as [_ Hr]. simpl in Hr. lia.
Qed.

(** ** Witnesses *)

Section witnesses.
#[local] Instance ex_catalog : CatalogReader :=
  ex_reader [ex_product "SKU-1" 1250; ex_product "SKU-9" 5000000000000000000].

Definition ex_shop : State := final (CreateOrGetActiveCart 7 (calm_env 100 40) 0%nat empty_state).
Definition ex_add (q v : Z) (sku : string) (s : State) :=
  serve (Add sku q) 40 7 v (calm_env 200 60) 0%nat s.

Lemma ex_shop_wf : wf ex_shop.
Proof.
  refine (proj1 (cart_step_keeps empty_state ex_shop _ _)); [|split; intros *; simpl; by rewrite ?lookup_empty].
  eapply (StepCreate _ _ (calm_env 100 40) 1%nat (MkCart 40 7 CartStatusActive 0 "USD" [] no_money 0 0)).
  vm_compute. reflexivity.
Qed.


Lemma cart_history_witness :
  let s' := final (ex_add 3 1 "SKU-1" ex_shop) in wf s' ∧ advanced ex_shop s'.
Proof.
  intros s'. apply (cart_history ex_shop s').
  - apply rtc_once. eapply (StepCreate _ _ (calm_env 100 40) 1%nat (MkCart 40 7 CartStatusActive 0 "USD" [] no_money 0 0)).
    vm_compute. reflexivity.
  - apply rtc_once. apply (StepChange _ _ (calm_env 200 60) 1%nat
      (MkCart 40 7 CartStatusActive 1 "" [] no_money 0 0) (Add "SKU-1" 3) 1250).
    vm_compute. reflexivity.
Defined.

Lemma overflow_commits_witness :
  let run := ex_add 2 1 "SKU-9" ex_shop in
  outcome run = Err ErrArithmeticOverflow ∧
  (∃ p, changed 40 1 (effect (Add "SKU-9" 2) p) ex_shop (final run)) ∧
  ∀ u' env' n', let read := GetCart 40 u' env' n' (final run) in
    final read = final run ∧ ∃ e, outcome read = Err e.
Proof.
  intros run. split; [vm_compute; reflexivity|].
  apply (overflow_commits (Add "SKU-9" 2) 40 7 1 (calm_env 200 60) 0%nat ex_shop ex_shop_wf).
  vm_compute. reflexivity.
Defined.
End witnesses.
