(* ===== verification/CartHandler.v ===== *)
(** internal/domain/cart/handler.go: the requests of the HTTP interface of carts, over the
    service of Cart.v.

    A handler is a program over the tables of the carts that always answers: its error type
    is empty.  Logging is left out. *)

From S2P Require Import Prelude Strconv Json Decode Web Catalog Cart.

(** * Requests *)

Section handler.
Context `{CR : CatalogReader} `{UT : UuidText} `{UP : UuidParse} `{JT : JsonErrorText}.
Local Open Scope go_scope.

Definition hop := M State Empty_set (Response Cart).

Record AddCartItemRequest := MkAddCartItemRequest { Add_SKU : string; Add_Quantity : Z }.

(** The targets of the decoder: [CreateCartRequest] (its one field), [AddCartItemRequest]
    and [UpdateCartItemRequest] (its one field). *)
Definition CreateCartRequest_fields : setter uuid :=
  object true [("customer_id", into_uuid (λ u _, u))].

Definition AddCartItemRequest_fields : setter AddCartItemRequest :=
  object true [("sku", into_string (λ x q, MkAddCartItemRequest x (Add_Quantity q)));
               ("quantity", into_int (λ z q, MkAddCartItemRequest (Add_SKU q) z))].

Definition UpdateCartItemRequest_fields : setter Z := object true [("quantity", into_int (λ z _, z))].

Definition extractUserID (r : Request) : result error uuid :=
  let raw := TrimSpace (Header_Get r "X-User-ID") in
  if String.eqb raw "" then Err ErrUnauthorized else
  match uuid_Parse raw with
  | None => Err ErrUnauthorized
  | Some u => if (u =? uuid_Nil)%N then Err ErrUnauthorized else Ok u
  end.

(** ** The answers that several requests give *)

Definition invalid_uuid (r : Request) : Response Cart :=
  RespondProblem ∅ r StatusBadRequest "INVALID_UUID" "Invalid UUID" "Cart ID must be a valid UUID".
Definition unauthorized (r : Request) : Response Cart :=
  RespondProblem ∅ r StatusUnauthorized "UNAUTHORIZED" "Unauthorized" "A valid X-User-ID header is required".
Definition forbidden (r : Request) : Response Cart :=
  RespondProblem ∅ r StatusForbidden "FORBIDDEN" "Forbidden" "Customer does not own this cart".
Definition precondition_required (r : Request) : Response Cart :=
  RespondProblem ∅ r StatusBadRequest "PRECONDITION_REQUIRED" "Precondition Required"
    "A valid If-Match header is required".
Definition precondition_failed (r : Request) : Response Cart :=
  RespondProblem ∅ r StatusPreconditionFailed "PRECONDITION_FAILED" "Precondition Failed"
    "Cart version does not match If-Match header".
Definition no_such_cart (r : Request) : Response Cart :=
  RespondProblem ∅ r StatusNotFound "CART_NOT_FOUND" "Cart Not Found" "Cart does not exist".
Definition no_such_item (r : Request) (sku : string) : Response Cart :=
  RespondProblem ∅ r StatusNotFound "ITEM_NOT_FOUND" "Item Not Found"
    ("Item with SKU " ++ sku ++ " not found in cart").
Definition invalid_body (r : Request) (detail : string) : Response Cart :=
  RespondProblem ∅ r StatusBadRequest "INVALID_REQUEST_BODY" "Invalid Request Body" detail.
Definition internal_error (r : Request) (detail : string) : Response Cart :=
  RespondProblem ∅ r StatusInternalServerError "INTERNAL_ERROR" "Internal Server Error" detail.
Definition respond_cart (cart : Cart) : Response Cart :=
  RespondJSON (SetETag (Version cart) ∅) StatusOK cart.

(** ** Creating and reading *)

Definition createCart (r : Request) : hop :=
  let req := fst (DecodeJSON CreateCartRequest_fields uuid_Nil r) in
  let customer := if (req =? uuid_Nil)%N then extractUserID r else Ok req in
  match customer with
  | Err _ =>
      ret (RespondProblem ∅ r StatusUnauthorized "UNAUTHORIZED" "Unauthorized"
             "A valid customer_id in JSON body or X-User-ID header is required")
  | Ok customerID =>
      let* cart := call (CreateOrGetActiveCart customerID) in
      ret match cart with
          | Err _ => internal_error r "Failed to create active cart"
          | Ok cart => respond_cart cart
          end
  end.

Definition getCart (r : Request) : hop :=
  let cartIDStr := URLParam r "cart_id" in
  match uuid_Parse cartIDStr with
  | None => ret (invalid_uuid r)
  | Some cartID =>
  match extractUserID r with
  | Err _ => ret (unauthorized r)
  | Ok customerID =>
      let* cart := call (GetCart cartID customerID) in
      ret match cart with
          | Err ErrCartNotFound =>
              RespondProblem ∅ r StatusNotFound "CART_NOT_FOUND" "Cart Not Found"
                ("Cart " ++ cartIDStr ++ " not found")
          | Err ErrUnauthorized => unauthorized r
          | Err ErrForbidden => forbidden r
          | Err _ => internal_error r "Failed to retrieve cart"
          | Ok cart => respond_cart cart
          end
  end end.

(** ** Changing *)

Definition addItem (r : Request) : hop :=
  match uuid_Parse (URLParam r "cart_id") with
  | None => ret (invalid_uuid r)
  | Some cartID =>
  match extractUserID r with
  | Err _ => ret (unauthorized r)
  | Ok customerID =>
  match ExtractIfMatch r with
  | Err _ => ret (precondition_required r)
  | Ok expectedVersion =>
  match DecodeJSON AddCartItemRequest_fields (MkAddCartItemRequest "" 0) r with
  | (_, Some err) => ret (invalid_body r err)
  | (req, None) =>
      let* cart := call (AddItem cartID customerID (Add_SKU req) (Add_Quantity req) expectedVersion) in
      ret match cart with
          | Err (ErrOptimisticLockConflict | ErrInvalidVersion) => precondition_failed r
          | Err ErrCartNotFound => no_such_cart r
          | Err ErrUnauthorized => unauthorized r
          | Err ErrForbidden => forbidden r
          | Err ErrCurrencyMismatch =>
              RespondProblem ∅ r StatusBadRequest "CURRENCY_MISMATCH" "Currency Mismatch"
                "Item price currency does not match cart currency"
          | Err ErrProductUnavailable =>
              RespondProblem ∅ r StatusBadRequest "PRODUCT_UNAVAILABLE" "Product Unavailable"
                "Product SKU is unavailable or inactive"
          | Err ErrInvalidQuantity =>
              RespondProblem ∅ r StatusBadRequest "INVALID_QUANTITY" "Invalid Quantity"
                "Quantity must be greater than zero"
          | Err _ => internal_error r "Failed to add item to cart"
          | Ok cart => respond_cart cart
          end
  end end end end.

Definition updateItemQuantity (r : Request) : hop :=
  match uuid_Parse (URLParam r "cart_id") with
  | None => ret (invalid_uuid r)
  | Some cartID =>
  let sku := URLParam r "sku" in
  match extractUserID r with
  | Err _ => ret (unauthorized r)
  | Ok customerID =>
  match ExtractIfMatch r with
  | Err _ => ret (precondition_required r)
  | Ok expectedVersion =>
  match DecodeJSON UpdateCartItemRequest_fields 0 r with
  | (_, Some err) => ret (invalid_body r err)
  | (quantity, None) =>
      let* cart := call (UpdateQuantity cartID customerID sku quantity expectedVersion) in
      ret match cart with
          | Err (ErrOptimisticLockConflict | ErrInvalidVersion) => precondition_failed r
          | Err ErrCartNotFound => no_such_cart r
          | Err ErrItemNotFound => no_such_item r sku
          | Err ErrUnauthorized => unauthorized r
          | Err ErrForbidden => forbidden r
          | Err _ => internal_error r "Failed to update item quantity"
          | Ok cart => respond_cart cart
          end
  end end end end.

Definition removeItem (r : Request) : hop :=
  match uuid_Parse (URLParam r "cart_id") with
  | None => ret (invalid_uuid r)
  | Some cartID =>
  let sku := URLParam r "sku" in
  match extractUserID r with
  | Err _ => ret (unauthorized r)
  | Ok customerID =>
  match ExtractIfMatch r with
  | Err _ => ret (precondition_required r)
  | Ok expectedVersion =>
      let* cart := call (RemoveItem cartID customerID sku expectedVersion) in
      ret match cart with
          | Err (ErrOptimisticLockConflict | ErrInvalidVersion) => precondition_failed r
          | Err ErrCartNotFound => no_such_cart r
          | Err ErrItemNotFound => no_such_item r sku
          | Err ErrUnauthorized => unauthorized r
          | Err ErrForbidden => forbidden r
          | Err _ => internal_error r "Failed to remove item"
          | Ok cart => respond_cart cart
          end
  end end end.

Definition clearCart (r : Request) : hop :=
  match uuid_Parse (URLParam r "cart_id") with
  | None => ret (invalid_uuid r)
  | Some cartID =>
  match extractUserID r with
  | Err _ => ret (unauthorized r)
  | Ok customerID =>
  match ExtractIfMatch r with
  | Err _ => ret (precondition_required r)
  | Ok expectedVersion =>
      let* cart := call (ClearCart cartID customerID expectedVersion) in
      ret match cart with
          | Err (ErrOptimisticLockConflict | ErrInvalidVersion) => precondition_failed r
          | Err ErrCartNotFound => no_such_cart r
          | Err ErrUnauthorized => unauthorized r
          | Err ErrForbidden => forbidden r
          | Err _ => internal_error r "Failed to clear cart"
          | Ok _ => WriteHeader ∅ StatusNoContent
          end
  end end end.
End handler.

(** * Conditional requests *)

Inductive endpoint := EPAdd | EPUpdate | EPRemove | EPClear.

Section conditional.
Context `{CR : CatalogReader} `{UT : UuidText} `{UP : UuidParse} `{JT : JsonErrorText}.

(** The routes of [CartRoutes] that change a cart. *)
Definition handle (ep : endpoint) : Request → hop :=
  match ep with
  | EPAdd => addItem
  | EPUpdate => updateItemQuantity
  | EPRemove => removeItem
  | EPClear => clearCart
  end.

(** What a request asks for; nothing if its body cannot be read. *)
Definition asked (ep : endpoint) (r : Request) : option request :=
  match ep with
  | EPAdd =>
      match DecodeJSON AddCartItemRequest_fields (MkAddCartItemRequest "" 0) r with
      | (q, None) => Some (Add (Add_SKU q) (Add_Quantity q))
      | _ => None
      end
  | EPUpdate =>
      match DecodeJSON UpdateCartItemRequest_fields 0 r with
      | (q, None) => Some (SetQuantity (URLParam r "sku") q)
      | _ => None
      end
  | EPRemove => Some (Remove (URLParam r "sku"))
  | EPClear => Some Clear
  end.

(** The customer [u] asks for [rq] on the cart [id] at its version [v]. *)
Record asks (ep : endpoint) (r : Request) (id u : uuid) (v : Z) (rq : request) : Prop := {
  asks_cart : uuid_Parse (URLParam r "cart_id") = Some id;
  asks_user : extractUserID r = Ok u;
  asks_version : ExtractIfMatch r = Ok v;
  asks_change : asked ep r = Some rq;
}.

(** The response to an answer of the service. *)
Definition responds (ep : endpoint) (res : result error Cart) (resp : Response Cart) : Prop :=
  match res with
  | Ok c => match ep with EPClear => resp = WriteHeader ∅ StatusNoContent | _ => resp = respond_cart c end
  | Err e =>
      400 <= StatusCode resp ∧
      (e = ErrOptimisticLockConflict → StatusCode resp = 412) ∧
      ((e = ErrArithmeticOverflow ∨ ∃ m, e = ErrDriver m) → StatusCode resp = 500)
  end.

Lemma ExtractIfMatch_positive r v : ExtractIfMatch r = Ok v → 0 < v.
Proof.
  unfold ExtractIfMatch. destruct (String.eqb _ _); [done|]. destruct (ParseInt _) as [z|]; [|done].
  destruct (Z.leb_spec z 0); [done|]. by intros [= <-].
Qed.

Lemma extractUserID_nonzero r u : extractUserID r = Ok u → u ≠ uuid_Nil.
Proof.
  unfold extractUserID. destruct (String.eqb _ _); [done|]. destruct (uuid_Parse _) as [z|]; [|done].
  destruct (N.eqb_spec z uuid_Nil); [done|]. by intros [= <-].
Qed.

(** A request that is not understood is refused; any other is one call of the service. *)
Lemma handle_cases ep r env n s n' s' x :
  handle ep r env n s = (n', s', x) →
  ∃ resp, x = Ok resp ∧
    ((n' = n ∧ s' = s ∧ 400 <= StatusCode resp < 500 ∧ ∀ id u v rq, ¬ asks ep r id u v rq) ∨
     ∃ id u v rq res, asks ep r id u v rq ∧ serve rq id u v env n s = (n', s', res) ∧ responds ep res resp).
Proof.
  assert (∀ resp : Response Cart, 400 <= StatusCode resp < 500 → (∀ id u v rq, ¬ asks ep r id u v rq) →
    (n, s, Ok resp) = (n', s', x) → ∃ resp, x = Ok resp ∧
    ((n' = n ∧ s' = s ∧ 400 <= StatusCode resp < 500 ∧ ∀ id u v rq, ¬ asks ep r id u v rq) ∨
     ∃ id u v rq res, asks ep r id u v rq ∧ serve rq id u v env n s = (n', s', res) ∧ responds ep res resp))
    as Hearly.
  { intros resp Hst Hno [= <- <- <-]. exists resp. split; [done|]. by left. }
  assert (∀ id u v rq (k : result error Cart → Response Cart), asks ep r id u v rq →
    (∀ res, responds ep res (k res)) →
    bind (call (serve rq id u v)) (λ c, ret (k c)) env n s = (n', s', x) →
    ∃ resp, x = Ok resp ∧
    ((n' = n ∧ s' = s ∧ 400 <= StatusCode resp < 500 ∧ ∀ id u v rq, ¬ asks ep r id u v rq) ∨
     ∃ id u v rq res, asks ep r id u v rq ∧ serve rq id u v env n s = (n', s', res) ∧ responds ep res resp))
    as Hcall.
  { intros id u v rq k Hasks Hk. unfold bind, call, ret.
    destruct (serve rq id u v env n s) as [[n1 s1] res] eqn:Hs. intros [= <- <- <-].
    exists (k res). split; [done|]. right. by exists id, u, v, rq, res. }
  intros Hrun. destruct ep; cbn [handle] in Hrun;
    [unfold addItem in Hrun|unfold updateItemQuantity in Hrun|unfold removeItem in Hrun|unfold clearCart in Hrun];
    (destruct (uuid_Parse (URLParam r "cart_id")) as [id|] eqn:Hid;
      [|by apply (Hearly _) in Hrun; [..|intros ???? []; congruence]]);
    cbv zeta in Hrun;
    (destruct (extractUserID r) as [u|] eqn:Hu;
      [|by apply (Hearly _) in Hrun; [..|intros ???? []; congruence]]);
    (destruct (ExtractIfMatch r) as [v|] eqn:Hv;
      [|by apply (Hearly _) in Hrun; [..|intros ???? []; congruence]]).
  - destruct (DecodeJSON AddCartItemRequest_fields _ r) as [q [err|]] eqn:Hq.
    { apply (Hearly _) in Hrun; [done..|]. intros ???? [_ _ _ Ha]. simpl in Ha. by rewrite Hq in Ha. }
    apply (Hcall id u v (Add (Add_SKU q) (Add_Quantity q))) in Hrun; [done|split; [done..|]|].
    { simpl. by rewrite Hq. }
    intros [c|[]]; simpl; try done; split_and!; try done; intros [|[]]; done.
  - destruct (DecodeJSON UpdateCartItemRequest_fields 0 r) as [q [err|]] eqn:Hq.
    { apply (Hearly _) in Hrun; [done..|]. intros ???? [_ _ _ Ha]. simpl in Ha. by rewrite Hq in Ha. }
    apply (Hcall id u v (SetQuantity (URLParam r "sku") q)) in Hrun; [done|split; [done..|]|].
    { simpl. by rewrite Hq. }
    intros [c|[]]; simpl; try done; split_and!; try done; intros [|[]]; done.
  - apply (Hcall id u v (Remove (URLParam r "sku"))) in Hrun; [done|by split|].
    intros [c|[]]; simpl; try done; split_and!; try done; intros [|[]]; done.
  - apply (Hcall id u v Clear) in Hrun; [done|by split|].
    intros [c|[]]; simpl; try done; split_and!; try done; intros [|[]]; done.
Qed.

(** An addition of nothing, or of a blank SKU, is refused before the cart is looked at. *)
Definition sensible (rq : request) : Prop :=
  match rq with Add sku q => 0 < q ∧ TrimSpace sku ≠ "" | _ => True end.

Lemma check_cart_stale id u v row env n s :
  carts s !! id = Some row → row_user row = u → row_status row = CartStatusActive →
  row_version row ≠ v → env_fault env n = None →
  check_cart id u v env n s = (S n, s, Err ErrOptimisticLockConflict).
Proof.
  intros Hr Hu Ha Hv Hf. unfold check_cart, GetCartByID, bind. rewrite sql_run by done. rewrite Hr.
  cbn [to_cart UserID Status Version]. rewrite Hu, N.eqb_refl, Ha, bool_decide_eq_true_2 by done.
  by rewrite (proj2 (Z.eqb_neq _ _) Hv).
Qed.

(** A request for a version the cart is not at changes nothing; its owner is told so. *)
Lemma serve_stale rq id u v row env n s n' s' res :
  wf s → carts s !! id = Some row → row_version row ≠ v → serve rq id u v env n s = (n', s', res) →
  s' = s ∧ ∃ e, res = Err e ∧
    (no_faults env → u ≠ uuid_Nil → 0 < v → row_user row = u → row_status row = CartStatusActive →
     sensible rq → e = ErrOptimisticLockConflict).
Proof.
  intros Hwf Hr Hv Hrun.
  destruct (serve_answered _ _ _ _ _ _ _ _ _ _ Hwf Hrun) as [[-> (e & -> & _)]|(row' & p & _ & _ & _ & Hch & _)].
  2: { destruct Hch as (row2 & now & Hr2 & Hv2 & _). by simplify_eq. }
  split; [done|]. exists e. split; [done|]. intros Hf Hu0 Hv0 Hu Ha Hsens.
  apply N.eqb_neq in Hu0. apply Z.leb_gt in Hv0.
  pose proof (check_cart_stale id u v row env n s Hr Hu Ha Hv (Hf n)) as Hck.
  destruct rq as [sku q|sku q|sku|]; unfold serve, AddItem, UpdateQuantity, RemoveItem, ClearCart in Hrun;
    rewrite ?Hu0, ?Hv0 in Hrun.
  - destruct Hsens as [Hq Hne]. rewrite (proj2 (Z.leb_gt q 0)) in Hrun by lia.
    apply String.eqb_neq in Hne. cbv zeta in Hrun. rewrite Hne in Hrun.
    rewrite (bind_err _ _ _ _ _ _ _ _ Hck) in Hrun. by simplify_eq.
  - destruct (q <=? 0); rewrite (bind_err _ _ _ _ _ _ _ _ Hck) in Hrun; by simplify_eq.
  - rewrite (bind_err _ _ _ _ _ _ _ _ Hck) in Hrun. by simplify_eq.
  - rewrite (bind_err _ _ _ _ _ _ _ _ Hck) in Hrun. by simplify_eq.
Qed.

(** * Properties *)


(** C11: no update is lost.  Two clients that saw one version of a cart cannot both change
    it: once a request has changed the cart, whatever anybody does afterwards, every later
    request that names the same version changes nothing and answers an error, and if it
    comes from the owner while the cart is active and nothing fails, the error is 412. *)
Theorem lost_update_prevented ep1 r1 env1 n1 s ep2 r2 env2 n2 s2 id u v rq1 rq2 :
  wf s → asks ep1 r1 id u v rq1 → final (handle ep1 r1 env1 n1 s) ≠ s →
  rtc cart_step (final (handle ep1 r1 env1 n1 s)) s2 → asks ep2 r2 id u v rq2 →
  let run := handle ep2 r2 env2 n2 s2 in
  final run = s2 ∧
  ∃ resp, outcome run = Ok resp ∧ 400 <= StatusCode resp ∧
    (no_faults env2 → (∃ row, carts s2 !! id = Some row ∧ row_status row = CartStatusActive) →
     sensible rq2 → StatusCode resp = 412).
Proof.
  intros Hwf Hasks1 Hchange Hsteps Hasks2. cbv zeta.
  destruct (handle ep1 r1 env1 n1 s) as [[n1' s1] x1] eqn:Hrun1. cbn [final fst snd] in *.
  apply handle_cases in Hrun1 as (resp1 & -> & [(_ & -> & _)|(id' & u' & v' & rq' & res1 & Hasks' & Hserve1 & _)]); [done|].
  destruct Hasks1 as [Hi Hu Hv Ha], Hasks' as [Hi' Hu' Hv' Ha'].
  rewrite Hu in Hu'. rewrite Hv in Hv'. simplify_eq.
  destruct (serve_answered _ _ _ _ _ _ _ _ _ _ Hwf Hserve1) as [[-> _]|(row & p & Hr & Hrow & _ & Hch & _)]; [done|].
  pose proof (changed_wf _ _ _ _ _ Hch Hwf) as Hwf1.
  destruct Hch as (row0 & now & Hr0 & Hv0 & _ & [Hc1 _ _ _]). simplify_eq.
  assert (wf s2 ∧ advanced s1 s2) as [Hwf2 Hadv].
  { clear -Hwf1 Hsteps. induction Hsteps as [a|a b c Hab _ IH]; [by split; [|apply advanced_refl]|].
    destruct (cart_step_keeps _ _ Hab Hwf1) as [Hb Hadv]. destruct (IH Hb) as [Hc Hadv'].
    split; [done|]. by eapply advanced_trans. }
  assert (∃ row2, carts s2 !! id = Some row2 ∧ row_user row2 = row_user row ∧ row_version row < row_version row2)
    as (row2 & Hr2 & Hu2 & Hv2).
  { destruct (Hadv id (bump row now)) as (row2 & Hr2 & Hu2 & Hv2 & _); [rewrite Hc1; apply lookup_insert_eq|].
    exists row2. simpl in *. split_and!; [done|done|lia]. }
  destruct (handle ep2 r2 env2 n2 s2) as [[n2' s2'] x2] eqn:Hrun2. cbn [final outcome fst snd].
  apply handle_cases in Hrun2 as (resp2 & -> & [(_ & _ & _ & Hno)|(id' & u' & v' & rq' & res2 & Hasks' & Hserve2 & Hresp)]);
    [exfalso; by eapply Hno|].
  destruct Hasks2 as [Hi2 Hus2 Hvs2 Ha2], Hasks' as [Hi3 Hu3 Hv3 Ha3].
  rewrite Hus2 in Hu3. rewrite Hvs2 in Hv3. simplify_eq.
  destruct (λ H, serve_stale _ _ _ _ row2 _ _ _ _ _ _ Hwf2 Hr2 H Hserve2) as [-> (e & -> & He)]; [lia|].
  split; [done|]. exists resp2. destruct Hresp as (Hst & H412 & _). split_and!; [done..|].
  intros Hf (row3 & Hr3 & Ha4) Hsens. simplify_eq. apply H412, He; try done.
  - by eapply extractUserID_nonzero.
  - by eapply ExtractIfMatch_positive.
Qed.
End conditional.

(** * Examples *)

Section examples.
#[local] Existing Instance ex_uuid_text.
#[local] Instance ex_parse : UuidParse := λ s,
  if String.eqb s "cart-40" then Some 40%N else if String.eqb s "user-7" then Some 7%N else None.
#[local] Instance ex_error_text : JsonErrorText := λ _, "malformed".
#[local] Instance ex_shelf : CatalogReader := ex_reader [ex_product "SKU-1" 1250].

Definition ex_request (tag body : string) : Request :=
  MkRequest {["X-User-Id" := " user-7"; "If-Match" := tag]} {["cart_id" := "cart-40"; "sku" := "SKU-1"]}
    ∅ "/api/v1/carts/cart-40/items" (Bytes body) 0.

Definition ex_body (q : string) : string :=
  ("{" ++ quoted "sku" ++ ": " ++ quoted "SKU-1" ++ ", " ++ quoted "Quantity" ++ ": " ++ q ++ "}")%string.

Definition ex_first := handle EPAdd (ex_request (quoted "1") (ex_body "3")) (calm_env 200 60) 0%nat ex_shop.

(** A field the request type does not have is refused; the first of two racing requests
    changes the cart. *)
Example add_answers :
  match outcome ex_first with
  | Ok resp => StatusCode resp = 200 ∧ ResHeader resp !! "Etag" = Some (quoted "2")
  | Err _ => False
  end ∧
  match outcome (handle EPAdd (ex_request "1" ("{" ++ quoted "qty" ++ ":1}")) (calm_env 0 0) 0%nat ex_shop) with
  | Ok resp => ResBody resp = Problem (MkProblemDetails "https://shopflow.io/errors/INVALID_REQUEST_BODY"
      "Invalid Request Body" 400 "invalid request body: malformed" "/api/v1/carts/cart-40/items"
      "INVALID_REQUEST_BODY" [])
  | Err _ => False
  end.
Proof. vm_compute. by split_and!. Qed.


Lemma lost_update_prevented_witness :
  let run := handle EPRemove (ex_request "1" "") (calm_env 300 70) 0%nat (final ex_first) in
  final run = final ex_first ∧ ∃ resp, outcome run = Ok resp ∧ StatusCode resp = 412.
Proof.
  intros run.
  destruct (lost_update_prevented EPAdd (ex_request (quoted "1") (ex_body "3")) (calm_env 200 60) 0%nat ex_shop
    EPRemove (ex_request "1" "") (calm_env 300 70) 0%nat (final ex_first) 40 7 1 (Add "SKU-1" 3) (Remove "SKU-1")
    ex_shop_wf) as [Hf (resp & Hr & _ & H412)].
  - by split; vm_compute.
  - intros H. apply (f_equal (λ s, row_version <$> carts s !! 40%N)) in H. vm_compute in H. congruence.
  - apply rtc_refl.
  - by split; vm_compute.
  - split; [exact Hf|]. exists resp. split; [exact Hr|]. apply H412; [apply calm_env_no_faults| |done].
    eexists. by split; vm_compute.
Defined.
End examples.
