(* ===== verification/Pricing.v ===== *)
(** How the three ways the program adds up money relate: the total of a cart
    (internal/domain/cart/models.go), the total of an order (internal/domain/order/models.go)
    and the checked arithmetic of internal/domain/money. *)

From S2P Require Import Prelude Money Order Cart.

(** The line of an order that a line of a cart becomes. *)
Definition order_line (it : CartItem) : OrderItem :=
  MkOrderItem (Cart.Item_ID it) uuid_Nil (Cart.Item_SKU it) (Item_Title it)
    (Cart.Item_UnitPriceMinor it) (Cart.Item_Quantity it) 0 0.

Definition order_of_cart (c : Cart) : Order :=
  MkOrder (Cart.ID c) (Cart.UserID c) "" StatusPending 0 "USD" 0 (order_line <$> Cart.Items c) 0 0.

(** The reference: multiply and add with the money package, from [acc] on. *)
Fixpoint money_total (items : list CartItem) (acc : Money.Money) : result Money.error Money.Money :=
  match items with
  | [] => Ok acc
  | it :: rest =>
      match Money.Multiply (Money.MkMoney (Cart.Item_UnitPriceMinor it) "USD") (Cart.Item_Quantity it) with
      | Err e => Err e
      | Ok line =>
          match Money.Add acc line with
          | Err e => Err e
          | Ok acc' => money_total rest acc'
          end
      end
  end.

Lemma money_total_spec items acc :
  Forall Cart.line_ok items → 0 <= acc <= MaxInt64 →
  money_total items (Money.MkMoney acc "USD") =
    if acc + cart_total items <=? MaxInt64
    then Ok (Money.MkMoney (acc + cart_total items) "USD") else Err Money.ErrArithmeticOverflow.
Proof.
  intros Hok. revert acc. induction Hok as [|it items (Hq & Hp & _) Hok IH]; intros acc Hacc.
  { unfold cart_total. simpl. rewrite Z.add_0_r. by rewrite (proj2 (Z.leb_le acc MaxInt64)) by lia. }
  pose proof (cart_total_nonneg items Hok) as Hrest.
  assert (Hsum : cart_total (it :: items) = Cart.line_total it + cart_total items) by done.
  assert (0 <= Cart.line_total it) by (unfold Cart.line_total; nia).
  assert (Hmul : Money.Multiply (Money.MkMoney (Cart.Item_UnitPriceMinor it) "USD") (Cart.Item_Quantity it) =
    if Cart.line_total it <=? MaxInt64 then Ok (Money.MkMoney (Cart.line_total it) "USD")
    else Err Money.ErrArithmeticOverflow).
  { unfold Money.Multiply. cbn [Money.Amount Money.Currency].
    rewrite (proj2 (Z.ltb_ge _ 0)) by lia. rewrite (proj2 (Z.eqb_neq (Cart.Item_Quantity it) 0)) by lia.
    simpl. pose proof (mul_guard_exact (Cart.Item_UnitPriceMinor it) (Cart.Item_Quantity it) Hq) as Hg.
    fold (Cart.line_total it) in Hg.
    destruct (Z.eqb_spec (Cart.Item_UnitPriceMinor it) 0) as [H0|H0].
    { unfold Cart.line_total. by rewrite H0. }
    destruct (Z.ltb_spec (Z.quot MaxInt64 (Cart.Item_Quantity it)) (Cart.Item_UnitPriceMinor it)) as [Hov|Hov].
    - by rewrite (proj2 (Z.leb_gt _ _)) by lia.
    - apply Hg in Hov. rewrite (proj2 (Z.leb_le _ _)) by done. unfold Cart.line_total in *.
      rewrite mul64_id; [done|]. unfold in64, MinInt64. lia. }
  cbn [money_total]. rewrite Hmul, Hsum. destruct (Z.leb_spec (Cart.line_total it) MaxInt64) as [Hle|Hle].
  2: { by rewrite (proj2 (Z.leb_gt _ _)) by lia. }
  unfold Money.Add. cbn [Money.Amount Money.Currency]. change (String.eqb "USD" "USD") with true. cbn [negb].
  rewrite sub64_id by (unfold in64, MinInt64; lia).
  destruct (Z.ltb_spec (MaxInt64 - Cart.line_total it) acc) as [Hov|Hov].
  { rewrite (proj2 (Z.ltb_lt 0 (Cart.line_total it))) by lia. simpl.
    by rewrite (proj2 (Z.leb_gt _ _)) by lia. }
  rewrite andb_false_r, add64_id by (unfold in64, MinInt64; lia). rewrite IH by lia.
  by rewrite Z.add_assoc.
Qed.

Lemma order_total_of_cart items : order_total (order_line <$> items) = cart_total items.
Proof. unfold order_total, cart_total. induction items as [|it items IH]; [done|]. csimpl. by rewrite IH. Qed.


(** The witness: two lines. *)
Definition ex_cart : Cart :=
  MkCart 40 7 CartStatusActive 1 "" [to_item 40 "A" (MkItemRow 1 3 1250 0 0);
                                     to_item 40 "B" (MkItemRow 2 1 999 0 0)] no_money 0 0.

