(* ===== verification/Storefront.v ===== *)
(** The catalogue's service as the [CatalogReader] that main.go gives to the carts and the
    orders: what the carts can buy of what the catalogue has. *)

From S2P Require Import Prelude Database Money Timestamp Catalog Cart Search CatalogStore CatalogService.

Section reader.
Context {St : Type}.

(** The answers of the service at one moment: the tables and the environment of a tick. *)
Definition service_reader (env : Env) (n : nat) (w : World (St:=St)) : CatalogReader := {|
  Catalog.GetProduct := λ id, outcome (CatalogService.GetProduct id env n w);
  Catalog.GetProductBySKU := λ k, outcome (CatalogService.GetProductBySKU k env n w);
  Catalog.GetProductsBySKUs := λ ks, outcome (CatalogService.GetProductsBySKUs ks env n w);
|}.

(** What [GetProductBySKU] answers. *)
Lemma GetProductBySKU_spec k env n (w : World (St:=St)) p :
  wf (tables w) → outcome (CatalogService.GetProductBySKU k env n w) = Ok p →
  validateSKU k = None ∧ ∃ id r, products (tables w) !! id = Some r ∧ sku r = k ∧ p = to_product id r.
Proof.
  intros Hwf. unfold CatalogService.GetProductBySKU, check, outcome.
  destruct (validateSKU k); [done|].
  rewrite (bind_ok (ret tt) _ env n w n w tt eq_refl). unfold on_tables, zoom, CatalogStore.GetProductBySKU, sql.
  destruct (env_fault env n); [done|]. destruct (product_of_sku (tables w) k) as [[id r]|] eqn:Hk; simpl; [|done].
  intros [= <-]. split; [done|]. apply product_of_sku_spec in Hk as [Hr Hs]; [|done].
  exists id, r. done.
Qed.

(** The price of a line comes from the catalogue.  A cart that is told to add a SKU gets
    a price only if the product with that SKU, and no other, is active and priced in the
    cart's currency, and the price is the one in the product's row; without failures every
    such product can be bought. *)
Theorem resolve_price_spec k cur env n (w : World (St:=St)) z :
  wf (tables w) → env_fault env n = None →
  @Cart.resolve_price (service_reader env n w) k cur = Ok z ↔
  validateSKU k = None ∧
  ∃ id r, products (tables w) !! id = Some r ∧ sku r = k ∧ is_active r = true ∧
    price_minor r = z ∧ (if String.eqb (currency r) "" then "USD" else currency r) = cur.
Proof.
  intros Hwf Hf. unfold resolve_price. cbn [Catalog.GetProductBySKU service_reader]. split.
  - destruct (outcome _) as [p|e] eqn:Hp; [|done].
    apply GetProductBySKU_spec in Hp as (Hv & id & r & Hr & Hs & ->); [|done].
    destruct (wf_product _ Hwf _ _ Hr) as (_ & Hpos & _).
    cbn [to_product Product_IsActive Product_Price Product_PriceMinor Money.Amount Money.Currency].
    destruct (is_active r) eqn:Ha; [|done]. cbn [negb].
    rewrite (proj2 (Z.leb_gt (price_minor r) 0)) by lia. cbn [andb].
    destruct (String.eqb_spec (if String.eqb (currency r) "" then "USD" else currency r) cur) as [Hc|]; [|done].
    cbn [negb]. rewrite (proj2 (Z.leb_gt (price_minor r) 0)) by lia. intros [= <-].
    split; [done|]. by exists id, r.
  - intros (Hv & id & r & Hr & Hs & Ha & <- & Hc).
    destruct (wf_product _ Hwf _ _ Hr) as (_ & Hpos & _).
    assert (outcome (CatalogService.GetProductBySKU k env n w) = Ok (to_product id r)) as ->.
    { unfold CatalogService.GetProductBySKU, check. rewrite Hv.
      rewrite (bind_ok (ret tt) _ env n w n w tt eq_refl).
      unfold on_tables, zoom, CatalogStore.GetProductBySKU, sql, outcome. rewrite Hf.
      by rewrite (proj2 (product_of_sku_spec (tables w) k id r Hwf) (conj Hr Hs)). }
    cbn [to_product Product_IsActive Product_Price Product_PriceMinor Money.Amount Money.Currency].
    rewrite Ha. cbn [negb]. rewrite (proj2 (Z.leb_gt (price_minor r) 0)) by lia. cbn [andb].
    rewrite Hc. rewrite String.eqb_refl. cbn [negb]. by rewrite (proj2 (Z.leb_gt (price_minor r) 0)) by lia.
Qed.

(** A SKU no product has is not sold. *)
Lemma unknown_sku_unsellable k env n (w : World (St:=St)) cur :
  sku_taken (tables w) k = false →
  @Cart.resolve_price (service_reader env n w) k cur = Err Cart.ErrProductUnavailable.
Proof.
  intros Hfree. unfold Cart.resolve_price. cbn [Catalog.GetProductBySKU service_reader].
  unfold CatalogService.GetProductBySKU, check. destruct (validateSKU k); [done|].
  rewrite (bind_ok (ret tt) _ env n w n w tt eq_refl). unfold on_tables, zoom, CatalogStore.GetProductBySKU, sql, outcome.
  destruct (env_fault env n); [done|].
  by rewrite (proj2 (product_of_sku_none (tables w) k) (taken_false sku _ _ Hfree)).
Qed.

(** The catalogue accepts SKUs that no cart can buy.  [CreateProduct] checks the SKU
    without its surrounding white space and stores it with it, and [AddItem] takes the
    white space off what it is given: adding a product by the SKU it was created with fails,
    whatever the cart, the customer and the failures, and changes nothing, unless another
    product has the trimmed SKU. *)
Theorem untrimmed_sku_unsellable configured `{UT : UuidText, CL : !Client St, CW : !ClientLaws St}
    req env n (w : World (St:=St)) n' w' p :
  CreateProduct configured req env n w = (n', w', Ok p) →
  sku_taken (tables w') (TrimSpace (New_SKU req)) = false →
  (∃ row, products (tables w') !! Product_ID p = Some row ∧ sku row = New_SKU req ∧ is_active row = true) ∧
  ∀ env1 n1 cartID customer qty v env2 n2 (c c' : Cart.State) n2' r,
    @Cart.AddItem (service_reader env1 n1 w') cartID customer (New_SKU req) qty v env2 n2 c = (n2', c', r) →
    c' = c ∧ ∃ e, r = Err e.
Proof.
  intros Hcreate Hfree. apply CreateProduct_creation in Hcreate as (_ & _ & _ & _ & _ & row & Ht & Hs & _ & _ & _ & _ & _ & Ha & _).
  split. { exists row. rewrite Ht. simpl. by rewrite lookup_insert_eq. }
  intros env1 n1 cartID customer qty v env2 n2 c c' n2' r Hadd.
  unfold Cart.AddItem in Hadd.
  destruct (customer =? uuid_Nil)%N; [injection Hadd as <- <- <-; by eauto|].
  destruct (v <=? 0); [injection Hadd as <- <- <-; by eauto|].
  destruct (qty <=? 0); [injection Hadd as <- <- <-; by eauto|]. cbv zeta in Hadd.
  destruct (String.eqb _ _); [injection Hadd as <- <- <-; by eauto|].
  apply bind_inv in Hadd as [(e & H & ->)|(n3 & c3 & cart & H & Hadd)];
    apply Cart.check_cart_spec in H as [-> _]; [by eauto|].
  rewrite (unknown_sku_unsellable _ _ _ _ _ Hfree) in Hadd. injection Hadd as <- <- <-. by eauto.
Qed.
End reader.

(** ** Examples *)

Section examples.
#[local] Existing Instance ex_text.
#[local] Instance ex_client : Client Index := MemoryClient ToLower.
#[local] Instance ex_client_laws : ClientLaws Index := MemoryClient_laws ToLower.

Lemma resolve_price_spec_witness :
  @Cart.resolve_price (service_reader (calm_env 0 1) 0%nat ex_world) "SKU-2" "USD" = Ok 500.
Proof.
  apply (resolve_price_spec "SKU-2" "USD" (calm_env 0 1) 0%nat ex_world 500 ex_wf); [reflexivity|].
  split; [reflexivity|]. exists 2%N, (ex_row "SKU-2" 1700000001000000000). by split_and!.
Defined.

Definition ex_spaced : CreateProductRequest :=
  MkCreateProductRequest " SKU-9" "nine" "" None (Money.MkMoney 900 "USD").

Lemma untrimmed_sku_unsellable_witness :
  let w' := final (CreateProduct true ex_spaced (calm_env 1000 50) 0%nat ex_world) in
  let s := final (Cart.CreateOrGetActiveCart (CR := ex_reader []) 7 (calm_env 100 40) 0%nat Cart.empty_state) in
  ∃ e, outcome (@Cart.AddItem (service_reader (calm_env 0 1) 0%nat w') 40 7 " SKU-9" 1 1 (calm_env 0 60) 0%nat s) = Err e.
Proof.
  intros w' s.
  refine (proj2 (proj2 (untrimmed_sku_unsellable true ex_spaced (calm_env 1000 50) 0%nat ex_world _ _
    (MkProduct 50 None " SKU-9" "nine" "" 900 "USD" (Money.MkMoney 900 "USD") true 1 [] 1000 1000) _ _)
    (calm_env 0 1) 0%nat 40%N 7%N 1 1 (calm_env 0 60) 0%nat s _ _ _ (run_eta _))).
  - vm_compute. reflexivity.
  - vm_compute. reflexivity.
Defined.
End examples.
