(* ===== verification/Saga.v ===== *)
(** internal/domain/saga: the coordinator that drives an order through stock
    reservation, payment and confirmation, its state machine and its log, the
    compensation of a failed order, and the watchdog that compensates timed-out sagas.

    The bounded contexts the coordinator commands are its interfaces
    ([InventoryCommander], [OrderCommander], [PaymentCommander]): classes over the
    state [X] they share, so that the theorems of this file hold for every
    implementation.  System.v plugs in the real ones.  The coordinator is modelled with
    a pool, as the program builds it; the branch without one serves tests. *)

From S2P Require Import Prelude Database Json.

(** * States (models.go, fsm.go) *)

Inductive SagaState :=
| StateStarted
| StatePending
| StateReservingStock
| StateStockReserved
| StatePaying
| StatePaid
| StateConfirmed
| StateCompensating
| StateFailed
| StateFailedCompensated.

#[export] Instance SagaState_eq_dec : EqDecision SagaState.
Proof. solve_decision. Defined.

Definition state_string (s : SagaState) : string :=
  match s with
  | StateStarted => "STARTED"
  | StatePending => "PENDING"
  | StateReservingStock => "RESERVING_STOCK"
  | StateStockReserved => "STOCK_RESERVED"
  | StatePaying => "PAYING"
  | StatePaid => "PAID"
  | StateConfirmed => "CONFIRMED"
  | StateCompensating => "COMPENSATING"
  | StateFailed => "FAILED"
  | StateFailedCompensated => "FAILED_COMPENSATED"
  end.

Definition ValidTransitions (from : SagaState) : list SagaState :=
  match from with
  | StateStarted =>
      [StateReservingStock; StateCompensating; StateFailed; StateFailedCompensated]
  | StatePending =>
      [StateReservingStock; StateStockReserved; StateCompensating; StateFailed;
       StateFailedCompensated]
  | StateReservingStock =>
      [StateStockReserved; StateCompensating; StateFailed; StateFailedCompensated]
  | StateStockReserved => [StatePaying; StateCompensating; StateFailed; StateFailedCompensated]
  | StatePaying => [StatePaid; StateCompensating; StateFailed; StateFailedCompensated]
  | StatePaid => [StateConfirmed; StateCompensating; StateFailed; StateFailedCompensated]
  | StateCompensating => [StateFailed; StateFailedCompensated]
  | StateConfirmed | StateFailed | StateFailedCompensated => []
  end.

Definition CanTransition (from to : SagaState) : bool :=
  existsb (λ target, bool_decide (target = to)) (ValidTransitions from).

Definition IsTerminal (state : SagaState) : bool :=
  bool_decide (state = StateConfirmed) || bool_decide (state = StateFailed)
  || bool_decide (state = StateFailedCompensated).

(** * Errors (errors.go and the texts at the points of use) *)

Inductive error : Type :=
| ErrSagaNotFound
| ErrSagaAlreadyExists
| ErrInvalidStateTransition (from to : SagaState)
| ErrSagaAlreadyTerminal
| ErrSagaTimeout
| ErrCompensationFailed (what : string)
| ErrOptimisticLockConflict (from : SagaState) (current : string)
| ErrWrap (what : string) (e : error)   (** [fmt.Errorf(what + "%w", e)] *)
| ErrCommander (msg : string)           (** an error returned by a commander *)
| ErrText (msg : string)                (** [fmt.Errorf] at the point of use *)
| ErrDriver (msg : string).

Fixpoint Error (e : error) : string :=
  match e with
  | ErrSagaNotFound => "order saga not found"
  | ErrSagaAlreadyExists => "order saga already exists for this order"
  | ErrInvalidStateTransition from to =>
      "invalid saga state transition: cannot transition from " ++ state_string from ++ " to "
      ++ state_string to
  | ErrSagaAlreadyTerminal => "cannot transition from terminal state"
  | ErrSagaTimeout => "order saga timed out"
  | ErrCompensationFailed what => "saga compensation workflow failed: " ++ what
  | ErrOptimisticLockConflict from current =>
      "saga modified by concurrent transaction: state changed from " ++ state_string from ++ " to "
      ++ current
  | ErrWrap what e => what ++ Error e
  | ErrCommander msg => msg
  | ErrText msg => msg
  | ErrDriver msg => msg
  end%string.

#[export] Instance error_GoError : GoError error :=
  {| error_text := Error; driver_error := ErrDriver; driver_error_text := λ _, eq_refl |}.

(** * Data (models.go) *)

Record SagaItem := MkSagaItem {
  Item_SKU : string;
  Item_Quantity : Z;
  Item_UnitPriceMinor : Z;
}.

Record SagaPayload := MkSagaPayload {
  OrderID : uuid;
  CustomerID : uuid;
  TotalAmountMinor : Z;
  Currency : string;
  Items : list SagaItem;
  ReservationID : option uuid;
  PaymentID : option uuid;
  PaymentToken : string;
  FailureReason : string;
  CompensatingStep : string;
}.

(** A row of [order_sagas]; the JSONB payload is kept decoded (see
    [payload_json_roundtrip]). *)
Record OrderSaga := MkOrderSaga {
  SagaID : uuid;
  Saga_OrderID : uuid;
  CurrentState : SagaState;
  Payload : SagaPayload;
  RetryCount : Z;
  TimeoutAt : Z;
  CreatedAt : Z;
  UpdatedAt : Z;
}.

(** A row of [order_saga_logs]; its serial id is its position in the table.  The
    empty [FromState] of the first entry is [None]. *)
Record OrderSagaLog := MkOrderSagaLog {
  Log_SagaID : uuid;
  FromState : option SagaState;
  ToState : SagaState;
  EventType : string;
  EventID : string;
  ErrorDetail : option string;
  Log_CreatedAt : Z;
}.

(** ** JSON of the payload, with its omitempty fields *)

Definition saga_item_to_json (it : SagaItem) : json :=
  JObject [("sku", JString (Item_SKU it)); ("quantity", JInt (Item_Quantity it));
           ("unit_price_minor", JInt (Item_UnitPriceMinor it))].

Definition saga_item_of_json (j : json) : option SagaItem :=
  f ← as_object j;
  sku ← as_string (field f "sku"); qty ← as_int (field f "quantity");
  price ← as_int (field f "unit_price_minor");
  Some (MkSagaItem sku qty price).

Definition omitempty_uuid (k : string) (u : option uuid) : list (string * json) :=
  match u with Some u => [(k, JUUID u)] | None => [] end.
Definition omitempty_string (k s : string) : list (string * json) :=
  if String.eqb s "" then [] else [(k, JString s)].

Definition Marshal (p : SagaPayload) : json :=
  JObject ([("order_id", JUUID (OrderID p)); ("customer_id", JUUID (CustomerID p));
            ("total_amount_minor", JInt (TotalAmountMinor p)); ("currency", JString (Currency p));
            ("items", JArray (saga_item_to_json <$> Items p))]
           ++ omitempty_uuid "reservation_id" (ReservationID p)
           ++ omitempty_uuid "payment_id" (PaymentID p)
           ++ omitempty_string "payment_token" (PaymentToken p)
           ++ omitempty_string "failure_reason" (FailureReason p)
           ++ omitempty_string "compensating_step" (CompensatingStep p)).

(** A pointer field: absent or null is [nil]. *)
Definition as_uuid_ptr (j : json) : option (option uuid) :=
  match j with JUUID u => Some (Some u) | JNull => Some None | _ => None end.

Definition UnmarshalPayload (j : json) : option SagaPayload :=
  f ← as_object j;
  oid ← as_uuid (field f "order_id"); cid ← as_uuid (field f "customer_id");
  total ← as_int (field f "total_amount_minor"); cur ← as_string (field f "currency");
  items ← as_array (field f "items") ≫= mapM saga_item_of_json;
  rid ← as_uuid_ptr (field f "reservation_id"); pid ← as_uuid_ptr (field f "payment_id");
  token ← as_string (field f "payment_token"); why ← as_string (field f "failure_reason");
  step ← as_string (field f "compensating_step");
  Some (MkSagaPayload oid cid total cur items rid pid token why step).

(** * Commanders (interfaces.go) *)

Record ReservationItem := MkReservationItem { Res_SKU : string; Res_Quantity : Z }.
Record ReservationResult := MkReservationResult {
  Result_ReservationID : uuid;
  Success : bool;
  FailedSKUs : list string;
  ErrorMessage : string;
}.

(** A commander's error matters through its text only. *)
Class InventoryCommander (X : Type) := {
  ReserveStock : uuid → list ReservationItem → M X string ReservationResult;
  ReleaseStock : uuid → string → M X string unit;
  CommitStock : uuid → M X string unit;
}.

Class OrderCommander (X : Type) := {
  UpdateStatus : uuid → string → M X string unit;
  CancelOrder : uuid → string → M X string unit;
  ConfirmOrder : uuid → M X string unit;
}.

(** The identifier comes back with an error too; the coordinator drops it then. *)
Class PaymentCommander (X : Type) := {
  AuthorizeAndCapture : uuid → uuid → Z → string → string → string → M X string uuid;
  Refund : uuid → uuid → Z → string → string → M X string unit;
}.

(** * Tables (migrations/00005_create_saga_tables.sql) *)

Record State (X : Type) := MkState {
  order_sagas : gmap uuid OrderSaga;
  order_saga_logs : list OrderSagaLog;
  world : X;                          (** the state of the other contexts *)
}.
Arguments MkState {X} _ _ _.
Arguments order_sagas {X} _.
Arguments order_saga_logs {X} _.
Arguments world {X} _.

Definition set_sagas {X} (s : State X) (m : gmap uuid OrderSaga) : State X :=
  MkState m (order_saga_logs s) (world s).
Definition set_logs {X} (s : State X) (l : list OrderSagaLog) : State X :=
  MkState (order_sagas s) l (world s).
Definition set_world {X} (x : X) (s : State X) : State X :=
  MkState (order_sagas s) (order_saga_logs s) x.

Definition pg_check : string := "new row violates a constraint of its table".

Definition saga_by_order {X} (s : State X) (orderID : uuid) : option OrderSaga :=
  snd <$> list_find (λ g, Saga_OrderID g = orderID) (map_to_list (order_sagas s)).*2.

(** * Repository (repository.go) *)

Section repository.
Context `{UT : UuidText} {X : Type}.
Local Open Scope go_scope.
Notation op := (M (State X) error).

Definition AppendLog (sagaID : uuid) (from : option SagaState) (to : SagaState)
    (eventType eventID : string) (errDetail : option string) : op unit :=
  sql "" (λ now s,
    let row := MkOrderSagaLog sagaID from to eventType eventID errDetail now in
    if negb (varchar_ok 128 eventType && varchar_ok 128 eventID) then Err (ErrDriver pg_check) else
    match order_sagas s !! sagaID with
    | None => Err (ErrDriver "insert violates foreign key constraint")
    | Some _ => Ok (set_logs s (order_saga_logs s ++ [row]), tt)
    end).

(** [CreateSagaTx], and the saga as the code leaves it. *)
Definition CreateSagaTx (saga : OrderSaga) : op OrderSaga :=
  let* id := if (SagaID saga =? uuid_Nil)%N then uuid_New else ret (SagaID saga) in
  let* timeoutAt := if TimeoutAt saga =? time_Zero
                    then (let* now := time_now in ret (now + 60 * Second))
                    else ret (TimeoutAt saga) in
  let* saga := sql "insert order_saga: " (λ now s,
    let row := MkOrderSaga id (Saga_OrderID saga) (CurrentState saga) (Payload saga)
                 (RetryCount saga) timeoutAt now now in
    if negb (int4_ok (RetryCount saga)) then Err (ErrDriver ("insert order_saga: " ++ pg_check)%string)
    else match order_sagas s !! id, saga_by_order s (Saga_OrderID saga) with
         | None, None => Ok (set_sagas s (<[id := row]> (order_sagas s)), row)
         | _, _ => Err ErrSagaAlreadyExists
         end) in
  let* eventID := uuid_New in
  AppendLog (SagaID saga) None (CurrentState saga) "SagaInitialized" (uuid_String eventID) None ;;;
  ret saga.

Definition CreateSaga (saga : OrderSaga) : op OrderSaga := ExecuteTx (CreateSagaTx saga).

Definition GetSagaByID (sagaID : uuid) : op OrderSaga :=
  sql "scan saga row: " (λ _ s,
    match order_sagas s !! sagaID with Some g => Ok (s, g) | None => Err ErrSagaNotFound end).

Definition GetSagaByOrderID (orderID : uuid) : op OrderSaga :=
  sql "scan saga row: " (λ _ s,
    match saga_by_order s orderID with Some g => Ok (s, g) | None => Err ErrSagaNotFound end).

(** The same rows, under a row lock. *)
Definition GetSagaForUpdate (sagaID : uuid) : op OrderSaga := GetSagaByID sagaID.
Definition GetSagaByOrderIDForUpdate (orderID : uuid) : op OrderSaga := GetSagaByOrderID orderID.

Definition move_to (g : OrderSaga) (to : SagaState) (payload : SagaPayload) (timeoutAt now : Z) :
    OrderSaga :=
  MkOrderSaga (SagaID g) (Saga_OrderID g) to payload (RetryCount g) timeoutAt (CreatedAt g) now.

(** [TransitionState]: a compare-and-set on the current state. *)
Definition TransitionState (sagaID : uuid) (fromState toState : SagaState)
    (payload : SagaPayload) (nextTimeout : Z) : op unit :=
  if negb (CanTransition fromState toState)
  then fail (ErrInvalidStateTransition fromState toState) else
  let* nextTimeout :=
    if nextTimeout =? time_Zero then
      (let* now := time_now in
       ret (now + (if IsTerminal toState then 24 * 3600 * Second else 60 * Second)))
    else ret nextTimeout in
  let* updated := sql "update saga state: " (λ now s,
    match order_sagas s !! sagaID with
    | Some g =>
        if decide (CurrentState g = fromState)
        then Ok (set_sagas s (<[sagaID := move_to g toState payload nextTimeout now]> (order_sagas s)),
                 true)
        else Ok (s, false)
    | None => Ok (s, false)
    end) in
  if (updated : bool) then ret tt else
  let* current := try (sql "" (λ _ s, Ok (s, CurrentState <$> order_sagas s !! sagaID))) in
  match current with
  | Ok None => fail ErrSagaNotFound
  | Ok (Some st) =>
      if IsTerminal st then fail ErrSagaAlreadyTerminal
      else fail (ErrOptimisticLockConflict fromState (state_string st))
  | Err _ => fail (ErrOptimisticLockConflict fromState "")
  end.

(** ORDER BY created_at ASC, id ASC: the sort is stable, and the rows come in the
    order of their ids. *)
Definition log_le (x y : OrderSagaLog) : Prop := Log_CreatedAt x <= Log_CreatedAt y.
#[local] Instance log_le_dec : RelDecision log_le.
Proof. intros x y. unfold log_le. apply _. Defined.

Definition logs_of (s : State X) (sagaID : uuid) : list OrderSagaLog :=
  filter (λ l, Log_SagaID l = sagaID) (order_saga_logs s).

Definition GetLogs (sagaID : uuid) : op (list OrderSagaLog) :=
  sql "query saga logs: " (λ _ s, Ok (s, merge_sort log_le (logs_of s sagaID))).

Definition timeout_le (x y : OrderSaga) : Prop := TimeoutAt x <= TimeoutAt y.
#[local] Instance timeout_le_dec : RelDecision timeout_le.
Proof. intros x y. unfold timeout_le. apply _. Defined.

Definition timed_out (now : Z) (g : OrderSaga) : Prop :=
  TimeoutAt g <= now ∧ IsTerminal (CurrentState g) = false.
#[local] Instance timed_out_dec now g : Decision (timed_out now g).
Proof. unfold timed_out. apply _. Defined.

Definition FindTimedOutSagas (limit : Z) : op (list OrderSaga) :=
  let limit := if limit <=? 0 then 20 else limit in
  sql "query timed out sagas: " (λ now s,
    Ok (s, take (Z.to_nat limit)
             (merge_sort timeout_le (filter (timed_out now) (map_to_list (order_sagas s)).*2)))).
End repository.

(** * Coordinator (coordinator.go) *)

Record Config := MkConfig {
  StockTimeout : Z;
  PaymentTimeout : Z;
  ConfirmTimeout : Z;
  CompensatedTerminalState : option SagaState;   (** [None] is the empty string *)
}.

Definition DefaultConfig : Config :=
  MkConfig (30 * Second) (60 * Second) (30 * Second) (Some StateFailed).

(** The defaults [NewCoordinator] fills in. *)
Definition NewCoordinator_cfg (cfg : Config) : Config :=
  let def t d := if t <=? 0 then d else t in
  MkConfig (def (StockTimeout cfg) (30 * Second)) (def (PaymentTimeout cfg) (60 * Second))
    (def (ConfirmTimeout cfg) (30 * Second))
    (Some (default StateFailed (CompensatedTerminalState cfg))).

Section coordinator.
Context `{UT : UuidText} {X : Type} `{!InventoryCommander X, !OrderCommander X, !PaymentCommander X}.
Variable cfg : Config.
Local Open Scope go_scope.
Notation op := (M (State X) error).

(** A command to another context. *)
Definition command {A} (m : M X string A) : op A := map_err ErrCommander (zoom world set_world m).

Definition StartSaga (payload : SagaPayload) : op OrderSaga :=
  let* id := uuid_New in
  let* now := time_now in
  map_err (ErrWrap "start saga: ")
    (CreateSaga (MkOrderSaga id (OrderID payload) StateStarted payload 0
                   (now + StockTimeout cfg) time_Zero time_Zero)).

Definition transitionAndLog (sagaID : uuid) (from to : SagaState) (eventType : string)
    (errDetail : option string) (timeout : Z) (updatedPayload : option SagaPayload) : op unit :=
  ExecuteTx (
    let* saga := GetSagaForUpdate sagaID in
    let payload := default (Payload saga) updatedPayload in
    let* nextTimeout := if 0 <? timeout then (let* now := time_now in ret (now + timeout))
                        else ret time_Zero in
    TransitionState sagaID from to payload nextTimeout ;;;
    let* eventID := uuid_New in
    AppendLog sagaID (Some from) to eventType (uuid_String eventID) errDetail).

Definition set_reservation (p : SagaPayload) (rid : uuid) : SagaPayload :=
  MkSagaPayload (OrderID p) (CustomerID p) (TotalAmountMinor p) (Currency p) (Items p) (Some rid)
    (PaymentID p) (PaymentToken p) (FailureReason p) (CompensatingStep p).
Definition set_payment (p : SagaPayload) (pid : uuid) : SagaPayload :=
  MkSagaPayload (OrderID p) (CustomerID p) (TotalAmountMinor p) (Currency p) (Items p)
    (ReservationID p) (Some pid) (PaymentToken p) (FailureReason p) (CompensatingStep p).
Definition set_failure (p : SagaPayload) (reason step : string) : SagaPayload :=
  MkSagaPayload (OrderID p) (CustomerID p) (TotalAmountMinor p) (Currency p) (Items p)
    (ReservationID p) (PaymentID p) (PaymentToken p) reason step.

Definition handleStockReservationFailure (sagaID : uuid) (reason : string) : op unit :=
  let* saga := GetSagaByID sagaID in
  if IsTerminal (CurrentState saga) then ret tt else
  let* _ := try (command (CancelOrder (Saga_OrderID saga) reason)) in
  transitionAndLog sagaID (CurrentState saga) StateFailed "StockReservationFailed" (Some reason) 0
    (Some (set_failure (Payload saga) reason (CompensatingStep (Payload saga)))) ;;;
  fail (ErrText ("stock reservation failed: " ++ reason)%string).

(** A command of the compensation; its failure is wrapped. *)
Definition compensating {A} (what : string) (m : M X string A) : op A :=
  map_err (λ e, ErrCompensationFailed (what ++ Error e)%string) (command m).

(** [Compensate] from the saga as it was read, once the saga is COMPENSATING. *)
Definition compensate_steps (sagaID : uuid) (saga : OrderSaga) (reason : string) : op unit :=
  match ReservationID (Payload saga) with
  | Some rid => compensating "inventory release failed: " (ReleaseStock rid reason)
  | None => ret tt
  end ;;;
  match PaymentID (Payload saga) with
  | Some pid => compensating "payment refund failed: "
      (Refund pid (Saga_OrderID saga) (TotalAmountMinor (Payload saga)) reason
         (uuid_String (Saga_OrderID saga)))
  | None => ret tt
  end ;;;
  compensating "order cancellation failed: " (CancelOrder (Saga_OrderID saga) reason) ;;;
  transitionAndLog sagaID StateCompensating (default StateFailed (CompensatedTerminalState cfg))
    "CompensationCompleted" (Some "compensation completed successfully") 0 None.

Definition Compensate (sagaID : uuid) (reason : string) : op unit :=
  let* saga := GetSagaByID sagaID in
  if IsTerminal (CurrentState saga) then ret tt else
  (if decide (CurrentState saga = StateCompensating) then ret tt
   else map_err (ErrWrap "transition to compensating: ")
          (transitionAndLog sagaID (CurrentState saga) StateCompensating "CompensationStarted"
             (Some reason) (60 * Second)
             (Some (set_failure (Payload saga) reason "releasing_stock")))) ;;;
  compensate_steps sagaID saga reason.

(** [for attempt := 0; attempt < 3; attempt++] around [CommitStock]. *)
Fixpoint commit_attempts (n : nat) (rid : uuid) : op unit :=
  match n with
  | O => ret tt
  | S O => command (CommitStock rid)
  | S n =>
      let* r := try (command (CommitStock rid)) in
      match r with Ok tt => ret tt | Err _ => commit_attempts n rid end
  end.

(** From PAYING on. *)
Definition execute_payment (sagaID : uuid) (saga : OrderSaga) (payload : SagaPayload) (rid : uuid) :
    op unit :=
  let* captured := try (command (AuthorizeAndCapture (Saga_OrderID saga) (CustomerID payload)
                                   (TotalAmountMinor payload) (Currency payload)
                                   (PaymentToken payload) (uuid_String (Saga_OrderID saga)))) in
  match captured with
  | Err e => Compensate sagaID ("payment_failed: " ++ Error e)%string
  | Ok paymentID =>
      let payload := set_payment payload paymentID in
      transitionAndLog sagaID StatePaying StatePaid "PaymentCaptured" None (ConfirmTimeout cfg)
        (Some payload) ;;;
      map_err (ErrWrap "commit stock failed after payment: ") (commit_attempts 3 rid) ;;;
      command (ConfirmOrder (Saga_OrderID saga)) ;;;
      transitionAndLog sagaID StatePaid StateConfirmed "OrderConfirmed" None 0 None
  end.

(** Why a reservation was refused, if it was. *)
Definition reservation_refused (r : result error ReservationResult) : option string :=
  match r with
  | Err e => Some (Error e)
  | Ok res =>
      if Success res then None
      else Some (if String.eqb (ErrorMessage res) "" then "insufficient_stock" else ErrorMessage res)
  end.

Definition ExecuteSaga (sagaID : uuid) : op unit :=
  let* saga := map_err (ErrWrap "get saga for execution: ") (GetSagaByID sagaID) in
  if IsTerminal (CurrentState saga) then fail ErrSagaAlreadyTerminal else
  if negb (bool_decide (CurrentState saga = StateStarted)
           || bool_decide (CurrentState saga = StatePending)) then
    if decide (CurrentState saga = StateReservingStock)
    then fail (ErrText ("saga " ++ uuid_String sagaID
                        ++ " is currently reserving stock by another process")%string)
    else fail (ErrText ("saga " ++ uuid_String sagaID ++ " is in state "
                        ++ state_string (CurrentState saga)
                        ++ " and cannot be executed directly")%string)
  else
  transitionAndLog sagaID (CurrentState saga) StateReservingStock "StockReservationStarted" None
    (StockTimeout cfg) None ;;;
  let* saga := GetSagaByID sagaID in
  let items := (λ it, MkReservationItem (Item_SKU it) (Item_Quantity it)) <$> Items (Payload saga) in
  let* reserved := try (command (ReserveStock (Saga_OrderID saga) items)) in
  match reservation_refused reserved, reserved with
  | Some reason, _ => handleStockReservationFailure sagaID reason
  | None, Err _ => ret tt
  | None, Ok res =>
      let rid := Result_ReservationID res in
      let payload := set_reservation (Payload saga) rid in
      let* moved := try (transitionAndLog sagaID StateReservingStock StateStockReserved
                           "StockReserved" None (PaymentTimeout cfg) (Some payload)) in
      match moved with
      | Err e => try (command (ReleaseStock rid "transition_failed")) ;;; fail e
      | Ok tt =>
          transitionAndLog sagaID StateStockReserved StatePaying "PaymentInitiated" None
            (PaymentTimeout cfg) None ;;;
          execute_payment sagaID saga payload rid
      end
  end.

(** * Watchdog (watchdog.go) *)

Record WatchdogConfig := MkWatchdogConfig { PollInterval : Z; BatchSize : Z }.
Definition DefaultWatchdogConfig : WatchdogConfig := MkWatchdogConfig (5 * Second) 20.
Definition NewWatchdog_cfg (c : WatchdogConfig) : WatchdogConfig :=
  MkWatchdogConfig (if PollInterval c <=? 0 then 5 * Second else PollInterval c)
    (if BatchSize c <=? 0 then 20 else BatchSize c).

(** What the watchdog does with one timed-out saga; its errors are dropped. *)
Definition process_expired (s : OrderSaga) : op unit :=
  match CurrentState s with
  | StateStarted | StatePending =>
      try (handleStockReservationFailure (SagaID s) "timeout_in_started_state") ;;; ret tt
  | StateReservingStock =>
      try (handleStockReservationFailure (SagaID s) "timeout_waiting_for_stock") ;;; ret tt
  | StateStockReserved => try (Compensate (SagaID s) "timeout_waiting_for_payment") ;;; ret tt
  | StatePaying => try (Compensate (SagaID s) "timeout_waiting_for_payment") ;;; ret tt
  | StatePaid => try (Compensate (SagaID s) "timeout_after_payment_captured") ;;; ret tt
  | StateCompensating => try (Compensate (SagaID s) "retry_compensation_timeout") ;;; ret tt
  | _ => ret tt
  end.

Definition ProcessExpiredSagas (wcfg : WatchdogConfig) : op unit :=
  let* found := try (FindTimedOutSagas (BatchSize wcfg)) in
  match found with
  | Err _ => ret tt
  | Ok sagas => for_each process_expired sagas
  end.
End coordinator.

(** * The state machine *)

Lemma CanTransition_terminal s t : IsTerminal s = true → CanTransition s t = false.
Proof. by destruct s, t. Qed.

Definition stage (s : SagaState) : nat :=
  match s with
  | StateStarted | StatePending => 0
  | StateReservingStock => 1
  | StateStockReserved => 2
  | StatePaying => 3
  | StatePaid => 4
  | StateCompensating => 5
  | StateConfirmed | StateFailed | StateFailedCompensated => 6
  end.

Lemma CanTransition_stage s t : CanTransition s t = true → (stage s < stage t)%nat.
Proof. destruct s, t; vm_compute; intros; first [discriminate|lia]. Qed.

Lemma nsteps_stage n s t :
  nsteps (λ a b, CanTransition a b = true) n s t → (n + stage s <= stage t)%nat.
Proof. induction 1 as [s|n s1 s2 s3 H12 _ IH]; [lia|]. apply CanTransition_stage in H12. lia. Qed.

(** The saga's state machine.  A saga takes at most six transitions and never comes
    back to a state it has left; the terminal states are exactly those without a way out; every state that
    is not terminal may fail, and may be compensated unless it already is; and CONFIRMED
    is entered from PAID only. *)
Theorem saga_fsm_sound :
  (∀ n s t, nsteps (λ a b, CanTransition a b = true) n s t → (n <= 6)%nat ∧ (n = 0%nat ∨ s ≠ t)) ∧
  (∀ s, IsTerminal s = true ↔ ∀ t, CanTransition s t = false) ∧
  (∀ s, IsTerminal s = false →
     CanTransition s StateFailed = true ∧ CanTransition s StateFailedCompensated = true ∧
     (s ≠ StateCompensating → CanTransition s StateCompensating = true)) ∧
  (∀ s, CanTransition s StateConfirmed = true ↔ s = StatePaid).
Proof.
  split_and!.
  - intros n s t H. apply nsteps_stage in H. assert (stage t <= 6)%nat by (destruct t; simpl; lia).
    split; [lia|]. destruct n; [by left|right]. intros ->. lia.
  - intros s. split; [intros H t; by apply CanTransition_terminal|].
    intros H. destruct s; try done; specialize (H StateFailed); discriminate.
  - intros s H. by destruct s.
  - intros s. split; [by destruct s|]. by intros ->.
Qed.

(** * JSON *)

(** The payload of a saga survives its JSONB column: decoding what [Marshal]
    writes gives the payload back, with absent optional fields read as nil or empty. *)
Theorem payload_json_roundtrip p : UnmarshalPayload (Marshal p) = Some p.
Proof.
  destruct p as [oid cid total cur items rid pid token why step].
  assert (H : mapM saga_item_of_json (saga_item_to_json <$> items) = Some items).
  { induction items as [|[sku q pr] items IH]; [done|]. rewrite fmap_cons. cbn [mapM].
    change (saga_item_of_json (saga_item_to_json (MkSagaItem sku q pr)))
      with (Some (MkSagaItem sku q pr)).
    cbn [mbind option_bind]. by rewrite IH. }
  unfold UnmarshalPayload, Marshal, omitempty_uuid, omitempty_string. cbn [Items ReservationID PaymentID
    PaymentToken FailureReason CompensatingStep].
  generalize dependent (saga_item_to_json <$> items). intros js H.
  destruct (String.eqb_spec token ""), (String.eqb_spec why ""), (String.eqb_spec step "");
    subst; destruct rid, pid; simpl; rewrite H; done.
Qed.

(** * Transactions *)

Section transactions.
Context `{UT : UuidText} {X : Type}.

Definition entry (id : uuid) (from : option SagaState) (to : SagaState) (event eid : string)
    (detail : option string) (now : Z) : OrderSagaLog :=
  MkOrderSagaLog id from to event eid detail now.

(** The tables after a transition and its log entry. *)
Inductive moved (s : State X) (id : uuid) (from to : SagaState) (event : string)
    (detail : option string) (payload : option SagaPayload) : State X → Prop :=
| moved_intro g timeoutAt now eid now_log :
    order_sagas s !! id = Some g → CurrentState g = from → CanTransition from to = true →
    moved s id from to event detail payload
      (MkState (<[id := move_to g to (default (Payload g) payload) timeoutAt now]> (order_sagas s))
         (order_saga_logs s ++ [entry id (Some from) to event eid detail now_log]) (world s)).

(** Why a transition was refused. *)
Definition refused (s : State X) (id : uuid) (from to : SagaState) (e : error) : Prop :=
  match order_sagas s !! id with
  | None => e = ErrSagaNotFound
  | Some g =>
      if CanTransition from to then
        if decide (CurrentState g = from) then ∃ m, e = ErrDriver m
        else if IsTerminal (CurrentState g) then e = ErrSagaAlreadyTerminal
        else e = ErrOptimisticLockConflict from (state_string (CurrentState g))
      else e = ErrInvalidStateTransition from to
  end.

Lemma TransitionState_run env n (s : State X) id from to p t n' s' r g :
  order_sagas s !! id = Some g →
  TransitionState id from to p t env n s = (n', s', r) →
  match r with
  | Ok _ => CanTransition from to = true ∧ CurrentState g = from ∧
      ∃ timeoutAt now, s' = set_sagas s (<[id := move_to g to p timeoutAt now]> (order_sagas s))
  | Err e => s' = s ∧ (faulted env ∨ refused s id from to e)
  end.
Proof.
  intros Hg. unfold TransitionState, refused. rewrite Hg.
  destruct (CanTransition from to) eqn:Hcan; simpl;
    [|unfold fail; intros [= <- <- <-]; by auto].
  intros [(e & H & ->)|(n1 & s1 & tmo & H1 & H)]%bind_inv.
  { destruct (t =? time_Zero); [|done]. unfold time_now, bind, ret in H. done. }
  assert (s1 = s) as ->.
  { destruct (t =? time_Zero); unfold time_now, bind, ret in H1; by injection H1 as <- <- <-. }
  clear H1. apply bind_inv in H as [(e & H & ->)|(n2 & s2 & upd & Hu & H)].
  { unfold sql in H. destruct (env_fault env n1) eqn:Hf.
    - injection H as <- <- <-. split; [done|]. left. by eexists _, _.
    - rewrite Hg in H. by case_decide. }
  apply sql_ok_inv in Hu as (Hf & Hu & _). rewrite Hg in Hu.
  case_decide as Hst; injection Hu as <- <-.
  { unfold ret in H. injection H as <- <- <-. split_and!; [done..|]. by eexists _, _. }
  apply bind_inv in H as [(e & H & ->)|(n3 & s3 & cur & Hc & H)].
  { unfold try in H. by destruct (sql _ _ _ _ _) as [[? ?] ?]. }
  unfold try, sql in Hc. destruct (env_fault env n2) eqn:Hf2.
  - injection Hc as <- <- <-. unfold fail in H. injection H as <- <- <-.
    split; [done|]. left. by eexists _, _.
  - rewrite Hg in Hc. simpl in Hc. injection Hc as <- <- <-.
    destruct (IsTerminal (CurrentState g)); unfold fail in H; injection H as <- <- <-; by auto.
Qed.

Lemma AppendLog_run env n (s : State X) id from to event eid detail n' s' r :
  is_Some (order_sagas s !! id) →
  AppendLog id from to event eid detail env n s = (n', s', r) →
  match r with
  | Ok _ => ∃ now, s' = set_logs s (order_saga_logs s ++ [entry id from to event eid detail now])
  | Err e => s' = s ∧ ∃ m, e = ErrDriver m
  end.
Proof.
  intros [g Hg]. unfold AppendLog, sql. destruct (env_fault env n); [intros [= <- <- <-]; by eauto|].
  destruct (negb _); [intros [= <- <- <-]; by eauto|]. rewrite Hg. intros [= <- <- <-].
  by eexists.
Qed.

Lemma triple_transitionAndLog env (s : State X) id from to event detail timeout payload :
  triple env (λ s', s' = s) (transitionAndLog id from to event detail timeout payload)
    (λ _ s', moved s id from to event detail payload s')
    (λ e s', s' = s ∧ (faulted env ∨ refused s id from to e)).
Proof.
  unfold transitionAndLog. set (body := bind _ _).
  assert (Hbody : triple env (λ s', s' = s) body
    (λ _ s', moved s id from to event detail payload s')
    (λ e _, faulted env ∨ refused s id from to e)).
  { intros n s1 n' s' r ->. subst body.
    intros [(e & H & ->)|(n1 & s1 & g & H1 & H)]%bind_inv.
    { unfold GetSagaForUpdate, GetSagaByID, sql in H. destruct (env_fault env n) eqn:Hf.
      - left. by eexists _, _.
      - unfold refused. right. destruct (order_sagas s !! id); [done|]. by injection H as _ _ <-. }
    apply sql_ok_inv in H1 as (_ & H1 & _). destruct (order_sagas s !! id) as [g'|] eqn:Hg; [|done].
    injection H1 as <- <-. cbv zeta in H.
    apply bind_inv in H as [(e & H & ->)|(n2 & s2 & t & Ht & H)].
    { destruct (0 <? timeout); unfold time_now, bind, ret in H; done. }
    assert (s2 = s) as ->.
    { destruct (0 <? timeout); unfold time_now, bind, ret in Ht; by injection Ht as <- <- <-. }
    apply bind_inv in H as [(e & H & ->)|(n3 & s3 & [] & H1 & H)].
    { apply (TransitionState_run _ _ _ _ _ _ _ _ _ _ _ _ Hg) in H. by apply H. }
    apply (TransitionState_run _ _ _ _ _ _ _ _ _ _ _ _ Hg) in H1 as (Hcan & Hst & tmo & now & ->).
    apply bind_inv in H as [(e & H & ->)|(n4 & s4 & u & H1 & H)]; [done|].
    unfold uuid_New in H1. injection H1 as <- <- <-.
    apply AppendLog_run in H; [|simpl; rewrite lookup_insert, decide_True by done; by eexists].
    destruct r as [[]|e].
    - destruct H as [nl ->].
      by apply (moved_intro s id from to event detail payload g' tmo now _ nl).
    - destruct H as (_ & m & ->). right. unfold refused. rewrite Hg, Hcan, decide_True by done. by eauto. }
  intros n s1 n' s' r -> Hrun. destruct r as [[]|e].
  - apply ExecuteTx_ok in Hrun as (n1 & Hrun & _). by apply (Hbody _ _ _ _ _ eq_refl Hrun).
  - pose proof (triple_ExecuteTx_err env (λ s', s' = s) _ _ (λ e, faulted env ∨ refused s id from to e) Hbody
      n s n' s' (Err e) eq_refl Hrun) as [Hs He]. split; [done|].
    destruct He as [[Hf _]|He]; [by left|done].
Qed.
End transactions.

(** * The log *)

Section history.
Context `{UT : UuidText} {X : Type}.
Implicit Types (s : State X).

(** The log is a path of legal transitions from [from] to [to]. *)
Fixpoint chain (from : option SagaState) (log : list OrderSagaLog) (to : SagaState) : Prop :=
  match log with
  | [] => from = Some to
  | l :: rest =>
      FromState l = from ∧
      match from with None => True | Some f => CanTransition f (ToState l) = true end ∧
      chain (Some (ToState l)) rest to
  end.

Lemma chain_snoc from log to l :
  chain from log to → FromState l = Some to → CanTransition to (ToState l) = true →
  chain from (log ++ [l]) (ToState l).
Proof.
  revert from. induction log as [|x log IH]; intros from; simpl.
  - intros -> Hf Hc. by rewrite Hf.
  - intros (H1 & H2 & H3) Hf Hc. split_and!; [done..|]. by apply IH.
Qed.

(** The log accounts for the state of every saga, and an order has one saga. *)
Record audited s : Prop := {
  audited_chain : ∀ id g, order_sagas s !! id = Some g →
    SagaID g = id ∧ chain None (logs_of s id) (CurrentState g);
  audited_known : ∀ l, l ∈ order_saga_logs s → is_Some (order_sagas s !! Log_SagaID l);
  audited_order : ∀ id1 id2 g1 g2, order_sagas s !! id1 = Some g1 → order_sagas s !! id2 = Some g2 →
    Saga_OrderID g1 = Saga_OrderID g2 → id1 = id2;
}.

(** What time does to a saga. *)
Definition saga_advanced (g g' : OrderSaga) : Prop :=
  SagaID g' = SagaID g ∧ Saga_OrderID g' = Saga_OrderID g ∧ CreatedAt g' = CreatedAt g ∧
  rtc (λ a b, CanTransition a b = true) (CurrentState g) (CurrentState g') ∧
  (IsTerminal (CurrentState g) = true → g' = g).

Definition grown s s' : Prop :=
  (∀ id g, order_sagas s !! id = Some g →
     ∃ g', order_sagas s' !! id = Some g' ∧ saga_advanced g g') ∧
  ∃ new, order_saga_logs s' = order_saga_logs s ++ new.

Definition hist s s' : Prop := audited s' ∧ grown s s'.

Lemma grown_refl s : grown s s.
Proof.
  split; [|exists []; by rewrite app_nil_r]. intros id g Hg. exists g.
  split; [done|]. by unfold saga_advanced.
Qed.

Lemma moved_hist s0 s id from to event detail payload s' :
  moved s id from to event detail payload s' → hist s0 s → hist s0 s'.
Proof.
  intros [g tmo now eid nl Hg Hst Hcan] [[Hch Hkn Hor] [Hgr [new Hnew]]].
  set (g' := move_to g to (default (Payload g) payload) tmo now).
  split; [split|split]; simpl.
  - intros id1 g1. destruct (decide (id1 = id)) as [->|Hne].
    + rewrite lookup_insert, decide_True by done. intros [= <-].
      destruct (Hch id g Hg) as [Hid Hc]. split; [done|]. unfold logs_of. simpl.
      rewrite filter_app, filter_cons, decide_True by done. simpl.
      apply (chain_snoc None _ (CurrentState g)); [done|simpl; by rewrite Hst|simpl; by rewrite Hst].
    + rewrite lookup_insert_ne by done. intros Hg1. destruct (Hch id1 g1 Hg1) as [Hid Hc].
      split; [done|]. unfold logs_of. simpl. rewrite filter_app, filter_cons, decide_False by done.
      simpl. by rewrite app_nil_r.
  - intros l [Hl|Hl%list_elem_of_singleton]%elem_of_app.
    + apply lookup_insert_is_Some'. right. by apply Hkn.
    + subst l. simpl. rewrite lookup_insert, decide_True by done. by eexists.
  - intros id1 id2 g1 g2 H1 H2. assert (Hold : ∀ i h, <[id:=g']> (order_sagas s) !! i = Some h →
      ∃ h0, order_sagas s !! i = Some h0 ∧ Saga_OrderID h0 = Saga_OrderID h).
    { intros i h. destruct (decide (i = id)) as [->|Hne].
      - rewrite lookup_insert, decide_True by done. intros [= <-]. by exists g.
      - rewrite lookup_insert_ne by done. by eauto. }
    apply Hold in H1 as (h1 & H1 & <-). apply Hold in H2 as (h2 & H2 & <-). by apply Hor.
  - intros id1 g1 Hg1. destruct (Hgr id1 g1 Hg1) as (g2 & Hg2 & Ha1 & Ha2 & Ha3 & Ha4 & Ha5).
    destruct (decide (id1 = id)) as [->|Hne].
    + rewrite lookup_insert, decide_True by done. exists g'. split; [done|].
      simplify_eq. unfold saga_advanced. simpl. split_and!; [done..|by eapply rtc_r|].
      intros Ht. rewrite (Ha5 Ht) in Hcan. by rewrite CanTransition_terminal in Hcan.
    + rewrite lookup_insert_ne by done. exists g2. by unfold saga_advanced.
  - rewrite Hnew, <-app_assoc. by eexists.
Qed.

(** The tables after a saga is created. *)
Inductive created (s : State X) (g : OrderSaga) : State X → Prop :=
| created_intro eid now :
    order_sagas s !! SagaID g = None → saga_by_order s (Saga_OrderID g) = None →
    created s g
      (MkState (<[SagaID g := g]> (order_sagas s))
         (order_saga_logs s ++ [entry (SagaID g) None (CurrentState g) "SagaInitialized" eid None now])
         (world s)).

Lemma saga_by_order_none s oid :
  saga_by_order s oid = None → ∀ id g, order_sagas s !! id = Some g → Saga_OrderID g ≠ oid.
Proof.
  unfold saga_by_order. intros H id g Hg Heq. destruct (list_find _ _) eqn:Hf; [done|].
  apply list_find_None in Hf. rewrite Forall_forall in Hf. apply (Hf g); [|done].
  apply list_elem_of_fmap. exists (id, g). split; [done|]. by apply elem_of_map_to_list.
Qed.

Lemma created_hist s0 s g s' : created s g s' → hist s0 s → hist s0 s'.
Proof.
  intros [eid now Hid Hor0] [[Hch Hkn Hor] [Hgr [new Hnew]]]. split; [split|split]; simpl.
  - intros id1 g1. destruct (decide (id1 = SagaID g)) as [->|Hne].
    + rewrite lookup_insert, decide_True by done. intros [= <-]. split; [done|].
      unfold logs_of. simpl. rewrite filter_app, filter_cons, decide_True by done. simpl.
      rewrite filter_none; [done|]. intros l Hl Heq. apply Hkn in Hl as [g2 Hg2]. congruence.
    + rewrite lookup_insert_ne by done. intros Hg1. destruct (Hch id1 g1 Hg1) as [? Hc].
      split; [done|]. unfold logs_of. simpl. rewrite filter_app, filter_cons, decide_False by done.
      simpl. by rewrite app_nil_r.
  - intros l [Hl|Hl%list_elem_of_singleton]%elem_of_app.
    + apply lookup_insert_is_Some'. right. by apply Hkn.
    + subst l. simpl. rewrite lookup_insert, decide_True by done. by eexists.
  - pose proof (saga_by_order_none _ _ Hor0) as Hno. intros id1 id2 g1 g2.
    intros [[<- <-]|[? H1]]%lookup_insert_Some [[<- <-]|[? H2]]%lookup_insert_Some Heq; try done.
    + by destruct (Hno _ _ H2).
    + by destruct (Hno _ _ H1).
    + by eapply Hor.
  - intros id1 g1 Hg1. destruct (Hgr id1 g1 Hg1) as (g2 & Hg2 & Ha).
    exists g2. split; [|done]. rewrite lookup_insert_ne; [done|]. intros Heq. congruence.
  - rewrite Hnew, <-app_assoc. by eexists.
Qed.

Lemma triple_CreateSaga env s saga :
  triple env (λ s', s' = s) (CreateSaga saga)
    (λ g s', created s g s' ∧ CurrentState g = CurrentState saga ∧ Payload g = Payload saga ∧
             Saga_OrderID g = Saga_OrderID saga) (λ _ s', s' = s).
Proof.
  apply triple_ExecuteTx. unfold CreateSagaTx. intros n s1 n' s' r -> Hrun. destruct r as [g|]; [|done].
  apply bind_ok_inv in Hrun as (n1 & s1 & id & H1 & H).
  assert (s1 = s) as ->.
  { destruct (SagaID saga =? uuid_Nil)%N; unfold uuid_New, ret in H1; by injection H1 as <- <- <-. }
  clear H1. apply bind_ok_inv in H as (n2 & s2 & tmo & H1 & H).
  assert (s2 = s) as ->.
  { destruct (TimeoutAt saga =? time_Zero); unfold time_now, bind, ret in H1; by injection H1 as <- <- <-. }
  clear H1. apply bind_ok_inv in H as (n3 & s3 & g1 & H1 & H).
  apply sql_ok_inv in H1 as (_ & H1 & _). cbv zeta in H1. destruct (negb _); [done|].
  destruct (order_sagas s !! id) eqn:Hid; [done|].
  destruct (saga_by_order s (Saga_OrderID saga)) eqn:Hor; [done|]. injection H1 as <- <-.
  apply bind_ok_inv in H as (n4 & s4 & eid & H1 & H). unfold uuid_New in H1. injection H1 as <- <- <-.
  apply bind_ok_inv in H as (n5 & s5 & [] & H1 & H). unfold ret in H. injection H as <- <- <-.
  apply AppendLog_run in H1; [|simpl; rewrite lookup_insert, decide_True by done; by eexists].
  destruct H1 as [nl ->]. simpl. split; [|done].
  set (g := MkOrderSaga _ _ _ _ _ _ _ _). by apply (created_intro s g _ nl).
Qed.

Lemma preserves_transitionAndLog s0 id from to event detail timeout payload :
  preserves (hist s0) (transitionAndLog id from to event detail timeout payload).
Proof.
  intros env. apply triple_at. intros s Hs.
  eapply triple_conseq; [apply (triple_transitionAndLog env s)|done| |].
  - intros [] s' H. by eapply moved_hist.
  - by intros e s' [-> _].
Qed.

Lemma preserves_CreateSaga s0 saga : preserves (hist s0) (CreateSaga saga).
Proof.
  intros env. apply triple_at. intros s Hs.
  eapply triple_conseq; [apply (triple_CreateSaga env s)|done| |].
  - intros g s' [H _]. by eapply created_hist.
  - by intros e s' ->.
Qed.

(** A query leaves everything alone. *)
Lemma preserves_query {A} (I : State X → Prop) what (f : Z → State X → result error (State X * A)) :
  (∀ now s s' a, f now s = Ok (s', a) → s' = s) → preserves I (sql what f).
Proof. intros Hf. apply preserves_sql. intros now s s' a Hs H. apply Hf in H. by subst. Qed.

Lemma preserves_GetSagaByID (I : State X → Prop) id : preserves I (GetSagaByID id).
Proof.
  apply preserves_query. intros now s s' a. destruct (order_sagas s !! id); [|done]. by intros [= <- <-].
Qed.

Lemma preserves_FindTimedOutSagas (I : State X → Prop) limit : preserves I (FindTimedOutSagas limit).
Proof. apply preserves_query. by intros now s s' a [= <- <-]. Qed.

(** [I] looks at the saga tables only. *)
Definition worldless (I : State X → Prop) : Prop := ∀ s x, I s → I (set_world x s).

Lemma preserves_command {A} (I : State X → Prop) (m : M X string A) :
  worldless I → preserves I (command m).
Proof.
  intros HI. apply preserves_map_err. intros env n s n' s' r Hs. unfold zoom.
  destruct (m env n (world s)) as [[n1 x] r1]. intros [= <- <- <-]. by destruct r1; apply HI.
Qed.

Lemma worldless_hist s0 : worldless (hist s0).
Proof. intros s x [[H1 H2 H3] H]. split; [split; [exact H1|exact H2|exact H3]|exact H]. Qed.
End history.

#[export] Hint Resolve preserves_transitionAndLog preserves_CreateSaga preserves_GetSagaByID
  preserves_FindTimedOutSagas preserves_command worldless_hist : shopflow.

Section coordinator_history.
Context `{UT : UuidText} {X : Type} `{!InventoryCommander X, !OrderCommander X, !PaymentCommander X}.
Variable cfg : Config.

(** Everything that changes the saga tables or commands another context: the calls of
    the coordinator and the watchdog, and, for the interleavings of several of them,
    each transaction and each command by itself. *)
Inductive saga_step (s s' : State X) : Prop :=
| step_start env n n' r payload :
    StartSaga cfg payload env n s = (n', s', r) → saga_step s s'
| step_execute env n n' r id : ExecuteSaga cfg id env n s = (n', s', r) → saga_step s s'
| step_compensate env n n' r id reason :
    Compensate cfg id reason env n s = (n', s', r) → saga_step s s'
| step_watchdog env n n' r wcfg :
    ProcessExpiredSagas cfg wcfg env n s = (n', s', r) → saga_step s s'
| step_create env n n' r saga : CreateSaga saga env n s = (n', s', r) → saga_step s s'
| step_transition env n n' r id from to event detail timeout payload :
    transitionAndLog id from to event detail timeout payload env n s = (n', s', r) → saga_step s s'
| step_command x : s' = set_world x s → saga_step s s'.

(** An invariant of the saga tables alone, kept by the transitions of one saga, is kept
    by everything the coordinator does for that saga. *)
Section one_saga.
Variables (I : State X → Prop) (id : uuid).
Hypothesis HI : worldless I.
Hypothesis Hmove : ∀ from to event detail timeout payload,
  preserves I (transitionAndLog id from to event detail timeout payload).
#[local] Hint Resolve HI Hmove : shopflow.

Lemma preserves_Compensate reason : preserves I (Compensate cfg id reason).
Proof.
  unfold Compensate, compensate_steps, compensating. apply preserves_bind; [auto with shopflow|].
  intros g. destruct (IsTerminal _); [auto with shopflow|].
  apply preserves_bind; [case_decide; auto with shopflow|]. intros _.
  apply preserves_bind; [destruct (ReservationID _); auto with shopflow|]. intros _.
  apply preserves_bind; [destruct (PaymentID _); auto with shopflow|]. intros _.
  auto with shopflow.
Qed.

Lemma preserves_handleStockReservationFailure reason :
  preserves I (handleStockReservationFailure id reason).
Proof.
  unfold handleStockReservationFailure. apply preserves_bind; [auto with shopflow|]. intros g.
  destruct (IsTerminal _); auto with shopflow.
Qed.

Lemma preserves_commit_attempts k rid : preserves I (commit_attempts k rid).
Proof.
  induction k as [|[|k] IH]; cbn [commit_attempts]; [auto with shopflow..|].
  apply preserves_bind; [auto with shopflow|]. intros [[]|e]; [auto with shopflow|exact IH].
Qed.

#[local] Hint Resolve preserves_Compensate preserves_handleStockReservationFailure
  preserves_commit_attempts : shopflow.

Lemma preserves_ExecuteSaga : preserves I (ExecuteSaga cfg id).
Proof.
  unfold ExecuteSaga, execute_payment. apply preserves_bind; [auto with shopflow|]. intros g.
  destruct (IsTerminal _); [auto with shopflow|].
  destruct (negb _); [case_decide; auto with shopflow|].
  apply preserves_bind; [auto with shopflow|]. intros _.
  apply preserves_bind; [auto with shopflow|]. intros g1. cbv zeta.
  apply preserves_bind; [auto with shopflow|]. intros r.
  destruct (reservation_refused r); [auto with shopflow|]. destruct r as [res|]; [|auto with shopflow].
  apply preserves_bind; [auto with shopflow|]. intros [[]|e]; [|auto with shopflow].
  apply preserves_bind; [auto with shopflow|]. intros _.
  apply preserves_bind; [auto with shopflow|]. intros [pid|e]; auto 10 with shopflow.
Qed.

Lemma preserves_process_expired g : SagaID g = id → preserves I (process_expired cfg g).
Proof. intros Hid. unfold process_expired. rewrite Hid. destruct (CurrentState g); auto with shopflow. Qed.
End one_saga.

#[local] Hint Resolve preserves_Compensate preserves_ExecuteSaga : shopflow.

Lemma saga_step_hist s0 s s' : saga_step s s' → hist s0 s → hist s0 s'.
Proof.
  intros [env n n' r p H|env n n' r id H|env n n' r id reason H|env n n' r w H|env n n' r g H
         |env n n' r id from to ev d t p H|x ->] Hs.
  - revert Hs. eapply preserves_run; [|exact H]. unfold StartSaga. auto with shopflow.
  - revert Hs. eapply preserves_run; [|exact H]. auto with shopflow.
  - revert Hs. eapply preserves_run; [|exact H]. auto with shopflow.
  - revert Hs. eapply preserves_run; [|exact H]. unfold ProcessExpiredSagas.
    apply preserves_bind; [auto with shopflow|]. intros [l|e]; [|auto with shopflow].
    apply preserves_for_each. intros g _.
    apply (preserves_process_expired _ (SagaID g)); auto with shopflow.
  - revert Hs. eapply preserves_run; [|exact H]. auto with shopflow.
  - revert Hs. eapply preserves_run; [|exact H]. auto with shopflow.
  - by apply worldless_hist.
Qed.

(** C15: the history of sagas.  Over any sequence of calls of the coordinator and the
    watchdog, interleaved down to single transactions and commands, whatever the
    commanders do and whenever the driver fails: the log of each saga is a path of legal
    transitions from its creation to its current state; an order has at most one saga;
    the log is append-only; a saga keeps its identity and moves only forward, and once
    terminal its row never changes again. *)
Theorem saga_history s s' :
  audited s → rtc saga_step s s' → audited s' ∧ grown s s'.
Proof.
  intros Ha Hrtc. assert (Hs : hist s s) by (split; [done|apply grown_refl]).
  change (hist s s'). revert Hs. generalize s at 1 3. intros s0 Hs. clear Ha.
  induction Hrtc as [s1|s1 s2 s3 H12 _ IH]; [done|]. apply IH. by eapply saga_step_hist.
Qed.

(** One executor per saga.  Of two transitions of a saga out of the same state only
    the first is applied: once one has succeeded, every other attempt to leave that
    state is refused and changes nothing, so a saga executed or compensated twice at
    once runs each step once. *)
Theorem transition_race env n (s : State X) env2 n2 id from to1 to2 event1 event2 d1 d2 t1 t2 p1 p2 :
  outcome (transitionAndLog id from to1 event1 d1 t1 p1 env n s) = Ok tt →
  let s1 := final (transitionAndLog id from to1 event1 d1 t1 p1 env n s) in
  let loser := transitionAndLog id from to2 event2 d2 t2 p2 env2 n2 s1 in
  final loser = s1 ∧
  ∃ e, outcome loser = Err e ∧
    (faulted env2 ∨ e = ErrInvalidStateTransition from to2 ∨
     e = if IsTerminal to1 then ErrSagaAlreadyTerminal
         else ErrOptimisticLockConflict from (state_string to1)).
Proof.
  cbv zeta. destruct (transitionAndLog id from to1 event1 d1 t1 p1 env n s) as [[n' s1] r] eqn:H1.
  unfold outcome at 1. simpl. intros ->. unfold final at 1 2 3 4. simpl.
  apply (triple_transitionAndLog env s) in H1; [|done]. destruct H1 as [g tmo now eid nl Hg Hst Hcan].
  set (s1 := MkState _ _ _).
  destruct (transitionAndLog id from to2 event2 d2 t2 p2 env2 n2 s1) as [[n2' s2] r2] eqn:H2.
  unfold final, outcome. simpl. apply (triple_transitionAndLog env2 s1) in H2; [|done].
  assert (Hne : to1 ≠ from).
  { intros ->. apply CanTransition_stage in Hcan. lia. }
  destruct r2 as [[]|e].
  - exfalso. destruct H2 as [g2 ? ? ? ? Hg2 Hst2]. subst s1. simpl in Hg2.
    rewrite lookup_insert, decide_True in Hg2 by done. injection Hg2 as <-. by simpl in Hst2.
  - destruct H2 as [-> [Hf|Hr]]; (split; [done|]); exists e; (split; [done|]); [by left|right].
    unfold refused in Hr. subst s1. simpl in Hr. rewrite lookup_insert, decide_True in Hr by done.
    simpl in Hr. destruct (CanTransition from to2); [|by left]. right.
    rewrite decide_False in Hr by done. by destruct (IsTerminal to1).
Qed.
End coordinator_history.

(** * What the commands achieve *)

(** The contract the coordinator relies on, for one environment: what each command does
    to the order's business state.  A command that fails leaves it as it was. *)
Class SagaLaws {X : Type} `{!InventoryCommander X, !OrderCommander X, !PaymentCommander X}
    (env : Env) := {
  Idle : uuid → X → Prop;                          (** nothing reserved, nothing paid *)
  Reserved : uuid → uuid → X → Prop;               (** the stock of the order is held *)
  Captured : uuid → uuid → uuid → X → Prop;        (** and the payment captured *)
  Committed : uuid → uuid → uuid → X → Prop;       (** and the stock sold *)
  Confirmed : uuid → X → Prop;                     (** and the order confirmed *)
  Released : uuid → X → Prop;                      (** the stock was given back *)
  Cancelled : uuid → X → Prop;                     (** the order is cancelled *)
  reserve_law o items :
    triple env (Idle o) (ReserveStock o items)
      (λ r x, if Success r then Reserved o (Result_ReservationID r) x else Idle o x) (λ _, Idle o);
  release_law o rid reason :
    triple env (Reserved o rid) (ReleaseStock rid reason) (λ _, Released o) (λ _, Reserved o rid);
  capture_law o rid customer amount currency token key :
    triple env (Reserved o rid) (AuthorizeAndCapture o customer amount currency token key)
      (λ pid, Captured o rid pid) (λ _, Reserved o rid);
  commit_law o rid pid :
    triple env (Captured o rid pid) (CommitStock rid) (λ _, Committed o rid pid)
      (λ _, Captured o rid pid);
  confirm_law o rid pid :
    triple env (Committed o rid pid) (ConfirmOrder o) (λ _, Confirmed o) (λ _, Committed o rid pid);
  cancel_released_law o reason :
    triple env (Released o) (CancelOrder o reason) (λ _, Cancelled o) (λ _, Released o);
  cancel_idle_law o reason :
    triple env (Idle o) (CancelOrder o reason) (λ _, Cancelled o) (λ _, Idle o);
}.

Section contract.
Context `{UT : UuidText} {X : Type} `{!InventoryCommander X, !OrderCommander X, !PaymentCommander X}.
Variables (cfg : Config) (env : Env).
Context `{!SagaLaws env}.

(** What the state of a saga says about the other contexts. *)
Definition consistent (g : OrderSaga) (x : X) : Prop :=
  let o := Saga_OrderID g in
  match CurrentState g with
  | StateStarted | StatePending => Idle o x
  | StateReservingStock => Idle o x ∨ (∃ rid, Reserved o rid x) ∨ Released o x ∨ Cancelled o x
  | StateStockReserved => ∃ rid, ReservationID (Payload g) = Some rid ∧ Reserved o rid x
  | StatePaying => ∃ rid, ReservationID (Payload g) = Some rid ∧
      (Reserved o rid x ∨ ∃ pid, Captured o rid pid x)
  | StatePaid => ∃ rid pid, ReservationID (Payload g) = Some rid ∧ PaymentID (Payload g) = Some pid ∧
      (Captured o rid pid x ∨ Committed o rid pid x ∨ Confirmed o x)
  | StateConfirmed => Confirmed o x
  | StateCompensating => ∃ rid, ReservationID (Payload g) = Some rid ∧
      (Reserved o rid x ∨ Released o x ∨ Cancelled o x)
  | StateFailed | StateFailedCompensated => Idle o x ∨ Cancelled o x
  end.

Definition saga_consistent (id : uuid) (s : State X) : Prop :=
  ∃ g, order_sagas s !! id = Some g ∧ consistent g (world s).

(** The saga is in [st], its payload satisfies [pl] and the other contexts [P]. *)
Definition saga_at (id o : uuid) (st : SagaState) (pl : SagaPayload → Prop) (P : X → Prop)
    (s : State X) : Prop :=
  ∃ g, order_sagas s !! id = Some g ∧ Saga_OrderID g = o ∧ CurrentState g = st ∧ pl (Payload g) ∧
       P (world s).

Lemma triple_at_get id o st pl P :
  triple env (saga_at id o st pl P) (GetSagaByID id)
    (λ g s, Saga_OrderID g = o ∧ CurrentState g = st ∧ pl (Payload g) ∧ saga_at id o st pl P s)
    (λ _, saga_at id o st pl P).
Proof.
  apply triple_sql; [|done]. intros n s (g & Hg & H) _. rewrite Hg.
  destruct H as (H1 & H2 & H3 & H4). split_and!; [done..|]. by exists g.
Qed.

Lemma triple_at_move id o from to event detail timeout payload (pl pl' : SagaPayload → Prop) P :
  (∀ q, pl q → pl' (default q payload)) →
  triple env (saga_at id o from pl P) (transitionAndLog id from to event detail timeout payload)
    (λ _, saga_at id o to pl' P) (λ _, saga_at id o from pl P).
Proof.
  intros Hpl. apply triple_at. intros s (g & Hg & H1 & H2 & H3 & H4).
  eapply triple_conseq; [apply (triple_transitionAndLog env s)|done| |].
  - intros [] s' [g' tmo now eid nl Hg' _ _]. simplify_eq. eexists. simpl.
    rewrite lookup_insert, decide_True by done. split; [done|]. simpl. by auto.
  - intros e s' [-> _]. by exists g.
Qed.

Lemma triple_at_command {A} id o st pl P (m : M X string A) Q R :
  triple env P m Q (λ _, R) →
  triple env (saga_at id o st pl P) (command m) (λ a, saga_at id o st pl (Q a))
    (λ _, saga_at id o st pl R).
Proof.
  intros Hm. apply triple_map_err. apply triple_at. intros s (g & Hg & H1 & H2 & H3 & H4).
  eapply triple_conseq; [apply (triple_zoom env world set_world m P Q (λ _, R) s); done|done| |];
    intros a s' (x & -> & Hx); by exists g.
Qed.

Lemma saga_at_weaken id o st (pl pl' : SagaPayload → Prop) (P P' : X → Prop) s :
  saga_at id o st pl P s → (∀ q, pl q → pl' q) → (∀ x, P x → P' x) → saga_at id o st pl' P' s.
Proof. intros (g & Hg & H1 & H2 & H3 & H4) Hpl HP. exists g. by auto 10. Qed.

Lemma saga_at_consistent id o st (pl : SagaPayload → Prop) (P : X → Prop) s :
  saga_at id o st pl P s →
  (∀ g x, Saga_OrderID g = o → CurrentState g = st → pl (Payload g) → P x → consistent g x) →
  saga_consistent id s.
Proof. intros (g & Hg & H1 & H2 & H3 & H4) H. exists g. by auto. Qed.

(** How an execution or a compensation may end well. *)
Definition settled (id o : uuid) (s : State X) : Prop :=
  saga_at id o StateConfirmed (λ _, True) (Confirmed o) s ∨
  saga_at id o (default StateFailed (CompensatedTerminalState cfg)) (λ _, True) (Cancelled o) s.

Definition holds_rid (rid : uuid) (p : SagaPayload) : Prop :=
  ReservationID p = Some rid ∧ PaymentID p = None.
Definition holds_both (rid pid : uuid) (p : SagaPayload) : Prop :=
  ReservationID p = Some rid ∧ PaymentID p = Some pid.

Ltac weaken_at :=
  let s := fresh "s" in let Hat := fresh "Hat" in
  let g := fresh "g" in let x := fresh "x" in let Ho := fresh "Ho" in
  let Hst := fresh "Hst" in let Hpl := fresh "Hpl" in let HP := fresh "HP" in
  intros s Hat; eapply saga_at_consistent; [exact Hat|];
  intros g x Ho Hst Hpl HP; unfold consistent; rewrite Hst, Ho; simpl in *;
  unfold holds_rid, holds_both in Hpl; destruct_and?; naive_solver.
Ltac weaken_err := let e := fresh "e" in intros e; weaken_at.

Lemma triple_compensate_unpaid id o rid reason :
  triple env (saga_at id o StatePaying (holds_rid rid) (Reserved o rid)) (Compensate cfg id reason)
    (λ _, settled id o) (λ _, saga_consistent id).
Proof.
  unfold Compensate. eapply (triple_bind _ _ _ _ _ (λ g s, Saga_OrderID g = o ∧
    CurrentState g = StatePaying ∧ holds_rid rid (Payload g) ∧
    saga_at id o StatePaying (holds_rid rid) (Reserved o rid) s)).
  { eapply triple_conseq; [apply triple_at_get|done|done|]. weaken_err. }
  intros g. apply triple_at. intros s (Ho & Hst & Hpl & Hat). rewrite Hst. simpl.
  apply (triple_pre env _ (saga_at id o StatePaying (holds_rid rid) (Reserved o rid)));
    [|by intros s' ->]. clear dependent s.
  eapply (triple_bind _ _ _ _ _ (λ _, saga_at id o StateCompensating (holds_rid rid) (Reserved o rid))).
  { apply triple_map_err. eapply triple_conseq; [eapply (triple_at_move _ _ _ _ _ _ _ _ _ (holds_rid rid))|done..|].
    - intros q _. exact Hpl.
    - weaken_err. }
  intros _. unfold compensate_steps. destruct Hpl as [Hr Hp]. rewrite Hr, Hp, Ho.
  eapply (triple_bind _ _ _ _ _ (λ _, saga_at id o StateCompensating (holds_rid rid) (Released o))).
  { apply triple_map_err. eapply triple_conseq; [eapply triple_at_command, release_law|done|done|].
    weaken_err. }
  intros _. eapply (triple_bind _ _ _ _ _ (λ _, saga_at id o StateCompensating (holds_rid rid) (Released o))).
  { intros n s n' s' r Hs. unfold ret. by intros [= <- <- <-]. }
  intros _. eapply (triple_bind _ _ _ _ _ (λ _, saga_at id o StateCompensating (holds_rid rid) (Cancelled o))).
  { apply triple_map_err. eapply triple_conseq; [eapply triple_at_command, cancel_released_law|done|done|].
    weaken_err. }
  intros _. eapply triple_conseq; [eapply (triple_at_move _ _ _ _ _ _ _ _ _ (λ _, True))|done| |]; [done|..].
  - intros ? s Hat. by right.
  - weaken_err.
Qed.

Lemma triple_commit_attempts k id o rid pid :
  triple env (saga_at id o StatePaid (holds_both rid pid) (Captured o rid pid)) (commit_attempts (S k) rid)
    (λ _, saga_at id o StatePaid (holds_both rid pid) (Committed o rid pid))
    (λ _, saga_at id o StatePaid (holds_both rid pid) (Captured o rid pid)).
Proof.
  induction k as [|k IH]; [eapply triple_at_command, commit_law|].
  change (commit_attempts (S (S k)) rid) with
    (bind (try (command (CommitStock rid))) (λ r, match r with Ok tt => ret tt
                                                   | Err _ => commit_attempts (S k) rid end)).
  eapply (triple_bind _ _ _ _ _ (λ r, match r with
    | Ok _ => saga_at id o StatePaid (holds_both rid pid) (Committed o rid pid)
    | Err _ => saga_at id o StatePaid (holds_both rid pid) (Captured o rid pid) end)).
  { eapply triple_try; [eapply triple_at_command, commit_law|done|done]. }
  intros [[]|e]; [|exact IH].
  intros n s n' s' r Hs. unfold ret. by intros [= <- <- <-].
Qed.

Lemma triple_execute_payment id g p o rid :
  Saga_OrderID g = o → holds_rid rid p →
  triple env (saga_at id o StatePaying (holds_rid rid) (Reserved o rid)) (execute_payment cfg id g p rid)
    (λ _, settled id o) (λ _, saga_consistent id).
Proof.
  intros Ho Hp. unfold execute_payment. rewrite Ho.
  eapply (triple_bind _ _ _ _ _ (λ r, match r with
    | Ok pid => saga_at id o StatePaying (holds_rid rid) (Captured o rid pid)
    | Err _ => saga_at id o StatePaying (holds_rid rid) (Reserved o rid) end)).
  { eapply triple_try; [eapply triple_at_command, capture_law|done|done]. }
  intros [pid|e]; [|apply triple_compensate_unpaid]. cbv zeta.
  eapply (triple_bind _ _ _ _ _ (λ _, saga_at id o StatePaid (holds_both rid pid) (Captured o rid pid))).
  { eapply triple_conseq; [eapply (triple_at_move _ _ _ _ _ _ _ _ _ (holds_both rid pid))|done..|].
    - intros q _. simpl. split; [apply Hp|done].
    - weaken_err. }
  intros _. eapply (triple_bind _ _ _ _ _ (λ _, saga_at id o StatePaid (holds_both rid pid) (Committed o rid pid))).
  { apply triple_map_err. eapply triple_conseq; [apply (triple_commit_attempts 2)|done..|].
    weaken_err. }
  intros _. eapply (triple_bind _ _ _ _ _ (λ _, saga_at id o StatePaid (holds_both rid pid) (Confirmed o))).
  { eapply triple_conseq; [eapply triple_at_command, confirm_law|done..|]. weaken_err. }
  intros _. eapply triple_conseq; [eapply (triple_at_move _ _ _ _ _ _ _ _ _ (λ _, True))|done| |]; [done|..].
  - intros ? s Hat. by left.
  - weaken_err.
Qed.

Lemma triple_stock_failure id o pl reason :
  triple env (saga_at id o StateReservingStock pl (Idle o)) (handleStockReservationFailure id reason)
    (λ _ _, False) (λ _, saga_consistent id).
Proof.
  unfold handleStockReservationFailure.
  eapply (triple_bind _ _ _ _ _ (λ g s, Saga_OrderID g = o ∧ CurrentState g = StateReservingStock ∧
    pl (Payload g) ∧ saga_at id o StateReservingStock pl (Idle o) s)).
  { eapply triple_conseq; [apply triple_at_get|done|done|]. weaken_err. }
  intros g. apply triple_at. intros s (Ho & Hst & Hpl & Hat). rewrite Hst, Ho. simpl.
  apply (triple_pre env _ (saga_at id o StateReservingStock pl (Idle o))); [|by intros s' ->].
  eapply (triple_bind _ _ _ _ _ (λ _, saga_at id o StateReservingStock pl (λ x, Idle o x ∨ Cancelled o x))).
  { eapply triple_try; [eapply triple_at_command, cancel_idle_law|..];
      intros a s1 Ha; (eapply saga_at_weaken; [exact Ha|done|by auto]). }
  intros _. eapply (triple_bind _ _ _ _ _ (λ _, saga_at id o StateFailed (λ _, True)
    (λ x, Idle o x ∨ Cancelled o x))).
  { eapply triple_conseq; [eapply (triple_at_move _ _ _ _ _ _ _ _ _ (λ _, True))|done..|]; [done|].
    weaken_err. }
  intros _. eapply triple_pre; [apply (triple_fail env _ _ (λ _, saga_consistent id))|].
  intros s1 Hs1. eapply saga_at_consistent; [exact Hs1|]. intros g1 x Ho1 Hst1 _ HP.
  unfold consistent. by rewrite Hst1, Ho1.
Qed.

Lemma triple_reserved id o g rid :
  Saga_OrderID g = o → PaymentID (Payload g) = None →
  triple env (saga_at id o StateReservingStock (λ p, PaymentID p = None) (Reserved o rid))
    (let* moved := try (transitionAndLog id StateReservingStock StateStockReserved
                          "StockReserved" None (PaymentTimeout cfg)
                          (Some (set_reservation (Payload g) rid))) in
     match moved with
     | Err e => try (command (ReleaseStock rid "transition_failed")) ;;; fail e
     | Ok tt =>
         transitionAndLog id StateStockReserved StatePaying "PaymentInitiated" None
           (PaymentTimeout cfg) None ;;;
         execute_payment cfg id g (set_reservation (Payload g) rid) rid
     end)%go
    (λ _, settled id o) (λ _, saga_consistent id).
Proof.
  intros Ho Hp.
  eapply (triple_bind _ _ _ _ _ (λ r, match r with
    | Ok _ => saga_at id o StateStockReserved (holds_rid rid) (Reserved o rid)
    | Err _ => saga_at id o StateReservingStock (λ p, PaymentID p = None) (Reserved o rid) end)).
  { eapply triple_try; [eapply (triple_at_move _ _ _ _ _ _ _ _ _ (holds_rid rid))|done..].
    intros q Hq. by split. }
  intros [[]|e].
  - eapply (triple_bind _ _ _ _ _ (λ _, saga_at id o StatePaying (holds_rid rid) (Reserved o rid))).
    { eapply triple_conseq; [eapply (triple_at_move _ _ _ _ _ _ _ _ _ (holds_rid rid))|done..|]; [done|].
      weaken_err. }
    intros _. by apply triple_execute_payment.
  - eapply (triple_bind _ _ _ _ _ (λ _, saga_at id o StateReservingStock (λ p, PaymentID p = None)
      (λ x, Reserved o rid x ∨ Released o x))).
    { eapply triple_try; [eapply triple_at_command, release_law|..];
        intros a s1 Ha; (eapply saga_at_weaken; [exact Ha|done|by auto]). }
    intros _. eapply triple_pre; [apply (triple_fail env _ _ (λ _, saga_consistent id))|]. weaken_at.
Qed.

Lemma ExecuteSaga_settles id s n g :
  order_sagas s !! id = Some g → CurrentState g = StateStarted ∨ CurrentState g = StatePending →
  PaymentID (Payload g) = None → Idle (Saga_OrderID g) (world s) →
  let run := ExecuteSaga cfg id env n s in
  match outcome run with
  | Ok _ => settled id (Saga_OrderID g) (final run)
  | Err _ => saga_consistent id (final run)
  end.
Proof.
  intros Hg Hst Hp Hidle. cbv zeta. set (o := Saga_OrderID g). set (st := CurrentState g).
  set (unpaid := λ p, PaymentID p = None).
  assert (Hat : saga_at id o st unpaid (Idle o) s) by by exists g.
  assert (H : triple env (saga_at id o st unpaid (Idle o)) (ExecuteSaga cfg id)
    (λ _, settled id o) (λ _, saga_consistent id)).
  { clear Hat. assert (Herr : ∀ s, saga_at id o st unpaid (Idle o) s → saga_consistent id s).
    { intros s1 H1. eapply saga_at_consistent; [exact H1|]. intros g1 x Ho1 Hst1 _ HP.
      unfold consistent. rewrite Hst1, Ho1. destruct Hst as [E|E]; subst st; by rewrite E. }
    unfold ExecuteSaga. eapply (triple_bind _ _ _ _ _ (λ g s, Saga_OrderID g = o ∧
      CurrentState g = st ∧ unpaid (Payload g) ∧ saga_at id o st unpaid (Idle o) s)).
    { apply triple_map_err. eapply triple_conseq; [apply triple_at_get|done|done|]. intros ?. exact Herr. }
    intros g1. apply triple_at. intros s1 (Ho1 & Hst1 & Hp1 & Hat1).
    assert (IsTerminal (CurrentState g1) = false) as ->.
    { rewrite Hst1. destruct Hst as [E|E]; subst st; by rewrite E. }
    replace (negb _) with false by (rewrite Hst1; destruct Hst as [E|E]; subst st; by rewrite E).
    apply (triple_pre env _ (saga_at id o st unpaid (Idle o))); [|by intros s' ->].
    rewrite Hst1. clear dependent s1 g1.
    eapply (triple_bind _ _ _ _ _ (λ _, saga_at id o StateReservingStock unpaid (Idle o))).
    { eapply triple_conseq; [eapply (triple_at_move _ _ _ _ _ _ _ _ _ unpaid)|done..|]; [done|].
      intros ?. exact Herr. }
    intros _. eapply (triple_bind _ _ _ _ _ (λ g s, Saga_OrderID g = o ∧
      CurrentState g = StateReservingStock ∧ unpaid (Payload g) ∧
      saga_at id o StateReservingStock unpaid (Idle o) s)).
    { eapply triple_conseq; [apply triple_at_get|done|done|]. weaken_err. }
    intros g1. apply triple_at. intros s1 (Ho1 & Hst1 & Hp1 & Hat1). cbv zeta.
    apply (triple_pre env _ (saga_at id o StateReservingStock unpaid (Idle o))); [|by intros s' ->].
    rewrite Ho1. eapply (triple_bind _ _ _ _ _ (λ r, saga_at id o StateReservingStock unpaid
      (λ x, match reservation_refused r, r with
            | None, Ok res => Reserved o (Result_ReservationID res) x
            | _, _ => Idle o x end))).
    { eapply triple_try; [eapply triple_at_command, reserve_law|..].
      - intros res s2 Ha. eapply saga_at_weaken; [exact Ha|done|]. intros x. simpl. by destruct (Success res).
      - intros e s2 Ha. eapply saga_at_weaken; [exact Ha|done|]. by intros x. }
    intros r. destruct (reservation_refused r) as [why|] eqn:Href.
    { eapply triple_conseq; [apply triple_stock_failure|done| |done]. done. }
    destruct r as [res|e]; [|done]. by apply triple_reserved. }
  destruct (ExecuteSaga cfg id env n s) as [[n' s'] r] eqn:Hrun. exact (H n s n' s' r Hat Hrun).
Qed.

(** C6: executing a saga.  Against any commanders that honour their contract
    ([SagaLaws]), and under any failure of the driver, an execution of a fresh saga
    that reports success has settled the order one way or the other: the saga is
    CONFIRMED and the order reserved, paid, sold and confirmed; or the payment was
    refused, and the saga is in its compensated state, the stock given back and the
    order cancelled.  If it reports an error, the recorded state still tells the truth
    about the other contexts, so that the watchdog can take over from it. *)
Theorem ExecuteSaga_contract id s n g :
  order_sagas s !! id = Some g → CurrentState g = StateStarted ∨ CurrentState g = StatePending →
  PaymentID (Payload g) = None → Idle (Saga_OrderID g) (world s) →
  let run := ExecuteSaga cfg id env n s in
  match outcome run with
  | Ok _ => settled id (Saga_OrderID g) (final run)
  | Err _ => saga_consistent id (final run)
  end.
Proof. apply ExecuteSaga_settles. Qed.
End contract.

(** * The watchdog *)

Section watchdog.
Context `{UT : UuidText} {X : Type} `{!InventoryCommander X, !OrderCommander X, !PaymentCommander X}.
Variable cfg : Config.

(** The row and the log of saga [id]. *)
Definition untouched (id : uuid) (g : OrderSaga) (log : list OrderSagaLog) (s : State X) : Prop :=
  order_sagas s !! id = Some g ∧ logs_of s id = log.

Lemma preserves_untouched id g log id' from to event detail timeout payload :
  id' ≠ id → preserves (untouched id g log) (transitionAndLog id' from to event detail timeout payload).
Proof.
  intros Hne env. apply triple_at. intros s [Hg Hl].
  eapply triple_conseq; [apply (triple_transitionAndLog env s)|done| |by intros e s' [-> _]].
  intros [] s' [g' tmo now eid nl _ _ _]. split; simpl; [by rewrite lookup_insert_ne|].
  unfold logs_of. simpl. rewrite filter_app, filter_cons, decide_False by done. simpl.
  by rewrite app_nil_r.
Qed.

Lemma timed_out_found env limit (s : State X) :
  triple env (λ s', s' = s) (FindTimedOutSagas limit)
    (λ l s', s' = s ∧ ∀ g, g ∈ l → ∃ id k, order_sagas s !! id = Some g ∧ timed_out (env_now env k) g)
    (λ _ s', s' = s).
Proof.
  apply triple_sql; [|done]. intros n s' -> _. split; [done|]. intros g Hg.
  apply elem_of_take in Hg as (i & Hg & _). apply list_elem_of_lookup_2 in Hg.
  rewrite merge_sort_Permutation in Hg. apply list_elem_of_filter in Hg as [Ht Hg].
  apply list_elem_of_fmap in Hg as ([id g'] & -> & Hg). apply elem_of_map_to_list in Hg. by exists id, n.
Qed.

(** The watchdog only touches sagas whose deadline has passed.  A saga that is due
    after every reading of the clock during a pass, or that is terminal, comes out of
    the pass with its row and its log unchanged. *)
Theorem watchdog_only_expired wcfg env n s id g :
  audited s → order_sagas s !! id = Some g →
  (∀ k, env_now env k < TimeoutAt g) ∨ IsTerminal (CurrentState g) = true →
  untouched id g (logs_of s id) (final (ProcessExpiredSagas cfg wcfg env n s)).
Proof.
  intros Ha Hg Hdue. set (I := untouched id g (logs_of s id)).
  destruct (ProcessExpiredSagas cfg wcfg env n s) as [[n' s'] r] eqn:Hrun. unfold final. simpl.
  unfold ProcessExpiredSagas in Hrun.
  assert (H : triple env (λ s', s' = s) (bind (try (FindTimedOutSagas (BatchSize wcfg)))
    (λ found, match found with Err _ => ret tt | Ok sagas => for_each (process_expired cfg) sagas end))
    (λ _, I) (λ _, I)).
  { eapply (triple_bind _ _ _ _ _ (λ r s', s' = s ∧ match r with
      | Ok l => ∀ g, g ∈ l → ∃ id k, order_sagas s !! id = Some g ∧ timed_out (env_now env k) g
      | Err _ => True end)).
    { eapply triple_try; [apply (timed_out_found env)|done|done]. }
    intros r0. apply triple_at. intros s1 [-> Hr].
    apply (triple_pre env _ I); [|by intros s1 ->]. destruct r0 as [l|e]; [|apply (preserves_ret I)].
    apply (preserves_for_each I). intros g1 Hg1. destruct (Hr g1 Hg1) as (id1 & k & Hid1 & Ht & Hnt).
    destruct (audited_chain s Ha id1 g1 Hid1) as [Hsid _].
    apply (preserves_process_expired cfg I id1); [|intros; apply preserves_untouched|done].
    - intros s1 x Hs. exact Hs.
    - intros ->. simplify_eq. destruct Hdue as [Hdue|Hdue]; [specialize (Hdue k); lia|congruence]. }
  specialize (H n s n' s' r eq_refl Hrun). by destruct r.
Qed.
End watchdog.

(** * Examples: commanders that keep a trace *)

Module Trace.
Inductive Command :=
| CmdReserve (o : uuid) | CmdRelease (rid : uuid) | CmdCommit (rid : uuid)
| CmdCapture (o : uuid) | CmdRefund (pid : uuid) | CmdCancel (o : uuid) | CmdConfirm (o : uuid).

Definition push {A} (c : Command) (a : A) : M (list Command) string A := λ _ n s, (n, s ++ [c], Ok a).

#[export] Instance trace_inventory : InventoryCommander (list Command) := {|
  ReserveStock := λ o _, push (CmdReserve o) (MkReservationResult 77 true [] "");
  ReleaseStock := λ rid _, push (CmdRelease rid) tt;
  CommitStock := λ rid, push (CmdCommit rid) tt |}.
#[export] Instance trace_orders : OrderCommander (list Command) := {|
  UpdateStatus := λ _ _, ret tt;
  CancelOrder := λ o _, push (CmdCancel o) tt;
  ConfirmOrder := λ o, push (CmdConfirm o) tt |}.
(** The token "declined" is refused. *)
#[export] Instance trace_payments : PaymentCommander (list Command) := {|
  AuthorizeAndCapture := λ o _ _ _ token _,
    if String.eqb token "declined" then fail "card declined" else push (CmdCapture o) 88%N;
  Refund := λ pid _ _ _ _, push (CmdRefund pid) tt |}.

Lemma triple_push {A} env P (c : Command) (a : A) Q R :
  (∀ s, P s → Q a (s ++ [c])) → triple env P (push c a) Q R.
Proof. intros H n s n' s' r Hs. unfold push. intros [= <- <- <-]. by apply H. Qed.

(** They honour the contract: the trace of a confirmed order is exactly reserve,
    capture, commit, confirm. *)
#[export] Instance trace_laws env : SagaLaws (X := list Command) env.
Proof.
  refine {|
    Idle := λ o x, x = [];
    Reserved := λ o rid x, rid = 77%N ∧ x = [CmdReserve o];
    Captured := λ o rid pid x, rid = 77%N ∧ x = [CmdReserve o; CmdCapture o];
    Committed := λ o rid pid x, x = [CmdReserve o; CmdCapture o; CmdCommit 77];
    Confirmed := λ o x, x = [CmdReserve o; CmdCapture o; CmdCommit 77; CmdConfirm o];
    Released := λ o x, x = [CmdReserve o; CmdRelease 77];
    Cancelled := λ o x, x = [CmdReserve o; CmdRelease 77; CmdCancel o] ∨ x = [CmdCancel o] |};
    intros; simpl.
  3: { destruct (String.eqb token "declined"); [intros n s n' s' r Hs [= <- <- <-]; done|].
       apply triple_push. by intros s [-> ->]. }
  all: apply triple_push; intros s Hs; destruct_and?; subst; simpl; auto.
Defined.
End Trace.

(** A saga started in an empty system and its execution. *)
#[local] Existing Instance ex_uuid_text.
Import Trace.

Definition ex_payload : SagaPayload :=
  MkSagaPayload 9 7 5748 "USD" [MkSagaItem "SKU-A" 3 1250] None None "tok" "" "".
Definition ex_env : Env := calm_env (1000 * Second) 500.
Definition ex_empty : State (list Command) := MkState ∅ [] [].
Definition ex_started := StartSaga DefaultConfig ex_payload ex_env 0%nat ex_empty.
Definition ex_saga : OrderSaga :=
  match outcome ex_started with Ok g => g
  | Err _ => MkOrderSaga 0 0 StateFailed ex_payload 0 0 0 0 end.
Definition ex_executed := ExecuteSaga DefaultConfig 500 ex_env 10%nat (final ex_started).

Example ex_executed_trace :
  outcome ex_executed = Ok tt ∧
  world (final ex_executed) = [CmdReserve 9; CmdCapture 9; CmdCommit 77; CmdConfirm 9] ∧
  EventType <$> logs_of (final ex_executed) 500 =
    ["SagaInitialized"; "StockReservationStarted"; "StockReserved"; "PaymentInitiated";
     "PaymentCaptured"; "OrderConfirmed"].
Proof. split_and!; vm_compute; reflexivity. Qed.

Lemma ExecuteSaga_contract_witness :
  outcome ex_executed = Ok tt ∧ settled DefaultConfig ex_env 500 9 (final ex_executed).
Proof.
  assert (Hok : outcome ex_executed = Ok tt) by (vm_compute; reflexivity). split; [exact Hok|].
  pose proof (ExecuteSaga_contract DefaultConfig ex_env 500 (final ex_started) 10%nat ex_saga) as H.
  assert (H1 : order_sagas (final ex_started) !! 500%N = Some ex_saga) by (vm_compute; reflexivity).
  assert (H2 : CurrentState ex_saga = StateStarted) by (vm_compute; reflexivity).
  assert (H3 : PaymentID (Payload ex_saga) = None) by (vm_compute; reflexivity).
  assert (H4 : Idle (env := ex_env) (Saga_OrderID ex_saga) (world (final ex_started))) by (vm_compute; reflexivity).
  specialize (H H1 (or_introl H2) H3 H4). cbv zeta in H. fold ex_executed in H. rewrite Hok in H.
  exact H.
Defined.

Lemma audited_empty {X} (x : X) : audited (MkState ∅ [] x).
Proof. split; [intros id g H|intros l H|intros id1 id2 g1 g2 H]; simpl in H; by set_solver. Qed.

Lemma saga_history_witness : audited (final ex_executed) ∧ grown ex_empty (final ex_executed).
Proof.
  apply (saga_history DefaultConfig ex_empty (final ex_executed)).
  - apply audited_empty.
  - eapply rtc_l; [eapply step_start; apply (run_eta ex_started)|].
    apply rtc_once. eapply step_execute. apply (run_eta ex_executed).
Defined.

Definition ex_reserving := transitionAndLog 500 StateStarted StateReservingStock "StockReservationStarted"
  None (30 * Second) None ex_env 10%nat (final ex_started).

Lemma transition_race_witness :
  let loser := transitionAndLog 500 StateStarted StateCompensating "CompensationStarted"
    (Some "late") 0 None ex_env 20%nat (final ex_reserving) in
  final loser = final ex_reserving ∧
  ∃ e, outcome loser = Err e ∧
    (faulted ex_env ∨ e = ErrInvalidStateTransition StateStarted StateCompensating ∨
     e = ErrOptimisticLockConflict StateStarted "RESERVING_STOCK").
Proof.
  apply (transition_race ex_env 10%nat (final ex_started) ex_env 20%nat 500 StateStarted StateReservingStock
    StateCompensating "StockReservationStarted" "CompensationStarted" None (Some "late") (30 * Second) 0
    None None). vm_compute. reflexivity.
Defined.

Lemma watchdog_only_expired_witness :
  untouched 500 ex_saga (logs_of (final ex_started) 500)
    (final (ProcessExpiredSagas DefaultConfig DefaultWatchdogConfig ex_env 20%nat (final ex_started))).
Proof.
  apply (watchdog_only_expired DefaultConfig).
  - refine (proj1 (saga_step_hist DefaultConfig ex_empty ex_empty _ _ _)).
    + eapply step_start. apply (run_eta ex_started).
    + split; [apply audited_empty|apply grown_refl].
  - vm_compute. reflexivity.
  - left. intros k. vm_compute. reflexivity.
Defined.
