(* ===== verification/System.v ===== *)
(** cmd/shopflow/main.go: the program put together.  The adapters at the end of the
    file plug the inventory, order and payment services into the saga coordinator;
    this file models them, shows that together they honour the coordinator's contract,
    and follows a checkout from end to end. *)

From S2P Require Import Prelude Database Money Json Inventory Payment Catalog Order Saga.

(** * The state of the program *)

(** The three services keep their tables in one database. *)
Record Shop := MkShop {
  inv_tables : Inventory.State;
  order_tables : Order.State;
  payment_tables : Payment.State;
}.

Definition set_inv (i : Inventory.State) (x : Shop) : Shop :=
  MkShop i (order_tables x) (payment_tables x).
Definition set_orders (o : Order.State) (x : Shop) : Shop :=
  MkShop (inv_tables x) o (payment_tables x).
Definition set_payments (p : Payment.State) (x : Shop) : Shop :=
  MkShop (inv_tables x) (order_tables x) p.

Section adapters.
Context `{UT : UuidText}.
Local Open Scope go_scope.

(** A call of a service, whose error travels as its text. *)
Definition in_inventory {A} (m : M Inventory.State Inventory.error A) : M Shop string A :=
  zoom inv_tables set_inv (map_err Inventory.Error m).
Definition in_orders {A} (m : M Order.State Order.error A) : M Shop string A :=
  zoom order_tables set_orders (map_err Order.Error m).
Definition in_payments {A} (m : M Payment.State Payment.error A) : M Shop string A :=
  zoom payment_tables set_payments (map_err Payment.Error m).

(** * inventoryCommanderAdapter *)

Definition inventory_ReserveStock (orderID : uuid) (items : list Saga.ReservationItem) :
    M Shop string ReservationResult :=
  let stockItems := (λ it, MkStockItemRequest (Res_SKU it) (Res_Quantity it)) <$> items in
  let* res := in_inventory
    (Inventory.ReserveStock (MkReserveStockRequest uuid_Nil orderID stockItems 0)) in
  ret (MkReservationResult (Inventory.Result_ReservationID res)
         (bool_decide (Result_Status res = ReservationStatusPending)) [] "").

#[export] Instance inventoryCommanderAdapter : InventoryCommander Shop := {|
  Saga.ReserveStock := inventory_ReserveStock;
  Saga.ReleaseStock := λ reservationID _, in_inventory (Inventory.ReleaseStock reservationID);
  Saga.CommitStock := λ reservationID, in_inventory (Inventory.CommitStock reservationID) |}.

(** * orderCommanderAdapter *)

(** [order.OrderStatus(status)]: a text outside the enumeration can be no target. *)
Definition order_UpdateStatus (orderID : uuid) (status : string) : M Order.State Order.error unit :=
  let* ord := repo_GetOrderByID orderID in
  match status_of_string status with
  | Some st =>
      Order.TransitionStatus orderID (Order.Status ord) st (Order.Version ord) ;;;
      ret tt
  | None => fail Order.ErrInvalidStateTransition
  end.

Definition order_CancelOrder (orderID : uuid) (reason : string) : M Order.State Order.error unit :=
  let* ord := repo_GetOrderByID orderID in
  if decide (Order.Status ord = StatusCancelled) then ret tt else
  Order.CancelOrder orderID (Order.UserID ord) "saga-cancel" reason ;;;
  ret tt.

Definition order_ConfirmOrder (orderID : uuid) : M Order.State Order.error unit :=
  let* ord := repo_GetOrderByID orderID in
  if decide (Order.Status ord = StatusConfirmed) then ret tt else
  Order.ConfirmOrder orderID (Order.Version ord) ;;;
  ret tt.

#[export] Instance orderCommanderAdapter : OrderCommander Shop := {|
  Saga.UpdateStatus := λ orderID status, in_orders (order_UpdateStatus orderID status);
  Saga.CancelOrder := λ orderID reason, in_orders (order_CancelOrder orderID reason);
  Saga.ConfirmOrder := λ orderID, in_orders (order_ConfirmOrder orderID) |}.

(** * payment.NewSagaAdapter *)

Definition payment_AuthorizeAndCapture (orderID customerID : uuid) (amountMinor : Z)
    (currency paymentToken idempotencyKey : string) : M Shop string uuid :=
  let* r := in_payments (SagaAdapter_AuthorizeAndCapture orderID customerID amountMinor currency
                           paymentToken idempotencyKey) in
  match r with
  | (_, Some e) => fail (Payment.Error e)
  | (id, None) => ret id
  end.

#[export] Instance paymentCommanderAdapter : PaymentCommander Shop := {|
  Saga.AuthorizeAndCapture := payment_AuthorizeAndCapture;
  Saga.Refund := λ paymentID orderID amountMinor reason key,
    in_payments (SagaAdapter_Refund paymentID orderID amountMinor reason key) |}.
End adapters.

(** * Calls of one service *)

Section calls.
Context (env : Env).

Lemma triple_in {S E A} (get : Shop → S) (set : S → Shop → Shop) (h : E → string)
    (m : M S E A) (P : Shop → Prop) (Q : A → Shop → Prop) (R : Shop → Prop) :
  (∀ s x, get (set s x) = s) →
  (∀ x, P x → triple env (λ s, s = get x) m (λ a s, Q a (set s x)) (λ _ s, R (set s x))) →
  triple env P (zoom get set (map_err h m)) Q (λ _, R).
Proof.
  intros Hgs H. apply triple_at. intros x Hx.
  eapply triple_conseq; [apply (triple_zoom env get set _ (λ s, s = get x) (λ a s, Q a (set s x))
    (λ _ s, R (set s x)) x); [by intros|done|]|done| |].
  - apply (triple_map_err env h). by apply H.
  - by intros a x' (s & -> & ?).
  - by intros e x' (s & -> & ?).
Qed.
End calls.

(** * The services honour the contract *)

Section laws.
Context `{UT : UuidText} (env : Env).

Definition reservation_in (st : ReservationStatus) (o rid : uuid) (s : Inventory.State) : Prop :=
  Inventory.inv s ∧
  ∃ r, stock_reservations s !! rid = Some r ∧ Res_OrderID r = o ∧ Res_Status r = st.

(** No stock is held or sold for the order. *)
Definition unreserved (o : uuid) (s : Inventory.State) : Prop :=
  Inventory.inv s ∧
  ∀ id r, stock_reservations s !! id = Some r → Res_OrderID r = o → Res_Status r = ReservationStatusReleased.

(** No payment of the order went through. *)
Definition unpaid (o : uuid) (s : Payment.State) : Prop :=
  ∀ id p, payments s !! id = Some p → Payment.OrderID p = o → Payment.Status p = PaymentStatusFailed.

Definition paid (o pid : uuid) (s : Payment.State) : Prop :=
  ∃ p, payments s !! pid = Some p ∧ Payment.OrderID p = o ∧ Payment.Status p = PaymentStatusSuccess.

Definition order_is (st : OrderStatus) (o : uuid) (s : Order.State) : Prop :=
  ∃ row, orders s !! o = Some row ∧ Order.Status row = st.

(** ** Inventory *)

Lemma ReserveStock_law s o rid0 items ttl :
  unreserved o s →
  triple env (λ s', s' = s) (Inventory.ReserveStock (MkReserveStockRequest rid0 o items ttl))
    (λ res s', reservation_in ReservationStatusPending o (Inventory.Result_ReservationID res) s' ∧
               Result_Status res = ReservationStatusPending)
    (λ _ s', s' = s).
Proof.
  intros [Hinv _] n s1 n' s' r -> Hrun. set (req := MkReserveStockRequest _ _ _ _) in Hrun.
  destruct (decide (o = uuid_Nil)) as [->|Ho].
  { unfold Inventory.ReserveStock, req in Hrun. simpl in Hrun. unfold fail in Hrun. by simplify_eq. }
  destruct (decide (items = [])) as [->|Hi].
  { unfold Inventory.ReserveStock, req in Hrun. simpl in Hrun.
    destruct (N.eqb_spec o uuid_Nil); [done|]. unfold fail in Hrun. by simplify_eq. }
  pose proof (ReserveStock_run req env n s n' s' r Hinv Hrun Ho Hi) as H. simpl in H.
  destruct (consolidate items ∅) as [c|e]; [|by destruct H as [-> ->]].
  destruct H as (rid & _ & H). destruct r as [res|e]; [|by destruct H as [-> _]].
  destruct H as (_ & He & ->). simpl. split; [|done]. split; [by eapply reserve_effect_inv|].
  destruct (re_res _ _ _ _ _ _ He) as [now ->]. rewrite lookup_insert, decide_True by done. by eexists.
Qed.

Lemma settle_law s o rid st k e r s' :
  reservation_in ReservationStatusPending o rid s → st ≠ ReservationStatusPending →
  settle_spec (Some rid) st k e env s s' r →
  match r with Ok _ => reservation_in st o rid s' | Err _ => s' = s end.
Proof.
  intros (Hinv & r0 & Hr0 & Ho & Hst) Hne Hs.
  pose proof (settle_spec_inv _ _ _ _ _ _ _ _ Hinv Hne Hs) as Hinv'.
  unfold settle_spec in Hs. simpl in Hs. rewrite Hr0 in Hs. simpl in Hs. rewrite decide_True in Hs by done.
  destruct Hs as [[-> Hset]|(-> & Hr & _)]; [|by destruct r as [[]|]].
  split; [done|]. destruct (set_res _ _ _ _ _ Hset) as (r1 & r2 & H1 & -> & _ & Ho2 & Hst2).
  rewrite lookup_insert, decide_True by done. exists r2. simplify_eq. by rewrite Ho2.
Qed.

Lemma CommitStock_law s o rid :
  reservation_in ReservationStatusPending o rid s →
  triple env (λ s', s' = s) (Inventory.CommitStock rid)
    (λ _, reservation_in ReservationStatusCommitted o rid) (λ _ s', s' = s).
Proof.
  intros Hr n s1 n' s' r -> Hrun. assert (Hinv : Inventory.inv s) by apply Hr.
  apply (settle_commit (Some rid) (λ _, rid)) in Hrun; [|done|apply finds_by_id].
  apply (settle_law s o) in Hrun; [|done..]. by destruct r.
Qed.

Lemma ReleaseStock_law s o rid :
  reservation_in ReservationStatusPending o rid s →
  triple env (λ s', s' = s) (Inventory.ReleaseStock rid) (λ _, unreserved o) (λ _ s', s' = s).
Proof.
  intros Hr n s1 n' s' r -> Hrun. assert (Hinv : Inventory.inv s) by apply Hr.
  apply (settle_release (Some rid) (λ _, rid)) in Hrun; [|done|apply finds_by_id].
  apply (settle_law s o) in Hrun; [|done..]. destruct r as [[]|]; [|done].
  destruct Hrun as (Hinv' & r & Hrid & Ho & Hst). split; [done|]. intros id r2 Hid Ho2.
  assert (id = rid) as -> by (eapply rw_order; [apply Hinv'|done..|congruence]). congruence.
Qed.

(** ** Payments *)

Lemma simulate_outcome t :
  ((simulate t).1.1.1 = PaymentStatusSuccess ∧ (simulate t).2 = None) ∨
  ((simulate t).1.1.1 = PaymentStatusFailed ∧ is_Some (simulate t).2).
Proof. unfold simulate. repeat case_match; simplify_eq/=; eauto. Qed.

Lemma capture_unpaid s o u a c t k n n' s' r :
  unpaid o s → Payment.AuthorizeAndCapture o u a c t k env n s = (n', s', r) →
  match r with
  | Ok (Some p, None) => paid o (Payment.ID p) s'
  | Ok (None, None) => False
  | _ => unpaid o s'
  end.
Proof.
  intros Hun Hrun. destruct (Z.leb_spec a 0) as [Ha|Ha].
  { unfold Payment.AuthorizeAndCapture in Hrun. destruct (Z.leb_spec a 0); [|lia].
    unfold ret in Hrun. by injection Hrun as <- <- <-. }
  unfold Payment.AuthorizeAndCapture in Hrun. destruct (Z.leb_spec a 0); [lia|]. cbv zeta in Hrun.
  apply bind_inv in Hrun as [(e & H1 & ->)|(n1 & s1 & k1 & H1 & Hrun)].
  { destruct (String.eqb k ""); [|done]. by unfold bind, uuid_New, ret in H1. }
  assert (s1 = s) as ->.
  { destruct (String.eqb k ""); unfold bind, uuid_New, ret in H1; by injection H1 as <- <- <-. }
  clear H1. pose proof (capture_keyed_triple env s _ _ _ _ _ _ _ _ _ _ _ eq_refl Hrun) as H1.
  destruct r as [rep|]; [|done]. unfold capture_spec in H1.
  destruct (Payment.find_by_key s u k1) as [p0|] eqn:Hk.
  - destruct H1 as [-> [->|[_ [e ->]]]]; [|done]. unfold replay.
    destruct (N.eqb_spec (Payment.OrderID p0) o) as [Hp0|]; simpl; [|done].
    destruct (Payment.AmountMinor p0 =? a); simpl; [|done].
    apply Payment.find_by_key_Some in Hk as (_ & _ & id & Hid).
    by rewrite (Hun id p0 Hid Hp0).
  - destruct H1 as [(p & -> & Hn & [Hpo _ _ _ _ Hout] & ->)|(-> & [e ->] & _)]; [|done].
    destruct (simulate_outcome t) as [Hsim|Hsim]; destruct (simulate t) as [[[st code] why] err];
      simpl in *; destruct_and!; subst; injection Hout as Hst _ _.
    + exists p. simpl. by rewrite lookup_insert, decide_True by done.
    + destruct err as [e|]; [|done]. intros id q. simpl. rewrite lookup_insert_Some.
      intros [[<- <-]|[_ Hq]] Hqo; [done|by eapply Hun].
Qed.

Lemma capture_law_payment s o u a c t k :
  unpaid o s →
  triple env (λ s', s' = s) (SagaAdapter_AuthorizeAndCapture o u a c t k)
    (λ r s', match r.2 with None => paid o r.1 s' | Some _ => unpaid o s' end) (λ _, unpaid o).
Proof.
  intros Hun n s1 n' s' r -> Hrun. unfold SagaAdapter_AuthorizeAndCapture in Hrun.
  apply bind_inv in Hrun as [(e & H & ->)|(n1 & s1 & rep & H & Hret)].
  { by apply (capture_unpaid s o u a c t k n n' s' (Err e) Hun) in H. }
  apply (capture_unpaid s o u a c t k) in H; [|done].
  unfold ret in Hret. injection Hret as <- <- <-. by destruct rep as [[p|] [e|]].
Qed.

(** ** Orders *)

Lemma CancelOrder_law s o reason :
  triple env (λ s', s' = s) (order_CancelOrder o reason) (λ _, order_is StatusCancelled o)
    (λ _ s', s' = s).
Proof.
  intros n s1 n' s' r -> Hrun. unfold order_CancelOrder in Hrun.
  apply bind_inv in Hrun as [(e & H & ->)|(n1 & s1 & row & Hget & Hrun)]; [by apply sql_err_inv in H|].
  apply sql_ok_inv in Hget as (_ & Hget & _). destruct (orders s !! o) as [row'|] eqn:Ho; [|done].
  injection Hget as <- <-. case_decide as Hst.
  { unfold ret in Hrun. injection Hrun as <- <- <-. by exists row'. }
  pose proof (CancelOrder_effect env n1 s o (Order.UserID row') "saga-cancel" reason) as Heff.
  cbv zeta in Heff. unfold outcome, final in Heff.
  apply bind_inv in Hrun as [(e & H & ->)|(n2 & s2 & o' & H & Hret)]; rewrite H in Heff; [done|].
  unfold ret in Hret. injection Hret as <- <- <-. simpl in Heff.
  destruct Heff as (_ & _ & row2 & tick & now & _ & _ & _ & -> & mid & tk & _ & ->).
  eexists. simpl. rewrite lookup_insert, decide_True by done. by split.
Qed.

Lemma ConfirmOrder_law s o :
  triple env (λ s', s' = s) (order_ConfirmOrder o)
    (λ _ s', order_is StatusConfirmed o s' ∧ (order_is StatusConfirmed o s ∨ order_is StatusPaid o s))
    (λ _ s', s' = s).
Proof.
  intros n s1 n' s' r -> Hrun. unfold order_ConfirmOrder in Hrun.
  apply bind_inv in Hrun as [(e & H & ->)|(n1 & s1 & row & Hget & Hrun)]; [by apply sql_err_inv in H|].
  apply sql_ok_inv in Hget as (_ & Hget & _). destruct (orders s !! o) as [row'|] eqn:Ho; [|done].
  injection Hget as <- <-. case_decide as Hst.
  { unfold ret in Hrun. injection Hrun as <- <- <-. split; [|left]; by exists row'. }
  pose proof (ConfirmOrder_effect env n1 s o (Order.Version row')) as Heff.
  cbv zeta in Heff. unfold outcome, final in Heff.
  apply bind_inv in Hrun as [(e & H & ->)|(n2 & s2 & o' & H & Hret)]; rewrite H in Heff; [done|].
  unfold ret in Hret. injection Hret as <- <- <-. simpl in Heff.
  destruct Heff as (row2 & Hrow2 & [(Hc & _)|(Hp & _ & -> & now & t1 & t2 & s3 & H1 & H2)]);
    [congruence|].
  destruct H1 as (m1 & k1 & _ & ->), H2 as (m2 & k2 & _ & ->). split.
  - eexists. simpl. rewrite lookup_insert, decide_True by done. by split.
  - right. by exists row2.
Qed.
End laws.

(** * The contract of the coordinator *)

Section contract.
Context `{UT : UuidText} (env : Env).

Definition no_stock_no_payment (o : uuid) (x : Shop) : Prop :=
  unreserved o (inv_tables x) ∧ unpaid o (payment_tables x).

Definition stock_held (st : ReservationStatus) (o rid : uuid) (x : Shop) : Prop :=
  reservation_in st o rid (inv_tables x).

(** An order that went through: its stock sold, its payment captured. *)
Definition fulfilled (o : uuid) (x : Shop) : Prop :=
  ∃ rid pid, stock_held ReservationStatusCommitted o rid x ∧ paid o pid (payment_tables x).

Lemma reserve_shop_law o items (I : Shop → Prop) :
  (∀ i x, I x → I (set_inv i x)) →
  triple env (λ x, no_stock_no_payment o x ∧ I x) (inventory_ReserveStock o items)
    (λ r x, if Success r then stock_held ReservationStatusPending o (Saga.Result_ReservationID r) x ∧
                              unpaid o (payment_tables x) ∧ I x
            else no_stock_no_payment o x ∧ I x) (λ _ x, no_stock_no_payment o x ∧ I x).
Proof.
  intros HI. unfold inventory_ReserveStock. cbv zeta.
  eapply (triple_bind _ _ _ _ _ (λ res x, Result_Status res = ReservationStatusPending ∧
    stock_held ReservationStatusPending o (Inventory.Result_ReservationID res) x ∧
    unpaid o (payment_tables x) ∧ I x)).
  - apply triple_in; [done|]. intros x [[Hun Hp] Hx].
    eapply triple_conseq; [apply (ReserveStock_law env (inv_tables x) o); done|done| |].
    + intros res s [Hr Hst]. split_and!; [done|exact Hr|done|by apply HI].
    + intros e s ->. destruct x. by split.
  - intros res n x n' x' r (Hst & Hx). unfold ret. intros [= <- <- <-]. simpl.
    by rewrite bool_decide_eq_true_2.
Qed.

(** The services honour the contract, with what each stage means for the tables. *)
Definition shop_laws : SagaLaws (X := Shop) env.
Proof.
  refine {|
    Idle := no_stock_no_payment;
    Reserved := λ o rid x, stock_held ReservationStatusPending o rid x ∧ unpaid o (payment_tables x);
    Captured := λ o rid pid x,
      stock_held ReservationStatusPending o rid x ∧ paid o pid (payment_tables x);
    Committed := λ o rid pid x,
      stock_held ReservationStatusCommitted o rid x ∧ paid o pid (payment_tables x);
    Confirmed := λ o x, fulfilled o x ∧ order_is StatusConfirmed o (order_tables x);
    Released := no_stock_no_payment;
    Cancelled := λ o x, no_stock_no_payment o x ∧ order_is StatusCancelled o (order_tables x) |};
    intros; cbn.
  - eapply triple_conseq; [apply (reserve_shop_law o items (λ _, True)); done|done| |by intros ? ? [? _]].
    intros r x. cbv beta. destruct (Success r); [by intros (? & ? & _)|by intros [? _]].
  - apply triple_in; [done|]. intros x [Hr Hp].
    eapply triple_conseq; [by apply (ReleaseStock_law env (inv_tables x) o)|done| |].
    + intros ? s Hs. by split.
    + intros e s ->. by destruct x.
  - eapply (triple_bind _ _ _ _ _ (λ r x, match r.2 with
      | None => stock_held ReservationStatusPending o rid x ∧ paid o r.1 (payment_tables x)
      | Some _ => stock_held ReservationStatusPending o rid x ∧ unpaid o (payment_tables x) end)).
    + apply triple_in; [done|]. intros x [Hr Hp].
      eapply triple_conseq; [by apply (capture_law_payment env (payment_tables x) o)|done| |].
      * intros [pid [e|]] s Hs; by split.
      * intros e s Hs. by split.
    + intros [pid [e|]] n x n' x' r Hx; unfold ret, fail; by intros [= <- <- <-].
  - apply triple_in; [done|]. intros x [Hr Hp].
    eapply triple_conseq; [by apply (CommitStock_law env (inv_tables x) o)|done| |].
    + intros ? s Hs. by split.
    + intros e s ->. by destruct x.
  - apply triple_in; [done|]. intros x [Hr Hp].
    eapply triple_conseq; [apply (ConfirmOrder_law env (order_tables x) o)|done| |].
    + intros ? s [Hs _]. split; [by exists rid, pid|done].
    + intros e s ->. by destruct x.
  - apply triple_in; [done|]. intros x Hx.
    eapply triple_conseq; [apply (CancelOrder_law env (order_tables x) o)|done| |].
    + intros ? s Hs. by split.
    + intros e s ->. by destruct x.
  - apply triple_in; [done|]. intros x Hx.
    eapply triple_conseq; [apply (CancelOrder_law env (order_tables x) o)|done| |].
    + intros ? s Hs. by split.
    + intros e s ->. by destruct x.
Defined.

(** A second reading of the same calls, which follows the order's row alone: an order
    that is not PAID cannot be confirmed, and no command makes it PAID. *)
Definition not_payable (o : uuid) (x : Shop) : Prop :=
  ¬ order_is StatusPaid o (order_tables x) ∧ ¬ order_is StatusConfirmed o (order_tables x).

Lemma triple_elsewhere {S E A} (get : Shop → S) (set : S → Shop → Shop) (h : E → string)
    (m : M S E A) (I : Shop → Prop) :
  (∀ s x, get (set s x) = s) → (∀ s x, I x → I (set s x)) →
  triple env I (zoom get set (map_err h m)) (λ _, I) (λ _, I).
Proof.
  intros Hgs HI. apply triple_in; [done|]. intros x Hx n s n' s' r _ _. destruct r; by apply HI.
Qed.

Lemma order_is_unique o s st1 st2 : order_is st1 o s → order_is st2 o s → st1 = st2.
Proof. intros (r1 & H1 & <-) (r2 & H2 & <-). congruence. Qed.

Lemma cancel_not_payable o reason :
  triple env (not_payable o) (in_orders (order_CancelOrder o reason)) (λ _, not_payable o)
    (λ _, not_payable o).
Proof.
  apply triple_in; [done|]. intros x Hx.
  eapply triple_conseq; [apply (CancelOrder_law env (order_tables x) o)|done| |].
  - intros ? s Hs. split; intros H; pose proof (order_is_unique _ _ _ _ Hs H); done.
  - intros e s ->. by destruct x.
Qed.

Definition unpayable_laws : SagaLaws (X := Shop) env.
Proof.
  refine {| Idle := not_payable; Reserved := λ o _, not_payable o; Captured := λ o _ _, not_payable o;
    Committed := λ o _ _, not_payable o; Confirmed := λ _ _, False; Released := not_payable;
    Cancelled := not_payable |}; intros; cbn.
  - unfold inventory_ReserveStock. cbv zeta.
    eapply triple_bind; [by apply (triple_elsewhere _ _ _ _ (not_payable o))|].
    intros res n x n' x' r Hx. unfold ret. intros [= <- <- <-]. by case_match.
  - by apply (triple_elsewhere _ _ _ _ (not_payable o)).
  - unfold payment_AuthorizeAndCapture.
    eapply triple_bind; [by apply (triple_elsewhere _ _ _ _ (not_payable o))|].
    intros [pid' [e|]] n x n' x' r Hx; unfold ret, fail; by intros [= <- <- <-].
  - by apply (triple_elsewhere _ _ _ _ (not_payable o)).
  - apply triple_in; [done|]. intros x [Hp Hc].
    eapply triple_conseq; [apply (ConfirmOrder_law env (order_tables x) o)|done| |].
    + intros ? s [_ [H|H]]; [by apply Hc|by apply Hp].
    + intros e s ->. destruct x. by split.
  - apply cancel_not_payable.
  - apply cancel_not_payable.
Defined.
End contract.

Section checkout.
Context `{UT : UuidText}.

(** C1: checkout, end to end.  The real services behind the coordinator: when the
    execution of a fresh saga, for an order with no stock held and no payment, reports
    success, then either the saga is CONFIRMED, the order's reservation is committed, a
    payment of the order is captured and the order is CONFIRMED; or the saga is FAILED,
    every reservation of the order is released, no payment of it went through, and the
    order is CANCELLED. *)
Theorem checkout_outcome env n id s g :
  order_sagas s !! id = Some g → CurrentState g = StateStarted →
  PaymentID (Payload g) = None → no_stock_no_payment (Saga_OrderID g) (world s) →
  let run := ExecuteSaga DefaultConfig id env n s in
  let o := Saga_OrderID g in
  let x := world (final run) in
  outcome run = Ok tt →
  ∃ g', order_sagas (final run) !! id = Some g' ∧ Saga_OrderID g' = o ∧
    ((CurrentState g' = StateConfirmed ∧ fulfilled o x ∧ order_is StatusConfirmed o (order_tables x)) ∨
     (CurrentState g' = StateFailed ∧ no_stock_no_payment o x ∧
      order_is StatusCancelled o (order_tables x))).
Proof.
  intros Hg Hst Hp Hidle. cbv zeta. intros Hok.
  pose proof (@ExecuteSaga_settles _ _ _ _ _ DefaultConfig env (shop_laws env) id s n g Hg
    (or_introl Hst) Hp Hidle) as H.
  cbv zeta in H. rewrite Hok in H. destruct H as [H|H]; destruct H as (g' & H1 & H2 & H3 & _ & H4);
    exists g'; (split; [exact H1|]); (split; [exact H2|]); [left|right]; by split.
Qed.

(** C27: as the program is put together, no checkout is ever confirmed.  An order is
    PENDING when its saga starts, nothing in the pipeline moves it on, and ConfirmOrder
    refuses an order that is not PAID: whatever the gateway, the stock and the driver do,
    the saga does not reach CONFIRMED and the order is not CONFIRMED; and a success can
    only be that of a compensation. *)
Theorem checkout_never_confirms env n id s g :
  order_sagas s !! id = Some g → CurrentState g = StateStarted →
  PaymentID (Payload g) = None →
  order_is StatusPending (Saga_OrderID g) (order_tables (world s)) →
  let run := ExecuteSaga DefaultConfig id env n s in
  ∃ g', order_sagas (final run) !! id = Some g' ∧ CurrentState g' ≠ StateConfirmed ∧
    ¬ order_is StatusConfirmed (Saga_OrderID g') (order_tables (world (final run))) ∧
    (outcome run = Ok tt → CurrentState g' = StateFailed).
Proof.
  intros Hg Hst Hp Hord. cbv zeta.
  assert (Hnp : not_payable (Saga_OrderID g) (world s)).
  { split; intros H; by pose proof (order_is_unique _ _ _ _ Hord H). }
  pose proof (@ExecuteSaga_settles _ _ _ _ _ DefaultConfig env (unpayable_laws env) id s n g Hg
    (or_introl Hst) Hp Hnp) as H.
  cbv zeta in H. destruct (outcome _) as [[]|e].
  - destruct H as [(g' & _ & _ & _ & _ & [])|(g' & H1 & H2 & H3 & _ & H4)].
    exists g'. rewrite H3, H2. split_and!; [done|done|apply H4|done].
  - destruct H as (g' & H1 & H2). exists g'. split; [done|].
    unfold consistent in H2. destruct (CurrentState g'); cbn in H2; (split; [done|]);
      (split; [|done]); unfold not_payable in H2; naive_solver.
Qed.
End checkout.

(** * Compensations that cannot finish *)

Section stuck.
Context `{UT : UuidText}.

Lemma command_run {A} (m : M Shop string A) env n (s : State Shop) n' s' r :
  command m env n s = (n', s', r) →
  ∃ x r', m env n (world s) = (n', x, r') ∧ s' = set_world x s ∧
    r = match r' with Ok a => Ok a | Err e => Err (ErrCommander e) end.
Proof.
  unfold command, map_err, zoom. destruct (m env n (world s)) as [[n1 x] [a|e]] eqn:H;
    intros [= <- <- <-]; by eexists _, _.
Qed.

Lemma compensating_run {A} what (m : M Shop string A) env n (s : State Shop) n' s' r :
  compensating what m env n s = (n', s', r) →
  ∃ x r', m env n (world s) = (n', x, r') ∧ s' = set_world x s ∧
    match r, r' with Ok a, Ok b => a = b | Err _, Err _ => True | _, _ => False end.
Proof.
  unfold compensating, map_err at 1. destruct (command m env n s) as [[n1 s1] r1] eqn:H.
  apply command_run in H as (x & r' & Hm & -> & ->).
  destruct r' as [a|e]; intros [= <- <- <-]; by eexists _, _.
Qed.

Lemma in_service_run {S E A} (get : Shop → S) set (h : E → string) (m : M S E A) env n x n' x' r :
  zoom get set (map_err h m) env n x = (n', x', r) →
  ∃ s1 r1, m env n (get x) = (n', s1, r1) ∧ x' = set s1 x ∧
    match r, r1 with Ok a, Ok b => a = b | Err _, Err _ => True | _, _ => False end.
Proof.
  unfold zoom, map_err. destruct (m env n (get x)) as [[n1 s1] [a|e]]; intros [= <- <- <-];
    by eexists _, _.
Qed.

(** [ReleaseStock] of a committed reservation fails and changes nothing. *)
Lemma release_committed env n o rid s n' s' r :
  reservation_in ReservationStatusCommitted o rid s →
  Inventory.ReleaseStock rid env n s = (n', s', r) → s' = s ∧ ∃ e, r = Err e.
Proof.
  intros (Hinv & r0 & Hr0 & _ & Hst) Hrun.
  apply (settle_release (Some rid) (λ _, rid)) in Hrun; [|done|apply finds_by_id].
  unfold settle_spec in Hrun. simpl in Hrun. rewrite Hr0 in Hrun. simpl in Hrun.
  rewrite decide_False, decide_False in Hrun by (rewrite Hst; done).
  destruct Hrun as (-> & Hr & _). split; [done|]. destruct r as [[]|e]; [done|by eexists].
Qed.

(** A saga whose stock was committed cannot be compensated.  Once its reservation
    is COMMITTED, every attempt to compensate the saga fails at the release of the
    stock, which is refused, and so never reaches the refund nor the cancellation: it
    leaves the services untouched and the saga unfinished, and the next attempt of the
    watchdog meets the same state. *)
Theorem committed_saga_stuck env n id reason s g o rid :
  order_sagas s !! id = Some g → IsTerminal (CurrentState g) = false →
  ReservationID (Payload g) = Some rid →
  stock_held ReservationStatusCommitted o rid (world s) →
  let run := Compensate DefaultConfig id reason env n s in
  (∃ e, outcome run = Err e) ∧ world (final run) = world s ∧
  ∃ g', order_sagas (final run) !! id = Some g' ∧ IsTerminal (CurrentState g') = false ∧
    ReservationID (Payload g') = Some rid ∧ PaymentID (Payload g') = PaymentID (Payload g).
Proof.
  intros Hg Hnt Hrid Hheld. cbv zeta.
  destruct (Compensate DefaultConfig id reason env n s) as [[n' s'] r] eqn:Hrun.
  unfold outcome, final. simpl. unfold Compensate in Hrun.
  assert (Hsame : ∀ e, r = Err e → s' = s → (∃ e, r = Err e) ∧ world s' = world s ∧
    ∃ g', order_sagas s' !! id = Some g' ∧ IsTerminal (CurrentState g') = false ∧
      ReservationID (Payload g') = Some rid ∧ PaymentID (Payload g') = PaymentID (Payload g)).
  { intros e -> ->. by eauto 10. }
  apply bind_inv in Hrun as [(e & H & ->)|(n1 & s1 & g1 & H1 & Hrun)].
  { apply sql_err_inv in H. by eapply Hsame. }
  apply sql_ok_inv in H1 as (_ & H1 & _). rewrite Hg in H1. injection H1 as <- <-.
  rewrite Hnt in Hrun.
  apply bind_inv in Hrun as [(e & H & ->)|(n2 & s2 & [] & H2 & Hrun)].
  { case_decide; [done|]. unfold map_err in H.
    destruct (transitionAndLog _ _ _ _ _ _ _ _ _ _) as [[n2 s2] [[]|e2]] eqn:Ht; [done|].
    apply (triple_transitionAndLog env s) in Ht as [-> _]; [|done]. injection H as _ <- _.
    by eapply Hsame. }
  assert (Hs2 : world s2 = world s ∧ ∃ g', order_sagas s2 !! id = Some g' ∧
    IsTerminal (CurrentState g') = false ∧ ReservationID (Payload g') = Some rid ∧
    PaymentID (Payload g') = PaymentID (Payload g)).
  { case_decide; [unfold ret in H2; injection H2 as <- <-; by eauto 10|]. unfold map_err in H2.
    destruct (transitionAndLog _ _ _ _ _ _ _ _ _ _) as [[n3 s3] [[]|e2]] eqn:Ht; [|done].
    apply (triple_transitionAndLog env s) in Ht; [|done]. injection H2 as _ <-.
    destruct Ht as [g' tmo now eid nl Hg' _ _]. simplify_eq. split; [done|]. simpl.
    rewrite lookup_insert, decide_True by done. eexists. split; [done|]. simpl. done. }
  destruct Hs2 as (Hw & Hg2). unfold compensate_steps in Hrun. rewrite Hrid in Hrun.
  apply bind_inv in Hrun as [(e & H & ->)|(n3 & s3 & u & H3 & _)];
    [apply compensating_run in H as (x & r' & Hm & -> & Hr)
    |apply compensating_run in H3 as (x & r' & Hm & -> & Hr)];
    rewrite Hw in Hm; cbn in Hm; apply in_service_run in Hm as (i & r1 & Hi & -> & Hr1);
    apply (release_committed env _ o) in Hi as [-> [e1 ->]]; try done.
  - split; [by eauto|]. split; [by rewrite <-Hw; destruct (world s2)|done].
  - by destruct r'.
Qed.

(** A refund of a refunded payment fails and changes nothing. *)
Lemma refund_refunded env n pid o a why k s n' s' r :
  pid ≠ uuid_Nil → Payment.Status <$> payments s !! pid = Some PaymentStatusRefunded →
  SagaAdapter_Refund pid o a why k env n s = (n', s', r) → s' = s ∧ ∃ e, r = Err e.
Proof.
  intros Hpid Hst. unfold SagaAdapter_Refund. destruct (N.eqb_spec pid uuid_Nil); [done|].
  unfold Payment.Refund. destruct (a <=? 0).
  { unfold bind, fail. intros [= <- <- <-]. by eauto. }
  intros [(e & H & ->)|(n1 & s1 & row & H & _)]%bind_inv.
  - apply bind_inv in H as [(e' & H & _)|(n1 & s1 & p & H & _)];
      unfold refund_check, bind, try, GetPaymentByID, sql in H;
      destruct (env_fault env n); unfold fail in H; try (injection H as _ <- _; by eauto);
      destruct (payments s !! pid) as [p0|]; try done; simpl in Hst; injection Hst as Hst;
      rewrite Hst in H; unfold fail in H; [injection H as _ <- _; by eauto|done].
  - apply bind_ok_inv in H as (n2 & s2 & p & H & _). exfalso.
    unfold refund_check, bind, try, GetPaymentByID, sql in H.
    destruct (env_fault env n); [done|]. destruct (payments s !! pid) as [p0|]; [|done].
    simpl in Hst. injection Hst as Hst. by rewrite Hst in H.
Qed.

(** C40: a compensation interrupted after its refund never finishes.  When the payment
    of a COMPENSATING saga is already REFUNDED, because an earlier attempt refunded it
    and then failed, every further attempt stops at the refund, which refuses to repeat
    itself: the order is not cancelled, and the saga stays COMPENSATING. *)
Theorem refunded_saga_stuck env n id reason s g pid :
  order_sagas s !! id = Some g → CurrentState g = StateCompensating →
  PaymentID (Payload g) = Some pid → pid ≠ uuid_Nil →
  Payment.Status <$> payments (payment_tables (world s)) !! pid = Some PaymentStatusRefunded →
  let run := Compensate DefaultConfig id reason env n s in
  (∃ e, outcome run = Err e) ∧ order_sagas (final run) = order_sagas s ∧
  payment_tables (world (final run)) = payment_tables (world s) ∧
  order_tables (world (final run)) = order_tables (world s).
Proof.
  intros Hg Hst Hpid Hne Hp. cbv zeta.
  destruct (Compensate DefaultConfig id reason env n s) as [[n' s'] r] eqn:Hrun.
  unfold outcome, final. simpl. unfold Compensate in Hrun.
  apply bind_inv in Hrun as [(e & H & ->)|(n1 & s1 & g1 & H1 & Hrun)].
  { apply sql_err_inv in H as ->. by eauto. }
  apply sql_ok_inv in H1 as (_ & H1 & _). rewrite Hg in H1. injection H1 as <- <-.
  rewrite Hst, decide_True in Hrun by done. cbn [IsTerminal] in Hrun.
  apply bind_inv in Hrun as [(e & H & ->)|(n2 & s2 & [] & H2 & Hrun)]; [done|].
  unfold ret in H2. injection H2 as <- <-. unfold compensate_steps in Hrun.
  assert (Hrel : ∀ nk sk rk, match ReservationID (Payload g) with
      | Some rid => compensating "inventory release failed: " (Saga.ReleaseStock rid reason)
      | None => ret tt end env n1 s = (nk, sk, rk) →
    order_sagas sk = order_sagas s ∧ payment_tables (world sk) = payment_tables (world s) ∧
    order_tables (world sk) = order_tables (world s)).
  { intros nk sk rk H. destruct (ReservationID (Payload g)) as [rid|].
    - apply compensating_run in H as (x & r' & Hm & -> & _). cbn in Hm.
      by apply in_service_run in Hm as (i & r1 & _ & -> & _).
    - unfold ret in H. by injection H as <- <- <-. }
  apply bind_inv in Hrun as [(e & H & ->)|(n3 & s3 & [] & H3 & Hrun)].
  { apply Hrel in H. by eauto. }
  apply Hrel in H3 as (E1 & E2 & E3). rewrite Hpid in Hrun.
  apply bind_inv in Hrun as [(e & H & ->)|(n4 & s4 & u & H & _)];
    apply compensating_run in H as (x & r' & Hm & -> & Hr); cbn in Hm;
    apply in_service_run in Hm as (i & r1 & Hi & -> & Hr1); rewrite <-E2 in Hp;
    apply refund_refunded in Hi as [-> [e1 ->]]; try done.
  - simpl. by eauto.
  - by destruct r'.
Qed.
End stuck.

(** * Runs of the whole program *)

#[local] Existing Instance ex_uuid_text.

(** A shop with stock, one PENDING order of two lines and its saga. *)
Definition ex_stock : Inventory.State :=
  ex_serve 0 [ReqReplenish "SKU-A" 5; ReqReplenish "SKU-B" 5] Inventory.empty_state.
Definition ex_shop : Shop := MkShop ex_stock Order.ex_tables Payment.empty_state.
Definition ex_order_id : uuid := Order.ID Order.ex_order.
Definition ex_lines : list SagaItem :=
  (λ it, MkSagaItem (Order.Item_SKU it) (Order.Item_Quantity it) (Order.Item_UnitPriceMinor it))
    <$> Order.Items Order.ex_order.
Definition ex_saga_payload (token : string) : SagaPayload :=
  MkSagaPayload ex_order_id 7 5748 "USD" ex_lines None None token "" "".
Definition ex_begin (token : string) : State Shop :=
  final (StartSaga DefaultConfig (ex_saga_payload token) (calm_env (1000 * Second) 800) 0%nat
           (MkState ∅ [] ex_shop)).
Definition ex_clock (u : uuid) : Env := calm_env (1001 * Second) u.

(** What an observer sees: the state of the saga, of the order, of the reservation and
    of the payments, and the number of refunds. *)
Definition observe (s : State Shop) :=
  (CurrentState <$> (map_to_list (order_sagas s)).*2,
   Order.Status <$> (map_to_list (orders (order_tables (world s)))).*2,
   Res_Status <$> (map_to_list (stock_reservations (inv_tables (world s)))).*2,
   Payment.Status <$> (map_to_list (payments (payment_tables (world s)))).*2,
   length (payment_refunds (payment_tables (world s)))).
Definition ex_run (env : Env) (s : State Shop) := ExecuteSaga DefaultConfig 800 env 0%nat s.


(** What a checkout with a good card really does: the money is taken, the stock is sold,
    the confirmation is refused, and the order stays PENDING. *)
Example ex_checkout :
  outcome (ex_run (ex_clock 900) (ex_begin "tok")) = Err (ErrCommander "invalid order state transition") ∧
  observe (final (ex_run (ex_clock 900) (ex_begin "tok"))) =
    ([StatePaid], [StatusPending], [ReservationStatusCommitted], [PaymentStatusSuccess], 0%nat).
Proof. split; vm_compute; reflexivity. Qed.

Section unrecorded.
Context `{UT : UuidText}.

Lemma preserves_payments_move P id from to event detail timeout payload :
  preserves (λ s : State Shop, payment_tables (world s) = P)
    (transitionAndLog id from to event detail timeout payload).
Proof.
  intros env. apply triple_at. intros s Hs.
  eapply triple_conseq; [apply (triple_transitionAndLog env s)|done| |by intros e s' [-> _]].
  by intros [] s' [g tmo now eid nl _ _ _].
Qed.

Lemma preserves_payments_elsewhere {S E A} P what (get : Shop → S) set (h : E → string) (m : M S E A) :
  (∀ s x, payment_tables (set s x) = payment_tables x) →
  preserves (λ s, payment_tables (world s) = P) (compensating what (zoom get set (map_err h m))).
Proof.
  intros Hset env n s n' s' r Hs Hrun.
  apply compensating_run in Hrun as (x & r' & Hm & -> & _).
  apply in_service_run in Hm as (s1 & r1 & _ & -> & _). simpl. rewrite <-Hs. destruct r; apply Hset.
Qed.

(** A captured payment that was not recorded in its saga is never given back.  The
    capture and the transition to PAID that records it are separate steps; when the
    second fails, the saga stays PAYING without a payment id, and a compensation, which
    refunds only a recorded payment, leaves the payments as they are, whether it
    succeeds or not. *)
Theorem unrecorded_capture_kept env n id reason s g :
  order_sagas s !! id = Some g → PaymentID (Payload g) = None →
  payment_tables (world (final (Compensate DefaultConfig id reason env n s))) =
  payment_tables (world s).
Proof.
  intros Hg Hpid. destruct (Compensate DefaultConfig id reason env n s) as [[n' s'] r] eqn:Hrun.
  unfold final. simpl. unfold Compensate in Hrun.
  apply bind_inv in Hrun as [(e & H & ->)|(n1 & s1 & g1 & H1 & Hrun)].
  { by apply sql_err_inv in H as ->. }
  apply sql_ok_inv in H1 as (_ & H1 & _). rewrite Hg in H1. injection H1 as <- <-.
  refine (preserves_run (λ w : State Shop, payment_tables (world w) = payment_tables (world s))
    _ env n1 s n' s' r _ Hrun eq_refl).
  set (P := payment_tables (world s)). destruct (IsTerminal _); [auto with shopflow|].
  apply preserves_bind.
  { case_decide; [auto with shopflow|]. apply preserves_map_err, preserves_payments_move. }
  intros _. unfold compensate_steps. rewrite Hpid. apply preserves_bind.
  { destruct (ReservationID (Payload g)); [|auto with shopflow]. by apply preserves_payments_elsewhere. }
  intros _. apply preserves_bind; [auto with shopflow|]. intros _.
  apply preserves_bind; [by apply preserves_payments_elsewhere|]. intros _.
  apply preserves_payments_move.
Qed.
End unrecorded.

(** ** The examples again *)

Definition ex_pass (t : Z) (u : uuid) (s : State Shop) : State Shop :=
  final (ProcessExpiredSagas DefaultConfig DefaultWatchdogConfig (calm_env t u) 0%nat s).
Definition ex_saga (s : State Shop) : OrderSaga :=
  default (MkOrderSaga 0 0 StateFailed (ex_saga_payload "") 0 0 0 0) (order_sagas s !! 800%N).

Lemma ex_idle : no_stock_no_payment ex_order_id ex_shop.
Proof.
  split; [split; [apply ex_serve_inv, empty_state_inv|]|].
  - intros id r H. assert (E : stock_reservations (inv_tables ex_shop) = ∅) by (vm_compute; reflexivity).
    rewrite E, lookup_empty in H. clear E. discriminate H.
  - intros id p H. simpl in H. rewrite lookup_empty in H. discriminate H.
Qed.

Lemma ex_begun_fail :
  order_sagas (ex_begin "fail") !! 800%N = Some (ex_saga (ex_begin "fail")) ∧
  CurrentState (ex_saga (ex_begin "fail")) = StateStarted ∧
  PaymentID (Payload (ex_saga (ex_begin "fail"))) = None ∧
  Saga_OrderID (ex_saga (ex_begin "fail")) = ex_order_id ∧ world (ex_begin "fail") = ex_shop.
Proof. split_and!; vm_compute; reflexivity. Qed.

Lemma ex_begun_tok :
  order_sagas (ex_begin "tok") !! 800%N = Some (ex_saga (ex_begin "tok")) ∧
  CurrentState (ex_saga (ex_begin "tok")) = StateStarted ∧
  PaymentID (Payload (ex_saga (ex_begin "tok"))) = None ∧
  Saga_OrderID (ex_saga (ex_begin "tok")) = ex_order_id ∧ world (ex_begin "tok") = ex_shop.
Proof. split_and!; vm_compute; reflexivity. Qed.

(** A refused card: the order is cancelled and its stock given back. *)
Lemma checkout_outcome_witness :
  let run := ex_run (ex_clock 900) (ex_begin "fail") in
  observe (final run) =
    ([StateFailed], [StatusCancelled], [ReservationStatusReleased], [PaymentStatusFailed], 0%nat) ∧
  ∃ g', order_sagas (final run) !! 800%N = Some g' ∧ Saga_OrderID g' = ex_order_id ∧
    ((CurrentState g' = StateConfirmed ∧ fulfilled ex_order_id (world (final run)) ∧
      order_is StatusConfirmed ex_order_id (order_tables (world (final run)))) ∨
     (CurrentState g' = StateFailed ∧ no_stock_no_payment ex_order_id (world (final run)) ∧
      order_is StatusCancelled ex_order_id (order_tables (world (final run))))).
Proof.
  cbv zeta. split; [vm_compute; reflexivity|].
  assert (Hok : outcome (ex_run (ex_clock 900) (ex_begin "fail")) = Ok tt) by (vm_compute; reflexivity).
  destruct ex_begun_fail as (H1 & H2 & H3 & H4 & H5).
  pose proof (checkout_outcome (ex_clock 900) 0 800 (ex_begin "fail") (ex_saga (ex_begin "fail")) H1 H2 H3)
    as H.
  rewrite H4, H5 in H. exact (H ex_idle Hok).
Defined.

(** A good card: the money is taken, the stock is sold, the confirmation is refused,
    and the order stays PENDING. *)
Lemma checkout_never_confirms_witness :
  let run := ex_run (ex_clock 900) (ex_begin "tok") in
  outcome run = Err (ErrCommander "invalid order state transition") ∧
  observe (final run) =
    ([StatePaid], [StatusPending], [ReservationStatusCommitted], [PaymentStatusSuccess], 0%nat) ∧
  ∃ g', order_sagas (final run) !! 800%N = Some g' ∧ CurrentState g' ≠ StateConfirmed ∧
    ¬ order_is StatusConfirmed (Saga_OrderID g') (order_tables (world (final run))) ∧
    (outcome run = Ok tt → CurrentState g' = StateFailed).
Proof.
  cbv zeta. split; [vm_compute; reflexivity|]. split; [vm_compute; reflexivity|].
  destruct ex_begun_tok as (H1 & H2 & H3 & H4 & H5).
  pose proof (checkout_never_confirms (ex_clock 900) 0 800 (ex_begin "tok") (ex_saga (ex_begin "tok"))
    H1 H2 H3) as H.
  rewrite H4, H5 in H. apply H. eexists. split; vm_compute; reflexivity.
Defined.

(** The watchdog finds that checkout after its deadline, and cannot undo it. *)
Definition ex_paid : State Shop := final (ex_run (ex_clock 900) (ex_begin "tok")).

Lemma ex_paid_state :
  order_sagas ex_paid !! 800%N = Some (ex_saga ex_paid) ∧
  CurrentState (ex_saga ex_paid) = StatePaid ∧ Saga_OrderID (ex_saga ex_paid) = ex_order_id ∧
  ReservationID (Payload (ex_saga ex_paid)) = Some 909%N ∧
  (λ r, (Res_OrderID r, Res_Status r)) <$> stock_reservations (inv_tables (world ex_paid)) !! 909%N
    = Some (ex_order_id, ReservationStatusCommitted).
Proof. split_and!; vm_compute; reflexivity. Qed.

Lemma ex_paid_held : stock_held ReservationStatusCommitted ex_order_id 909 (world ex_paid).
Proof.
  destruct ex_begun_tok as (H1 & H2 & H3 & H4 & H5).
  pose proof (@ExecuteSaga_settles _ _ _ _ _ DefaultConfig (ex_clock 900) (shop_laws _) 800
    (ex_begin "tok") 0 (ex_saga (ex_begin "tok")) H1 (or_introl H2) H3) as H.
  rewrite H4, H5 in H. specialize (H ex_idle). cbv zeta in H.
  change (ExecuteSaga _ _ _ _ _) with (ex_run (ex_clock 900) (ex_begin "tok")) in H.
  assert (E : outcome (ex_run (ex_clock 900) (ex_begin "tok")) =
    Err (ErrCommander "invalid order state transition")) by (vm_compute; reflexivity).
  rewrite E in H. destruct H as (g & Hg & Hc). fold ex_paid in Hg, Hc. clear E.
  destruct ex_paid_state as (E1 & E2 & E3 & E4 & E5). rewrite E1 in Hg. apply (inj Some) in Hg as <-.
  unfold consistent in Hc. rewrite E2, E3, E4 in Hc. destruct Hc as (rid & pid & [= <-] & _ & Hc).
  cbn in Hc. unfold stock_held in *. clear H1 H2 H3 H4 H5 E1 E2 E3 E4.
  revert E5 Hc. generalize (world ex_paid), ex_order_id. intros x o E5 Hc.
  assert (Hinv : Inventory.inv (inv_tables x)) by
    (destruct Hc as [[[Hinv _] _]|[[[Hinv _] _]|[(rid & pid' & [Hinv _] & _) _]]]; exact Hinv).
  split; [exact Hinv|]. destruct (stock_reservations (inv_tables x) !! 909%N) as [r|]; [|discriminate E5].
  exists r. simpl in E5. injection E5 as E5 E6. split; [reflexivity|]. split; [exact E5|exact E6].
Qed.

Lemma committed_saga_stuck_witness :
  let run := Compensate DefaultConfig 800 "timeout_after_payment_captured" (ex_clock 2000) 0%nat ex_paid in
  (∃ e, outcome run = Err e) ∧ world (final run) = world ex_paid ∧
  ∃ g', order_sagas (final run) !! 800%N = Some g' ∧ IsTerminal (CurrentState g') = false ∧
    ReservationID (Payload g') = Some 909%N ∧
    PaymentID (Payload g') = PaymentID (Payload (ex_saga ex_paid)).
Proof.
  destruct ex_paid_state as (E1 & E2 & _ & E4 & _).
  apply (committed_saga_stuck (ex_clock 2000) 0 800 "timeout_after_payment_captured" ex_paid
    (ex_saga ex_paid) ex_order_id 909 E1).
  - rewrite E2. reflexivity.
  - exact E4.
  - exact ex_paid_held.
Defined.

(** The watchdog compensates a saga that was PAID but whose stock was not yet committed,
    and its database goes away between the refund and the cancellation. *)
Definition ex_outage (from to : nat) (t : Z) (u : uuid) : Env :=
  {| env_now := λ _, t; env_uuid := λ n, (u + N.of_nat n)%N;
     env_fault := λ n, if (from <=? n)%nat && (n <=? to)%nat then Some "connection refused" else None |}.
Definition ex_uncommitted : State Shop :=
  final (ExecuteSaga DefaultConfig 800 (ex_outage 46 99 (1001 * Second) 900) 0%nat (ex_begin "tok")).
Definition ex_interrupted : State Shop :=
  final (Compensate DefaultConfig 800 "timeout" (ex_outage 24 99 (2000 * Second) 2000) 0%nat ex_uncommitted).

Lemma ex_interrupted_state :
  observe ex_interrupted =
    ([StateCompensating], [StatusPending], [ReservationStatusReleased], [PaymentStatusRefunded], 1%nat) ∧
  order_sagas ex_interrupted !! 800%N = Some (ex_saga ex_interrupted) ∧
  CurrentState (ex_saga ex_interrupted) = StateCompensating ∧
  (λ pid, (pid =? uuid_Nil, Payment.Status <$> payments (payment_tables (world ex_interrupted)) !! pid))%N
    <$> PaymentID (Payload (ex_saga ex_interrupted)) = Some (false, Some PaymentStatusRefunded).
Proof. split_and!; vm_compute; reflexivity. Qed.

Lemma refunded_saga_stuck_witness :
  let run := Compensate DefaultConfig 800 "retry_compensation_timeout" (ex_clock 3000) 0%nat ex_interrupted in
  (∃ e, outcome run = Err e) ∧ order_sagas (final run) = order_sagas ex_interrupted ∧
  payment_tables (world (final run)) = payment_tables (world ex_interrupted) ∧
  order_tables (world (final run)) = order_tables (world ex_interrupted).
Proof.
  destruct ex_interrupted_state as (_ & E1 & E2 & E3).
  destruct (PaymentID (Payload (ex_saga ex_interrupted))) as [pid|] eqn:Hpid; [|discriminate E3].
  cbn [fmap option_fmap option_map] in E3. apply (inj Some) in E3.
  assert (E4 := f_equal fst E3). assert (E5 := f_equal snd E3). cbn [fst snd] in E4, E5.
  apply N.eqb_neq in E4.
  exact (refunded_saga_stuck (ex_clock 3000) 0 800 "retry_compensation_timeout" ex_interrupted
    (ex_saga ex_interrupted) pid E1 E2 Hpid E4 E5).
Defined.

(** The capture succeeded, and the commit that would record it failed. *)
Definition ex_unrecorded : State Shop :=
  final (ex_run (faulty_env (1001 * Second) 900 45 "connection reset") (ex_begin "tok")).

Lemma unrecorded_capture_kept_witness :
  observe ex_unrecorded =
    ([StatePaying], [StatusPending], [ReservationStatusPending], [PaymentStatusSuccess], 0%nat) ∧
  observe (ex_pass (5000 * Second) 2000 ex_unrecorded) =
    ([StateFailed], [StatusCancelled], [ReservationStatusReleased], [PaymentStatusSuccess], 0%nat) ∧
  payment_tables (world (final (Compensate DefaultConfig 800 "timeout_waiting_for_payment"
                                  (ex_clock 2000) 0%nat ex_unrecorded))) =
  payment_tables (world ex_unrecorded).
Proof.
  split; [vm_compute; reflexivity|]. split; [vm_compute; reflexivity|].
  assert (E1 : order_sagas ex_unrecorded !! 800%N = Some (ex_saga ex_unrecorded)) by (vm_compute; reflexivity).
  assert (E2 : PaymentID (Payload (ex_saga ex_unrecorded)) = None) by (vm_compute; reflexivity).
  exact (unrecorded_capture_kept (ex_clock 2000) 0 800 "timeout_waiting_for_payment" ex_unrecorded
    (ex_saga ex_unrecorded) E1 E2).
Defined.
