(* ===== verification/Routes.v ===== *)
(** The tables of routes: Routes and its companions of the five handlers, and the tree of
    cmd/shopflow/main.go.

    The router is a library (chi): its operations are a class, and a table is a program over
    them.  [Listing] is a router that only writes down what it is told to serve. *)

From S2P Require Import Prelude.

(** * The router *)

(** The methods of the handlers, by name. *)
Inductive endpoint :=
| createCart | getCart | addItem | updateItemQuantity | removeItem | clearCart
| searchProducts | createProduct | listProducts | getProduct | updateProduct | updateProductPrice
| uploadProductImage | listProductImages | deleteProductImage
| createCategory | listCategories | getCategory
| reserveStock | getInventory | replenishInventory | commitStock | releaseStock
| createOrder | listOrders | getOrder | cancelOrder
| simulatePayment | refundPayment | getPayment
| liveness | readiness | metrics | info.

#[export] Instance endpoint_eq_dec : EqDecision endpoint.
Proof. solve_decision. Defined.

Inductive handler_chain :=
| Tracing | Metrics | RequestID | RealIP | Recoverer | Timeout | Logging
| RateLimit (category : string).

#[export] Instance handler_chain_eq_dec : EqDecision handler_chain.
Proof. solve_decision. Defined.

(** What the code uses of [chi.Router]; each operation changes the router it is called on. *)
Class Router (R : Type) := {
  NewRouter : R;
  Method : string → string → endpoint → R → R;
  Handle : string → endpoint → R → R;
  Mount : string → R → R → R;
  Group : (R → R) → R → R;
  Use : handler_chain → R → R;
}.

Section tables.
Context `{RT : Router R}.

Notation Get := (Method "GET").
Notation Post := (Method "POST").
Notation Put := (Method "PUT").
Notation Patch := (Method "PATCH").
Notation Delete := (Method "DELETE").

(** One call after the other on one router. *)
Definition calls (l : list (R → R)) (r : R) : R := foldl (λ r f, f r) r l.

(** [r.Route(pattern, fn)] is a mount of a fresh router. *)
Definition Route (pattern : string) (fn : R → R) (r : R) : R := Mount pattern (fn NewRouter) r.

(** ** The handlers *)

Definition cart_CartRoutes : R := calls
  [ Post "/" createCart; Get "/{cart_id}" getCart; Post "/{cart_id}/items" addItem;
    Put "/{cart_id}/items/{sku}" updateItemQuantity; Delete "/{cart_id}/items/{sku}" removeItem;
    Delete "/{cart_id}/clear" clearCart ] NewRouter.

Definition cart_Routes : R := calls
  [ Mount "/carts" cart_CartRoutes;
    Post "/" createCart; Get "/{cart_id}" getCart; Post "/{cart_id}/items" addItem;
    Put "/{cart_id}/items/{sku}" updateItemQuantity; Delete "/{cart_id}/items/{sku}" removeItem;
    Delete "/{cart_id}/clear" clearCart ] NewRouter.

Definition catalog_ProductRoutes : R := calls
  [ Post "/" createProduct; Get "/" listProducts; Get "/search" searchProducts; Get "/{id}" getProduct;
    Put "/{id}" updateProduct; Patch "/{id}/price" updateProductPrice; Post "/{id}/images" uploadProductImage;
    Get "/{id}/images" listProductImages; Delete "/{id}/images/{imageId}" deleteProductImage ] NewRouter.

Definition catalog_CategoryRoutes : R := calls
  [ Post "/" createCategory; Get "/" listCategories; Get "/{id}" getCategory ] NewRouter.

Definition catalog_Routes : R := calls
  [ Get "/search" searchProducts; Mount "/products" catalog_ProductRoutes;
    Mount "/categories" catalog_CategoryRoutes ] NewRouter.

Definition inventory_ReservationRoutes : R := calls
  [ Post "/reserve" reserveStock; Post "/{id}/commit" commitStock; Post "/{id}/release" releaseStock ] NewRouter.

Definition inventory_Routes : R := calls
  [ Post "/reserve" reserveStock; Mount "/reservations" inventory_ReservationRoutes;
    Get "/{sku}" getInventory; Post "/{sku}/replenish" replenishInventory;
    Post "/{sku}/restock" replenishInventory ] NewRouter.

Definition order_OrderRoutes : R := calls
  [ Post "/" createOrder; Get "/" listOrders; Get "/{order_id}" getOrder; Get "/{id}" getOrder;
    Post "/{order_id}/cancel" cancelOrder; Post "/{id}/cancel" cancelOrder ] NewRouter.

Definition order_Routes : R := calls
  [ Post "/" createOrder; Get "/" listOrders; Get "/{order_id}" getOrder; Get "/{id}" getOrder;
    Post "/{order_id}/cancel" cancelOrder; Post "/{id}/cancel" cancelOrder;
    Mount "/orders" order_OrderRoutes ] NewRouter.

Definition payment_Routes : R := calls
  [ Post "/simulate" simulatePayment; Post "/{payment_id}/refund" refundPayment;
    Post "/{id}/refund" refundPayment; Get "/{payment_id}" getPayment; Get "/{id}" getPayment ] NewRouter.

(** ** The server (main.go) *)

Definition api_v1 : R → R := calls
  [ Get "/info" info;
    Group (calls
      [ Use (RateLimit "catalog"); Mount "/catalog" catalog_Routes;
        Mount "/products" catalog_ProductRoutes; Mount "/categories" catalog_CategoryRoutes ]);
    Group (calls [ Use (RateLimit "order"); Mount "/orders" order_Routes ]);
    Mount "/cart" cart_Routes; Mount "/inventory" inventory_Routes; Mount "/payments" payment_Routes;
    Mount "/carts" cart_CartRoutes; Mount "/reservations" inventory_ReservationRoutes ].

Definition main_router : R := calls
  [ Use Tracing; Use Metrics; Use RequestID; Use RealIP; Use Recoverer; Use Timeout; Use Logging;
    Get "/health/live" liveness; Get "/health/ready" readiness; Handle "/metrics" metrics;
    Route "/api/v1" api_v1 ] NewRouter.
End tables.

(** * What is served *)

Record route := MkRoute { r_method : string; r_path : string; r_chain : list handler_chain; r_endpoint : endpoint }.

Record Listing := MkListing { l_chain : list handler_chain; l_routes : list route }.

Definition add_route (rt : route) (l : Listing) : Listing := MkListing (l_chain l) (l_routes l ++ [rt]).

(** Under a mount the path "/" is the prefix itself. *)
Definition under (chain : list handler_chain) (prefix : string) (rt : route) : route :=
  MkRoute (r_method rt) (prefix ++ (if String.eqb (r_path rt) "/" then "" else r_path rt))%string
    (chain ++ r_chain rt) (r_endpoint rt).

(** A route is under the middleware that its router used before it, and under that of the
    routers it is mounted in; a group starts from the middleware of its router. *)
#[export] Instance Listing_router : Router Listing := {|
  NewRouter := MkListing [] [];
  Method m p e l := add_route (MkRoute m p (l_chain l) e) l;
  Handle p e l := add_route (MkRoute "*" p (l_chain l) e) l;
  Mount p sub l := MkListing (l_chain l) (l_routes l ++ (under (l_chain l) p <$> l_routes sub));
  Group fn l := MkListing (l_chain l) (l_routes l ++ l_routes (fn (MkListing (l_chain l) [])));
  Use c l := MkListing (l_chain l ++ [c]) (l_routes l);
|}.

Definition served : list route := l_routes main_router.

(** A pattern without the names of its parameters. *)
Fixpoint shape_go (inside : bool) (s : string) : string :=
  match s with
  | EmptyString => EmptyString
  | String a s =>
      if Ascii.eqb a "{" then String a (shape_go true s)
      else if Ascii.eqb a "}" then String a (shape_go false s)
      else if inside then shape_go inside s else String a (shape_go inside s)
  end.
Definition shape : string → string := shape_go false.

Definition same_place (x y : route) : Prop := r_method x = r_method y ∧ shape (r_path x) = shape (r_path y).

(** The operations of api/openapi/shopflow.yaml, each with the handler that it describes. *)
Definition documented : list (string * string * endpoint) :=
  [ ("GET", "/api/v1/products", listProducts); ("POST", "/api/v1/products", createProduct);
    ("GET", "/api/v1/products/{id}", getProduct); ("PUT", "/api/v1/products/{id}", updateProduct);
    ("PATCH", "/api/v1/products/{id}/price", updateProductPrice); ("POST", "/api/v1/carts", createCart);
    ("GET", "/api/v1/carts/{cart_id}", getCart); ("POST", "/api/v1/carts/{cart_id}/items", addItem);
    ("PUT", "/api/v1/carts/{cart_id}/items/{sku}", updateItemQuantity);
    ("DELETE", "/api/v1/carts/{cart_id}/items/{sku}", removeItem);
    ("DELETE", "/api/v1/carts/{cart_id}/clear", clearCart); ("POST", "/api/v1/orders", createOrder);
    ("GET", "/api/v1/orders", listOrders); ("GET", "/api/v1/orders/{order_id}", getOrder);
    ("POST", "/api/v1/orders/{order_id}/cancel", cancelOrder);
    ("GET", "/api/v1/inventory/{sku}", getInventory); ("POST", "/api/v1/inventory/{sku}/restock", replenishInventory);
    ("POST", "/api/v1/payments/simulate", simulatePayment);
    ("POST", "/api/v1/payments/{payment_id}/refund", refundPayment);
    ("GET", "/api/v1/payments/{payment_id}", getPayment); ("GET", "/health/live", liveness);
    ("GET", "/health/ready", readiness) ]%string.

(** No two routes of one method and one pattern, whatever the names of the parameters, lead to
    different handlers. *)
Lemma served_unambiguous x y : x ∈ served → y ∈ served → same_place x y → r_endpoint x = r_endpoint y.
Proof.
  enough (Forall (λ x, Forall (λ y, same_place x y → r_endpoint x = r_endpoint y) served) served) as H.
  { rewrite Forall_forall in H. intros Hx Hy. specialize (H x Hx). rewrite Forall_forall in H. by apply H. }
  unfold same_place. apply (bool_decide_unpack _). vm_compute. exact I.
Qed.

(** Every operation of the document is served by its handler, at the document's address, and
    by no other. *)
Lemma documented_served m p e :
  (m, p, e) ∈ documented →
  (∃ x, x ∈ served ∧ r_method x = m ∧ r_path x = p ∧ r_endpoint x = e) ∧
  ∀ y, y ∈ served → r_method y = m → shape (r_path y) = shape p → r_endpoint y = e.
Proof.
  intros Hin.
  assert (H : Exists (λ x, r_method x = m ∧ r_path x = p ∧ r_endpoint x = e) served).
  { enough (Forall (λ d, Exists (λ x, r_method x = d.1.1 ∧ r_path x = d.1.2 ∧ r_endpoint x = d.2) served) documented) as H.
    { rewrite Forall_forall in H. apply (H _ Hin). }
    apply (bool_decide_unpack _). vm_compute. exact I. }
  apply Exists_exists in H as (x & Hx & <- & <- & <-). split; [by exists x|].
  intros y Hy Hm Hp. by apply served_unambiguous.
Qed.

(** Every handler is served. *)
Lemma every_handler_served e : ∃ x, x ∈ served ∧ r_endpoint x = e.
Proof.
  apply Exists_exists. destruct e; apply (bool_decide_unpack _); vm_compute; exact I.
Qed.

(** Every route is traced, counted and recovered; the orders and the catalogue are behind their
    limiters, which come after the middleware that rewrites the address of a client, and
    nothing else is limited. *)
Definition limiter_of (e : endpoint) : list handler_chain :=
  match e with
  | searchProducts | createProduct | listProducts | getProduct | updateProduct | updateProductPrice
  | uploadProductImage | listProductImages | deleteProductImage | createCategory | listCategories
  | getCategory => [RateLimit "catalog"]
  | createOrder | listOrders | getOrder | cancelOrder => [RateLimit "order"]
  | _ => []
  end.

Lemma served_chain x :
  x ∈ served →
  r_chain x = [Tracing; Metrics; RequestID; RealIP; Recoverer; Timeout; Logging] ++ limiter_of (r_endpoint x).
Proof.
  revert x. apply Forall_forall. apply (bool_decide_unpack _). vm_compute. exact I.
Qed.
