(* ===== verification/Server.v ===== *)
(** cmd/shopflow/main.go, [main]: in which order the server takes its resources and starts its
    workers, what makes it give up, and in which order it lets go of them.

    What the libraries and the outside answer is a parameter ([Outside]); a run is the list of
    what was done and the status of the process.  The calls that only build a value are left
    out: they can neither fail nor be seen. *)

From S2P Require Import Prelude.

(** What has a beginning and an end.  [Stopped p] says that the Stop of [p] was called and has
    answered; Worker.v says what that means. *)
Inductive part := Signals | Pool | Redis | KafkaClient | Poller | Watchdog | Notifications | HTTP.

#[export] Instance part_eq_dec : EqDecision part.
Proof. solve_decision. Defined.

Inductive event :=
| Opened (p : part)
| Seeded
| Indexed
| Started (p : part)
| Listening
| ShutdownSignal
| Stopped (p : part)
| WorkersCancelled
| Closed (p : part).

#[export] Instance event_eq_dec : EqDecision event.
Proof. solve_decision. Defined.

(** Which of the calls answer an error; [Listen_fails] is an end of [ListenAndServe] other than
    [http.ErrServerClosed]. *)
Record Outside := {
  NewPool_fails : bool;
  seed_fails : bool;
  NewStorage_fails : bool;
  NewSearch_fails : bool;
  ReindexAll_fails : bool;
  NewKafka_fails : bool;
  Poller_Start_fails : bool;
  Watchdog_Start_fails : bool;
  NewSender_fails : bool;
  NewRenderer_fails : bool;
  NewConsumer_fails : bool;
  Consumer_Start_fails : bool;
  Listen_fails : bool;
  Shutdown_fails : bool;
}.

(** A line of [main]: something done, something done unless its call fails, or a call whose
    failure ends the process ([os.Exit(1)]). *)
Inductive line :=
| Do (e : event)
| DoUnless (fails : Outside → bool) (e : event)
| Must (fails : Outside → bool).

Definition startup_resources : list line :=
  [ Must NewPool_fails; Do (Opened Pool);
    DoUnless seed_fails Seeded;
    Must NewStorage_fails;
    Must NewSearch_fails;
    DoUnless ReindexAll_fails Indexed ].

Definition startup_clients : list line :=
  [ Do (Opened Redis); Must NewKafka_fails; Do (Opened KafkaClient) ].

Definition startup_workers : list line :=
  [ DoUnless Poller_Start_fails (Started Poller);
    DoUnless Watchdog_Start_fails (Started Watchdog);
    Must NewSender_fails;
    Must NewRenderer_fails;
    Must NewConsumer_fails;
    DoUnless Consumer_Start_fails (Started Notifications) ].

Definition startup : list line :=
  Do (Opened Signals) :: startup_resources ++ startup_clients ++ startup_workers.

(** The goroutine of the server: a failure to listen is logged and stands for the signal. *)
Definition serving (o : Outside) : list event :=
  (if Listen_fails o then [] else [Listening]) ++ [ShutdownSignal].

(** Errors of the stops are logged, and the next part is stopped. *)
Definition shutdown (o : Outside) : list event :=
  (if Shutdown_fails o then [] else [Stopped HTTP]) ++
  [Stopped Poller; Stopped Watchdog; Stopped Notifications; WorkersCancelled].

(** The deferred calls, the last first. *)
Definition deferred : list event :=
  [WorkersCancelled; Closed KafkaClient; Closed Redis; Closed Pool; Closed Signals].

(** What was done, and whether the process goes on. *)
Fixpoint run (o : Outside) (ls : list line) : list event * bool :=
  match ls with
  | [] => ([], true)
  | Do e :: ls => let '(t, b) := run o ls in (e :: t, b)
  | DoUnless fails e :: ls => let '(t, b) := run o ls in (if fails o then t else e :: t, b)
  | Must fails :: ls => if fails o then ([], false) else run o ls
  end.

Definition main (o : Outside) : list event * Z :=
  let '(t, goes_on) := run o startup in
  if goes_on then (t ++ serving o ++ shutdown o ++ deferred, 0) else (t, 1).

(** * Which end, and what is left *)

Definition fatal (o : Outside) (l : line) : bool := match l with Must fails => fails o | _ => false end.

Lemma run_goes_on o ls : (run o ls).2 = negb (existsb (fatal o) ls).
Proof.
  induction ls as [|[e|fails e|fails] ls IH]; cbn; [done|..].
  - by destruct (run o ls).
  - by destruct (run o ls).
  - by destruct (fails o).
Qed.

Lemma run_events o ls e : e ∈ (run o ls).1 → Do e ∈ ls ∨ ∃ fails, DoUnless fails e ∈ ls.
Proof.
  induction ls as [|[e'|fails e'|fails] ls IH]; cbn; [by intros ?%elem_of_nil|..].
  - destruct (run o ls). cbn in *. intros [->|H%IH]%elem_of_cons; set_solver.
  - destruct (run o ls) as [t b]. cbn in *. destruct (fails o); [intros H%IH; set_solver|].
    intros [->|H%IH]%elem_of_cons; [right; exists fails; by left|set_solver].
  - destruct (fails o); cbn; [by intros ?%elem_of_nil|]. intros H%IH. set_solver.
Qed.

(** What is done whatever the calls answer is done, if the process goes on. *)
Lemma run_does o ls e : (run o ls).2 = true → Do e ∈ ls → e ∈ (run o ls).1.
Proof.
  induction ls as [|[e'|fails e'|fails] ls IH]; cbn; [by intros _ ?%elem_of_nil|..].
  - destruct (run o ls). cbn in *. intros Hb [[= ->]|H]%elem_of_cons; [by left|right; by apply IH].
  - destruct (run o ls). cbn in *. intros Hb [?|H]%elem_of_cons; [done|].
    destruct (fails o); [|right]; by apply IH.
  - destruct (fails o); [done|]. intros Hb [?|H]%elem_of_cons; [done|]. by apply IH.
Qed.

(** The startup takes and starts; it lets go of nothing and does not listen yet. *)
Definition takes (e : event) : bool :=
  match e with Opened _ | Seeded | Indexed | Started _ => true | _ => false end.

Lemma startup_takes o e : e ∈ (run o startup).1 → takes e = true.
Proof.
  assert (H : Forall (λ l, match l with Do e | DoUnless _ e => takes e = true | Must _ => True end) startup)
    by by repeat constructor.
  rewrite Forall_forall in H. by intros [He|[fails He]]%run_events; apply H in He.
Qed.

(** The process reports a failure exactly when a part that it cannot do without is missing. *)
Lemma exit_status o :
  (main o).2 = if existsb (fatal o) startup then 1 else 0.
Proof.
  pose proof (run_goes_on o startup) as H. unfold main. destruct (run o startup) as [t b]. cbn [snd] in H. subst b.
  by destruct (existsb (fatal o) startup).
Qed.

Lemma main_graceful o : (main o).2 = 0 → (main o).1 = (run o startup).1 ++ serving o ++ shutdown o ++ deferred.
Proof. unfold main. by destruct (run o startup) as [t []]. Qed.

Definition before {A} (x y : A) (l : list A) : Prop := ∃ l1 l2 l3, l = l1 ++ x :: l2 ++ y :: l3.

Lemma before_app {A} (x y : A) l l' : before x y l' → before x y (l ++ l').
Proof. intros (l1 & l2 & l3 & ->). exists (l ++ l1), l2, l3. by rewrite <-app_assoc. Qed.

Lemma before_split {A} (x y : A) l l' : x ∈ l → y ∈ l' → before x y (l ++ l').
Proof.
  intros (l1 & l2 & ->)%list_elem_of_split (l3 & l4 & ->)%list_elem_of_split.
  exists l1, (l2 ++ l3), l4. by rewrite <-!app_assoc.
Qed.

(** A process that ends well has stopped its workers, and the HTTP server where that answered,
    before it lets go of what they use, and takes nothing in after the signal. *)
Lemma graceful_order o p r :
  (main o).2 = 0 → p ∈ [Poller; Watchdog; Notifications] → r ∈ [KafkaClient; Redis; Pool; Signals] →
  before (Stopped p) (Closed r) (main o).1 ∧ before ShutdownSignal (Stopped p) (main o).1 ∧
  before (Opened r) (Closed r) (main o).1.
Proof.
  intros H0 Hp Hr. rewrite (main_graceful o H0).
  assert (Hs : Stopped p ∈ shutdown o).
  { unfold shutdown. apply elem_of_app. right. rewrite !elem_of_cons, elem_of_nil in Hp. rewrite !elem_of_cons.
    destruct_or! Hp; subst p; tauto. }
  assert (Hc : Closed r ∈ deferred).
  { unfold deferred. rewrite !elem_of_cons, elem_of_nil in Hr. rewrite !elem_of_cons. destruct_or! Hr; subst r; tauto. }
  split_and!.
  - do 2 apply before_app. by apply before_split.
  - apply before_app, before_split; apply elem_of_app; [right; by left|by left].
  - apply before_split; [|by do 2 (apply elem_of_app; right)].
    apply run_does.
    + rewrite run_goes_on. rewrite exit_status in H0. by destruct (existsb (fatal o) startup).
    + unfold startup, startup_resources, startup_clients, startup_workers. cbn [app]. rewrite !elem_of_cons, elem_of_nil in Hr. rewrite !elem_of_cons. destruct_or! Hr; subst r; tauto.
Qed.

(** A process that gives up lets go of nothing: [os.Exit] runs no deferred call, and the workers
    that run already are not stopped. *)
Lemma fatal_lets_go_of_nothing o p : (main o).2 = 1 → Stopped p ∉ (main o).1 ∧ Closed p ∉ (main o).1.
Proof.
  unfold main. pose proof (startup_takes o) as H. destruct (run o startup) as [t b]. cbn [fst] in H.
  destruct b; [done|]. intros _. by split; intros Hin%H.
Qed.

(** So a server that cannot build its mail sender dies with the poller at work. *)
Example sender_missing :
  let o := Build_Outside false false false false false false false false true false false false false false in
  (main o).2 = 1 ∧ Started Poller ∈ (main o).1 ∧ Started Watchdog ∈ (main o).1.
Proof. split_and!; [done|set_solver..]. Qed.

(** A server that cannot listen, because its port is taken for one, ends as one that was asked
    to: with the status of success. *)
Lemma listen_failure_succeeds o :
  Listen_fails o = true → existsb (fatal o) startup = false → (main o).2 = 0 ∧ Listening ∉ (main o).1.
Proof.
  intros Hl Hf. assert (H0 : (main o).2 = 0) by by rewrite exit_status, Hf. split; [done|].
  rewrite (main_graceful o H0). unfold serving, shutdown, deferred. rewrite Hl.
  rewrite elem_of_app. intros [H%startup_takes|H]; [done|]. destruct (Shutdown_fails o); cbn in H;
    rewrite !elem_of_cons, elem_of_nil in H; destruct_or! H; done.
Qed.
